(** * The SMT encoder of xls/tools/z3_translator.cc

    A shallow embedding of the Z3 translator of XLS: the solver terms it
    builds, the bit-vector helper layer ([Z3OpTranslator]), the type adaptor
    ([TypeToSort], [FlattenValue], [UnflattenZ3Ast]), the scoped error
    handler, the per-opcode handlers and the [TryProve] driver, followed by
    the properties established about them.

    Conventions.  Widths, sizes and element counts are [nat]; a C++ [int] or
    [int64] that is subtracted from, or handed to the solver as a number, is
    a [Z].  The sizes the encoder works with are far below the range of
    [int], so no wrap-around of the host integers is modelled.  A failed
    [XLS_CHECK], [XLS_LOG(FATAL)], an out-of-range [at()] or a read past the
    end of a vector is the outcome [Fatal]. *)

From Stdlib Require Import ZArith Lia.
From stdpp Require Import base option list list_numbers strings pretty gmap.

Set Warnings "-register-all".
Local Open Scope Z_scope.

(** ** Status values and outcomes *)

(** The [absl::StatusCode]s the translator produces. *)
Inductive StatusCode :=
| kInvalidArgument
| kInternal
| kUnimplemented
| kNotFound.

(** [absl::Status]. *)
Inductive Status :=
| OkStatus
| ErrorStatus (code : StatusCode) (message : string).

(** The outcome of a call that returns [xabsl::StatusOr<A>] (or [A]) and may
    also bring the process down. *)
Inductive outcome (A : Type) :=
| Done (a : A)
| Failed (code : StatusCode) (message : string)
| Fatal.
Arguments Done {A} a.
Arguments Failed {A} code message.
Arguments Fatal {A}.

#[global] Instance outcome_ret : MRet outcome := fun A a => Done a.
#[global] Instance outcome_bind : MBind outcome := fun A B f m =>
  match m with
  | Done a => f a
  | Failed c s => Failed c s
  | Fatal => Fatal
  end.

(** [XLS_CHECK(b)]. *)
Definition XLS_CHECK (b : bool) : outcome unit :=
  if b then Done tt else Fatal.

(** [XLS_RETURN_IF_ERROR(s)]. *)
Definition XLS_RETURN_IF_ERROR (s : Status) : outcome unit :=
  match s with
  | OkStatus => Done tt
  | ErrorStatus c m => Failed c m
  end.

(** A vector read [v[i]]; reading past the end is undefined behaviour. *)
Definition at_index {A} (v : list A) (i : nat) : outcome A :=
  match v !! i with
  | Some a => Done a
  | None => Fatal
  end.

(** ** The solver's sorts and terms *)

(** The sorts the translator asks Z3 for.  A tuple sort carries its name and
    its field names, as [Z3_mk_tuple_sort] is given them. *)
Inductive Z3_sort :=
| BoolSort
| BvSort (size : nat)
| ArraySort (domain range : Z3_sort)
| TupleSort (name : string) (fields : list (string * Z3_sort)).

(** [Z3_sort_kind], for the kinds that occur. *)
Inductive Z3_sort_kind :=
| Z3_BOOL_SORT
| Z3_BV_SORT
| Z3_ARRAY_SORT
| Z3_DATATYPE_SORT
| Z3_UNKNOWN_SORT.

Inductive bv_unop := bvnot | bvneg | bvredor.
Inductive bv_binop :=
| bvadd | bvsub | bvmul | bvand | bvor | bvxor | bvshl | bvlshr | bvashr.

(** Function declarations obtained from a tuple sort: its constructor and its
    field accessors.  [null_decl] is what the solver hands back when the
    request was invalid. *)
Inductive Z3_func_decl :=
| mk_tuple_decl (s : Z3_sort)
| field_decl (s : Z3_sort) (i : nat)
| null_decl.

(** Terms, one constructor per Z3 API function the translator calls. *)
Inductive Z3_ast :=
| AConst (name : string) (s : Z3_sort)
| ABvNumeral (bits : list bool)
| AInt (v : Z) (s : Z3_sort)
| AUn (op : bv_unop) (a : Z3_ast)
| ABin (op : bv_binop) (a b : Z3_ast)
| AConcat (a b : Z3_ast)
| AZeroExt (i : Z) (a : Z3_ast)
| ASignExt (i : Z) (a : Z3_ast)
| AExtract (high low : Z) (a : Z3_ast)
| ABvUlt (a b : Z3_ast)
| AEq (a b : Z3_ast)
| ANot (a : Z3_ast)
| AIte (c t e : Z3_ast)
| AConstArray (domain : Z3_sort) (v : Z3_ast)
| AStore (a i v : Z3_ast)
| ASelect (a i : Z3_ast)
| AApp (d : Z3_func_decl) (args : list Z3_ast).

#[global] Instance StatusCode_eq_dec : EqDecision StatusCode.
Proof. solve_decision. Defined.
#[global] Instance Status_eq_dec : EqDecision Status.
Proof. solve_decision. Defined.
#[global] Instance bv_unop_eq_dec : EqDecision bv_unop.
Proof. solve_decision. Defined.
#[global] Instance bv_binop_eq_dec : EqDecision bv_binop.
Proof. solve_decision. Defined.
#[global] Instance Z3_sort_kind_eq_dec : EqDecision Z3_sort_kind.
Proof. solve_decision. Defined.

(** Equality of sorts is decidable; written out because a tuple sort nests
    sorts inside a list. *)
Definition fields_eqb (eqb : Z3_sort -> Z3_sort -> bool)
    : list (string * Z3_sort) -> list (string * Z3_sort) -> bool :=
  fix go l1 l2 {struct l1} :=
    match l1, l2 with
    | [], [] => true
    | (f1, t1) :: l1', (f2, t2) :: l2' =>
        bool_decide (f1 = f2) && eqb t1 t2 && go l1' l2'
    | _, _ => false
    end.

Fixpoint sort_eqb (s1 s2 : Z3_sort) {struct s1} : bool :=
  match s1, s2 with
  | BoolSort, BoolSort => true
  | BvSort n1, BvSort n2 => bool_decide (n1 = n2)
  | ArraySort d1 r1, ArraySort d2 r2 => sort_eqb d1 d2 && sort_eqb r1 r2
  | TupleSort nm1 fs1, TupleSort nm2 fs2 =>
      bool_decide (nm1 = nm2) && fields_eqb sort_eqb fs1 fs2
  | _, _ => false
  end.

(** Whether the arguments of a tuple constructor have the sorts of the
    fields, one for one. *)
Definition args_match {A} (get_sort : A -> option Z3_sort)
    : list A -> list (string * Z3_sort) -> bool :=
  fix go l ss {struct l} :=
    match l, ss with
    | [], [] => true
    | x :: l', (_, s) :: ss' =>
        match get_sort x with
        | Some sx => sort_eqb s sx && go l' ss'
        | None => false
        end
    | _, _ => false
    end.

Definition Z3_get_sort_kind (s : option Z3_sort) : Z3_sort_kind :=
  match s with
  | Some BoolSort => Z3_BOOL_SORT
  | Some (BvSort _) => Z3_BV_SORT
  | Some (ArraySort _ _) => Z3_ARRAY_SORT
  | Some (TupleSort _ _) => Z3_DATATYPE_SORT
  | None => Z3_UNKNOWN_SORT
  end.

(** The sorts the solver makes.  [Z3_mk_bv_sort] requires a size above
    zero: asked for size 0 it reports an error and hands back no sort.
    [BvSort 0] stands for that missing sort, and so does every array or
    tuple sort made over it. *)
Definition fields_ok (ok : Z3_sort -> bool)
    : list (string * Z3_sort) -> bool :=
  fix go l :=
    match l with
    | [] => true
    | (_, t) :: l' => ok t && go l'
    end.

Fixpoint Z3_sort_ok (s : Z3_sort) : bool :=
  match s with
  | BoolSort => true
  | BvSort n => bool_decide (0 < n)%nat
  | ArraySort d r => Z3_sort_ok d && Z3_sort_ok r
  | TupleSort _ fs => fields_ok Z3_sort_ok fs
  end.

(** [Z3_get_sort]: the sort of a term, [None] for a term the solver refuses
    to build (it reports an error instead).  The solver checks the sorts of
    the arguments of every constructor, and it builds no constant, numeral
    or constant array over a sort it did not make: a bit-vector numeral
    has at least one bit. *)
Fixpoint Z3_get_sort (a : Z3_ast) : option Z3_sort :=
  match a with
  | AConst _ s => if Z3_sort_ok s then Some s else None
  | ABvNumeral bits =>
      if bool_decide (0 < length bits)%nat then Some (BvSort (length bits))
      else None
  | AInt _ s =>
      match s with
      | BvSort n => if bool_decide (0 < n)%nat then Some s else None
      | _ => None
      end
  | AUn op a =>
      match Z3_get_sort a with
      | Some (BvSort n) =>
          Some (BvSort (match op with bvredor => 1%nat | _ => n end))
      | _ => None
      end
  | ABin _ a b =>
      match Z3_get_sort a, Z3_get_sort b with
      | Some (BvSort n), Some (BvSort m) =>
          if bool_decide (n = m) then Some (BvSort n) else None
      | _, _ => None
      end
  | AConcat a b =>
      match Z3_get_sort a, Z3_get_sort b with
      | Some (BvSort n), Some (BvSort m) => Some (BvSort (n + m))
      | _, _ => None
      end
  | AZeroExt i a | ASignExt i a =>
      match Z3_get_sort a with
      | Some (BvSort n) =>
          if bool_decide (0 <= i) then Some (BvSort (n + Z.to_nat i)) else None
      | _ => None
      end
  | AExtract high low a =>
      match Z3_get_sort a with
      | Some (BvSort n) =>
          if bool_decide (0 <= low /\ low <= high /\ high < Z.of_nat n)
          then Some (BvSort (Z.to_nat (high - low + 1)))
          else None
      | _ => None
      end
  | ABvUlt a b =>
      match Z3_get_sort a, Z3_get_sort b with
      | Some (BvSort n), Some (BvSort m) =>
          if bool_decide (n = m) then Some BoolSort else None
      | _, _ => None
      end
  | AEq a b =>
      match Z3_get_sort a, Z3_get_sort b with
      | Some s1, Some s2 => if sort_eqb s1 s2 then Some BoolSort else None
      | _, _ => None
      end
  | ANot a =>
      match Z3_get_sort a with
      | Some BoolSort => Some BoolSort
      | _ => None
      end
  | AIte c t e =>
      match Z3_get_sort c, Z3_get_sort t, Z3_get_sort e with
      | Some BoolSort, Some s1, Some s2 =>
          if sort_eqb s1 s2 then Some s1 else None
      | _, _, _ => None
      end
  | AConstArray d v =>
      match Z3_get_sort v with
      | Some r => if Z3_sort_ok d then Some (ArraySort d r) else None
      | None => None
      end
  | AStore a i v =>
      match Z3_get_sort a, Z3_get_sort i, Z3_get_sort v with
      | Some (ArraySort d r), Some si, Some sv =>
          if sort_eqb d si && sort_eqb r sv then Some (ArraySort d r) else None
      | _, _, _ => None
      end
  | ASelect a i =>
      match Z3_get_sort a, Z3_get_sort i with
      | Some (ArraySort d r), Some si =>
          if sort_eqb d si then Some r else None
      | _, _ => None
      end
  | AApp d args =>
      match d with
      | mk_tuple_decl (TupleSort nm fs) =>
          if args_match Z3_get_sort args fs
          then Some (TupleSort nm fs) else None
      | field_decl (TupleSort nm fs) i =>
          match args with
          | [t] =>
              match Z3_get_sort t with
              | Some st =>
                  if sort_eqb (TupleSort nm fs) st
                  then snd <$> fs !! i else None
              | None => None
              end
          | _ => None
          end
      | _ => None
      end
  end.

(** ** The solver's semantics

    Values of the sorts above: a bit-vector is its width and its unsigned
    value, an array is a total map from index values. *)
Inductive z3val :=
| VBool (b : bool)
| VBv (w : nat) (v : Z)
| VArr (f : Z -> z3val)
| VTup (vs : list z3val).

Definition bv_modulus (w : nat) : Z := 2 ^ Z.of_nat w.
Definition bv_wrap (w : nat) (v : Z) : Z := v mod bv_modulus w.

(** The two's complement reading of an unsigned value of width [w]. *)
Definition bv_signed (w : nat) (v : Z) : Z :=
  if bool_decide (2 * v < bv_modulus w) then v else v - bv_modulus w.

Definition bits_to_Z (bits : list bool) : Z :=
  foldr (fun (b : bool) acc => (if b then 1 else 0) + 2 * acc) 0 bits.

Definition bv_unop_sem (op : bv_unop) (w : nat) (v : Z) : z3val :=
  match op with
  | bvnot => VBv w (bv_modulus w - 1 - v)
  | bvneg => VBv w (bv_wrap w (- v))
  | bvredor => VBv 1 (if bool_decide (v = 0) then 0 else 1)
  end.

Definition bv_binop_sem (op : bv_binop) (w : nat) (x y : Z) : Z :=
  match op with
  | bvadd => bv_wrap w (x + y)
  | bvsub => bv_wrap w (x - y)
  | bvmul => bv_wrap w (x * y)
  | bvand => Z.land x y
  | bvor => Z.lor x y
  | bvxor => Z.lxor x y
  | bvshl => bv_wrap w (Z.shiftl x y)
  | bvlshr => Z.shiftr x y
  | bvashr => bv_wrap w (Z.shiftr (bv_signed w x) y)
  end.

(** An interpretation of the free constants ([Z3_mk_const]), by name and
    sort. *)
Definition Z3_model := string -> Z3_sort -> z3val.

(** The values of the arguments of a constructor, when all have one. *)
Definition eval_args {A} (ev : A -> option z3val)
    : list A -> option (list z3val) :=
  fix go l :=
    match l with
    | [] => Some []
    | x :: l' =>
        match ev x, go l' with
        | Some v, Some vs => Some (v :: vs)
        | _, _ => None
        end
    end.

(** [eval M a]: the value of [a] in [M]; [None] where a bit-vector operator
    meets operands of the wrong shape.  Equality is evaluated on bit-vectors
    and booleans, the only sorts the translator compares. *)
Fixpoint eval (M : Z3_model) (a : Z3_ast) : option z3val :=
  match a with
  | AConst nm s => Some (M nm s)
  | ABvNumeral bits => Some (VBv (length bits) (bits_to_Z bits))
  | AInt v s =>
      match s with
      | BvSort w => Some (VBv w (bv_wrap w v))
      | _ => None
      end
  | AUn op a =>
      match eval M a with
      | Some (VBv w v) => Some (bv_unop_sem op w v)
      | _ => None
      end
  | ABin op a b =>
      match eval M a, eval M b with
      | Some (VBv w x), Some (VBv w' y) =>
          if bool_decide (w = w') then Some (VBv w (bv_binop_sem op w x y))
          else None
      | _, _ => None
      end
  | AConcat a b =>
      match eval M a, eval M b with
      | Some (VBv w x), Some (VBv w' y) =>
          Some (VBv (w + w') (x * bv_modulus w' + y))
      | _, _ => None
      end
  | AZeroExt i a =>
      match eval M a with
      | Some (VBv w x) =>
          if bool_decide (0 <= i) then Some (VBv (w + Z.to_nat i) x) else None
      | _ => None
      end
  | ASignExt i a =>
      match eval M a with
      | Some (VBv w x) =>
          if bool_decide (0 <= i)
          then Some (VBv (w + Z.to_nat i)
                       (bv_wrap (w + Z.to_nat i) (bv_signed w x)))
          else None
      | _ => None
      end
  | AExtract high low a =>
      match eval M a with
      | Some (VBv w x) =>
          if bool_decide (0 <= low /\ low <= high /\ high < Z.of_nat w)
          then Some (VBv (Z.to_nat (high - low + 1))
                       (bv_wrap (Z.to_nat (high - low + 1)) (x / 2 ^ low)))
          else None
      | _ => None
      end
  | ABvUlt a b =>
      match eval M a, eval M b with
      | Some (VBv w x), Some (VBv w' y) =>
          if bool_decide (w = w') then Some (VBool (bool_decide (x < y)))
          else None
      | _, _ => None
      end
  | AEq a b =>
      match eval M a, eval M b with
      | Some (VBv w x), Some (VBv w' y) =>
          if bool_decide (w = w') then Some (VBool (bool_decide (x = y)))
          else None
      | Some (VBool x), Some (VBool y) => Some (VBool (bool_decide (x = y)))
      | _, _ => None
      end
  | ANot a =>
      match eval M a with
      | Some (VBool b) => Some (VBool (negb b))
      | _ => None
      end
  | AIte c t e =>
      match eval M c, eval M t, eval M e with
      | Some (VBool b), Some vt, Some ve => Some (if b then vt else ve)
      | _, _, _ => None
      end
  | AConstArray _ v =>
      match eval M v with
      | Some x => Some (VArr (fun _ => x))
      | None => None
      end
  | AStore a i v =>
      match eval M a, eval M i, eval M v with
      | Some (VArr f), Some (VBv _ k), Some x =>
          Some (VArr (fun j => if bool_decide (j = k) then x else f j))
      | _, _, _ => None
      end
  | ASelect a i =>
      match eval M a, eval M i with
      | Some (VArr f), Some (VBv _ k) => Some (f k)
      | _, _ => None
      end
  | AApp d args =>
      match d with
      | mk_tuple_decl _ =>
          VTup <$> eval_args (eval M) args
      | field_decl _ i =>
          match args with
          | [t] =>
              match eval M t with
              | Some (VTup vs) => vs !! i
              | _ => None
              end
          | _ => None
          end
      | null_decl => None
      end
  end.

(** ** The Z3 API, by the names the translator calls it *)

(** [Z3_mk_bv_sort(c, sz)].  The solver makes bit-vector sorts of a size
    above zero only: for [sz = 0] it reports an error and makes no sort.
    [BvSort 0] stands for that missing sort: it is not [Z3_sort_ok], no
    term has it, and every request made with it is refused in turn
    ([Z3_get_sort] gives [None]), so that the error is among those of the
    term the handler builds ([Z3_errors]). *)
Definition Z3_mk_bv_sort (sz : nat) : Z3_sort := BvSort sz.
Definition Z3_mk_array_sort (domain range : Z3_sort) : Z3_sort :=
  ArraySort domain range.
Definition Z3_mk_tuple_sort (name : string) (field_names : list string)
    (field_sorts : list Z3_sort) : Z3_sort :=
  TupleSort name (zip field_names field_sorts).
Definition Z3_get_bv_sort_size (s : option Z3_sort) : Z :=
  match s with
  | Some (BvSort n) => Z.of_nat n
  | _ => 0
  end.
Definition Z3_get_array_sort_domain (s : Z3_sort) : Z3_sort :=
  match s with ArraySort d _ => d | _ => s end.
Definition Z3_get_array_sort_range (s : Z3_sort) : Z3_sort :=
  match s with ArraySort _ r => r | _ => s end.
Definition Z3_get_tuple_sort_num_fields (s : Z3_sort) : nat :=
  match s with TupleSort _ fs => length fs | _ => 0%nat end.
Definition Z3_get_tuple_sort_mk_decl (s : Z3_sort) : Z3_func_decl :=
  match s with TupleSort _ _ => mk_tuple_decl s | _ => null_decl end.
Definition Z3_get_tuple_sort_field_decl (s : option Z3_sort) (i : nat)
    : Z3_func_decl :=
  match s with
  | Some (TupleSort nm fs) =>
      if bool_decide (i < length fs)%nat then field_decl (TupleSort nm fs) i
      else null_decl
  | _ => null_decl
  end.
Definition Z3_mk_app (d : Z3_func_decl) (args : list Z3_ast) : Z3_ast :=
  AApp d args.

Definition Z3_mk_const (name : string) (s : Z3_sort) : Z3_ast := AConst name s.
(** [Z3_mk_bv_numeral(c, sz, bits)]; the solver refuses [sz = 0]: the
    numeral of no bits has no sort. *)
Definition Z3_mk_bv_numeral (bits : list bool) : Z3_ast := ABvNumeral bits.

(** What an API call returns after it has reported an error: no term. *)
Definition Z3_null_ast : Z3_ast := AApp null_decl [].
Definition Z3_mk_int (v : Z) (s : option Z3_sort) : Z3_ast :=
  match s with Some s => AInt v s | None => Z3_null_ast end.
Definition Z3_mk_int64 (v : Z) (s : option Z3_sort) : Z3_ast :=
  match s with Some s => AInt v s | None => Z3_null_ast end.
Definition Z3_mk_bvadd := ABin bvadd.
Definition Z3_mk_bvsub := ABin bvsub.
Definition Z3_mk_bvmul := ABin bvmul.
Definition Z3_mk_bvand := ABin bvand.
Definition Z3_mk_bvor := ABin bvor.
Definition Z3_mk_bvxor := ABin bvxor.
Definition Z3_mk_bvshl := ABin bvshl.
Definition Z3_mk_bvlshr := ABin bvlshr.
Definition Z3_mk_bvashr := ABin bvashr.
Definition Z3_mk_bvnot := AUn bvnot.
Definition Z3_mk_bvneg := AUn bvneg.
Definition Z3_mk_bvredor := AUn bvredor.
Definition Z3_mk_concat := AConcat.
Definition Z3_mk_zero_ext := AZeroExt.
Definition Z3_mk_sign_ext := ASignExt.
Definition Z3_mk_extract := AExtract.
Definition Z3_mk_bvult := ABvUlt.
Definition Z3_mk_eq := AEq.
Definition Z3_mk_not := ANot.
Definition Z3_mk_ite := AIte.
Definition Z3_mk_const_array := AConstArray.
Definition Z3_mk_store := AStore.
Definition Z3_mk_select := ASelect.

(** ** [Z3OpTranslator]: helpers for building bit-vector operations *)
Module Z3OpTranslator.

Definition Sub (lhs rhs : Z3_ast) : Z3_ast := Z3_mk_bvsub lhs rhs.
Definition And (lhs rhs : Z3_ast) : Z3_ast := Z3_mk_bvand lhs rhs.
Definition Or (lhs rhs : Z3_ast) : Z3_ast := Z3_mk_bvor lhs rhs.
Definition Xor (lhs rhs : Z3_ast) : Z3_ast := Z3_mk_bvxor lhs rhs.
Definition Not (arg : Z3_ast) : Z3_ast := Z3_mk_bvnot arg.
Definition ReduceOr (arg : Z3_ast) : Z3_ast := Z3_mk_bvredor arg.
Definition EqZero (arg : Z3_ast) : Z3_ast := Not (Z3_mk_bvredor arg).
Definition Eq (lhs rhs : Z3_ast) : Z3_ast := EqZero (Xor lhs rhs).
Definition ZextBy1b (arg : Z3_ast) : Z3_ast := Z3_mk_zero_ext 1 arg.
Definition SextBy1b (arg : Z3_ast) : Z3_ast := Z3_mk_sign_ext 1 arg.
Definition Extract (arg : Z3_ast) (bitno : Z) : Z3_ast :=
  Z3_mk_extract bitno bitno arg.

Definition GetBvBitCount (arg : Z3_ast) : Z :=
  Z3_get_bv_sort_size (Z3_get_sort arg).

(** The bits of [arg], the least significant one at index 0. *)
Definition ExplodeBits (arg : Z3_ast) : list Z3_ast :=
  Extract arg <$> seqZ 0 (GetBvBitCount arg).

Definition Msb (arg : Z3_ast) : Z3_ast :=
  Extract arg (GetBvBitCount arg - 1).

Definition SignExt (arg : Z3_ast) (new_bit_count : Z) : outcome Z3_ast :=
  let input_bit_count := GetBvBitCount arg in
  _ ← XLS_CHECK (bool_decide (input_bit_count <= new_bit_count));
  Done (Z3_mk_sign_ext (new_bit_count - input_bit_count) arg).

(** [args[0]] supplies the most significant bits.  The loop starts from
    [args[0]], which an empty span does not have. *)
Definition ConcatN (args : list Z3_ast) : outcome Z3_ast :=
  accum ← at_index args 0;
  Done (foldl Z3_mk_concat accum (drop 1 args)).

Definition ULt (lhs rhs : Z3_ast) : Z3_ast :=
  Msb (Sub (ZextBy1b lhs) (ZextBy1b rhs)).

Definition SLt (lhs rhs : Z3_ast) : Z3_ast :=
  Msb (Sub (SextBy1b lhs) (SextBy1b rhs)).

Definition Min (lhs rhs : Z3_ast) : Z3_ast :=
  let lt := Z3_mk_bvult lhs rhs in
  Z3_mk_ite lt lhs rhs.

Definition Fill (value : bool) (bit_count : Z) : Z3_ast :=
  Z3_mk_bv_numeral (replicate (Z.to_nat bit_count) value).

Definition EqZeroBool (arg : Z3_ast) : Z3_ast :=
  let bits := GetBvBitCount arg in
  Z3_mk_eq arg (Fill false bits).

Definition NeZeroBool (arg : Z3_ast) : Z3_ast := Z3_mk_not (EqZeroBool arg).

Definition NeBool (lhs rhs : Z3_ast) : Z3_ast :=
  Z3_mk_not (Z3_mk_eq lhs rhs).

Definition MakeBvParam (bit_count : nat) (name : string) : Z3_ast :=
  let type := Z3_mk_bv_sort bit_count in
  Z3_mk_const name type.

End Z3OpTranslator.

(** ** IR types and the type adaptor *)

(** [xls::Type]: bits, tuples and arrays. *)
Inductive Type_ :=
| BitsType (bit_count : nat)
| TupleType (element_types : list Type_)
| ArrayType (element_type : Type_) (size : nat).

(** Modelled from the spec: [Type::GetFlatBitCount], declared in the IR
    library: "Bits(n).flat = n; Tuple.flat = the sum of children.flat;
    Array.flat = size * element.flat". *)
Fixpoint GetFlatBitCount (t : Type_) : nat :=
  match t with
  | BitsType n => n
  | TupleType ts => foldr (fun ti acc => GetFlatBitCount ti + acc)%nat 0%nat ts
  | ArrayType e n => (n * GetFlatBitCount e)%nat
  end.

(** Modelled from the spec: [Type::ToString], the IR type's printable form,
    from which the tuple sort and its fields are named. *)
Fixpoint ToString (t : Type_) : string :=
  match t with
  | BitsType n => "bits[" +:+ pretty n +:+ "]"
  | TupleType ts => "(" +:+ String.concat ", " (map ToString ts) +:+ ")"
  | ArrayType e n => ToString e +:+ "[" +:+ pretty n +:+ "]"
  end.

(** Modelled from the spec: [Bits::MinBitCountUnsigned], declared in the IR
    library; the spec gives the width of an array's index sort as the
    ceiling of log2 (max (s, 1)). *)
Definition MinBitCountUnsigned (value : nat) : nat :=
  Z.to_nat (Z.log2_up (Z.max (Z.of_nat value) 1)).

(** The tuple sort of [CreateTupleSort]: named after the type, field [i]
    named after the type and [i]. *)
Definition tuple_sort_of (tuple_type_str : string) (field_sorts : list Z3_sort)
    : Z3_sort :=
  let field_names :=
    (fun i : nat => tuple_type_str +:+ "_" +:+ pretty i)
      <$> seq 0 (length field_sorts) in
  Z3_mk_tuple_sort tuple_type_str field_names field_sorts.

Fixpoint TypeToSort (type : Type_) : Z3_sort :=
  match type with
  | BitsType _ => Z3_mk_bv_sort (GetFlatBitCount type)
  | TupleType element_types =>
      tuple_sort_of (ToString type) (map TypeToSort element_types)
  | ArrayType element_type size =>
      let element_sort := TypeToSort element_type in
      let index_sort := Z3_mk_bv_sort (MinBitCountUnsigned size) in
      Z3_mk_array_sort index_sort element_sort
  end.

(** [CreateTupleSort] asserts a tuple type ([AsTupleOrDie]). *)
Definition CreateTupleSort (type : Type_) : outcome Z3_sort :=
  match type with
  | TupleType _ => Done (TypeToSort type)
  | _ => Fatal
  end.

(** [CreateTuple(Z3_sort, elements)]. *)
Definition CreateTuple_sort (tuple_sort : Z3_sort) (elements : list Z3_ast)
    : Z3_ast :=
  let mk_tuple_decl := Z3_get_tuple_sort_mk_decl tuple_sort in
  Z3_mk_app mk_tuple_decl elements.

(** [CreateTuple(Type*, elements)]. *)
Definition CreateTuple (tuple_type : Type_) (elements : list Z3_ast) : Z3_ast :=
  let tuple_sort := TypeToSort tuple_type in
  let mk_tuple_decl := Z3_get_tuple_sort_mk_decl tuple_sort in
  Z3_mk_app mk_tuple_decl elements.

(** The loop of [ZeroOfSort] over the fields of a tuple sort. *)
Definition zero_fields (zero : Z3_sort -> outcome Z3_ast)
    : list (string * Z3_sort) -> outcome (list Z3_ast) :=
  fix go fs :=
    match fs with
    | [] => Done []
    | (_, s) :: fs' => e ← zero s; es ← go fs'; Done (e :: es)
    end.

Fixpoint ZeroOfSort (sort : Z3_sort) : outcome Z3_ast :=
  match sort with
  | BvSort _ => Done (Z3_mk_int 0 (Some sort))
  | ArraySort index_sort range =>
      element ← ZeroOfSort range;
      Done (Z3_mk_const_array index_sort element)
  | TupleSort _ fields =>
      elements ← zero_fields ZeroOfSort fields;
      Done (CreateTuple_sort sort elements)
  | BoolSort => Fatal
  end.

(** The loop of [CreateArray]: store [elements[i]] at index [i] for
    [i = first, ..., first + count - 1]. *)
Fixpoint store_elements (index_sort : Z3_sort) (elements : list Z3_ast)
    (first count : nat) (z3_array : Z3_ast) : outcome Z3_ast :=
  match count with
  | O => Done z3_array
  | S count' =>
      e ← at_index elements first;
      let index := Z3_mk_int64 (Z.of_nat first) (Some index_sort) in
      store_elements index_sort elements (S first) count'
        (Z3_mk_store z3_array index e)
  end.

Definition CreateArray (type : Type_) (elements : list Z3_ast)
    : outcome Z3_ast :=
  match type with
  | ArrayType element_type size =>
      let element_sort := TypeToSort element_type in
      default_value ← ZeroOfSort element_sort;
      let index_sort := Z3_mk_bv_sort (MinBitCountUnsigned size) in
      let z3_array := Z3_mk_const_array index_sort default_value in
      store_elements index_sort elements 0 size z3_array
  | _ => Fatal
  end.

(** [GetArrayElement], given the size of the array type. *)
Definition GetArrayElement (size : nat) (array index : Z3_ast) : Z3_ast :=
  let target_width := Z.of_nat (MinBitCountUnsigned size) in
  let z3_width := Z3_get_bv_sort_size (Z3_get_sort index) in
  let index :=
    if bool_decide (z3_width < target_width)
    then Z3_mk_zero_ext (target_width - z3_width) index
    else if bool_decide (z3_width > target_width)
    then Z3_mk_extract (Z.of_nat (MinBitCountUnsigned size) - 1) 0 index
    else index in
  let array_max_index :=
    Z3_mk_int64 (Z.of_nat size - 1) (Z3_get_sort index) in
  let index := Z3OpTranslator.Min index array_max_index in
  Z3_mk_select array index.

(** The loop of [FlattenValue] over the fields of a tuple, from field [i]. *)
Definition flatten_fields (flatten : Type_ -> Z3_ast -> list Z3_ast)
    (value : Z3_ast) : list Type_ -> nat -> list Z3_ast :=
  fix go ts i :=
    match ts with
    | [] => []
    | ti :: ts' =>
        let tuple_sort := Z3_get_sort value in
        let child_accessor := Z3_get_tuple_sort_field_decl tuple_sort i in
        let child := Z3_mk_app child_accessor [value] in
        flatten ti child ++ go ts' (S i)
    end.

Fixpoint FlattenValue (type : Type_) (value : Z3_ast) : list Z3_ast :=
  match type with
  | BitsType _ => Z3OpTranslator.ExplodeBits value
  | ArrayType element_type size =>
      let index_sort := Z3_mk_bv_sort (MinBitCountUnsigned size) in
      flat_map
        (fun i : nat =>
           let index := Z3_mk_int64 (Z.of_nat i) (Some index_sort) in
           let element := GetArrayElement size value index in
           FlattenValue element_type element)
        (seq 0 size)
  | TupleType element_types =>
      flatten_fields FlattenValue value element_types 0
  end.

(** [absl::Span::subspan(pos, len)]: [pos] past the end is fatal, [len] is
    cut to what is left. *)
Definition subspan {A} (flat : list A) (pos len : Z) : outcome (list A) :=
  if bool_decide (0 <= pos /\ pos <= Z.of_nat (length flat))
  then Done (take (Z.to_nat len) (drop (Z.to_nat pos) flat))
  else Fatal.

(** The loop of [UnflattenZ3Ast] over the [n] elements of an array: each
    takes the [element_bits] entries below [high]. *)
Definition unflatten_elements (unflatten : list Z3_ast -> outcome Z3_ast)
    (element_bits : Z) (flat : list Z3_ast)
    : nat -> Z -> outcome (list Z3_ast) :=
  fix go n high :=
    match n with
    | O => Done []
    | S n' =>
        sub ← subspan flat (high - element_bits) element_bits;
        e ← unflatten sub;
        es ← go n' (high - element_bits);
        Done (e :: es)
    end.

(** The loop of [UnflattenZ3Ast] over the element types of a tuple. *)
Definition unflatten_fields (unflatten : Type_ -> list Z3_ast -> outcome Z3_ast)
    (flat_bit_count : Type_ -> nat) (flat : list Z3_ast)
    : list Type_ -> Z -> outcome (list Z3_ast) :=
  fix go ts high :=
    match ts with
    | [] => Done []
    | ti :: ts' =>
        let element_bits := Z.of_nat (flat_bit_count ti) in
        sub ← subspan flat (high - element_bits) element_bits;
        e ← unflatten ti sub;
        es ← go ts' (high - element_bits);
        Done (e :: es)
    end.

Fixpoint UnflattenZ3Ast (type : Type_) (flat : list Z3_ast) : outcome Z3_ast :=
  match type with
  | BitsType _ => Z3OpTranslator.ConcatN flat
  | ArrayType element_type num_elements =>
      let element_bits := Z.of_nat (GetFlatBitCount element_type) in
      let high := Z.of_nat (GetFlatBitCount type) in
      elements ←
        unflatten_elements (UnflattenZ3Ast element_type) element_bits flat
          num_elements high;
      CreateArray type elements
  | TupleType element_types =>
      let high := Z.of_nat (GetFlatBitCount type) in
      elements ←
        unflatten_fields UnflattenZ3Ast GetFlatBitCount flat element_types high;
      Done (CreateTuple type elements)
  end.

(** ** Solver contexts and their parameters *)

(** Configurations and contexts are named by numbers. *)
Abbreviation Z3_config := nat (only parsing).
Abbreviation Z3_context := nat (only parsing).

(** The solver objects alive in the process: each configuration and each
    context with its parameter table. *)
Record Z3_world := {
  configs : gmap Z3_config (gmap string string);
  contexts : gmap Z3_context (gmap string string);
  next_config : Z3_config;
  next_context : Z3_context;
}.

Definition Z3_mk_config (w : Z3_world) : Z3_config * Z3_world :=
  (next_config w,
   {| configs := <[next_config w := ∅]> (configs w);
      contexts := contexts w;
      next_config := S (next_config w);
      next_context := next_context w |}).

Definition Z3_set_param_value (c : Z3_config) (param_id param_value : string)
    (w : Z3_world) : Z3_world :=
  {| configs := alter (fun ps => <[param_id := param_value]> ps) c (configs w);
     contexts := contexts w;
     next_config := next_config w;
     next_context := next_context w |}.

Definition Z3_mk_context (c : Z3_config) (w : Z3_world) : Z3_context * Z3_world :=
  (next_context w,
   {| configs := configs w;
      contexts := <[next_context w := default ∅ (configs w !! c)]> (contexts w);
      next_config := next_config w;
      next_context := S (next_context w) |}).

Definition Z3_update_param_value (c : Z3_context) (param_id param_value : string)
    (w : Z3_world) : Z3_world :=
  {| configs := configs w;
     contexts := alter (fun ps => <[param_id := param_value]> ps) c (contexts w);
     next_config := next_config w;
     next_context := next_context w |}.

Definition Z3_del_context (c : Z3_context) (w : Z3_world) : Z3_world :=
  {| configs := configs w;
     contexts := delete c (contexts w);
     next_config := next_config w;
     next_context := next_context w |}.

Definition Z3_del_config (c : Z3_config) (w : Z3_world) : Z3_world :=
  {| configs := delete c (configs w);
     contexts := contexts w;
     next_config := next_config w;
     next_context := next_context w |}.

(** [absl::Duration], as a whole number of nanoseconds. *)
Definition Duration := Z.

Definition kint64max : Z := 2 ^ 63 - 1.
Definition kint64min : Z := - 2 ^ 63.

(** [absl::ToInt64Milliseconds]: the quotient truncated toward zero, kept
    within [int64]. *)
Definition ToInt64Milliseconds (d : Duration) : Z :=
  Z.max kint64min (Z.min kint64max (Z.quot d 1000000)).

(** ** The scoped error handler *)
Module ScopedErrorHandler.

(** The address of a [ScopedErrorHandler] object. *)
Abbreviation ptr := nat (only parsing).

Record object := {
  ctx_ : Z3_context;
  prev_handler_ : option ptr;
  status_ : Status;
}.

(** What the handler code reads and writes: the live handler objects, the
    thread-local [g_handler], and for each context whether its error
    handler is the static [Handler] (a context not in the set has none:
    [nullptr]). *)
Record state := {
  objects : gmap ptr object;
  g_handler : option ptr;
  installed : gset Z3_context;
  next_ptr : ptr;
}.


(** [ScopedErrorHandler(ctx)]. *)
Definition construct (ctx : Z3_context) (s : state) : ptr * state :=
  let this := next_ptr s in
  (this,
   {| objects :=
        <[this := {| ctx_ := ctx; prev_handler_ := g_handler s;
                     status_ := OkStatus |}]> (objects s);
      g_handler := Some this;
      installed := {[ctx]} ∪ installed s;
      next_ptr := S this |}).

(** [~ScopedErrorHandler()]. *)
Definition destroy (this : ptr) (s : state) : outcome state :=
  match objects s !! this with
  | None => Fatal
  | Some o =>
      let installed' := installed s ∖ {[ctx_ o]} in
      _ ← XLS_CHECK (bool_decide (g_handler s = Some this));
      Done {| objects := delete this (objects s);
              g_handler := prev_handler_ o;
              installed := installed';
              next_ptr := next_ptr s |}
  end.

Definition status (this : ptr) (s : state) : outcome Status :=
  match objects s !! this with
  | None => Fatal
  | Some o => Done (status_ o)
  end.

(** The static [Handler(c, e)]: writes through [g_handler]. *)
Definition Handler (msg : string) (s : state) : outcome state :=
  match g_handler s with
  | None => Fatal
  | Some h =>
      match objects s !! h with
      | None => Fatal
      | Some o =>
          Done {| objects :=
                    <[h := {| ctx_ := ctx_ o;
                              prev_handler_ := prev_handler_ o;
                              status_ :=
                                ErrorStatus kInternal ("Z3 error: " +:+ msg) |}]>
                      (objects s);
                  g_handler := g_handler s;
                  installed := installed s;
                  next_ptr := next_ptr s |}
      end
  end.

(** The solver reports an error on context [c]: it calls the context's
    error handler when it has one, and only sets its error code
    otherwise. *)
Definition raise_error (c : Z3_context) (msg : string) (s : state)
    : outcome state :=
  if bool_decide (c ∈ installed s) then Handler msg s else Done s.

Fixpoint raise_errors (c : Z3_context) (msgs : list string) (s : state)
    : outcome state :=
  match msgs with
  | [] => Done s
  | m :: msgs' => s' ← raise_error c m s; raise_errors c msgs' s'
  end.

(** A handler's visit: [ScopedErrorHandler seh(ctx); ...; return
    seh.status();] around solver calls that report [msgs]. *)
Definition scoped (c : Z3_context) (msgs : list string) (s : state)
    : outcome (Status * state) :=
  let '(seh, s1) := construct c s in
  s2 ← raise_errors c msgs s1;
  st ← status seh s2;
  s3 ← destroy seh s2;
  Done (st, s3).

End ScopedErrorHandler.

(** The message [Z3_get_error_msg] gives for the error of a request the
    solver refuses; one message stands for all of them. *)
Definition Z3_get_error_msg : string := "Sort mismatch".

(** The errors the solver reports while it builds [a]. *)
Definition Z3_errors (a : Z3_ast) : list string :=
  match Z3_get_sort a with
  | Some _ => []
  | None => [Z3_get_error_msg]
  end.

(** What [seh.status()] is at the end of a visit that built [a]: the last
    error reported, as an internal error. *)
Definition seh_status (a : Z3_ast) : Status :=
  match last (Z3_errors a) with
  | None => OkStatus
  | Some msg => ErrorStatus kInternal ("Z3 error: " +:+ msg)
  end.

(** ** The abstract per-bit evaluator *)

(** [AbstractEvaluator<ElementT>]: the five primitives an instance supplies. *)
Class AbstractEvaluator (Element : Type) := {
  One : Element;
  Zero : Element;
  Not : Element -> Element;
  And : Element -> Element -> Element;
  Or : Element -> Element -> Element;
}.

(** [Z3AbstractEvaluator]: elements are one-bit solver terms. *)
#[global] Instance Z3AbstractEvaluator : AbstractEvaluator Z3_ast := {
  One := Z3OpTranslator.Fill true 1;
  Zero := Z3OpTranslator.Fill false 1;
  Not := Z3OpTranslator.Not;
  And := Z3OpTranslator.And;
  Or := Z3OpTranslator.Or;
}.

Section AbstractEvaluation.
Context {Element : Type} `{AbstractEvaluator Element}.

Definition OrReduce (v : list Element) : Element := foldr Or Zero v.
Definition AndReduce (v : list Element) : Element := foldr And One v.

(** Bit [k] of the number [i]. *)
Definition bit_of (i k : nat) : bool := Z.testbit (Z.of_nat i) (Z.of_nat k).

(** Modelled from the spec: the evaluator's comparison of a bit list with
    the number [i] ("any op expressible purely via the five primitives"):
    every bit agrees with the bit of [i]. *)
Definition EqualsLiteral (v : list Element) (i : nat) : Element :=
  AndReduce (imap (fun k e => if bit_of i k then e else Not e) v).

(** Modelled from the spec: whether the number [i] is below the bit list
    [v]: some bit of [v] is set where [i] has none and all higher bits
    agree. *)
Fixpoint LiteralLessThan_from (k : nat) (i : nat) (v : list Element)
    : Element :=
  match v with
  | [] => Zero
  | e :: v' =>
      let higher := LiteralLessThan_from (S k) i v' in
      let agree_above :=
        AndReduce (imap (fun j x => if bit_of i (S k + j) then x else Not x) v') in
      Or higher (if bit_of i k then Zero else And e agree_above)
  end.
Definition LiteralLessThan (i : nat) (v : list Element) : Element :=
  LiteralLessThan_from 0 i v.

(** Modelled from the spec: the evaluator's one-hot-select, whose code is
    in the IR library.  Bit [j] of the result is the OR over the cases [i]
    of selector bit [i] AND bit [j] of case [i]; the width is that of the
    first case.  The selector needs one bit per case, and at least one. *)
Definition OneHotSelect (selector : list Element)
    (cases : list (list Element)) (selector_can_be_zero : bool)
    : outcome (list Element) :=
  _ ← XLS_CHECK (bool_decide (length selector = length cases));
  _ ← XLS_CHECK (bool_decide (0 < length selector)%nat);
  first ← at_index cases 0;
  Done ((fun j : nat =>
           OrReduce
             (zip_with (fun s (c : list Element) => And s (default Zero (c !! j)))
                selector cases))
          <$> seq 0 (length first)).

(** Modelled from the spec: the evaluator's select "with optional
    default".  The binary selector is made one-hot (bit [i] says that the
    selector equals [i]; with a default, one more bit says that the
    selector is past the last case) and handed to the one-hot-select. *)
Definition Select (selector : list Element) (cases : list (list Element))
    (default_value : option (list Element)) : outcome (list Element) :=
  let one_hot_selector := (EqualsLiteral selector) <$> seq 0 (length cases) in
  match default_value with
  | None => OneHotSelect one_hot_selector cases false
  | Some d =>
      OneHotSelect
        (one_hot_selector ++ [LiteralLessThan (length cases - 1) selector])
        (cases ++ [d]) false
  end.

(** Modelled from the spec: the evaluator's one-hot.  Output bit [i] is
    set when input bit [i] is the first set bit in priority order; one
    more, most significant, output bit is set when no input bit is. *)
Fixpoint OneHotLsbToMsb_from (seen : Element) (v : list Element)
    : list Element :=
  match v with
  | [] => [Not seen]
  | e :: v' => And e (Not seen) :: OneHotLsbToMsb_from (Or seen e) v'
  end.
Definition OneHotLsbToMsb (v : list Element) : list Element :=
  OneHotLsbToMsb_from Zero v.
Definition OneHotMsbToLsb (v : list Element) : list Element :=
  match OneHotLsbToMsb (reverse v) with
  | [] => []
  | l => reverse (take (length l - 1) l) ++ drop (length l - 1) l
  end.

(** Modelled from the spec: the evaluator's encode.  Output bit [j], of
    [result_width], is the OR of the input bits whose index has bit [j]
    set. *)
Definition Encode (v : list Element) (result_width : nat) : list Element :=
  (fun j : nat =>
     OrReduce (omap id (imap (fun i e => if bit_of i j then Some e else None) v)))
    <$> seq 0 result_width.

(** Modelled from the spec: the evaluator's reverse. *)
Definition Reverse (v : list Element) : list Element := reverse v.

End AbstractEvaluation.

(** ** IR nodes and functions *)

(** [xls::Value]: the value of a literal.  The bits of a [BitsValue] are
    listed from the least significant one. *)
Inductive Value :=
| BitsValue (bits : list bool)
| ArrayValue (elements : list Value)
| TupleValue (elements : list Value).

Inductive LsbOrMsb := kLsb | kMsb.

(** A node's opcode together with the attributes its node class carries. *)
Inductive NodeKind :=
| kParam (name : string)
| kLiteral (value : Value)
| kAdd | kSub
| kULe | kULt | kUGe | kUGt | kSGt | kSLe | kSLt | kSGe | kEq | kNe
| kShra | kShrl | kShll
| kAnd | kNand | kNor | kOr | kXor
| kConcat
| kArray | kTuple | kArrayIndex | kTupleIndex (index : nat)
| kEncode | kOneHot (priority : LsbOrMsb)
| kNeg | kNot | kReverse | kIdentity
| kSignExt (new_bit_count : nat) | kZeroExt (new_bit_count : nat)
| kBitSlice (start width : nat)
| kOneHotSel | kSel (has_default : bool)
| kSMul | kUMul
| kOther (op_name : string).

(** A [Node*]: the position of the node in its function. *)
Abbreviation NodePtr := nat (only parsing).

Record Node := {
  kind : NodeKind;
  operands : list NodePtr;
  GetType : Type_;
}.

(** An IR function: its nodes, in an order in which [Accept] visits them
    (operands before their users), its parameters in order, and its return
    value. *)
Record Function := {
  nodes : list Node;
  params : list NodePtr;
  return_value : NodePtr;
}.

(** Dereferencing a node pointer of function [f]. *)
Definition node_at (f : Function) (p : NodePtr) : outcome Node :=
  at_index (nodes f) p.

(** [node->operand(i)]. *)
Definition operand (n : Node) (i : nat) : outcome NodePtr :=
  at_index (operands n) i.

(** [type->AsBitsOrDie()->bit_count()]. *)
Definition BitCountOrDie (t : Type_) : outcome nat :=
  match t with
  | BitsType n => Done n
  | _ => Fatal
  end.

(** The printable form of a node, used in diagnostics only. *)
Definition Node_ToString (n : Node) : string :=
  match kind n with
  | kParam name => name
  | kOther op_name => op_name
  | _ => "node"
  end +:+ ": " +:+ ToString (GetType n).

(** [Function::GetParamIndex]. *)
Definition GetParamIndex (f : Function) (param : NodePtr) : outcome nat :=
  match list_find (fun p => p = param) (params f) with
  | Some (i, _) => Done i
  | None => Failed kInvalidArgument "Given param is not a member of this function"
  end.

(** ** The translator *)

Record Z3Translator := {
  config_ : option Z3_config;
  ctx_ : Z3_context;
  borrowed_context_ : bool;
  imported_params_ : option (list Z3_ast);
  translations_ : gmap NodePtr Z3_ast;
  xls_function_ : Function;
}.

Definition NoteTranslation (tr : Z3Translator) (node : NodePtr)
    (translated : Z3_ast) : Z3Translator :=
  {| config_ := config_ tr;
     ctx_ := ctx_ tr;
     borrowed_context_ := borrowed_context_ tr;
     imported_params_ := imported_params_ tr;
     translations_ := <[node := translated]> (translations_ tr);
     xls_function_ := xls_function_ tr |}.

(** [GetTranslation]: [translations_.at(source)]. *)
Definition GetTranslation (tr : Z3Translator) (source : NodePtr)
    : outcome Z3_ast :=
  match translations_ tr !! source with
  | Some a => Done a
  | None => Fatal
  end.

Definition GetReturnNode (tr : Z3Translator) : outcome Z3_ast :=
  GetTranslation tr (return_value (xls_function_ tr)).

Definition GetValueKind (value : Z3_ast) : Z3_sort_kind :=
  let sort := Z3_get_sort value in
  Z3_get_sort_kind sort.

(** [GetValue]: checks that the node has been translated. *)
Definition GetValue (tr : Z3Translator) (node : NodePtr) : outcome Z3_ast :=
  match translations_ tr !! node with
  | Some a => Done a
  | None => Fatal
  end.

(** [GetBitVec]: [GetValue], checked to be a bit-vector of the node's flat
    bit count. *)
Definition GetBitVec (tr : Z3Translator) (node : NodePtr) : outcome Z3_ast :=
  value ← GetValue tr node;
  let value_sort := Z3_get_sort value in
  _ ← XLS_CHECK (bool_decide (Z3_get_sort_kind value_sort = Z3_BV_SORT));
  n ← node_at (xls_function_ tr) node;
  _ ← XLS_CHECK (bool_decide (Z.of_nat (GetFlatBitCount (GetType n))
                               = Z3_get_bv_sort_size value_sort));
  Done value.

(** The end of a handler that holds a [ScopedErrorHandler]: the term is
    noted and the handler's status returned. *)
Definition note_and_return (tr : Z3Translator) (node : NodePtr)
    (result : Z3_ast) : outcome Z3Translator :=
  let tr' := NoteTranslation tr node result in
  _ ← XLS_RETURN_IF_ERROR (seh_status result);
  Done tr'.

Definition SetTimeout (tr : Z3Translator) (timeout : Duration) (w : Z3_world)
    : Z3_world :=
  let timeout_str := pretty (ToInt64Milliseconds timeout) in
  Z3_update_param_value (ctx_ tr) "timeout" timeout_str w.

(** The owning constructor: a new context made from [config]. *)
Definition Z3Translator_owned (config : Z3_config) (xls_function : Function)
    (w : Z3_world) : Z3Translator * Z3_world :=
  let '(ctx, w') := Z3_mk_context config w in
  ({| config_ := Some config; ctx_ := ctx; borrowed_context_ := false;
      imported_params_ := None; translations_ := ∅;
      xls_function_ := xls_function |}, w').

(** The borrowing constructor: the caller's context and parameter terms. *)
Definition Z3Translator_borrowed (ctx : Z3_context) (xls_function : Function)
    (imported_params : list Z3_ast) : Z3Translator :=
  {| config_ := None; ctx_ := ctx; borrowed_context_ := true;
     imported_params_ := Some imported_params; translations_ := ∅;
     xls_function_ := xls_function |}.

(** [~Z3Translator]. *)
Definition Z3Translator_destroy (tr : Z3Translator) (w : Z3_world) : Z3_world :=
  if negb (borrowed_context_ tr)
  then
    let w1 := Z3_del_context (ctx_ tr) w in
    match config_ tr with
    | Some c => Z3_del_config c w1
    | None => w1
    end
  else w.

(** ** The handlers *)

(** [HandleBinary(op, f)]. *)
Definition HandleBinary (tr : Z3Translator) (self : NodePtr) (op : Node)
    (f : Z3_ast -> Z3_ast -> outcome Z3_ast) : outcome Z3Translator :=
  o0 ← operand op 0; lhs ← GetBitVec tr o0;
  o1 ← operand op 1; rhs ← GetBitVec tr o1;
  result ← f lhs rhs;
  note_and_return tr self result.

Definition HandleAdd tr self op :=
  HandleBinary tr self op (fun lhs rhs => Done (Z3_mk_bvadd lhs rhs)).
Definition HandleSub tr self op :=
  HandleBinary tr self op (fun lhs rhs => Done (Z3_mk_bvsub lhs rhs)).

(** The closures [f] of the comparison handlers. *)
Definition HandleULe_f (lhs rhs : Z3_ast) : Z3_ast :=
  let ult := Z3OpTranslator.ULt lhs rhs in
  let eq := Z3OpTranslator.Eq lhs rhs in
  let result := Z3_mk_bvor ult eq in
  Z3_mk_bvredor result.
Definition HandleULt_f (lhs rhs : Z3_ast) : Z3_ast :=
  Z3OpTranslator.ULt lhs rhs.
Definition HandleUGe_f (lhs rhs : Z3_ast) : Z3_ast :=
  Z3OpTranslator.Not (Z3OpTranslator.ULt lhs rhs).
Definition HandleUGt_f (lhs rhs : Z3_ast) : Z3_ast :=
  Z3OpTranslator.Not
    (Z3OpTranslator.Or (Z3OpTranslator.Eq lhs rhs) (Z3OpTranslator.ULt lhs rhs)).
Definition HandleSGt_f (lhs rhs : Z3_ast) : Z3_ast :=
  let slt := Z3OpTranslator.SLt lhs rhs in
  let eq := Z3OpTranslator.Eq lhs rhs in
  let result := Z3_mk_bvor slt eq in
  let result := Z3_mk_bvredor result in
  Z3_mk_bvnot result.
Definition HandleSLe_f (lhs rhs : Z3_ast) : Z3_ast :=
  let slt := Z3OpTranslator.SLt lhs rhs in
  let eq := Z3OpTranslator.Eq lhs rhs in
  let result := Z3_mk_bvor slt eq in
  Z3_mk_bvredor result.
Definition HandleSLt_f (lhs rhs : Z3_ast) : Z3_ast :=
  Z3OpTranslator.SLt lhs rhs.
Definition HandleSGe_f (lhs rhs : Z3_ast) : Z3_ast :=
  Z3OpTranslator.Not (Z3OpTranslator.SLt lhs rhs).
Definition HandleEq_f (lhs rhs : Z3_ast) : Z3_ast :=
  Z3OpTranslator.Not (Z3OpTranslator.ReduceOr (Z3OpTranslator.Xor lhs rhs)).
Definition HandleNe_f (a b : Z3_ast) : Z3_ast :=
  Z3OpTranslator.ReduceOr (Z3OpTranslator.Xor a b).

Definition HandleCompare (f : Z3_ast -> Z3_ast -> Z3_ast) tr self op :=
  HandleBinary tr self op (fun lhs rhs => Done (f lhs rhs)).
Definition HandleULe := HandleCompare HandleULe_f.
Definition HandleULt := HandleCompare HandleULt_f.
Definition HandleUGe := HandleCompare HandleUGe_f.
Definition HandleUGt := HandleCompare HandleUGt_f.
Definition HandleSGt := HandleCompare HandleSGt_f.
Definition HandleSLe := HandleCompare HandleSLe_f.
Definition HandleSLt := HandleCompare HandleSLt_f.
Definition HandleSGe := HandleCompare HandleSGe_f.
Definition HandleEq := HandleCompare HandleEq_f.
Definition HandleNe := HandleCompare HandleNe_f.

(** The bit count of operand [i] of [n] ([operand(i)->BitCountOrDie()]). *)
Definition operand_bit_count (tr : Z3Translator) (n : Node) (i : nat)
    : outcome nat :=
  o ← operand n i;
  on ← node_at (xls_function_ tr) o;
  BitCountOrDie (GetType on).

(** [HandleShift(shift, fshift)]. *)
Definition HandleShift (tr : Z3Translator) (self : NodePtr) (shift : Node)
    (fshift : Z3_ast -> Z3_ast -> Z3_ast) : outcome Z3Translator :=
  HandleBinary tr self shift (fun lhs rhs =>
    lhs_bit_count ← operand_bit_count tr shift 0;
    rhs_bit_count ← operand_bit_count tr shift 1;
    if bool_decide (rhs_bit_count ≠ lhs_bit_count)
    then
      _ ← XLS_CHECK (bool_decide (rhs_bit_count < lhs_bit_count)%nat);
      Done (fshift lhs
              (Z3_mk_zero_ext (Z.of_nat lhs_bit_count - Z.of_nat rhs_bit_count) rhs))
    else Done (fshift lhs rhs)).

Definition HandleShra tr self op := HandleShift tr self op Z3_mk_bvashr.
Definition HandleShrl tr self op := HandleShift tr self op Z3_mk_bvlshr.
Definition HandleShll tr self op := HandleShift tr self op Z3_mk_bvshl.

(** [HandleNary(op, f, invert_result)]. *)
Definition HandleNary (tr : Z3Translator) (self : NodePtr) (op : Node)
    (f : Z3_ast -> Z3_ast -> Z3_ast) (invert_result : bool)
    : outcome Z3Translator :=
  o0 ← operand op 0;
  accum ← GetBitVec tr o0;
  accum ← foldl (fun (acc : outcome Z3_ast) (o : NodePtr) =>
                   a ← acc; x ← GetBitVec tr o; Done (f a x))
            (Done accum) (drop 1 (operands op));
  let accum := if invert_result then Z3OpTranslator.Not accum else accum in
  note_and_return tr self accum.

Definition HandleNaryAnd tr self op := HandleNary tr self op Z3_mk_bvand false.
Definition HandleNaryNand tr self op := HandleNary tr self op Z3_mk_bvand true.
Definition HandleNaryNor tr self op := HandleNary tr self op Z3_mk_bvor true.
Definition HandleNaryOr tr self op := HandleNary tr self op Z3_mk_bvor false.
Definition HandleNaryXor tr self op := HandleNary tr self op Z3_mk_bvxor false.
Definition HandleConcat tr self op := HandleNary tr self op Z3_mk_concat false.

Definition CreateZ3Param (type : Type_) (param_name : string) : Z3_ast :=
  Z3_mk_const param_name (TypeToSort type).

Definition HandleParam (tr : Z3Translator) (self : NodePtr) (param : Node)
    (name : string) : outcome Z3Translator :=
  let type := GetType param in
  value ←
    match imported_params_ tr with
    | Some imported =>
        param_index ← GetParamIndex (xls_function_ tr) self;
        at_index imported param_index
    | None => Done (CreateZ3Param type name)
    end;
  note_and_return tr self value.

(** The values of the operands listed ([GetValue] of each, in order). *)
Fixpoint GetValues (tr : Z3Translator) (os : list NodePtr)
    : outcome (list Z3_ast) :=
  match os with
  | [] => Done []
  | o :: os' => v ← GetValue tr o; vs ← GetValues tr os'; Done (v :: vs)
  end.

Definition HandleArray (tr : Z3Translator) (self : NodePtr) (array : Node)
    : outcome Z3Translator :=
  elements ← GetValues tr (operands array);
  a ← CreateArray (GetType array) elements;
  note_and_return tr self a.

(** [HandleTuple] holds no error handler and returns [OkStatus]. *)
Definition HandleTuple (tr : Z3Translator) (self : NodePtr) (tuple : Node)
    : outcome Z3Translator :=
  elements ← GetValues tr (operands tuple);
  Done (NoteTranslation tr self (CreateTuple (GetType tuple) elements)).

Definition HandleArrayIndex (tr : Z3Translator) (self : NodePtr)
    (array_index : Node) : outcome Z3Translator :=
  o0 ← operand array_index 0;
  n0 ← node_at (xls_function_ tr) o0;
  match GetType n0 with
  | ArrayType _ size =>
      a ← GetValue tr o0;
      o1 ← operand array_index 1;
      i ← GetValue tr o1;
      let element := GetArrayElement size a i in
      note_and_return tr self element
  | _ => Fatal
  end.

Definition HandleTupleIndex (tr : Z3Translator) (self : NodePtr)
    (tuple_index : Node) (index : nat) : outcome Z3Translator :=
  o0 ← operand tuple_index 0;
  tuple ← GetValue tr o0;
  let tuple_sort := Z3_get_sort tuple in
  let proj_fn := Z3_get_tuple_sort_field_decl tuple_sort index in
  let result := Z3_mk_app proj_fn [tuple] in
  note_and_return tr self result.

(** Modelled from the spec: [AbstractEvaluate], the IR library's dispatch of
    a node to the abstract evaluator, for the three opcodes the translator
    lowers through it. *)
Definition AbstractEvaluate (op : Node) (operands : list (list Z3_ast))
    : outcome (list Z3_ast) :=
  input ← at_index operands 0;
  match kind op with
  | kEncode => w ← BitCountOrDie (GetType op); Done (Encode input w)
  | kOneHot kLsb => Done (OneHotLsbToMsb input)
  | kOneHot kMsb => Done (OneHotMsbToLsb input)
  | kReverse => Done (Reverse input)
  | _ => Failed kUnimplemented ("Unhandled node for abstract evaluation: "
                                  +:+ Node_ToString op)
  end.

Definition HandleUnaryViaAbstractEval (tr : Z3Translator) (self : NodePtr)
    (op : Node) : outcome Z3Translator :=
  _ ← XLS_CHECK (bool_decide (length (operands op) = 1%nat));
  o0 ← operand op 0;
  operand ← GetBitVec tr o0;
  in_bits ← operand_bit_count tr op 0;
  _ ← XLS_CHECK (bool_decide (Z.of_nat in_bits
                               = Z3OpTranslator.GetBvBitCount operand));
  let input_bits := Z3OpTranslator.ExplodeBits operand in
  output_bits ← AbstractEvaluate op [input_bits];
  let output_bits := reverse output_bits in
  result ← Z3OpTranslator.ConcatN output_bits;
  out_bits ← BitCountOrDie (GetType op);
  _ ← XLS_CHECK (bool_decide (Z.of_nat out_bits
                               = Z3OpTranslator.GetBvBitCount result));
  note_and_return tr self result.

(** [HandleUnary(op, f)]. *)
Definition HandleUnary (tr : Z3Translator) (self : NodePtr) (op : Node)
    (f : Z3_ast -> Z3_ast) : outcome Z3Translator :=
  o0 ← operand op 0;
  x ← GetBitVec tr o0;
  note_and_return tr self (f x).

Definition HandleEncode := HandleUnaryViaAbstractEval.
Definition HandleOneHot := HandleUnaryViaAbstractEval.
Definition HandleNeg tr self op := HandleUnary tr self op Z3_mk_bvneg.
Definition HandleNot tr self op := HandleUnary tr self op Z3_mk_bvnot.
Definition HandleReverse := HandleUnaryViaAbstractEval.

(** [HandleIdentity] aliases the operand's term. *)
Definition HandleIdentity (tr : Z3Translator) (self : NodePtr) (identity : Node)
    : outcome Z3Translator :=
  o0 ← operand identity 0;
  v ← GetValue tr o0;
  Done (NoteTranslation tr self v).

(** [HandleSignExtend] and [HandleZeroExtend]. *)
Definition HandleExtend (ext : Z -> Z3_ast -> Z3_ast) (tr : Z3Translator)
    (self : NodePtr) (op : Node) (new_bit_count : nat) : outcome Z3Translator :=
  input_bit_count ← operand_bit_count tr op 0;
  o0 ← operand op 0;
  x ← GetBitVec tr o0;
  let result := ext (Z.of_nat new_bit_count - Z.of_nat input_bit_count) x in
  note_and_return tr self result.
Definition HandleSignExtend := HandleExtend Z3_mk_sign_ext.
Definition HandleZeroExtend := HandleExtend Z3_mk_zero_ext.

Definition HandleBitSlice (tr : Z3Translator) (self : NodePtr) (bit_slice : Node)
    (start width : nat) : outcome Z3Translator :=
  let low := Z.of_nat start in
  let high := low + Z.of_nat width - 1 in
  o0 ← operand bit_slice 0;
  x ← GetBitVec tr o0;
  let result := Z3_mk_extract high low x in
  note_and_return tr self result.

(** The loop of [TranslateLiteralValue] over the elements of an array
    value. *)
Definition translate_elements (translate : Value -> outcome Z3_ast)
    : list Value -> outcome (list Z3_ast) :=
  fix go es :=
    match es with
    | [] => Done []
    | e :: es' =>
        translated ← translate e; rest ← go es'; Done (translated :: rest)
    end.

(** Its loop over the element types of a tuple type; it reads one element
    of the value per type. *)
Definition translate_fields (translate : Type_ -> Value -> outcome Z3_ast)
    : list Type_ -> list Value -> outcome (list Z3_ast) :=
  fix go ts es {struct es} :=
    match es, ts with
    | _, [] => Done []
    | [], _ :: _ => Fatal
    | e :: es', t :: ts' =>
        translated ← translate t e; rest ← go ts' es';
        Done (translated :: rest)
    end.

Fixpoint TranslateLiteralValue (value_type : Type_) (value : Value)
    {struct value} : outcome Z3_ast :=
  match value with
  | BitsValue bits => Done (Z3_mk_bv_numeral bits)
  | ArrayValue elems =>
      match value_type with
      | ArrayType element_type _ =>
          elements ←
            translate_elements (TranslateLiteralValue element_type) elems;
          CreateArray value_type elements
      | _ => Fatal
      end
  | TupleValue elems =>
      match value_type with
      | TupleType element_types =>
          elements ← translate_fields TranslateLiteralValue element_types elems;
          Done (CreateTuple value_type elements)
      | _ => Fatal
      end
  end.

Definition HandleLiteral (tr : Z3Translator) (self : NodePtr) (literal : Node)
    (value : Value) : outcome Z3Translator :=
  result ← TranslateLiteralValue (GetType literal) value;
  note_and_return tr self result.

(** The flattened values of the nodes listed
    ([FlattenValue(element->GetType(), GetValue(element))] of each). *)
Fixpoint FlattenValues (tr : Z3Translator) (os : list NodePtr)
    : outcome (list (list Z3_ast)) :=
  match os with
  | [] => Done []
  | o :: os' =>
      n ← node_at (xls_function_ tr) o;
      v ← GetValue tr o;
      rest ← FlattenValues tr os';
      Done (FlattenValue (GetType n) v :: rest)
  end.

(** [HandleSelect(node, evaluator)]; [cases] are the node's case operands. *)
Definition HandleSelect (tr : Z3Translator) (self : NodePtr) (node : Node)
    (cases : list NodePtr)
    (evaluator : list Z3_ast -> list (list Z3_ast) -> outcome (list Z3_ast))
    : outcome Z3Translator :=
  sel ← operand node 0;
  sel_value ← GetBitVec tr sel;
  let selector := Z3OpTranslator.ExplodeBits sel_value in
  case_elements ← FlattenValues tr cases;
  flat_results ← evaluator selector case_elements;
  let flat_results := reverse flat_results in
  result ← UnflattenZ3Ast (GetType node) flat_results;
  note_and_return tr self result.

Definition HandleOneHotSel (tr : Z3Translator) (self : NodePtr)
    (one_hot : Node) : outcome Z3Translator :=
  HandleSelect tr self one_hot (drop 1 (operands one_hot))
    (fun selector cases => OneHotSelect selector cases false).

Definition HandleSel (tr : Z3Translator) (self : NodePtr) (sel : Node)
    (has_default : bool) : outcome Z3Translator :=
  let rest := drop 1 (operands sel) in
  let cases := if has_default then take (length rest - 1) rest else rest in
  HandleSelect tr self sel cases (fun selector cases =>
    default_value ←
      (if has_default
       then
         d ← at_index rest (length rest - 1);
         dn ← node_at (xls_function_ tr) d;
         dv ← GetValue tr d;
         Done (Some (FlattenValue (GetType dn) dv))
       else Done None);
    Select selector cases default_value).

(** [HandleMul(mul, is_signed)]: notes the product; it returns nothing. *)
Definition HandleMul (tr : Z3Translator) (self : NodePtr) (mul : Node)
    (is_signed : bool) : outcome (Z3Translator * Z3_ast) :=
  o0 ← operand mul 0; lhs ← GetValue tr o0;
  o1 ← operand mul 1; rhs ← GetValue tr o1;
  let lhs_size := Z3_get_bv_sort_size (Z3_get_sort lhs) in
  let rhs_size := Z3_get_bv_sort_size (Z3_get_sort rhs) in
  result_size ← BitCountOrDie (GetType mul);
  let result_size := Z.of_nat result_size in
  let operand_size := Z.max lhs_size rhs_size in
  let operand_size := Z.max operand_size result_size in
  let '(lhs, rhs, operand_size) :=
    if is_signed
    then
      (if bool_decide (lhs_size ≠ operand_size)
       then Z3_mk_sign_ext (operand_size - lhs_size) lhs else lhs,
       if bool_decide (rhs_size ≠ operand_size)
       then Z3_mk_sign_ext (operand_size - rhs_size) rhs else rhs,
       operand_size)
    else
      let operand_size := operand_size + 1 in
      (if bool_decide (lhs_size ≠ operand_size)
       then Z3_mk_zero_ext (operand_size - lhs_size) lhs else lhs,
       if bool_decide (rhs_size ≠ operand_size)
       then Z3_mk_zero_ext (operand_size - rhs_size) rhs else rhs,
       operand_size) in
  let result := Z3_mk_bvmul lhs rhs in
  let result :=
    if bool_decide (operand_size ≠ result_size)
    then Z3_mk_extract (result_size - 1) 0 result else result in
  Done (NoteTranslation tr self result, result).

Definition HandleSMul (tr : Z3Translator) (self : NodePtr) (mul : Node)
    : outcome Z3Translator :=
  '(tr', result) ← HandleMul tr self mul true;
  _ ← XLS_RETURN_IF_ERROR (seh_status result);
  Done tr'.

Definition HandleUMul (tr : Z3Translator) (self : NodePtr) (mul : Node)
    : outcome Z3Translator :=
  '(tr', result) ← HandleMul tr self mul false;
  _ ← XLS_RETURN_IF_ERROR (seh_status result);
  Done tr'.

Definition DefaultHandler (node : Node) : outcome Z3Translator :=
  Failed kUnimplemented ("Unhandled node for conversion: " +:+ Node_ToString node).

(** [Node::Accept]: the handler of the node's opcode; an opcode without one
    goes to [DefaultHandler]. *)
Definition VisitNode (tr : Z3Translator) (self : NodePtr) (n : Node)
    : outcome Z3Translator :=
  match kind n with
  | kParam name => HandleParam tr self n name
  | kLiteral value => HandleLiteral tr self n value
  | kAdd => HandleAdd tr self n
  | kSub => HandleSub tr self n
  | kULe => HandleULe tr self n
  | kULt => HandleULt tr self n
  | kUGe => HandleUGe tr self n
  | kUGt => HandleUGt tr self n
  | kSGt => HandleSGt tr self n
  | kSLe => HandleSLe tr self n
  | kSLt => HandleSLt tr self n
  | kSGe => HandleSGe tr self n
  | kEq => HandleEq tr self n
  | kNe => HandleNe tr self n
  | kShra => HandleShra tr self n
  | kShrl => HandleShrl tr self n
  | kShll => HandleShll tr self n
  | kAnd => HandleNaryAnd tr self n
  | kNand => HandleNaryNand tr self n
  | kNor => HandleNaryNor tr self n
  | kOr => HandleNaryOr tr self n
  | kXor => HandleNaryXor tr self n
  | kConcat => HandleConcat tr self n
  | kArray => HandleArray tr self n
  | kTuple => HandleTuple tr self n
  | kArrayIndex => HandleArrayIndex tr self n
  | kTupleIndex index => HandleTupleIndex tr self n index
  | kEncode => HandleEncode tr self n
  | kOneHot _ => HandleOneHot tr self n
  | kNeg => HandleNeg tr self n
  | kNot => HandleNot tr self n
  | kReverse => HandleReverse tr self n
  | kIdentity => HandleIdentity tr self n
  | kSignExt new_bit_count => HandleSignExtend tr self n new_bit_count
  | kZeroExt new_bit_count => HandleZeroExtend tr self n new_bit_count
  | kBitSlice start width => HandleBitSlice tr self n start width
  | kOneHotSel => HandleOneHotSel tr self n
  | kSel has_default => HandleSel tr self n has_default
  | kSMul => HandleSMul tr self n
  | kUMul => HandleUMul tr self n
  | kOther _ => DefaultHandler n
  end.

(** Modelled from the spec: [Function::Accept], in the IR library: "nodes
    are visited in data-dependency order; each visit emits one term"; the
    first status that is not OK ends the walk.  [first] is the pointer of the
    first node of [ns]. *)
Fixpoint AcceptNodes (tr : Z3Translator) (first : NodePtr) (ns : list Node)
    : outcome Z3Translator :=
  match ns with
  | [] => Done tr
  | n :: ns' => tr' ← VisitNode tr first n; AcceptNodes tr' (S first) ns'
  end.

Definition Accept (f : Function) (tr : Z3Translator) : outcome Z3Translator :=
  AcceptNodes tr 0%nat (nodes f).

(** [CreateAndTranslate(function)]: the translator owns its context.  On a
    failure the translator is destroyed with its context. *)
Definition CreateAndTranslate (function : Function) (w : Z3_world)
    : outcome Z3Translator * Z3_world :=
  let '(config, w1) := Z3_mk_config w in
  let w2 := Z3_set_param_value config "proof" "true" w1 in
  let '(translator, w3) := Z3Translator_owned config function w2 in
  match Accept function translator with
  | Done tr => (Done tr, w3)
  | Failed c m => (Failed c m, Z3Translator_destroy translator w3)
  | Fatal => (Fatal, w3)
  end.

(** [CreateAndTranslate(ctx, function, imported_params)]: the context is the
    caller's. *)
Definition CreateAndTranslate_borrowed (ctx : Z3_context) (function : Function)
    (imported_params : list Z3_ast) : outcome Z3Translator :=
  let translator := Z3Translator_borrowed ctx function imported_params in
  Accept function translator.

(** ** Predicates and [TryProve] *)

Inductive Predicate :=
| EqualToZero
| NotEqualToZero
| EqualToNode (node : NodePtr).

Inductive Z3_lbool := Z3_L_FALSE | Z3_L_UNDEF | Z3_L_TRUE.

#[global] Instance Z3_lbool_eq_dec : EqDecision Z3_lbool.
Proof. solve_decision. Defined.

Definition PredicateToObjective (p : Predicate) (a : Z3_ast)
    (translator : Z3Translator) : outcome Z3_ast :=
  objective ←
    match p with
    | EqualToZero => Done (Z3OpTranslator.NeZeroBool a)
    | NotEqualToZero => Done (Z3OpTranslator.EqZeroBool a)
    | EqualToNode node =>
        value ← GetTranslation translator node;
        if bool_decide (GetValueKind value ≠ Z3_BV_SORT)
        then
          n ← node_at (xls_function_ translator) node;
          Failed kInvalidArgument
            ("Cannot compare to non-bits-valued node: " +:+ Node_ToString n)
        else
          let b := value in
          Done (Z3OpTranslator.NeBool a b)
    end;
  _ ← XLS_RETURN_IF_ERROR (seh_status objective);
  Done objective.

(** [TryProve].  [Z3_solver_check] is the solver: its verdict on an asserted
    objective under the context's parameters. *)
Definition TryProve
    (Z3_solver_check : gmap string string -> Z3_ast -> Z3_lbool)
    (f : Function) (subject : NodePtr) (p : Predicate) (timeout : Duration)
    (w : Z3_world) : outcome bool * Z3_world :=
  match CreateAndTranslate f w with
  | (Done translator, w1) =>
      let w2 := SetTimeout translator timeout w1 in
      let finish (r : outcome bool) :=
        match r with
        | Fatal => (r, w2)
        | _ => (r, Z3Translator_destroy translator w2)
        end in
      finish (
        value ← GetTranslation translator subject;
        if bool_decide (GetValueKind value ≠ Z3_BV_SORT)
        then
          n ← node_at f subject;
          Failed kInvalidArgument
            ("Cannot prove properties of non-bits-typed node: "
               +:+ Node_ToString n)
        else
          a ← GetTranslation translator subject;
          objective ← PredicateToObjective p a translator;
          let ctx_params := default ∅ (contexts w2 !! ctx_ translator) in
          let satisfiable := Z3_solver_check ctx_params objective in
          if bool_decide (satisfiable = Z3_L_FALSE)
          then Done true
          else Done false)
  | (Failed c m, w1) => (Failed c m, w1)
  | (Fatal, w1) => (Fatal, w1)
  end.

(** ** Example inputs *)

(** A function comparing its two 2-bit parameters, with both encoded. *)
Definition sgt_function : Function :=
  {| nodes := [ {| kind := kParam "x"; operands := []; GetType := BitsType 2 |};
                {| kind := kParam "y"; operands := []; GetType := BitsType 2 |};
                {| kind := kSGt; operands := [0%nat; 1%nat];
                   GetType := BitsType 1 |} ];
     params := [0%nat; 1%nat];
     return_value := 2%nat |}.

Definition sgt_translator : Z3Translator :=
  {| config_ := Some 0%nat; ctx_ := 0%nat; borrowed_context_ := false;
     imported_params_ := None;
     translations_ := {[ 0%nat := AConst "x" (BvSort 2);
                         1%nat := AConst "y" (BvSort 2) ]};
     xls_function_ := sgt_function |}.

(** In the model [x = 1], [y = 3] (that is, -1), [x] is signed-greater. *)
Definition sgt_model : Z3_model :=
  fun name _ => if bool_decide (name = "x") then VBv 2 1 else VBv 2 3.

(** The multiply width rule, in the spec's words: with [W] the largest of
    the two operand widths and the result width (one more for an unsigned
    multiply), both operands are extended to [W] (sign extension when
    signed, zero extension otherwise), multiplied, and the product is
    truncated to the result width. *)
Definition Mul_width_rule (is_signed : bool) (l r w : nat) (lhs rhs : Z3_ast)
    : Z3_ast :=
  let W := Z.of_nat (Nat.max (Nat.max l r) w) + (if is_signed then 0 else 1) in
  let ext := if is_signed then Z3_mk_sign_ext else Z3_mk_zero_ext in
  Z3_mk_extract (Z.of_nat w - 1) 0
    (Z3_mk_bvmul (ext (W - Z.of_nat l) lhs) (ext (W - Z.of_nat r) rhs)).

(** A signed multiply of a 2-bit and a 3-bit parameter into 4 bits. *)
Definition smul_function : Function :=
  {| nodes := [ {| kind := kParam "x"; operands := []; GetType := BitsType 2 |};
                {| kind := kParam "y"; operands := []; GetType := BitsType 3 |};
                {| kind := kSMul; operands := [0%nat; 1%nat];
                   GetType := BitsType 4 |} ];
     params := [0%nat; 1%nat];
     return_value := 2%nat |}.

Definition smul_translator : Z3Translator :=
  {| config_ := Some 0%nat; ctx_ := 0%nat; borrowed_context_ := false;
     imported_params_ := None;
     translations_ := {[ 0%nat := AConst "x" (BvSort 2);
                         1%nat := AConst "y" (BvSort 3) ]};
     xls_function_ := smul_function |}.

(** [x = 3] (that is, -1) and [y = 5] (that is, -3). *)
Definition smul_model : Z3_model :=
  fun name _ => if bool_decide (name = "x") then VBv 2 3 else VBv 3 5.


(** A translator in which node 0, a tuple, is translated to a tuple
    constant and node 1, 8 bits wide, to a bit-vector constant. *)
Definition objective_function : Function :=
  {| nodes := [ {| kind := kParam "t"; operands := [];
                   GetType := TupleType [] |};
                {| kind := kParam "m"; operands := [];
                   GetType := BitsType 8 |} ];
     params := [0%nat; 1%nat];
     return_value := 1%nat |}.

Definition objective_translator : Z3Translator :=
  {| config_ := Some 0%nat; ctx_ := 0%nat; borrowed_context_ := false;
     imported_params_ := None;
     translations_ := {[ 0%nat := AConst "t" (TypeToSort (TupleType []));
                         1%nat := AConst "m" (BvSort 8) ]};
     xls_function_ := objective_function |}.

(** ** Values of an IR type and their comparison *)

(** [all2 P ts vs]: the lists have one length and [P] holds of each pair. *)
Definition all2 {A B} (P : A -> B -> Prop) : list A -> list B -> Prop :=
  fix go l1 l2 :=
    match l1, l2 with
    | [], [] => True
    | a :: l1', b :: l2' => P a b /\ go l1' l2'
    | _, _ => False
    end.

(** [val_of_type t v]: [v] is a value of the sort [TypeToSort t]: a
    bit-vector of the width within its range, a tuple of values of the
    element types, an array whose every element, over the index sort, is a
    value of the element type. *)
Fixpoint val_of_type (t : Type_) (v : z3val) : Prop :=
  match t with
  | BitsType n => exists x, v = VBv n x /\ 0 <= x < bv_modulus n
  | TupleType ts => exists vs, v = VTup vs /\ all2 val_of_type ts vs
  | ArrayType e n =>
      exists f, v = VArr f /\
        forall i, 0 <= i < bv_modulus (MinBitCountUnsigned n) ->
                  val_of_type e (f i)
  end.

(** Triples of two lists of values against a list of types. *)
Definition all3 {A B} (P : A -> B -> B -> Prop)
    : list A -> list B -> list B -> Prop :=
  fix go l1 l2 l3 :=
    match l1, l2, l3 with
    | [], [], [] => True
    | a :: l1', b :: l2', c :: l3' => P a b c /\ go l1' l2' l3'
    | _, _, _ => False
    end.

(** [equiv_on t v1 v2]: [v1] and [v2] are the same value of type [t]: the
    same bit-vector, tuples of equivalent fields, arrays that agree on every
    index of the array type, [0 .. size - 1]. *)
Fixpoint equiv_on (t : Type_) (v1 v2 : z3val) : Prop :=
  match t with
  | BitsType _ => v1 = v2
  | TupleType ts =>
      exists vs1 vs2, v1 = VTup vs1 /\ v2 = VTup vs2 /\ all3 equiv_on ts vs1 vs2
  | ArrayType e n =>
      exists f g, v1 = VArr f /\ v2 = VArr g /\
        forall i, 0 <= i < Z.of_nat n -> equiv_on e (f i) (g i)
  end.

(** Every bit-vector inside the type has at least one bit. *)
Fixpoint bits_positive (t : Type_) : Prop :=
  match t with
  | BitsType n => (1 <= n)%nat
  | TupleType ts => foldr (fun ti acc => bits_positive ti /\ acc) True ts
  | ArrayType e _ => bits_positive e
  end.

(** The value of [ZeroOfSort (TypeToSort t)]. *)
Fixpoint zero_value (t : Type_) : z3val :=
  match t with
  | BitsType n => VBv n 0
  | TupleType ts => VTup (map zero_value ts)
  | ArrayType e _ => VArr (fun _ => zero_value e)
  end.

(** An array of three 8-bit elements indexed by a 3-bit parameter. *)
Definition array_index_function : Function :=
  {| nodes := [ {| kind := kParam "a"; operands := [];
                   GetType := ArrayType (BitsType 8) 3 |};
                {| kind := kParam "i"; operands := []; GetType := BitsType 3 |};
                {| kind := kArrayIndex; operands := [0%nat; 1%nat];
                   GetType := BitsType 8 |} ];
     params := [0%nat; 1%nat];
     return_value := 2%nat |}.

Definition array_index_translator : Z3Translator :=
  {| config_ := Some 0%nat; ctx_ := 0%nat; borrowed_context_ := false;
     imported_params_ := None;
     translations_ :=
       {[ 0%nat := AConst "a" (TypeToSort (ArrayType (BitsType 8) 3));
          1%nat := AConst "i" (BvSort 3) ]};
     xls_function_ := array_index_function |}.

(** The array holds 10, 20, 30 (and 40 at the unused index 3); the index is
    4, past the end of the array. *)
Definition array_index_model : Z3_model :=
  fun name _ =>
    if bool_decide (name = "a") then VArr (fun j => VBv 8 (10 * (j + 1)))
    else VBv 3 4.

(** A node that is a parameter of a zero-element array type, one that is
    an empty Array operation, and the encoder of the function whose only
    node is [n]. *)
Definition empty_array_param : Node :=
  {| kind := kParam "a"; operands := [];
     GetType := ArrayType (BitsType 8) 0 |}.

Definition empty_array_node : Node :=
  {| kind := kArray; operands := []; GetType := ArrayType (BitsType 8) 0 |}.

Definition empty_array_translator (n : Node) : Z3Translator :=
  {| config_ := Some 0%nat; ctx_ := 0%nat; borrowed_context_ := false;
     imported_params_ := None;
     translations_ := ∅;
     xls_function_ :=
       {| nodes := [n]; params := []; return_value := 0%nat |} |}.

(** The round trip through the flat form, as [HandleSelect] makes it: the
    value is flattened, the flat list reversed, and the type's term rebuilt
    from it.  [roundtrips M t x v]: for a term [x] with value [v], the
    rebuilt term exists, has the sort of [t], and has a value equivalent to
    [v]. *)
Definition roundtrips (M : Z3_model) (t : Type_) (x : Z3_ast) (v : z3val)
    : Prop :=
  exists r v',
    UnflattenZ3Ast t (reverse (FlattenValue t x)) = Done r
    /\ Z3_get_sort r = Some (TypeToSort t)
    /\ eval M r = Some v'
    /\ equiv_on t v' v.

(** Field [i] of a tuple term, as [FlattenValue] reads it. *)
Definition tuple_field (value : Z3_ast) (i : nat) : Z3_ast :=
  Z3_mk_app (Z3_get_tuple_sort_field_decl (Z3_get_sort value) i) [value].

(** Element [i] of an array term of [size] elements, as [FlattenValue]
    reads it. *)
Definition array_element (size : nat) (value : Z3_ast) (i : nat) : Z3_ast :=
  GetArrayElement size value
    (Z3_mk_int64 (Z.of_nat i) (Some (Z3_mk_bv_sort (MinBitCountUnsigned size)))).

(** The bits [j], ..., [j + m - 1] of [v] written in the opposite order, bit
    [j] the most significant: what [ConcatN], which takes the most
    significant bit first, makes of bits listed from the least significant
    one. *)
Fixpoint reversed_bits (v : Z) (j m : nat) : Z :=
  match m with
  | O => 0
  | S m' =>
      Z.b2z (Z.testbit v (Z.of_nat j)) * 2 ^ Z.of_nat m'
      + reversed_bits v (S j) m'
  end.

(** The 2-bit constant [x] with value 1. *)
Definition two_bit_model : Z3_model := fun _ _ => VBv 2 1.

(** A pair of a 2-bit and a 3-bit value, and a model giving the constant
    [p] of that sort the value (1, 5). *)
Definition pair_type : Type_ := TupleType [BitsType 2; BitsType 3].
Definition pair_model : Z3_model := fun _ _ => VTup [VBv 2 1; VBv 3 5].

(** An array of three bits, and a model in which the constant [a] of that
    sort holds 1 at every index of its 2-bit index sort, the unused index 3
    included. *)
Definition bit_array_type : Type_ := ArrayType (BitsType 1) 3.
Definition bit_array_model : Z3_model := fun _ _ => VArr (fun _ => VBv 1 1).

(** The context parameters the solver of [TryProve] runs under. *)
Definition solver_params (tr : Z3Translator) (timeout : Duration)
    (w : Z3_world) : gmap string string :=
  default ∅ (contexts (SetTimeout tr timeout w) !! ctx_ tr).

(** ** Well-typed functions *)

(** [value_of_type t v]: the literal value [v] is a value of the IR type
    [t]. *)
Fixpoint value_of_type (t : Type_) (v : Value) {struct v} : Prop :=
  match v, t with
  | BitsValue bits, BitsType n => length bits = n
  | ArrayValue es, ArrayType e size =>
      length es = size /\ foldr (fun x acc => value_of_type e x /\ acc) True es
  | TupleValue es, TupleType ts => all2 (fun x ti => value_of_type ti x) es ts
  | _, _ => False
  end.

(** The types of the operands of [n], when all of them are nodes of [f]. *)
Definition operand_types (f : Function) (n : Node) : option (list Type_) :=
  mapM (fun o : NodePtr => GetType <$> nodes f !! o) (operands n).

(** Modelled from the spec: the type the IR gives a node from the types of
    its operands ("Comparisons produce a 1-bit result", "Extend ... by
    [new_width - input_width]", "BitSlice(start,width)", "a term of the op's
    declared type"); the IR library's verifier checks these rules.  Nothing
    is asked of Encode, OneHot, Reverse and the multiplies beyond what their
    handlers check themselves. *)
Definition node_typed (f : Function) (n : Node) : Prop :=
  match operand_types f n with
  | None => False
  | Some ots =>
      let t := GetType n in
      match kind n with
      | kParam _ => True
      | kLiteral value => value_of_type t value
      | kAdd | kSub | kAnd | kNand | kNor | kOr | kXor
      | kNeg | kNot | kIdentity => Forall (fun ot => ot = t) ots
      | kShra | kShrl | kShll => ots !! 0%nat = Some t
      | kULe | kULt | kUGe | kUGt | kSGt | kSLe | kSLt | kSGe | kEq | kNe =>
          t = BitsType 1
      | kConcat =>
          t = BitsType (foldr (fun ot acc => GetFlatBitCount ot + acc)%nat 0%nat ots)
      | kArray =>
          match t with
          | ArrayType e size =>
              size = length ots /\ Forall (fun ot => ot = e) ots
          | _ => False
          end
      | kTuple => t = TupleType ots
      | kArrayIndex =>
          match ots with
          | ArrayType e _ :: _ => t = e
          | _ => False
          end
      | kTupleIndex index =>
          match ots with
          | TupleType ts :: _ => ts !! index = Some t
          | _ => False
          end
      | kEncode | kOneHot _ | kReverse => True
      | kSignExt new_bit_count | kZeroExt new_bit_count =>
          t = BitsType new_bit_count
      | kBitSlice _ width => t = BitsType width
      | kOneHotSel | kSel _ => Forall (fun ot => ot = t) (drop 1 ots)
      | kSMul | kUMul => True
      | kOther _ => True
      end
  end.

Definition function_typed (f : Function) : Prop :=
  Forall (node_typed f) (nodes f).

(** The terms a caller supplies for the parameters have the sorts of the
    parameters' types. *)
Definition imports_sorted (f : Function) (imported : list Z3_ast) : Prop :=
  forall p n i a,
    nodes f !! p = Some n -> GetParamIndex f p = Done i ->
    imported !! i = Some a ->
    Z3_get_sort a = Some (TypeToSort (GetType n)).

(** Every recorded term is that of a node of the function and has the sort
    of the node's type. *)
Definition translations_sorted (tr : Z3Translator) : Prop :=
  forall p a,
    translations_ tr !! p = Some a ->
    exists n, nodes (xls_function_ tr) !! p = Some n
              /\ Z3_get_sort a = Some (TypeToSort (GetType n)).

(** The structural postcondition of an encoding: every node of [f] has a
    recorded term, of the sort of the node's type and, for a Bits node, of
    the width of its flat bit count. *)
Definition encoded (f : Function) (tr : Z3Translator) : Prop :=
  forall p n,
    nodes f !! p = Some n ->
    exists a,
      GetTranslation tr p = Done a
      /\ Z3_get_sort a = Some (TypeToSort (GetType n))
      /\ (forall k, GetType n = BitsType k ->
            Z3OpTranslator.GetBvBitCount a
            = Z.of_nat (GetFlatBitCount (GetType n))).

(** A term is a single bit. *)
Definition is_bit (a : Z3_ast) : Prop := Z3_get_sort a = Some (BvSort 1).

(** A term built by a bit-vector operation: if the solver accepts it, it
    is a bit-vector. *)
Definition bv_headed (a : Z3_ast) : Prop :=
  match a with
  | ABvNumeral _ | AUn _ _ | ABin _ _ _ | AConcat _ _
  | AZeroExt _ _ | ASignExt _ _ | AExtract _ _ _ => True
  | _ => False
  end.

(** What a visit of node [n] at [self] does when it keeps the invariant:
    it records one term, of the sort of the node's type. *)
Definition sorted_visit (tr : Z3Translator) (self : NodePtr) (n : Node)
    (tr' : Z3Translator) : Prop :=
  exists a, tr' = NoteTranslation tr self a
            /\ Z3_get_sort a = Some (TypeToSort (GetType n)).

(** The imported parameter terms of a translator made over a caller's
    context are well sorted. *)
Definition imports_ok (tr : Z3Translator) : Prop :=
  match imported_params_ tr with
  | None => True
  | Some imported => imports_sorted (xls_function_ tr) imported
  end.

(** A process in which no solver object has been made yet. *)
Definition no_solver_objects : Z3_world :=
  {| configs := ∅; contexts := ∅; next_config := 0%nat; next_context := 0%nat |}.

(** [f(x: bits[8]) = x | ~x]. *)
Definition or_not_function : Function :=
  {| nodes := [ {| kind := kParam "x"; operands := []; GetType := BitsType 8 |};
                {| kind := kNot; operands := [0%nat]; GetType := BitsType 8 |};
                {| kind := kOr; operands := [0%nat; 1%nat];
                   GetType := BitsType 8 |} ];
     params := [0%nat];
     return_value := 2%nat |}.

(** A function that is its one 8-bit parameter, and a 4-bit term a caller
    may import for it. *)
Definition param_function : Function :=
  {| nodes := [ {| kind := kParam "x"; operands := []; GetType := BitsType 8 |} ];
     params := [0%nat];
     return_value := 0%nat |}.

Definition narrow_import : Z3_ast := Z3OpTranslator.MakeBvParam 4 "x".

(** ** Operands of a visit *)

(** [operand_term tr op i a n]: operand [i] of [op] is a node of type
    [Bits(n)] of the translator's function, and the term recorded for it,
    [a], is a bit-vector of [n] bits. *)
Definition operand_term (tr : Z3Translator) (op : Node) (i : nat)
    (a : Z3_ast) (n : nat) : Prop :=
  exists o nd,
    operands op !! i = Some o
    /\ nodes (xls_function_ tr) !! o = Some nd
    /\ GetType nd = BitsType n
    /\ translations_ tr !! o = Some a
    /\ Z3_get_sort a = Some (BvSort n).

(** A bit: 1 for [true], 0 for [false]. *)
Definition bit_value (b : bool) : Z := if b then 1 else 0.

(** ** The value of a literal *)

(** [literal_denotes t v z]: the solver value [z] is the literal [v] of
    type [t]: the bit-vector of its bits (the first bit is the least
    significant), the tuple of its elements, an array that holds element
    [i] at index [i]. *)
Inductive literal_denotes : Type_ -> Value -> z3val -> Prop :=
| denotes_bits bits n :
    n = length bits ->
    literal_denotes (BitsType n) (BitsValue bits) (VBv n (bits_to_Z bits))
| denotes_array e size es f :
    size = length es ->
    (forall i x, es !! i = Some x -> literal_denotes e x (f (Z.of_nat i))) ->
    literal_denotes (ArrayType e size) (ArrayValue es) (VArr f)
| denotes_tuple ts es zs :
    Forall3 literal_denotes ts es zs ->
    literal_denotes (TupleType ts) (TupleValue es) (VTup zs).

(** [encoding_of f tr]: [tr] is the translator a successful
    [CreateAndTranslate] of [f] returned, in either ownership mode. *)
Definition encoding_of (f : Function) (tr : Z3Translator) : Prop :=
  (exists w w', CreateAndTranslate f w = (Done tr, w'))
  \/ (exists ctx imported, CreateAndTranslate_borrowed ctx f imported = Done tr).


(** The identifiers the next configuration and the next context will get
    are not in use. *)
Definition fresh_ids (w : Z3_world) : Prop :=
  configs w !! next_config w = None /\ contexts w !! next_context w = None.

(** ** Floating point *)

(** The integer a sort kind prints as: the value of the enumerator in the
    solver's [Z3_sort_kind]. *)
Definition Z3_sort_kind_to_int (k : Z3_sort_kind) : Z :=
  match k with
  | Z3_BOOL_SORT => 1
  | Z3_BV_SORT => 4
  | Z3_ARRAY_SORT => 5
  | Z3_DATATYPE_SORT => 6
  | Z3_UNKNOWN_SORT => 1000
  end.

(** A floating-point term: [Z3_mk_fpa_fp] of a sign, an exponent and a
    significand.  The translator builds such terms in [ToFloat32] only and
    records none of them, so they are kept apart from [Z3_ast]. *)
Inductive Z3_fpa_ast :=
| Z3_mk_fpa_fp (sgn exp sig : Z3_ast).

(** The lambda [get_fp_component] of [ToFloat32]. *)
Definition get_fp_component (nodes : list Z3_ast) (index : nat)
    (expected_width : Z) : outcome Z3_ast :=
  node ← at_index nodes index;
  let sort := Z3_get_sort node in
  let sort_kind := Z3_get_sort_kind sort in
  if bool_decide (sort_kind ≠ Z3_BV_SORT)
  then Failed kInvalidArgument
         ("Wrong sort for floating-point components: need Z3_BV_SORT, got "
            +:+ pretty (Z3_sort_kind_to_int sort_kind))
  else
    let bit_width := Z3_get_bv_sort_size sort in
    if bool_decide (bit_width ≠ expected_width)
    then Failed kInvalidArgument
           ("Invalid width for FP component " +:+ pretty index
              +:+ ": got " +:+ pretty bit_width
              +:+ ", need " +:+ pretty expected_width)
    else Done node.

(** [ToFloat32(absl::Span<Z3_ast> nodes)]. *)
Definition ToFloat32 (nodes : list Z3_ast) : outcome Z3_fpa_ast :=
  if bool_decide (length nodes ≠ 3%nat)
  then Failed kInvalidArgument
         ("Incorrect number of arguments - need 3, got "
            +:+ pretty (length nodes))
  else
    sign ← get_fp_component nodes 0 1;
    exponent ← get_fp_component nodes 1 8;
    significand ← get_fp_component nodes 2 23;
    Done (Z3_mk_fpa_fp sign exponent significand).

(** [ToFloat32(Z3_ast tuple)]: the first three fields of the tuple. *)
Definition ToFloat32_tuple (tuple : Z3_ast) : outcome Z3_fpa_ast :=
  let tuple_sort := Z3_get_sort tuple in
  let components :=
    (fun i : nat =>
       Z3_mk_app (Z3_get_tuple_sort_field_decl tuple_sort i) [tuple])
      <$> seq 0 3 in
  ToFloat32 components.

(** [f(x: bits[8]) = (x, x)], a function whose return value is a tuple. *)
Definition pair_function : Function :=
  {| nodes := [ {| kind := kParam "x"; operands := []; GetType := BitsType 8 |};
                {| kind := kTuple; operands := [0%nat; 0%nat];
                   GetType := TupleType [BitsType 8; BitsType 8] |} ];
     params := [0%nat];
     return_value := 1%nat |}.

(** * Properties *)

(** ** Arithmetic of bit-vector values *)

Lemma bv_modulus_pos w : 0 < bv_modulus w.
Proof. unfold bv_modulus. apply Z.pow_pos_nonneg; lia. Qed.

Lemma bv_modulus_0 : bv_modulus 0 = 1.
Proof. reflexivity. Qed.

Lemma bv_modulus_S w : bv_modulus (S w) = 2 * bv_modulus w.
Proof.
  unfold bv_modulus. rewrite Nat2Z.inj_succ, Z.pow_succ_r by lia. reflexivity.
Qed.

Lemma bv_modulus_add w1 w2 :
  bv_modulus (w1 + w2) = bv_modulus w1 * bv_modulus w2.
Proof.
  unfold bv_modulus. rewrite Nat2Z.inj_add, Z.pow_add_r by lia. reflexivity.
Qed.

Lemma bv_modulus_le w1 w2 : (w1 <= w2)%nat -> bv_modulus w1 <= bv_modulus w2.
Proof. intros. unfold bv_modulus. apply Z.pow_le_mono_r; lia. Qed.

Lemma bv_modulus_divide w1 w2 :
  (w1 <= w2)%nat -> exists k, 0 < k /\ bv_modulus w2 = k * bv_modulus w1.
Proof.
  intros Hle. exists (bv_modulus (w2 - w1)). split; [apply bv_modulus_pos|].
  rewrite <- bv_modulus_add. f_equal. lia.
Qed.

Lemma bv_wrap_range w v : 0 <= bv_wrap w v < bv_modulus w.
Proof. apply Z.mod_pos_bound, bv_modulus_pos. Qed.

Lemma bv_wrap_small w v : 0 <= v < bv_modulus w -> bv_wrap w v = v.
Proof. apply Z.mod_small. Qed.

Lemma bv_wrap_unique w v q r :
  0 <= r < bv_modulus w -> v = q * bv_modulus w + r -> bv_wrap w v = r.
Proof.
  intros Hr ->. unfold bv_wrap.
  rewrite Z.add_comm, Z.mod_add by (pose proof (bv_modulus_pos w); lia).
  apply Z.mod_small, Hr.
Qed.

(** Wrapping to a width, then to a smaller one, is wrapping to the smaller. *)
Lemma bv_wrap_wrap_le w1 w2 v :
  (w1 <= w2)%nat -> bv_wrap w1 (bv_wrap w2 v) = bv_wrap w1 v.
Proof.
  intros Hle. destruct (bv_modulus_divide w1 w2 Hle) as (k & Hk & Hm).
  pose proof (bv_modulus_pos w1) as H1. pose proof (bv_modulus_pos w2) as H2.
  apply (bv_wrap_unique w1 _ (v / bv_modulus w1 - k * (v / bv_modulus w2))).
  - apply bv_wrap_range.
  - unfold bv_wrap.
    pose proof (Z.div_mod v (bv_modulus w1) ltac:(lia)).
    pose proof (Z.div_mod v (bv_modulus w2) ltac:(lia)).
    rewrite Hm in *. nia.
Qed.

Lemma bv_wrap_mul w x y :
  bv_wrap w (bv_wrap w x * bv_wrap w y) = bv_wrap w (x * y).
Proof.
  unfold bv_wrap. symmetry. apply Z.mul_mod.
  pose proof (bv_modulus_pos w); lia.
Qed.

Lemma bv_wrap_sub w x y :
  bv_wrap w (bv_wrap w x - bv_wrap w y) = bv_wrap w (x - y).
Proof. unfold bv_wrap. symmetry. apply Zminus_mod. Qed.

Lemma bv_modulus_pred w :
  (1 <= w)%nat -> bv_modulus w = 2 * bv_modulus (w - 1).
Proof. intros. rewrite <- bv_modulus_S. f_equal. lia. Qed.

Lemma bv_signed_range w v :
  (1 <= w)%nat -> 0 <= v < bv_modulus w ->
  - bv_modulus (w - 1) <= bv_signed w v < bv_modulus (w - 1).
Proof.
  intros Hw Hv. unfold bv_signed.
  rewrite (bv_modulus_pred w Hw) in *.
  case_bool_decide; lia.
Qed.

Lemma bv_wrap_signed w v : 0 <= v < bv_modulus w -> bv_wrap w (bv_signed w v) = v.
Proof.
  intros Hv. unfold bv_signed. case_bool_decide.
  - apply bv_wrap_small, Hv.
  - apply (bv_wrap_unique w _ (-1)); lia.
Qed.

(** Sign extension keeps the signed reading. *)
Lemma bv_signed_wrap w1 w2 v :
  (1 <= w1 <= w2)%nat -> 0 <= v < bv_modulus w1 ->
  bv_signed w2 (bv_wrap w2 (bv_signed w1 v)) = bv_signed w1 v.
Proof.
  intros Hw Hv.
  pose proof (bv_signed_range w1 v ltac:(lia) Hv) as Hs.
  pose proof (bv_modulus_le (w1 - 1) (w2 - 1) ltac:(lia)) as Hle.
  pose proof (bv_modulus_pred w2 ltac:(lia)) as Hm.
  pose proof (bv_modulus_pos (w2 - 1)).
  destruct (Z_lt_le_dec (bv_signed w1 v) 0) as [Hneg|Hpos].
  - rewrite (bv_wrap_unique w2 _ (-1) (bv_signed w1 v + bv_modulus w2)) by lia.
    unfold bv_signed at 1. case_bool_decide; lia.
  - rewrite bv_wrap_small by lia.
    unfold bv_signed at 1. case_bool_decide; lia.
Qed.

(** ** Comparisons *)

Lemma bool_decide_true_eq (P : Prop) `{Decision P} : P -> bool_decide P = true.
Proof. intros. by apply bool_decide_eq_true. Qed.

Lemma bool_decide_false_eq (P : Prop) `{Decision P} : ~ P -> bool_decide P = false.
Proof. intros. by apply bool_decide_eq_false. Qed.

(** Decide every [bool_decide] of the goal, closing the impossible cases. *)
Ltac decide_all :=
  repeat (case_bool_decide; cbn [Z3_get_bv_sort_size] in *;
          try lia; try congruence; try done).

(** ** Induction over types and sorts *)

Lemma Type_ind_nested (P : Type_ -> Prop) :
  (forall n, P (BitsType n)) ->
  (forall ts, Forall P ts -> P (TupleType ts)) ->
  (forall e n, P e -> P (ArrayType e n)) ->
  forall t, P t.
Proof.
  intros Hb Ht Ha. fix IH 1. intros [n|ts|e n].
  - apply Hb.
  - apply Ht. induction ts as [|t ts IHts]; constructor; [apply IH | exact IHts].
  - apply Ha, IH.
Qed.

Lemma Z3_sort_ind_nested (P : Z3_sort -> Prop) :
  P BoolSort ->
  (forall n, P (BvSort n)) ->
  (forall d r, P d -> P r -> P (ArraySort d r)) ->
  (forall nm fs, Forall (fun f => P (snd f)) fs -> P (TupleSort nm fs)) ->
  forall s, P s.
Proof.
  intros Hbool Hbv Harr Htup. fix IH 1. intros [|n|d r|nm fs].
  - apply Hbool.
  - apply Hbv.
  - apply Harr; apply IH.
  - apply Htup. induction fs as [|[f s] fs IHfs]; constructor;
      [apply IH | exact IHfs].
Qed.

Lemma sort_eqb_refl s : sort_eqb s s = true.
Proof.
  induction s as [|n|d r IHd IHr|nm fs IH] using Z3_sort_ind_nested; cbn.
  - reflexivity.
  - by apply bool_decide_true_eq.
  - by rewrite IHd, IHr.
  - rewrite bool_decide_true_eq by done. cbn.
    induction IH as [|[f s] fs Hs _ IHfs]; cbn; [reflexivity|].
    cbn in Hs. rewrite bool_decide_true_eq by done. by rewrite Hs, IHfs.
Qed.

Lemma sort_eqb_eq s1 s2 : sort_eqb s1 s2 = true -> s1 = s2.
Proof.
  revert s2.
  induction s1 as [|n|d r IHd IHr|nm fs IH] using Z3_sort_ind_nested;
    intros [|n2|d2 r2|nm2 fs2]; cbn; try discriminate.
  - reflexivity.
  - intros H. apply bool_decide_eq_true in H. by subst.
  - intros H. apply andb_true_iff in H as [H1 H2].
    by rewrite (IHd _ H1), (IHr _ H2).
  - intros H. apply andb_true_iff in H as [H1 H2].
    apply bool_decide_eq_true in H1. subst nm2. f_equal.
    revert fs2 H2.
    induction IH as [|[f s] fs Hs _ IHfs]; intros [|[f2 s2] fs2]; cbn;
      try discriminate; [reflexivity|].
    intros H. apply andb_true_iff in H as [H H3].
    apply andb_true_iff in H as [H1 H2].
    apply bool_decide_eq_true in H1. subst f2.
    cbn in Hs. rewrite (Hs _ H2), (IHfs _ H3). reflexivity.
Qed.

(** A tuple constructor applied to arguments of the fields' sorts. *)
Lemma args_match_sorts (args : list Z3_ast) (fs : list (string * Z3_sort)) :
  Forall2 (fun a f => Z3_get_sort a = Some (snd f)) args fs ->
  args_match Z3_get_sort args fs = true.
Proof.
  induction 1 as [|a [nm s] args fs Ha _ IH]; cbn; [reflexivity|].
  cbn in Ha. by rewrite Ha, sort_eqb_refl, IH.
Qed.

(** ** Well-sorted terms

    The sort of a well-sorted term is a sort the solver makes: no term is a
    bit-vector of width zero. *)

Lemma Z3_ast_ind_nested (P : Z3_ast -> Prop) :
  (forall nm s, P (AConst nm s)) ->
  (forall bits, P (ABvNumeral bits)) ->
  (forall v s, P (AInt v s)) ->
  (forall op a, P a -> P (AUn op a)) ->
  (forall op a b, P a -> P b -> P (ABin op a b)) ->
  (forall a b, P a -> P b -> P (AConcat a b)) ->
  (forall i a, P a -> P (AZeroExt i a)) ->
  (forall i a, P a -> P (ASignExt i a)) ->
  (forall h l a, P a -> P (AExtract h l a)) ->
  (forall a b, P a -> P b -> P (ABvUlt a b)) ->
  (forall a b, P a -> P b -> P (AEq a b)) ->
  (forall a, P a -> P (ANot a)) ->
  (forall c t e, P c -> P t -> P e -> P (AIte c t e)) ->
  (forall d v, P v -> P (AConstArray d v)) ->
  (forall a i v, P a -> P i -> P v -> P (AStore a i v)) ->
  (forall a i, P a -> P i -> P (ASelect a i)) ->
  (forall d args, Forall P args -> P (AApp d args)) ->
  forall a, P a.
Proof.
  intros Hconst Hnum Hint Hun Hbin Hcat Hzx Hsx Hex Hult Heq Hnot Hite Hca
    Hst Hsel Happ.
  fix IH 1. intros [nm s|bits|v s|op a|op a b|a b|i a|i a|h l a|a b|a b|a
                    |c t e|d v|a i v|a i|d args].
  - apply Hconst.
  - apply Hnum.
  - apply Hint.
  - apply Hun, IH.
  - apply Hbin; apply IH.
  - apply Hcat; apply IH.
  - apply Hzx, IH.
  - apply Hsx, IH.
  - apply Hex, IH.
  - apply Hult; apply IH.
  - apply Heq; apply IH.
  - apply Hnot, IH.
  - apply Hite; apply IH.
  - apply Hca, IH.
  - apply Hst; apply IH.
  - apply Hsel; apply IH.
  - apply Happ. induction args as [|x args IHargs]; constructor;
      [apply IH | exact IHargs].
Qed.

Lemma fields_ok_lookup fs i f :
  fields_ok Z3_sort_ok fs = true -> fs !! i = Some f ->
  Z3_sort_ok (snd f) = true.
Proof.
  revert i. induction fs as [|[nm s] fs IH]; intros i Hok Hi; [done|].
  cbn in Hok. apply andb_true_iff in Hok as [Hs Hfs].
  destruct i as [|i]; [by injection Hi as <-|]. by apply (IH i).
Qed.

Lemma fields_ok_Forall fs :
  fields_ok Z3_sort_ok fs = true <->
  Forall (fun f => Z3_sort_ok (snd f) = true) fs.
Proof.
  induction fs as [|[nm s] fs IH]; cbn.
  - split; [constructor|done].
  - rewrite andb_true_iff, IH, Forall_cons. done.
Qed.

(** Every well-sorted term has a sort the solver makes. *)
Lemma Z3_get_sort_ok a :
  forall s, Z3_get_sort a = Some s -> Z3_sort_ok s = true.
Proof.
  induction a as [nm s0|bits|v s0|op a IHa|op a b IHa IHb|a b IHa IHb|i a IHa
                  |i a IHa|h l a IHa|a b IHa IHb|a b IHa IHb|a IHa
                  |c t e IHc IHt IHe|d v IHv|a i v IHa IHi IHv|a i IHa IHi
                  |d args IH] using Z3_ast_ind_nested; intros s; cbn [Z3_get_sort].
  - destruct (Z3_sort_ok s0) eqn:Hok; [|discriminate]. by intros [= <-].
  - case_bool_decide as Hlen; [|discriminate]. intros [= <-]. cbn.
    by apply bool_decide_true_eq.
  - destruct s0 as [|n| |]; try discriminate.
    case_bool_decide as Hn; [|discriminate]. intros [= <-]. cbn.
    by apply bool_decide_true_eq.
  - destruct (Z3_get_sort a) as [[|n| |]|]; try discriminate.
    intros [= <-]. specialize (IHa _ eq_refl). cbn in *.
    destruct op; [exact IHa|exact IHa|by apply bool_decide_true_eq; lia].
  - destruct (Z3_get_sort a) as [[|n| |]|]; try discriminate.
    destruct (Z3_get_sort b) as [[|m| |]|]; try discriminate.
    case_bool_decide; [|discriminate]. intros [= <-]. by apply IHa.
  - destruct (Z3_get_sort a) as [[|n| |]|]; try discriminate.
    destruct (Z3_get_sort b) as [[|m| |]|]; try discriminate.
    intros [= <-]. specialize (IHa _ eq_refl). cbn in *.
    apply bool_decide_eq_true in IHa. apply bool_decide_true_eq. lia.
  - destruct (Z3_get_sort a) as [[|n| |]|]; try discriminate.
    case_bool_decide; [|discriminate]. intros [= <-].
    specialize (IHa _ eq_refl). cbn in *.
    apply bool_decide_eq_true in IHa. apply bool_decide_true_eq. lia.
  - destruct (Z3_get_sort a) as [[|n| |]|]; try discriminate.
    case_bool_decide; [|discriminate]. intros [= <-].
    specialize (IHa _ eq_refl). cbn in *.
    apply bool_decide_eq_true in IHa. apply bool_decide_true_eq. lia.
  - destruct (Z3_get_sort a) as [[|n| |]|]; try discriminate.
    case_bool_decide; [|discriminate]. intros [= <-]. cbn.
    apply bool_decide_true_eq. lia.
  - destruct (Z3_get_sort a) as [[|n| |]|]; try discriminate.
    destruct (Z3_get_sort b) as [[|m| |]|]; try discriminate.
    case_bool_decide; [|discriminate]. by intros [= <-].
  - destruct (Z3_get_sort a) as [s1|]; [|discriminate].
    destruct (Z3_get_sort b) as [s2|]; [|discriminate].
    destruct (sort_eqb s1 s2); [|discriminate]. by intros [= <-].
  - destruct (Z3_get_sort a) as [[| | |]|]; try discriminate. by intros [= <-].
  - destruct (Z3_get_sort c) as [[| | |]|]; try discriminate.
    destruct (Z3_get_sort t) as [s1|]; [|discriminate].
    destruct (Z3_get_sort e) as [s2|]; [|discriminate].
    destruct (sort_eqb s1 s2); [|discriminate]. intros [= <-]. by apply IHt.
  - destruct (Z3_get_sort v) as [r|]; [|discriminate].
    destruct (Z3_sort_ok d) eqn:Hd; [|discriminate]. intros [= <-]. cbn.
    by rewrite Hd, (IHv _ eq_refl).
  - destruct (Z3_get_sort a) as [[| |d r|]|]; try discriminate.
    destruct (Z3_get_sort i) as [si|]; [|discriminate].
    destruct (Z3_get_sort v) as [sv|]; [|discriminate].
    destruct (sort_eqb d si && sort_eqb r sv); [|discriminate].
    intros [= <-]. by apply IHa.
  - destruct (Z3_get_sort a) as [[| |d r|]|]; try discriminate.
    destruct (Z3_get_sort i) as [si|]; [|discriminate].
    destruct (sort_eqb d si); [|discriminate]. intros [= <-].
    specialize (IHa _ eq_refl). cbn in IHa.
    by apply andb_true_iff in IHa as [_ ?].
  - destruct d as [[| | |nm fs]|[| | |nm fs] i|]; try discriminate.
    + destruct (args_match Z3_get_sort args fs) eqn:Hm; [|discriminate].
      intros [= <-]. cbn. clear nm. revert fs Hm.
      induction IH as [|x args Hx _ IHargs]; intros [|[f sf] fs]; cbn;
        try discriminate; [done|].
      destruct (Z3_get_sort x) as [sx|] eqn:Hsx; [|discriminate].
      intros Hm. apply andb_true_iff in Hm as [Heq Hm].
      apply sort_eqb_eq in Heq as ->.
      by rewrite (Hx _ eq_refl), (IHargs _ Hm).
    + destruct args as [|t [|]]; try discriminate.
      apply Forall_cons in IH as [Ht _].
      destruct (Z3_get_sort t) as [st|]; [|discriminate].
      destruct (sort_eqb (TupleSort nm fs) st) eqn:Heq; [|discriminate].
      apply sort_eqb_eq in Heq as <-. specialize (Ht _ eq_refl). cbn in Ht.
      destruct (fs !! i) as [f|] eqn:Hf; [|discriminate].
      intros [= <-]. by apply (fields_ok_lookup fs i f).
Qed.

(** In particular, a bit-vector term has at least one bit. *)
Lemma Z3_get_sort_bv_pos a n :
  Z3_get_sort a = Some (BvSort n) -> (1 <= n)%nat.
Proof.
  intros H. apply Z3_get_sort_ok in H. cbn in H.
  apply bool_decide_eq_true in H. lia.
Qed.

(** Numerals of a bit-vector sort of positive width. *)
Lemma Z3_get_sort_int64 v n :
  (1 <= n)%nat -> Z3_get_sort (Z3_mk_int64 v (Some (BvSort n))) = Some (BvSort n).
Proof. intros Hn. cbn. by rewrite bool_decide_true_eq by lia. Qed.

Lemma Z3_get_sort_int v n :
  (1 <= n)%nat -> Z3_get_sort (Z3_mk_int v (Some (BvSort n))) = Some (BvSort n).
Proof. intros Hn. cbn. by rewrite bool_decide_true_eq by lia. Qed.

(** The sort of [SLt] and [ULt] of two bit-vectors of one width. *)
Lemma Z3_get_sort_SLt n lhs rhs :
  Z3_get_sort lhs = Some (BvSort n) -> Z3_get_sort rhs = Some (BvSort n) ->
  Z3_get_sort (Z3OpTranslator.SLt lhs rhs) = Some (BvSort 1).
Proof.
  intros Hl Hr.
  unfold Z3OpTranslator.SLt, Z3OpTranslator.Msb, Z3OpTranslator.Extract,
    Z3OpTranslator.GetBvBitCount, Z3OpTranslator.Sub,
    Z3OpTranslator.SextBy1b, Z3_mk_bvsub, Z3_mk_sign_ext, Z3_mk_extract.
  cbn. rewrite Hl, Hr. cbn. decide_all. cbn. decide_all.
  do 2 f_equal. lia.
Qed.

Lemma Z3_get_sort_ULt n lhs rhs :
  Z3_get_sort lhs = Some (BvSort n) -> Z3_get_sort rhs = Some (BvSort n) ->
  Z3_get_sort (Z3OpTranslator.ULt lhs rhs) = Some (BvSort 1).
Proof.
  intros Hl Hr.
  unfold Z3OpTranslator.ULt, Z3OpTranslator.Msb, Z3OpTranslator.Extract,
    Z3OpTranslator.GetBvBitCount, Z3OpTranslator.Sub,
    Z3OpTranslator.ZextBy1b, Z3_mk_bvsub, Z3_mk_zero_ext, Z3_mk_extract.
  cbn. rewrite Hl, Hr. cbn. decide_all. cbn. decide_all.
  do 2 f_equal. lia.
Qed.

Lemma Z3_get_sort_Eq n lhs rhs :
  Z3_get_sort lhs = Some (BvSort n) -> Z3_get_sort rhs = Some (BvSort n) ->
  Z3_get_sort (Z3OpTranslator.Eq lhs rhs) = Some (BvSort 1).
Proof.
  intros Hl Hr. cbn. rewrite Hl, Hr.
  rewrite bool_decide_true_eq by reflexivity. reflexivity.
Qed.

(** The top bit of a difference taken one bit wider is its sign. *)
Lemma sign_of_difference n a b :
  - bv_modulus n <= a - b < bv_modulus n ->
  bv_wrap 1 (bv_wrap (n + 1) (bv_wrap (n + 1) a - bv_wrap (n + 1) b)
             / 2 ^ Z.of_nat n)
  = if a <? b then 1 else 0.
Proof.
  intros Hd. rewrite bv_wrap_sub.
  pose proof (bv_modulus_pos n) as Hp.
  assert (Hm : bv_modulus (n + 1) = 2 * bv_modulus n).
  { rewrite Nat.add_1_r. apply bv_modulus_S. }
  fold (bv_modulus n).
  destruct (Z.ltb_spec a b).
  - rewrite (bv_wrap_unique (n + 1) (a - b) (-1) (a - b + 2 * bv_modulus n))
      by lia.
    rewrite <- (Z.div_unique (a - b + 2 * bv_modulus n) (bv_modulus n) 1
                  (a - b + bv_modulus n)) by lia.
    reflexivity.
  - rewrite (bv_wrap_small (n + 1)) by lia.
    rewrite Z.div_small by lia. reflexivity.
Qed.

(** [SLt] is the signed comparison. *)
Lemma eval_SLt M n lhs rhs x y :
  (1 <= n)%nat ->
  Z3_get_sort lhs = Some (BvSort n) -> Z3_get_sort rhs = Some (BvSort n) ->
  eval M lhs = Some (VBv n x) -> eval M rhs = Some (VBv n y) ->
  0 <= x < bv_modulus n -> 0 <= y < bv_modulus n ->
  eval M (Z3OpTranslator.SLt lhs rhs)
  = Some (VBv 1 (if bv_signed n x <? bv_signed n y then 1 else 0)).
Proof.
  intros Hn Hsl Hsr Hl Hr Hx Hy.
  unfold Z3OpTranslator.SLt, Z3OpTranslator.Msb, Z3OpTranslator.Extract,
    Z3OpTranslator.GetBvBitCount, Z3OpTranslator.Sub,
    Z3OpTranslator.SextBy1b, Z3_mk_bvsub, Z3_mk_sign_ext, Z3_mk_extract.
  cbn. rewrite Hsl, Hsr, Hl, Hr. cbn. decide_all. cbn. decide_all.
  change (Z.to_nat 1) with 1%nat in *.
  replace (Z.of_nat (n + 1) - 1) with (Z.of_nat n) by lia.
  replace (Z.to_nat (Z.of_nat n - Z.of_nat n + 1)) with 1%nat by lia.
  do 2 f_equal.
  apply sign_of_difference.
  pose proof (bv_signed_range n x Hn Hx).
  pose proof (bv_signed_range n y Hn Hy).
  rewrite (bv_modulus_pred n Hn). lia.
Qed.

(** [Eq] is equality, as a bit. *)
Lemma eval_Eq M n lhs rhs x y :
  eval M lhs = Some (VBv n x) -> eval M rhs = Some (VBv n y) ->
  eval M (Z3OpTranslator.Eq lhs rhs)
  = Some (VBv 1 (if x =? y then 1 else 0)).
Proof.
  intros Hl Hr. cbn. rewrite Hl, Hr.
  rewrite bool_decide_true_eq by reflexivity. cbn.
  do 2 f_equal.
  destruct (Z.eqb_spec x y) as [->|Hne].
  - rewrite Z.lxor_nilpotent. rewrite bool_decide_true_eq by reflexivity.
    reflexivity.
  - rewrite bool_decide_false_eq; [reflexivity |].
    intros H0. apply Hne. by apply Z.lxor_eq.
Qed.

(** ** Reading operands *)

Lemma seh_status_ok a s : Z3_get_sort a = Some s -> seh_status a = OkStatus.
Proof. intros Hs. unfold seh_status, Z3_errors. rewrite Hs. reflexivity. Qed.

Lemma note_and_return_ok tr self a s :
  Z3_get_sort a = Some s ->
  note_and_return tr self a = Done (NoteTranslation tr self a).
Proof.
  intros Hs. unfold note_and_return. rewrite (seh_status_ok a s Hs). reflexivity.
Qed.

Lemma bind_Done {A B} (f : A -> outcome B) (a : A) : (Done a ≫= f) = f a.
Proof. reflexivity. Qed.

Lemma XLS_CHECK_true (P : Prop) `{Decision P} :
  P -> XLS_CHECK (bool_decide P) = Done tt.
Proof. intros HP. rewrite bool_decide_true_eq by done. reflexivity. Qed.

Lemma GetValue_Done tr p a :
  translations_ tr !! p = Some a -> GetValue tr p = Done a.
Proof. intros Ht. unfold GetValue. rewrite Ht. reflexivity. Qed.

Lemma GetBitVec_Done tr p a nd :
  translations_ tr !! p = Some a ->
  nodes (xls_function_ tr) !! p = Some nd ->
  Z3_get_sort a = Some (BvSort (GetFlatBitCount (GetType nd))) ->
  GetBitVec tr p = Done a.
Proof.
  intros Ht Hn Hs. unfold GetBitVec, GetValue, node_at, at_index.
  rewrite Ht, bind_Done, Hs, XLS_CHECK_true, bind_Done, Hn, bind_Done by done.
  rewrite XLS_CHECK_true by done. reflexivity.
Qed.

(** ** Signed greater-than *)

(** The closure of [HandleSGt] builds a one-bit term. *)
Lemma Z3_get_sort_HandleSGt_f n lhs rhs :
  Z3_get_sort lhs = Some (BvSort n) -> Z3_get_sort rhs = Some (BvSort n) ->
  Z3_get_sort (HandleSGt_f lhs rhs) = Some (BvSort 1).
Proof.
  intros Hl Hr. unfold HandleSGt_f, Z3_mk_bvnot, Z3_mk_bvredor, Z3_mk_bvor.
  cbn [Z3_get_sort].
  rewrite (Z3_get_sort_SLt n lhs rhs Hl Hr), (Z3_get_sort_Eq n lhs rhs Hl Hr).
  reflexivity.
Qed.

(** Its value is the signed comparison, and that of [not (or (slt, eq))]. *)
Lemma eval_HandleSGt_f M n lhs rhs x y :
  (1 <= n)%nat ->
  Z3_get_sort lhs = Some (BvSort n) -> Z3_get_sort rhs = Some (BvSort n) ->
  eval M lhs = Some (VBv n x) -> eval M rhs = Some (VBv n y) ->
  0 <= x < bv_modulus n -> 0 <= y < bv_modulus n ->
  eval M (HandleSGt_f lhs rhs)
  = Some (VBv 1 (if bv_signed n y <? bv_signed n x then 1 else 0))
  /\ eval M (HandleSGt_f lhs rhs)
     = eval M (Z3OpTranslator.Not
                 (Z3OpTranslator.Or (Z3OpTranslator.SLt lhs rhs)
                    (Z3OpTranslator.Eq lhs rhs))).
Proof.
  intros Hn Hsl Hsr Hl Hr Hx Hy.
  pose proof (eval_SLt M n lhs rhs x y Hn Hsl Hsr Hl Hr Hx Hy) as Hslt.
  pose proof (eval_Eq M n lhs rhs x y Hl Hr) as Heq.
  unfold HandleSGt_f, Z3OpTranslator.Not, Z3OpTranslator.Or,
    Z3_mk_bvnot, Z3_mk_bvredor, Z3_mk_bvor.
  cbn [eval]. rewrite Hslt, Heq. cbn.
  assert (Hsxy : bv_signed n x = bv_signed n y <-> x = y).
  { split; [|congruence]. intros Hs.
    rewrite <- (bv_wrap_signed n x Hx), <- (bv_wrap_signed n y Hy).
    congruence. }
  destruct (Z.ltb_spec (bv_signed n x) (bv_signed n y)),
    (Z.eqb_spec x y), (Z.ltb_spec (bv_signed n y) (bv_signed n x));
    try (exfalso; lia); split; reflexivity.
Qed.

(** C2.  For an SGt node over two Bits operands of one width [n >= 1], the
    visit records the one-bit term [HandleSGt_f lhs rhs]; in every model it
    has the value of [not (or (SLt lhs rhs) (Eq lhs rhs))], which is 1
    exactly when [lhs] is greater than [rhs] as signed numbers; in
    particular it is 0, not 1, where both operands are 0. *)
Theorem HandleSGt_signed_greater_than
    (tr : Z3Translator) (self : nat) (op : Node) (a b : nat) (na nb : Node)
    (lhs rhs : Z3_ast) (n : nat) :
  (1 <= n)%nat ->
  kind op = kSGt ->
  operands op = [a; b] ->
  nodes (xls_function_ tr) !! a = Some na -> GetType na = BitsType n ->
  nodes (xls_function_ tr) !! b = Some nb -> GetType nb = BitsType n ->
  translations_ tr !! a = Some lhs -> Z3_get_sort lhs = Some (BvSort n) ->
  translations_ tr !! b = Some rhs -> Z3_get_sort rhs = Some (BvSort n) ->
  VisitNode tr self op = Done (NoteTranslation tr self (HandleSGt_f lhs rhs))
  /\ Z3_get_sort (HandleSGt_f lhs rhs) = Some (BvSort 1)
  /\ (forall M x y,
        eval M lhs = Some (VBv n x) -> eval M rhs = Some (VBv n y) ->
        0 <= x < bv_modulus n -> 0 <= y < bv_modulus n ->
        eval M (HandleSGt_f lhs rhs)
        = Some (VBv 1 (if bv_signed n y <? bv_signed n x then 1 else 0))
        /\ eval M (HandleSGt_f lhs rhs)
           = eval M (Z3OpTranslator.Not
                       (Z3OpTranslator.Or (Z3OpTranslator.SLt lhs rhs)
                          (Z3OpTranslator.Eq lhs rhs))))
  /\ (forall M,
        eval M lhs = Some (VBv n 0) -> eval M rhs = Some (VBv n 0) ->
        eval M (HandleSGt_f lhs rhs) = Some (VBv 1 0)).
Proof.
  intros Hn Hk Hops Hna Hta Hnb Htb Hla Hsl Hlb Hsr.
  assert (Hsort : Z3_get_sort (HandleSGt_f lhs rhs) = Some (BvSort 1))
    by exact (Z3_get_sort_HandleSGt_f n lhs rhs Hsl Hsr).
  split; [|split; [exact Hsort|split]].
  - unfold VisitNode. rewrite Hk.
    unfold HandleSGt, HandleCompare, HandleBinary, operand, at_index.
    rewrite Hops. cbn [lookup list_lookup]. rewrite !bind_Done.
    rewrite (GetBitVec_Done tr a lhs na Hla Hna) by (rewrite Hta; exact Hsl).
    rewrite !bind_Done.
    rewrite (GetBitVec_Done tr b rhs nb Hlb Hnb) by (rewrite Htb; exact Hsr).
    rewrite !bind_Done.
    apply (note_and_return_ok _ _ _ _ Hsort).
  - intros M x y Hl Hr Hx Hy.
    exact (eval_HandleSGt_f M n lhs rhs x y Hn Hsl Hsr Hl Hr Hx Hy).
  - intros M Hl Hr.
    pose proof (bv_modulus_pos n) as Hp.
    destruct (eval_HandleSGt_f M n lhs rhs 0 0 Hn Hsl Hsr Hl Hr) as [Hv _];
      [lia | lia |].
    rewrite Hv, Z.ltb_irrefl. reflexivity.
Qed.

Lemma HandleSGt_signed_greater_than_witness :
  VisitNode sgt_translator 2
    {| kind := kSGt; operands := [0%nat; 1%nat]; GetType := BitsType 1 |}
  = Done (NoteTranslation sgt_translator 2
            (HandleSGt_f (AConst "x" (BvSort 2)) (AConst "y" (BvSort 2))))
  /\ eval sgt_model (HandleSGt_f (AConst "x" (BvSort 2)) (AConst "y" (BvSort 2)))
     = Some (VBv 1 1).
Proof.
  destruct (HandleSGt_signed_greater_than sgt_translator 2
              {| kind := kSGt; operands := [0%nat; 1%nat];
                 GetType := BitsType 1 |}
              0 1
              {| kind := kParam "x"; operands := []; GetType := BitsType 2 |}
              {| kind := kParam "y"; operands := []; GetType := BitsType 2 |}
              (AConst "x" (BvSort 2)) (AConst "y" (BvSort 2)) 2)
    as (Hvisit & _ & Hval & _);
    try reflexivity; [lia|].
  split; [exact Hvisit|].
  assert (Hr1 : 0 <= 1 < bv_modulus 2) by (vm_compute; split; [discriminate | reflexivity]).
  assert (Hr3 : 0 <= 3 < bv_modulus 2) by (vm_compute; split; [discriminate | reflexivity]).
  exact (proj1 (Hval sgt_model 1 3 eq_refl eq_refl Hr1 Hr3)).
Defined.

(** ** Multiplication *)

(** An operand of [HandleMul], extended when its width is not the operand
    width. *)
Lemma eval_mul_operand M (is_signed : bool) (W l : nat) a x :
  (l <= W)%nat ->
  Z3_get_sort a = Some (BvSort l) ->
  eval M a = Some (VBv l x) -> 0 <= x < bv_modulus l ->
  let a' :=
    if bool_decide (Z.of_nat l ≠ Z.of_nat W)
    then (if is_signed then Z3_mk_sign_ext else Z3_mk_zero_ext)
           (Z.of_nat W - Z.of_nat l) a
    else a in
  Z3_get_sort a' = Some (BvSort W)
  /\ eval M a'
     = Some (VBv W (if is_signed then bv_wrap W (bv_signed l x) else x))
  /\ eval M ((if is_signed then Z3_mk_sign_ext else Z3_mk_zero_ext)
               (Z.of_nat W - Z.of_nat l) a)
     = Some (VBv W (if is_signed then bv_wrap W (bv_signed l x) else x)).
Proof.
  intros Hle Hs He Hx a'. subst a'.
  assert (Hw : (l + Z.to_nat (Z.of_nat W - Z.of_nat l))%nat = W) by lia.
  assert (Hext : eval M ((if is_signed then Z3_mk_sign_ext else Z3_mk_zero_ext)
                           (Z.of_nat W - Z.of_nat l) a)
                 = Some (VBv W (if is_signed then bv_wrap W (bv_signed l x) else x))).
  { destruct is_signed; cbn; rewrite He;
      rewrite bool_decide_true_eq by lia; rewrite Hw; reflexivity. }
  case_bool_decide as Hne.
  - split; [|split; assumption].
    destruct is_signed; cbn; rewrite Hs;
      rewrite bool_decide_true_eq by lia; rewrite Hw; reflexivity.
  - assert (l = W) by lia. subst W.
    split; [assumption|]. split; [|assumption].
    rewrite He. destruct is_signed; [|reflexivity].
    rewrite bv_wrap_signed by assumption. reflexivity.
Qed.

Lemma sort_mul_operand (is_signed : bool) (W l : nat) a :
  (l <= W)%nat ->
  Z3_get_sort a = Some (BvSort l) ->
  Z3_get_sort
    (if bool_decide (Z.of_nat l ≠ Z.of_nat W)
     then (if is_signed then Z3_mk_sign_ext else Z3_mk_zero_ext)
            (Z.of_nat W - Z.of_nat l) a
     else a) = Some (BvSort W).
Proof.
  intros Hle Hs.
  assert (Hw : (l + Z.to_nat (Z.of_nat W - Z.of_nat l))%nat = W) by lia.
  case_bool_decide as Hne.
  - destruct is_signed; cbn; rewrite Hs;
      rewrite bool_decide_true_eq by lia; rewrite Hw; reflexivity.
  - assert (l = W) by lia. subst W. assumption.
Qed.

Lemma sort_mul_result (W w : nat) p :
  (1 <= w <= W)%nat ->
  Z3_get_sort p = Some (BvSort W) ->
  Z3_get_sort
    (if bool_decide (Z.of_nat W ≠ Z.of_nat w)
     then Z3_mk_extract (Z.of_nat w - 1) 0 p else p) = Some (BvSort w).
Proof.
  intros Hle Hs.
  assert (Hw : Z.to_nat (Z.of_nat w - 1 - 0 + 1) = w) by lia.
  case_bool_decide as Hne.
  - cbn. rewrite Hs. rewrite bool_decide_true_eq by lia. rewrite Hw. reflexivity.
  - assert (W = w) by lia. subst W. assumption.
Qed.

(** The product, truncated when the operand width is not the result width. *)
Lemma eval_mul_result M (W w : nat) p v :
  (1 <= w <= W)%nat ->
  Z3_get_sort p = Some (BvSort W) ->
  eval M p = Some (VBv W (bv_wrap W v)) ->
  let t :=
    if bool_decide (Z.of_nat W ≠ Z.of_nat w)
    then Z3_mk_extract (Z.of_nat w - 1) 0 p else p in
  Z3_get_sort t = Some (BvSort w)
  /\ eval M t = Some (VBv w (bv_wrap w v))
  /\ eval M (Z3_mk_extract (Z.of_nat w - 1) 0 p) = Some (VBv w (bv_wrap w v)).
Proof.
  intros Hle Hs He t. subst t.
  assert (Hw : Z.to_nat (Z.of_nat w - 1 - 0 + 1) = w) by lia.
  assert (Hext : eval M (Z3_mk_extract (Z.of_nat w - 1) 0 p)
                 = Some (VBv w (bv_wrap w v))).
  { cbn. rewrite He. rewrite bool_decide_true_eq by lia.
    rewrite Hw, Z.div_1_r, bv_wrap_wrap_le by lia. reflexivity. }
  case_bool_decide as Hne.
  - split; [|split; assumption].
    cbn. rewrite Hs. rewrite bool_decide_true_eq by lia. rewrite Hw. reflexivity.
  - assert (W = w) by lia. subst W. split; [assumption|]. split; assumption.
Qed.

Lemma bv_wrap_mul_le w W x y :
  (w <= W)%nat ->
  bv_wrap w (bv_wrap W x * bv_wrap W y) = bv_wrap w (x * y).
Proof.
  intros Hle.
  rewrite <- (bv_wrap_wrap_le w W (bv_wrap W x * bv_wrap W y)) by assumption.
  rewrite bv_wrap_mul. apply bv_wrap_wrap_le. assumption.
Qed.

(** What [HandleMul] notes. *)
Lemma HandleMul_Done tr self mul is_signed a b lhs rhs l r w :
  operands mul = [a; b] -> GetType mul = BitsType w ->
  translations_ tr !! a = Some lhs -> Z3_get_sort lhs = Some (BvSort l) ->
  translations_ tr !! b = Some rhs -> Z3_get_sort rhs = Some (BvSort r) ->
  exists t,
    HandleMul tr self mul is_signed = Done (NoteTranslation tr self t, t)
    /\ t = (let W := ((Nat.max (Nat.max l r) w) + (if is_signed then 0 else 1))%nat in
            let ext := if is_signed then Z3_mk_sign_ext else Z3_mk_zero_ext in
            let lhs' := if bool_decide (Z.of_nat l ≠ Z.of_nat W)
                        then ext (Z.of_nat W - Z.of_nat l) lhs else lhs in
            let rhs' := if bool_decide (Z.of_nat r ≠ Z.of_nat W)
                        then ext (Z.of_nat W - Z.of_nat r) rhs else rhs in
            if bool_decide (Z.of_nat W ≠ Z.of_nat w)
            then Z3_mk_extract (Z.of_nat w - 1) 0 (Z3_mk_bvmul lhs' rhs')
            else Z3_mk_bvmul lhs' rhs').
Proof.
  intros Hops Hty Hla Hsl Hlb Hsr.
  unfold HandleMul, operand, at_index. rewrite Hops. cbn [lookup list_lookup].
  rewrite !bind_Done, (GetValue_Done tr a lhs Hla), !bind_Done,
    (GetValue_Done tr b rhs Hlb), !bind_Done, Hty.
  cbn [BitCountOrDie]. rewrite bind_Done, Hsl, Hsr.
  cbn [Z3_get_bv_sort_size].
  rewrite <- !Nat2Z.inj_max.
  destruct is_signed.
  - rewrite Nat.add_0_r. eexists. split; reflexivity.
  - replace (Z.of_nat (Nat.max (Nat.max l r) w) + 1)
      with (Z.of_nat ((Nat.max (Nat.max l r) w) + 1)) by lia.
    eexists. split; reflexivity.
Qed.

(** C5 (amended).  For an SMul or UMul node with operand widths [l] and
    [r] and a result width [w] of at least one bit, the visit records a
    term of width exactly [w] whose value is that of the width rule
    [trunc_w (ext lhs * ext rhs)] (sign extension to [max l r w] for SMul,
    zero extension to [max l r w + 1] for UMul): the product of the
    operands' signed, respectively unsigned, values modulo [2^w].  For the
    result width 0 the handler asks for the bits [-1] down to [0] of the
    product, which the solver refuses: the visit returns an Internal
    error. *)
Theorem HandleMul_width_rule
    (tr : Z3Translator) (self : nat) (mul : Node) (is_signed : bool)
    (a b : nat) (lhs rhs : Z3_ast) (l r w : nat) :
  kind mul = (if is_signed then kSMul else kUMul) ->
  operands mul = [a; b] -> GetType mul = BitsType w ->
  translations_ tr !! a = Some lhs -> Z3_get_sort lhs = Some (BvSort l) ->
  translations_ tr !! b = Some rhs -> Z3_get_sort rhs = Some (BvSort r) ->
  ((1 <= w)%nat ->
   exists t,
     VisitNode tr self mul = Done (NoteTranslation tr self t)
     /\ Z3_get_sort t = Some (BvSort w)
     /\ forall M x y,
          eval M lhs = Some (VBv l x) -> eval M rhs = Some (VBv r y) ->
          0 <= x < bv_modulus l -> 0 <= y < bv_modulus r ->
          eval M t = eval M (Mul_width_rule is_signed l r w lhs rhs)
          /\ eval M t
             = Some (VBv w (bv_wrap w (if is_signed
                                       then bv_signed l x * bv_signed r y
                                       else x * y))))
  /\ (w = 0%nat ->
      VisitNode tr self mul
      = Failed kInternal ("Z3 error: " +:+ Z3_get_error_msg)).
Proof.
  intros Hk Hops Hty Hla Hsl Hlb Hsr.
  pose proof (Z3_get_sort_bv_pos _ _ Hsl) as Hl.
  pose proof (Z3_get_sort_bv_pos _ _ Hsr) as Hr.
  destruct (HandleMul_Done tr self mul is_signed a b lhs rhs l r w
              Hops Hty Hla Hsl Hlb Hsr) as (t & Hmul & Ht).
  cbv zeta in Ht.
  set (W := (Nat.max (Nat.max l r) w + (if is_signed then 0 else 1))%nat) in *.
  set (ext := if is_signed then Z3_mk_sign_ext else Z3_mk_zero_ext) in *.
  assert (HlW : (l <= W)%nat) by (subst W; lia).
  assert (HrW : (r <= W)%nat) by (subst W; lia).
  split.
  - intros Hw.
    assert (HwW : (1 <= w <= W)%nat) by (subst W; lia).
    (* the sorts, which need no model *)
    assert (Hsort : Z3_get_sort t = Some (BvSort w)).
    { rewrite Ht. subst ext. apply sort_mul_result; [exact HwW|].
      unfold Z3_mk_bvmul. cbn [Z3_get_sort].
      rewrite (sort_mul_operand is_signed W l lhs HlW Hsl).
      rewrite (sort_mul_operand is_signed W r rhs HrW Hsr).
      rewrite bool_decide_true_eq by done. reflexivity. }
    exists t. split; [|split; [exact Hsort|]].
    + unfold VisitNode. rewrite Hk.
      destruct is_signed; unfold HandleSMul, HandleUMul;
        rewrite Hmul, bind_Done; cbv beta iota;
        rewrite (seh_status_ok t _ Hsort); reflexivity.
    + intros M x y Hex Hey Hx Hy.
      destruct (eval_mul_operand M is_signed W l lhs x HlW Hsl Hex Hx)
        as (Hsl' & Hel' & Hel'').
      destruct (eval_mul_operand M is_signed W r rhs y HrW Hsr Hey Hy)
        as (Hsr' & Her' & Her'').
      cbv zeta in Hsl', Hel', Hsr', Her'.
      fold ext in Hsl', Hel', Hsr', Her', Hel'', Her''.
      set (lhs' := if bool_decide (Z.of_nat l ≠ Z.of_nat W)
                   then ext (Z.of_nat W - Z.of_nat l) lhs else lhs) in *.
      set (rhs' := if bool_decide (Z.of_nat r ≠ Z.of_nat W)
                   then ext (Z.of_nat W - Z.of_nat r) rhs else rhs) in *.
      set (vx := if is_signed then bv_wrap W (bv_signed l x) else x) in *.
      set (vy := if is_signed then bv_wrap W (bv_signed r y) else y) in *.
      assert (Hsp : Z3_get_sort (Z3_mk_bvmul lhs' rhs') = Some (BvSort W)).
      { cbn. rewrite Hsl', Hsr'. rewrite bool_decide_true_eq by done. done. }
      assert (Hep : eval M (Z3_mk_bvmul lhs' rhs')
                    = Some (VBv W (bv_wrap W (vx * vy)))).
      { cbn. rewrite Hel', Her'. rewrite bool_decide_true_eq by done. done. }
      assert (Hep' : eval M (Z3_mk_bvmul (ext (Z.of_nat W - Z.of_nat l) lhs)
                               (ext (Z.of_nat W - Z.of_nat r) rhs))
                     = Some (VBv W (bv_wrap W (vx * vy)))).
      { cbn. rewrite Hel'', Her''. rewrite bool_decide_true_eq by done. done. }
      destruct (eval_mul_result M W w _ (vx * vy) HwW Hsp Hep) as (_ & Het & _).
      cbv zeta in Het. rewrite <- Ht in Het.
      assert (Hspec : eval M (Mul_width_rule is_signed l r w lhs rhs)
                      = Some (VBv w (bv_wrap w (vx * vy)))).
      { unfold Mul_width_rule. cbv zeta. fold ext.
        replace (Z.of_nat (Nat.max (Nat.max l r) w)
                 + (if is_signed then 0 else 1))
          with (Z.of_nat W) by (subst W; destruct is_signed; lia).
        cbn [Z3_mk_extract eval]. rewrite Hep'.
        rewrite bool_decide_true_eq by lia.
        replace (Z.to_nat (Z.of_nat w - 1 - 0 + 1)) with w by lia.
        rewrite Z.div_1_r, bv_wrap_wrap_le by lia. reflexivity. }
      rewrite Het, Hspec. split; [reflexivity|].
      do 2 f_equal. subst vx vy. destruct is_signed; [|reflexivity].
      apply bv_wrap_mul_le. lia.
  - intros ->.
    assert (Hnone : Z3_get_sort t = None).
    { rewrite Ht.
      rewrite (bool_decide_true_eq (Z.of_nat W ≠ Z.of_nat 0)) by lia.
      unfold Z3_mk_extract. cbn [Z3_get_sort].
      by destruct (Z3_get_sort (Z3_mk_bvmul _ _)) as [[|n| |]|]. }
    unfold VisitNode. rewrite Hk.
    destruct is_signed; unfold HandleSMul, HandleUMul;
      rewrite Hmul, bind_Done; cbv beta iota;
      unfold seh_status, Z3_errors; rewrite Hnone; reflexivity.
Qed.

Lemma HandleMul_width_rule_witness :
  exists t,
    VisitNode smul_translator 2
      {| kind := kSMul; operands := [0%nat; 1%nat]; GetType := BitsType 4 |}
    = Done (NoteTranslation smul_translator 2 t)
    /\ Z3_get_sort t = Some (BvSort 4)
    /\ eval smul_model t = Some (VBv 4 3).
Proof.
  destruct (HandleMul_width_rule smul_translator 2
              {| kind := kSMul; operands := [0%nat; 1%nat];
                 GetType := BitsType 4 |}
              true 0 1 (AConst "x" (BvSort 2)) (AConst "y" (BvSort 3)) 2 3 4
              eq_refl eq_refl eq_refl eq_refl eq_refl eq_refl eq_refl)
    as [Hpos _].
  destruct (Hpos ltac:(lia)) as (t & Hvisit & Hsort & Hval).
  exists t. split; [exact Hvisit|]. split; [exact Hsort|].
  assert (Hx : 0 <= 3 < bv_modulus 2)
    by (vm_compute; split; [discriminate | reflexivity]).
  assert (Hy : 0 <= 5 < bv_modulus 3)
    by (vm_compute; split; [discriminate | reflexivity]).
  exact (proj2 (Hval smul_model 3 5 eq_refl eq_refl Hx Hy)).
Defined.

(** C5 (counterexample).  A multiply whose result type is [bits[0]] is not
    encoded as a term of width 0: over the 2-bit and 3-bit parameters the
    signed and the unsigned multiply both end with the solver's error. *)
Lemma HandleMul_zero_width_result :
  VisitNode smul_translator 2
    {| kind := kSMul; operands := [0%nat; 1%nat]; GetType := BitsType 0 |}
  = Failed kInternal "Z3 error: Sort mismatch"
  /\ VisitNode smul_translator 2
       {| kind := kUMul; operands := [0%nat; 1%nat]; GetType := BitsType 0 |}
     = Failed kInternal "Z3 error: Sort mismatch"
  /\ Z3_get_sort (AConst "x" (BvSort 2)) = Some (BvSort 2)
  /\ Z3_get_sort (AConst "y" (BvSort 3)) = Some (BvSort 3).
Proof. repeat split. Qed.

(** ** The scoped error handler *)

(** Errors reported while a single handler is installed reach it: its
    status at the end is the last error, as an internal error. *)
Lemma raise_errors_installed c msgs s this o :
  ScopedErrorHandler.g_handler s = Some this ->
  ScopedErrorHandler.objects s !! this = Some o ->
  c ∈ ScopedErrorHandler.installed s ->
  exists s',
    ScopedErrorHandler.raise_errors c msgs s = Done s'
    /\ ScopedErrorHandler.g_handler s' = Some this
    /\ ScopedErrorHandler.installed s' = ScopedErrorHandler.installed s
    /\ ScopedErrorHandler.next_ptr s' = ScopedErrorHandler.next_ptr s
    /\ ScopedErrorHandler.objects s' !! this
       = Some {| ScopedErrorHandler.ctx_ := ScopedErrorHandler.ctx_ o;
                 ScopedErrorHandler.prev_handler_ :=
                   ScopedErrorHandler.prev_handler_ o;
                 ScopedErrorHandler.status_ :=
                   match last msgs with
                   | None => ScopedErrorHandler.status_ o
                   | Some m => ErrorStatus kInternal ("Z3 error: " +:+ m)
                   end |}.
Proof.
  revert s o. induction msgs as [|m msgs IH]; intros s o Hg Ho Hin.
  - exists s. cbn. repeat split; try done. rewrite Ho. by destruct o.
  - cbn [ScopedErrorHandler.raise_errors].
    unfold ScopedErrorHandler.raise_error.
    rewrite bool_decide_true_eq by done.
    unfold ScopedErrorHandler.Handler. rewrite Hg, Ho, bind_Done.
    match goal with
    | |- context [ScopedErrorHandler.raise_errors c msgs ?s1] =>
        destruct (IH s1 _ eq_refl (lookup_insert_eq _ _ _) Hin)
          as (s' & Hr & Hg' & Hi' & Hn' & Ho')
    end.
    exists s'. split; [exact Hr|]. repeat split; try done.
    rewrite Ho'. cbn. f_equal. f_equal.
    destruct msgs as [|m' msgs']; [reflexivity|].
    change (last (m :: m' :: msgs')) with (last (m' :: msgs')).
    destruct (last (m' :: msgs')) eqn:Hl; [reflexivity|].
    by apply last_None in Hl.
Qed.

(** A handler's visit returns the status the translator's handlers compute
    from the term they built, whatever the state around the visit. *)
Lemma scoped_status c a s :
  exists s',
    ScopedErrorHandler.scoped c (Z3_errors a) s = Done (seh_status a, s')
    /\ ScopedErrorHandler.g_handler s' = ScopedErrorHandler.g_handler s.
Proof.
  unfold ScopedErrorHandler.scoped, ScopedErrorHandler.construct.
  match goal with
  | |- context [ScopedErrorHandler.raise_errors c _ ?s1] =>
      destruct (raise_errors_installed c (Z3_errors a) s1 _ _ eq_refl
                  (lookup_insert_eq _ _ _))
        as (s' & Hr & Hg' & Hi' & Hn' & Ho')
  end.
  { cbn. set_solver. }
  cbn in Ho'.
  rewrite Hr, bind_Done.
  unfold ScopedErrorHandler.status, ScopedErrorHandler.destroy.
  rewrite Ho', !bind_Done, Hg'.
  rewrite XLS_CHECK_true by done. rewrite bind_Done.
  eexists. split.
  - reflexivity.
  - reflexivity.
Qed.





(** ** The objective of a predicate *)

Lemma sort_eqb_BvSort_r s n : sort_eqb s (BvSort n) = true -> s = BvSort n.
Proof.
  destruct s; cbn; try discriminate.
  intros H. apply bool_decide_eq_true in H. by subst.
Qed.

Lemma GetValueKind_BV a :
  GetValueKind a = Z3_BV_SORT <-> exists n, Z3_get_sort a = Some (BvSort n).
Proof.
  unfold GetValueKind. split.
  - destruct (Z3_get_sort a) as [[]|]; cbn; try discriminate. eauto.
  - intros [n ->]. reflexivity.
Qed.

(** [NeBool] of two bit-vectors of one width is their disequality. *)
Lemma eval_NeBool M n a b x y :
  eval M a = Some (VBv n x) -> eval M b = Some (VBv n y) ->
  eval M (Z3OpTranslator.NeBool a b) = Some (VBool (negb (x =? y))).
Proof.
  intros Ha Hb. cbn. rewrite Ha, Hb.
  rewrite (bool_decide_true_eq (n = n)) by done. cbn.
  do 3 f_equal. destruct (Z.eqb_spec x y).
  - by apply bool_decide_true_eq.
  - by apply bool_decide_false_eq.
Qed.

(** C7 (amended).  For [EqualToNode m], with [b] the term of [m]:
    when the subject [a] and [b] are bit-vectors of one width the objective
    is the boolean [a != b]; when [b] is not of bit-vector sort the call
    fails with InvalidArgument; when [b] is a bit-vector and [a] is not one
    of that width, the failure is the solver's, reported as an Internal
    error. *)
Theorem PredicateToObjective_EqualToNode
    (tr : Z3Translator) (m : nat) (nd : Node) (a b : Z3_ast) :
  translations_ tr !! m = Some b ->
  nodes (xls_function_ tr) !! m = Some nd ->
  (forall n,
      Z3_get_sort a = Some (BvSort n) -> Z3_get_sort b = Some (BvSort n) ->
      PredicateToObjective (EqualToNode m) a tr
      = Done (Z3_mk_not (Z3_mk_eq a b))
      /\ Z3_get_sort (Z3_mk_not (Z3_mk_eq a b)) = Some BoolSort
      /\ forall M x y,
           eval M a = Some (VBv n x) -> eval M b = Some (VBv n y) ->
           eval M (Z3_mk_not (Z3_mk_eq a b)) = Some (VBool (negb (x =? y))))
  /\ (GetValueKind b ≠ Z3_BV_SORT ->
      PredicateToObjective (EqualToNode m) a tr
      = Failed kInvalidArgument
          ("Cannot compare to non-bits-valued node: " +:+ Node_ToString nd))
  /\ (forall n,
        Z3_get_sort b = Some (BvSort n) -> Z3_get_sort a ≠ Some (BvSort n) ->
        PredicateToObjective (EqualToNode m) a tr
        = Failed kInternal ("Z3 error: " +:+ Z3_get_error_msg)).
Proof.
  intros Hb Hnd.
  unfold PredicateToObjective, GetTranslation, node_at, at_index.
  rewrite Hb, Hnd, !bind_Done.
  split; [|split].
  - intros n Hsa Hsb.
    assert (Hk : GetValueKind b = Z3_BV_SORT) by (apply GetValueKind_BV; eauto).
    rewrite bool_decide_false_eq by (rewrite Hk; auto).
    assert (Hs : Z3_get_sort (Z3_mk_not (Z3_mk_eq a b)) = Some BoolSort).
    { cbn. rewrite Hsa, Hsb. cbn.
      rewrite bool_decide_true_eq by done. reflexivity. }
    rewrite bind_Done. unfold Z3OpTranslator.NeBool.
    rewrite (seh_status_ok _ _ Hs). split; [reflexivity|]. split; [exact Hs|].
    intros M x y Ha Hb'. exact (eval_NeBool M n a b x y Ha Hb').
  - intros Hk. rewrite bool_decide_true_eq by done. reflexivity.
  - intros n Hsb Hsa.
    assert (Hk : GetValueKind b = Z3_BV_SORT) by (apply GetValueKind_BV; eauto).
    rewrite bool_decide_false_eq by (rewrite Hk; auto).
    rewrite bind_Done.
    assert (Hs : Z3_get_sort (Z3OpTranslator.NeBool a b) = None).
    { cbn. rewrite Hsb. destruct (Z3_get_sort a) as [sa|]; [|reflexivity].
      destruct (sort_eqb sa (BvSort n)) eqn:He; [|reflexivity].
      apply sort_eqb_BvSort_r in He. congruence. }
    unfold seh_status, Z3_errors. rewrite Hs. reflexivity.
Qed.

Lemma PredicateToObjective_EqualToNode_witness :
  PredicateToObjective (EqualToNode 1) (AConst "x" (BvSort 8))
    objective_translator
  = Done (Z3_mk_not (Z3_mk_eq (AConst "x" (BvSort 8)) (AConst "m" (BvSort 8)))).
Proof.
  exact (proj1 (proj1 (PredicateToObjective_EqualToNode objective_translator 1
                  {| kind := kParam "m"; operands := [];
                     GetType := BitsType 8 |}
                  (AConst "x" (BvSort 8)) (AConst "m" (BvSort 8))
                  eq_refl eq_refl) 8%nat eq_refl eq_refl)).
Defined.

(** C7 (counterexample).  A subject that is not of bit-vector sort, compared
    with a bit-vector node: the failure is Internal, not InvalidArgument. *)
Lemma PredicateToObjective_subject_not_checked :
  GetValueKind (AConst "t" (TypeToSort (TupleType []))) ≠ Z3_BV_SORT
  /\ PredicateToObjective (EqualToNode 1)
       (AConst "t" (TypeToSort (TupleType []))) objective_translator
     = Failed kInternal "Z3 error: Sort mismatch".
Proof. split; [discriminate | reflexivity]. Qed.

(** ** The sort of a type *)

Lemma TypeToSort_tuple_fields ts :
  exists names,
    length names = length ts
    /\ TypeToSort (TupleType ts)
       = TupleSort (ToString (TupleType ts)) (zip names (map TypeToSort ts)).
Proof.
  eexists. split; [|reflexivity].
  rewrite length_fmap, length_seq, length_map. reflexivity.
Qed.

Lemma Forall2_zip_snd {A B C} (P : A -> C -> Prop) (l : list A)
    (names : list B) (ss : list C) :
  length names = length ss ->
  Forall2 P l ss -> Forall2 (fun a f => P a (snd f)) l (zip names ss).
Proof.
  intros Hlen H. revert names Hlen.
  induction H as [|a s l ss Ha _ IH]; intros [|nm names] Hlen;
    cbn in *; try discriminate; constructor; [exact Ha|].
  apply IH. lia.
Qed.

(** [CreateTuple] of terms of the element types' sorts has the tuple's
    sort. *)
Lemma Z3_get_sort_CreateTuple ts elements :
  Forall2 (fun a t => Z3_get_sort a = Some (TypeToSort t)) elements ts ->
  Z3_get_sort (CreateTuple (TupleType ts) elements)
  = Some (TypeToSort (TupleType ts)).
Proof.
  intros H. destruct (TypeToSort_tuple_fields ts) as (names & Hlen & Heq).
  unfold CreateTuple. rewrite Heq. cbn.
  rewrite args_match_sorts; [reflexivity|].
  apply (Forall2_zip_snd (fun a s => Z3_get_sort a = Some s));
    [by rewrite length_map|].
  by apply Forall2_fmap_r.
Qed.

(** The zero term of a sort has that sort when the solver makes the sort,
    and no other sort in any case. *)
Lemma ZeroOfSort_sort s :
  forall z, ZeroOfSort s = Done z ->
    (Z3_sort_ok s = true -> Z3_get_sort z = Some s)
    /\ (forall s', Z3_get_sort z = Some s' -> s' = s).
Proof.
  induction s as [|n|d r IHd IHr|nm fs IH] using Z3_sort_ind_nested; intros z.
  - discriminate.
  - cbn. intros [= <-]. cbn. split.
    + by intros ->.
    + intros s'. case_bool_decide; [|discriminate]. by intros [= <-].
  - cbn [ZeroOfSort].
    destruct (ZeroOfSort r) as [el| |] eqn:Hel; cbn; try discriminate.
    intros [= <-]. destruct (IHr el eq_refl) as [Hfw Hbw]. cbn. split.
    + intros Hok. apply andb_true_iff in Hok as [Hd Hr].
      by rewrite (Hfw Hr), Hd.
    + intros s'. destruct (Z3_get_sort el) as [r'|]; [|discriminate].
      destruct (Z3_sort_ok d); [|discriminate]. intros [= <-].
      by rewrite (Hbw r' eq_refl).
  - cbn [ZeroOfSort].
    destruct (zero_fields ZeroOfSort fs) as [zs| |] eqn:Hzs; cbn;
      try discriminate.
    intros [= <-]. split.
    + intros Hok. unfold CreateTuple_sort. cbn.
      rewrite args_match_sorts; [reflexivity|].
      apply fields_ok_Forall in Hok. clear nm.
      revert zs Hzs. induction IH as [|[f sf] fs Hf _ IHfs]; intros zs Hzs.
      * cbn in Hzs. injection Hzs as <-. constructor.
      * cbn in Hzs. apply Forall_cons in Hok as [Hsf Hok].
        destruct (ZeroOfSort sf) as [z0| |] eqn:Hz0; cbn in Hzs;
          try discriminate.
        destruct (zero_fields ZeroOfSort fs) as [zs0| |] eqn:Hzs0; cbn in Hzs;
          try discriminate.
        injection Hzs as <-. constructor.
        -- cbn in *. by apply (Hf z0 Hz0).
        -- by apply IHfs.
    + intros s'. unfold CreateTuple_sort. cbn.
      destruct (args_match Z3_get_sort zs fs); [|discriminate].
      by intros [= <-].
Qed.

(** [ZeroOfSort] is defined on the sort of every type, and its result has
    that sort when the solver makes it. *)
Lemma ZeroOfSort_TypeToSort t :
  exists z, ZeroOfSort (TypeToSort t) = Done z
            /\ (Z3_sort_ok (TypeToSort t) = true ->
                Z3_get_sort z = Some (TypeToSort t)).
Proof.
  assert (exists z, ZeroOfSort (TypeToSort t) = Done z) as [z Hz].
  { induction t as [n|ts IH|e n IH] using Type_ind_nested.
    - eexists. reflexivity.
    - destruct (TypeToSort_tuple_fields ts) as (names & Hlen & Heq).
      assert (Hz : exists zs,
                 zero_fields ZeroOfSort (zip names (map TypeToSort ts))
                 = Done zs).
      { clear Heq. revert names Hlen.
        induction IH as [|t ts (z & Hz) _ IHts]; intros [|nm names] Hlen;
          cbn in Hlen; try discriminate.
        - exists []. reflexivity.
        - destruct (IHts names ltac:(lia)) as (zs & Hzs).
          exists (z :: zs). cbn. by rewrite Hz, bind_Done, Hzs, bind_Done. }
      destruct Hz as (zs & Hzs).
      exists (CreateTuple_sort (TypeToSort (TupleType ts)) zs).
      rewrite Heq at 1. cbn [ZeroOfSort]. rewrite Hzs, bind_Done.
      by rewrite Heq.
    - destruct IH as (z & Hz).
      exists (Z3_mk_const_array (Z3_mk_bv_sort (MinBitCountUnsigned n)) z).
      cbn. by rewrite Hz, bind_Done. }
  exists z. split; [exact Hz|]. by apply ZeroOfSort_sort.
Qed.

(** ** Arrays *)

Lemma MinBitCountUnsigned_covers size :
  Z.of_nat size <= bv_modulus (MinBitCountUnsigned size).
Proof.
  unfold MinBitCountUnsigned, bv_modulus.
  rewrite Z2Nat.id by apply Z.log2_up_nonneg.
  destruct (Z_le_gt_dec (Z.max (Z.of_nat size) 1) 1) as [Hle|Hgt].
  - rewrite Z.log2_up_eqn0 by exact Hle. cbn. lia.
  - pose proof (Z.log2_up_spec (Z.max (Z.of_nat size) 1) ltac:(lia)). lia.
Qed.

Lemma eval_index_literal M tw i :
  0 <= i < bv_modulus tw ->
  eval M (Z3_mk_int64 i (Some (BvSort tw))) = Some (VBv tw i).
Proof. intros Hi. cbn. by rewrite bv_wrap_small. Qed.

(** The value of the zero term of a type. *)
Lemma eval_ZeroOfSort M t z :
  ZeroOfSort (TypeToSort t) = Done z -> eval M z = Some (zero_value t).
Proof.
  revert z. induction t as [n|ts IH|e n IH] using Type_ind_nested; intros z.
  - cbn. intros [= <-]. cbn. unfold bv_wrap. by rewrite Z.mod_0_l
      by (pose proof (bv_modulus_pos n); lia).
  - destruct (TypeToSort_tuple_fields ts) as (names & Hlen & Heq).
    rewrite Heq. cbn [ZeroOfSort].
    assert (Hz : forall zs,
               zero_fields ZeroOfSort (zip names (map TypeToSort ts)) = Done zs ->
               eval_args (eval M) zs = Some (map zero_value ts)).
    { clear Heq. revert names Hlen.
      induction IH as [|t ts Ht _ IHts]; intros [|nm names] Hlen zs;
        cbn in Hlen; try discriminate.
      - cbn. by intros [= <-].
      - cbn. destruct (ZeroOfSort (TypeToSort t)) as [z0| |] eqn:Hz0;
          cbn; try discriminate.
        destruct (zero_fields ZeroOfSort (zip names (map TypeToSort ts)))
          as [zs0| |] eqn:Hzs0; cbn; try discriminate.
        intros [= <-]. cbn. rewrite (Ht _ eq_refl).
        by rewrite (IHts names ltac:(lia) _ Hzs0). }
    destruct (zero_fields ZeroOfSort (zip names (map TypeToSort ts)))
      as [zs| |]; cbn; try discriminate.
    intros [= <-]. cbn. by rewrite (Hz _ eq_refl).
  - cbn. destruct (ZeroOfSort (TypeToSort e)) as [z0| |]; cbn; try discriminate.
    intros [= <-]. cbn. by rewrite (IH _ eq_refl).
Qed.

(** The loop of [CreateArray]: it stores the elements at their indices, and
    leaves the other indices as they were. *)
Lemma eval_store_elements M tw elems vals :
  Forall2 (fun e v => eval M e = Some v) elems vals ->
  forall count first arr f,
    eval M arr = Some (VArr f) ->
    (first + count <= length elems)%nat ->
    Z.of_nat (first + count) <= bv_modulus tw ->
    exists res g,
      store_elements (BvSort tw) elems first count arr = Done res
      /\ eval M res = Some (VArr g)
      /\ (forall i v, (first <= i < first + count)%nat ->
                      vals !! i = Some v -> g (Z.of_nat i) = v)
      /\ (forall j, ~ (Z.of_nat first <= j < Z.of_nat (first + count)) ->
                    g j = f j).
Proof.
  intros Hvals. induction count as [|count IH]; intros first arr f Harr Hlen Hmod.
  - exists arr, f. cbn [store_elements].
    split; [reflexivity|]. split; [exact Harr|]. split; [intros; lia | done].
  - cbn [store_elements]. unfold at_index.
    destruct (lookup_lt_is_Some_2 elems first ltac:(lia)) as [e He].
    rewrite He, bind_Done.
    destruct (Forall2_lookup_l _ _ _ _ _ Hvals He) as (v & Hv & Hev).
    edestruct (IH (S first)
                 (Z3_mk_store arr (Z3_mk_int64 (Z.of_nat first) (Some (BvSort tw))) e))
      as (res & g & Hres & Heval & Hin & Hout).
    { cbn [Z3_mk_store eval]. rewrite Harr, eval_index_literal, Hev by lia.
      reflexivity. }
    { lia. }
    { lia. }
    exists res, g. split; [exact Hres|]. split; [exact Heval|]. split.
    + intros i vi Hi Hvi. destruct (decide (i = first)) as [->|Hne].
      * rewrite Hout by lia. rewrite bool_decide_true_eq by done. congruence.
      * apply Hin; [lia | done].
    + intros j Hj. rewrite Hout by lia. by rewrite bool_decide_false_eq by lia.
Qed.

Lemma Z3_get_sort_store_elements tw r elems :
  Forall (fun e => Z3_get_sort e = Some r) elems ->
  forall count first arr res,
    Z3_get_sort arr = Some (ArraySort (BvSort tw) r) ->
    store_elements (BvSort tw) elems first count arr = Done res ->
    Z3_get_sort res = Some (ArraySort (BvSort tw) r).
Proof.
  intros Hs. induction count as [|count IH]; intros first arr res Harr.
  - cbn. by intros [= <-].
  - cbn [store_elements]. unfold at_index.
    destruct (elems !! first) as [e|] eqn:He; cbn; [|discriminate].
    apply IH. cbn. rewrite Harr.
    rewrite (proj1 (Forall_lookup _ _) Hs _ _ He).
    pose proof (Z3_get_sort_ok _ _ Harr) as Hok. cbn in Hok.
    apply andb_true_iff in Hok as [-> _].
    by rewrite !sort_eqb_refl.
Qed.

(** The stores of [CreateArray] keep the sort of the array they start
    from: a well-sorted result has the sort of that array. *)
Lemma Z3_get_sort_store_elements_inv index_sort elems :
  forall count first arr res s,
    store_elements index_sort elems first count arr = Done res ->
    Z3_get_sort res = Some s -> Z3_get_sort arr = Some s.
Proof.
  induction count as [|count IH]; intros first arr res s.
  - cbn. by intros [= <-].
  - cbn [store_elements]. unfold at_index.
    destruct (elems !! first) as [e|] eqn:He; [|discriminate].
    rewrite bind_Done. intros Hres Hs. specialize (IH _ _ _ _ Hres Hs).
    unfold Z3_mk_store in IH. cbn [Z3_get_sort] in IH.
    destruct (Z3_get_sort arr) as [[| |d r|]|]; try discriminate.
    destruct (Z3_get_sort (Z3_mk_int64 (Z.of_nat first) (Some index_sort)));
      [|discriminate].
    destruct (Z3_get_sort e); [|discriminate].
    destruct (sort_eqb d _ && sort_eqb r _); [|discriminate].
    exact IH.
Qed.

(** A well-sorted result of [CreateArray] has the sort of the array
    type. *)
Lemma Z3_get_sort_CreateArray_inv e size elems res s :
  CreateArray (ArrayType e size) elems = Done res ->
  Z3_get_sort res = Some s -> s = TypeToSort (ArrayType e size).
Proof.
  unfold CreateArray. intros H Hs.
  destruct (ZeroOfSort (TypeToSort e)) as [z| |] eqn:Hz; cbn in H;
    try discriminate.
  apply (Z3_get_sort_store_elements_inv _ _ _ _ _ _ _ H) in Hs.
  cbn in Hs. destruct (Z3_get_sort z) as [r|] eqn:Hr; [|discriminate].
  case_bool_decide; [|discriminate]. injection Hs as <-.
  destruct (ZeroOfSort_sort _ _ Hz) as [_ Hbw]. by rewrite (Hbw r Hr).
Qed.

(** [CreateArray] of [size] terms of the element type. *)
Lemma CreateArray_Done M e size elems vals :
  length elems = size ->
  Forall2 (fun x v => eval M x = Some v) elems vals ->
  Forall (fun x => Z3_get_sort x = Some (TypeToSort e)) elems ->
  exists res g,
    CreateArray (ArrayType e size) elems = Done res
    /\ (Z3_sort_ok (TypeToSort (ArrayType e size)) = true ->
        Z3_get_sort res = Some (TypeToSort (ArrayType e size)))
    /\ eval M res = Some (VArr g)
    /\ (forall i v, vals !! i = Some v -> g (Z.of_nat i) = v)
    /\ (forall j, ~ (0 <= j < Z.of_nat size) -> g j = zero_value e).
Proof.
  intros Hlen Hvals Hsorts.
  destruct (ZeroOfSort_TypeToSort e) as (z & Hz & Hzs).
  pose proof (eval_ZeroOfSort M e z Hz) as Hze.
  unfold CreateArray. rewrite Hz, bind_Done.
  edestruct (eval_store_elements M (MinBitCountUnsigned size) elems vals Hvals
               size 0%nat
               (Z3_mk_const_array (Z3_mk_bv_sort (MinBitCountUnsigned size)) z))
    as (res & g & Hres & Heval & Hin & Hout).
  { cbn. rewrite Hze. reflexivity. }
  { lia. }
  { cbn. apply MinBitCountUnsigned_covers. }
  exists res, g. split; [exact Hres|]. split; [|split; [exact Heval|split]].
  - intros Hok. cbn in Hok. apply andb_true_iff in Hok as [Hidx He].
    refine (Z3_get_sort_store_elements _ _ _ Hsorts _ _ _ _ _ Hres).
    cbn. by rewrite (Hzs He), Hidx.
  - intros i v Hv. apply Hin; [|done].
    apply lookup_lt_Some in Hv.
    rewrite <- (Forall2_length _ _ _ Hvals) in Hv. lia.
  - intros j Hj. apply Hout. cbn. lia.
Qed.

(** [Min] of two bit-vectors of one width. *)
Lemma eval_Min M w a b x y :
  eval M a = Some (VBv w x) -> eval M b = Some (VBv w y) ->
  eval M (Z3OpTranslator.Min a b) = Some (VBv w (Z.min x y)).
Proof.
  intros Ha Hb. cbn. rewrite Ha, Hb.
  rewrite (bool_decide_true_eq (w = w)) by done.
  case_bool_decide; do 2 f_equal; lia.
Qed.

Lemma Z3_get_sort_Min w a b :
  Z3_get_sort a = Some (BvSort w) -> Z3_get_sort b = Some (BvSort w) ->
  Z3_get_sort (Z3OpTranslator.Min a b) = Some (BvSort w).
Proof.
  intros Ha Hb. cbn. rewrite Ha, Hb.
  rewrite (bool_decide_true_eq (w = w)) by done. cbn.
  by rewrite bool_decide_true_eq.
Qed.

(** The index [GetArrayElement] selects with: the given one, zero-extended
    when narrower than the array's index sort and cut to its low bits when
    wider. *)
Lemma GetArrayElement_cast size idx zw :
  Z3_get_sort idx = Some (BvSort zw) ->
  (zw <= MinBitCountUnsigned size \/ 1 <= MinBitCountUnsigned size)%nat ->
  exists idx',
    (forall arr,
        GetArrayElement size arr idx
        = Z3_mk_select arr
            (Z3OpTranslator.Min idx'
               (Z3_mk_int64 (Z.of_nat size - 1)
                  (Some (BvSort (MinBitCountUnsigned size))))))
    /\ Z3_get_sort idx' = Some (BvSort (MinBitCountUnsigned size))
    /\ forall M i,
         eval M idx = Some (VBv zw i) ->
         eval M idx'
         = Some (VBv (MinBitCountUnsigned size)
                   (if bool_decide (zw <= MinBitCountUnsigned size)%nat then i
                    else bv_wrap (MinBitCountUnsigned size) i)).
Proof.
  intros Hs Hw. set (tw := MinBitCountUnsigned size) in *.
  unfold GetArrayElement. fold tw. rewrite Hs. cbn [Z3_get_bv_sort_size].
  destruct (decide (zw < tw)%nat) as [Hlt|Hge].
  - rewrite bool_decide_true_eq by lia.
    exists (Z3_mk_zero_ext (Z.of_nat tw - Z.of_nat zw) idx).
    assert (Hw' : (zw + Z.to_nat (Z.of_nat tw - Z.of_nat zw))%nat = tw) by lia.
    assert (Hs' : Z3_get_sort (Z3_mk_zero_ext (Z.of_nat tw - Z.of_nat zw) idx)
                  = Some (BvSort tw)).
    { cbn. rewrite Hs. rewrite bool_decide_true_eq by lia. by rewrite Hw'. }
    split; [|split; [exact Hs'|]].
    + intros arr. by rewrite Hs'.
    + intros M i He. cbn. rewrite He.
      rewrite !bool_decide_true_eq by lia. by rewrite Hw'.
  - rewrite bool_decide_false_eq by lia.
    destruct (decide (tw < zw)%nat) as [Hgt|Hle].
    + rewrite bool_decide_true_eq by lia.
      exists (Z3_mk_extract (Z.of_nat tw - 1) 0 idx).
      assert (Hw' : Z.to_nat (Z.of_nat tw - 1 - 0 + 1) = tw) by lia.
      assert (Hs' : Z3_get_sort (Z3_mk_extract (Z.of_nat tw - 1) 0 idx)
                    = Some (BvSort tw)).
      { cbn. rewrite Hs. rewrite bool_decide_true_eq by lia. by rewrite Hw'. }
      split; [|split; [exact Hs'|]].
      * intros arr. by rewrite Hs'.
      * intros M i He. cbn. rewrite He. rewrite bool_decide_true_eq by lia.
        rewrite bool_decide_false_eq by lia. by rewrite Hw', Z.div_1_r.
    + rewrite bool_decide_false_eq by lia.
      assert (zw = tw) by lia. subst zw. exists idx.
      split; [|split; [exact Hs|]].
      * intros arr. by rewrite Hs.
      * intros M i He. rewrite He. by rewrite bool_decide_true_eq by lia.
Qed.

(** What [GetArrayElement] evaluates to: the element at the cast index,
    clamped to [size - 1]. *)
Lemma eval_GetArrayElement M size arr idx f zw i :
  (1 <= size)%nat ->
  Z3_get_sort idx = Some (BvSort zw) ->
  eval M idx = Some (VBv zw i) -> 0 <= i < bv_modulus zw ->
  (zw <= MinBitCountUnsigned size \/ 1 <= MinBitCountUnsigned size)%nat ->
  eval M arr = Some (VArr f) ->
  eval M (GetArrayElement size arr idx)
  = Some (f (Z.min (if bool_decide (zw <= MinBitCountUnsigned size)%nat then i
                    else bv_wrap (MinBitCountUnsigned size) i)
               (Z.of_nat size - 1))).
Proof.
  intros Hsize Hs He Hi Hw Harr.
  destruct (GetArrayElement_cast size idx zw Hs Hw) as (idx' & Heq & Hs' & He').
  specialize (He' M i He).
  rewrite Heq. cbn [Z3_mk_select eval]. rewrite Harr.
  pose proof (MinBitCountUnsigned_covers size) as Hc.
  assert (Hmax : 0 <= Z.of_nat size - 1 < bv_modulus (MinBitCountUnsigned size))
    by lia.
  rewrite (eval_Min M _ _ _ _ _ He' (eval_index_literal M _ _ Hmax)).
  reflexivity.
Qed.

Lemma Z3_get_sort_GetArrayElement size arr idx r zw :
  Z3_get_sort arr = Some (ArraySort (BvSort (MinBitCountUnsigned size)) r) ->
  Z3_get_sort idx = Some (BvSort zw) ->
  (zw <= MinBitCountUnsigned size \/ 1 <= MinBitCountUnsigned size)%nat ->
  Z3_get_sort (GetArrayElement size arr idx) = Some r.
Proof.
  intros Ha Hs Hw.
  destruct (GetArrayElement_cast size idx zw Hs Hw) as (idx' & Heq & Hs' & _).
  rewrite Heq. cbn [Z3_mk_select Z3_get_sort]. rewrite Ha.
  rewrite (Z3_get_sort_Min (MinBitCountUnsigned size) idx'
             (Z3_mk_int64 (Z.of_nat size - 1)
                (Some (BvSort (MinBitCountUnsigned size)))) Hs'
             (Z3_get_sort_int64 _ _ (Z3_get_sort_bv_pos _ _ Hs'))).
  by rewrite sort_eqb_refl.
Qed.

(** C4 (as the code behaves).  An array of size 3 indexed with a 3-bit index
    of value 4: the index is first cut to the two bits of the array's index
    sort, which leaves 0, and the clamp to [size - 1] then has nothing to
    do; the encoded ArrayIndex is element 0 (10), not the element at
    [size - 1] (30). *)
Theorem GetArrayElement_truncates_before_clamping :
  exists t,
    VisitNode array_index_translator 2
      {| kind := kArrayIndex; operands := [0%nat; 1%nat];
         GetType := BitsType 8 |}
    = Done (NoteTranslation array_index_translator 2 t)
    /\ t = GetArrayElement 3
             (AConst "a" (TypeToSort (ArrayType (BitsType 8) 3)))
             (AConst "i" (BvSort 3))
    /\ eval array_index_model (AConst "i" (BvSort 3)) = Some (VBv 3 4)
    /\ eval array_index_model t = Some (VBv 8 10)
    /\ eval array_index_model
         (Z3_mk_select (AConst "a" (TypeToSort (ArrayType (BitsType 8) 3)))
            (Z3_mk_int64 (3 - 1) (Some (BvSort (MinBitCountUnsigned 3)))))
       = Some (VBv 8 30).
Proof.
  eexists. split; [reflexivity|]. split; [reflexivity|].
  split; [reflexivity|]. split; [|vm_compute; reflexivity].
  vm_compute. reflexivity.
Qed.

(** ** Flattening *)

(** The field accessor applied to a tuple term. *)
Lemma Z3_get_sort_field nm fs x i f :
  Z3_get_sort x = Some (TupleSort nm fs) ->
  fs !! i = Some f ->
  Z3_get_sort (Z3_mk_app (Z3_get_tuple_sort_field_decl (Z3_get_sort x) i) [x])
  = Some (snd f).
Proof.
  intros Hx Hf. rewrite Hx. cbn [Z3_get_tuple_sort_field_decl].
  rewrite bool_decide_true_eq by (by apply lookup_lt_Some in Hf).
  cbn [Z3_mk_app Z3_get_sort]. rewrite Hx, sort_eqb_refl, Hf. reflexivity.
Qed.

Lemma eval_field M nm fs x i vs :
  Z3_get_sort x = Some (TupleSort nm fs) ->
  (i < length fs)%nat ->
  eval M x = Some (VTup vs) ->
  eval M (Z3_mk_app (Z3_get_tuple_sort_field_decl (Z3_get_sort x) i) [x])
  = vs !! i.
Proof.
  intros Hx Hi He. rewrite Hx. cbn [Z3_get_tuple_sort_field_decl].
  rewrite bool_decide_true_eq by done.
  cbn [Z3_mk_app eval]. rewrite He. reflexivity.
Qed.

Lemma lookup_zip_names {A B} (names : list A) (ss : list B) i s :
  length names = length ss -> ss !! i = Some s ->
  exists nm, zip names ss !! i = Some (nm, s).
Proof.
  revert names i. induction ss as [|s' ss IH]; intros [|nm names] [|i] Hlen Hs;
    cbn in *; try discriminate.
  - injection Hs as ->. eauto.
  - apply IH; [lia | done].
Qed.

(** The sort of field [i] of a term of a tuple type. *)
Lemma Z3_get_sort_tuple_field ts x i t :
  Z3_get_sort x = Some (TypeToSort (TupleType ts)) ->
  ts !! i = Some t ->
  Z3_get_sort (Z3_mk_app (Z3_get_tuple_sort_field_decl (Z3_get_sort x) i) [x])
  = Some (TypeToSort t).
Proof.
  intros Hx Ht. destruct (TypeToSort_tuple_fields ts) as (names & Hlen & Heq).
  rewrite Heq in Hx.
  destruct (lookup_zip_names names (map TypeToSort ts) i (TypeToSort t))
    as (nm & Hf).
  { by rewrite length_map. }
  { by rewrite list_lookup_fmap, Ht. }
  exact (Z3_get_sort_field _ _ x i _ Hx Hf).
Qed.

Lemma eval_tuple_field M ts x i vs :
  Z3_get_sort x = Some (TypeToSort (TupleType ts)) ->
  (i < length ts)%nat ->
  eval M x = Some (VTup vs) ->
  eval M (Z3_mk_app (Z3_get_tuple_sort_field_decl (Z3_get_sort x) i) [x])
  = vs !! i.
Proof.
  intros Hx Hi He. destruct (TypeToSort_tuple_fields ts) as (names & Hlen & Heq).
  rewrite Heq in Hx. apply (eval_field M _ _ x i vs Hx); [|done].
  rewrite length_zip, length_map. lia.
Qed.

(** The bits [ExplodeBits] lists are one-bit terms, one per bit. *)
Lemma ExplodeBits_sorts n x :
  Z3_get_sort x = Some (BvSort n) ->
  Forall (fun b => Z3_get_sort b = Some (BvSort 1)) (Z3OpTranslator.ExplodeBits x)
  /\ length (Z3OpTranslator.ExplodeBits x) = n.
Proof.
  intros Hx. unfold Z3OpTranslator.ExplodeBits, Z3OpTranslator.GetBvBitCount.
  rewrite Hx. cbn [Z3_get_bv_sort_size]. split.
  - apply Forall_fmap, Forall_seqZ. intros i Hi. cbn. rewrite Hx.
    rewrite bool_decide_true_eq by lia. do 2 f_equal. lia.
  - rewrite length_fmap, length_seqZ. lia.
Qed.

Lemma length_flat_map_const {A B} (f : A -> list B) (l : list A) k :
  Forall (fun a => length (f a) = k) l ->
  length (flat_map f l) = (length l * k)%nat.
Proof.
  induction 1 as [|a l Ha _ IH]; cbn; [reflexivity|].
  rewrite length_app, Ha, IH. lia.
Qed.

Lemma Forall_flat_map {A B} (P : B -> Prop) (f : A -> list B) (l : list A) :
  Forall (fun a => Forall P (f a)) l -> Forall P (flat_map f l).
Proof.
  induction 1 as [|a l Ha _ IH]; cbn; [constructor|].
  apply Forall_app. split; assumption.
Qed.

(** A term of an array type's sort: the index sort has at least one bit. *)
Lemma array_sort_ok x e size :
  Z3_get_sort x = Some (TypeToSort (ArrayType e size)) ->
  (1 <= MinBitCountUnsigned size)%nat /\ Z3_sort_ok (TypeToSort e) = true.
Proof.
  intros Hx. apply Z3_get_sort_ok in Hx. cbn in Hx.
  apply andb_true_iff in Hx as [Hi He]. apply bool_decide_eq_true in Hi.
  split; [lia|exact He].
Qed.

(** The element [FlattenValue] reads at index [i] of an array term. *)
Lemma Z3_get_sort_array_element e size x i :
  Z3_get_sort x = Some (TypeToSort (ArrayType e size)) ->
  Z3_get_sort
    (GetArrayElement size x
       (Z3_mk_int64 (Z.of_nat i)
          (Some (Z3_mk_bv_sort (MinBitCountUnsigned size)))))
  = Some (TypeToSort e).
Proof.
  intros Hx.
  apply (Z3_get_sort_GetArrayElement size x _ _ (MinBitCountUnsigned size) Hx);
    [|left; lia].
  apply Z3_get_sort_int64. by apply (array_sort_ok x e size).
Qed.

(** [FlattenValue] of a term of the type's sort lists one-bit terms, as many
    as the type's flat bit count. *)
Lemma FlattenValue_sorts t :
  forall x,
    Z3_get_sort x = Some (TypeToSort t) ->
    Forall (fun b => Z3_get_sort b = Some (BvSort 1)) (FlattenValue t x)
    /\ length (FlattenValue t x) = GetFlatBitCount t.
Proof.
  induction t as [n|ts IH|e n IH] using Type_ind_nested; intros x Hx.
  - exact (ExplodeBits_sorts n x Hx).
  - cbn [FlattenValue GetFlatBitCount].
    assert (Hgen : forall ts' i,
               (forall j t, ts' !! j = Some t -> ts !! (i + j)%nat = Some t) ->
               Forall (fun t => forall x, Z3_get_sort x = Some (TypeToSort t) ->
                          Forall (fun b => Z3_get_sort b = Some (BvSort 1))
                            (FlattenValue t x)
                          /\ length (FlattenValue t x) = GetFlatBitCount t) ts' ->
               Forall (fun b => Z3_get_sort b = Some (BvSort 1))
                 (flatten_fields FlattenValue x ts' i)
               /\ length (flatten_fields FlattenValue x ts' i)
                  = foldr (fun ti acc => (GetFlatBitCount ti + acc)%nat) 0%nat ts').
    { intros ts' i Hsuf Hall. revert i Hsuf.
      induction Hall as [|t ts' Ht _ IHts]; intros i Hsuf; cbn.
      - split; [constructor | reflexivity].
      - destruct (Ht _ (Z3_get_sort_tuple_field ts x i t Hx
                          ltac:(rewrite <- (Hsuf 0%nat t eq_refl); f_equal; lia)))
          as [Hs Hl].
        destruct (IHts (S i)) as [Hs' Hl'].
        { intros j t' Hj. rewrite <- (Hsuf (S j) t' Hj). f_equal. lia. }
        split; [by apply Forall_app|]. rewrite length_app. lia. }
    apply Hgen; [intros j t Hj; exact Hj | exact IH].
  - cbn [FlattenValue GetFlatBitCount].
    assert (Hel : Forall (fun i : nat =>
                     Forall (fun b => Z3_get_sort b = Some (BvSort 1))
                       (FlattenValue e
                          (GetArrayElement n x
                             (Z3_mk_int64 (Z.of_nat i)
                                (Some (Z3_mk_bv_sort (MinBitCountUnsigned n))))))
                     /\ length (FlattenValue e
                          (GetArrayElement n x
                             (Z3_mk_int64 (Z.of_nat i)
                                (Some (Z3_mk_bv_sort (MinBitCountUnsigned n))))))
                        = GetFlatBitCount e) (seq 0 n)).
    { apply Forall_forall. intros i _.
      apply IH, (Z3_get_sort_array_element e n x i Hx). }
    split.
    + apply Forall_flat_map. eapply Forall_impl; [exact Hel|]. by intros i [].
    + rewrite (length_flat_map_const _ _ (GetFlatBitCount e)).
      * by rewrite length_seq.
      * eapply Forall_impl; [exact Hel|]. by intros i [].
Qed.

(** ** Concatenation *)

Lemma Z3_get_sort_foldl_concat l :
  Forall (fun b => Z3_get_sort b = Some (BvSort 1)) l ->
  forall acc w,
    Z3_get_sort acc = Some (BvSort w) ->
    Z3_get_sort (foldl Z3_mk_concat acc l) = Some (BvSort (w + length l)).
Proof.
  induction 1 as [|b l Hb _ IH]; intros acc w Hacc; cbn [foldl length].
  - by rewrite Nat.add_0_r.
  - rewrite (IH _ (w + 1)%nat) by (cbn; by rewrite Hacc, Hb).
    do 2 f_equal. lia.
Qed.

(** [ConcatN] of one-bit terms, at least one: a bit-vector of as many
    bits. *)
Lemma ConcatN_sorts l :
  Forall (fun b => Z3_get_sort b = Some (BvSort 1)) l ->
  (1 <= length l)%nat ->
  exists r, Z3OpTranslator.ConcatN l = Done r
            /\ Z3_get_sort r = Some (BvSort (length l)).
Proof.
  intros Hl Hlen. destruct l as [|b l]; [cbn in Hlen; lia|].
  apply Forall_cons in Hl as [Hb Hl].
  exists (foldl Z3_mk_concat b l). split; [reflexivity|].
  rewrite (Z3_get_sort_foldl_concat l Hl b 1 Hb). reflexivity.
Qed.

(** An empty span has no [args[0]]. *)
Lemma ConcatN_nil : Z3OpTranslator.ConcatN [] = Fatal.
Proof. reflexivity. Qed.

Lemma bv_wrap_S k v :
  bv_wrap (S k) v = bv_wrap 1 (v / 2 ^ Z.of_nat k) * bv_modulus k + bv_wrap k v.
Proof.
  unfold bv_wrap. rewrite bv_modulus_S. fold (bv_modulus k).
  pose proof (bv_modulus_pos k).
  rewrite (Z.mul_comm 2), Z.rem_mul_r by lia.
  change (bv_modulus 1) with 2. lia.
Qed.

Lemma eval_Extract_bit M x n v k :
  eval M x = Some (VBv n v) -> (k < n)%nat ->
  eval M (Z3OpTranslator.Extract x (Z.of_nat k))
  = Some (VBv 1 (bv_wrap 1 (v / 2 ^ Z.of_nat k))).
Proof.
  intros Hx Hk. cbn. rewrite Hx. rewrite bool_decide_true_eq by lia.
  replace (Z.to_nat (Z.of_nat k - Z.of_nat k + 1)) with 1%nat by lia.
  reflexivity.
Qed.

(** Concatenating the low [k] bits of [x], the most significant first, after
    an accumulator. *)
Lemma eval_foldl_concat_bits M x n v :
  eval M x = Some (VBv n v) ->
  forall k acc w a,
    (k <= n)%nat ->
    eval M acc = Some (VBv w a) ->
    eval M (foldl Z3_mk_concat acc
              (reverse (Z3OpTranslator.Extract x <$> seqZ 0 (Z.of_nat k))))
    = Some (VBv (w + k) (a * bv_modulus k + bv_wrap k v)).
Proof.
  intros Hx. induction k as [|k IH]; intros acc w a Hk Hacc.
  - change (Z.of_nat 0) with 0. rewrite seqZ_nil by lia.
    rewrite fmap_nil, reverse_nil. cbn [foldl].
    rewrite Hacc, Nat.add_0_r. do 2 f_equal.
    unfold bv_wrap. rewrite bv_modulus_0, Z.mod_1_r. lia.
  - rewrite seqZ_S, fmap_app, reverse_app.
    rewrite fmap_cons, fmap_nil, reverse_singleton. cbn [app foldl].
    rewrite Z.add_0_l.
    rewrite (IH _ (w + 1)%nat (a * 2 + bv_wrap 1 (v / 2 ^ Z.of_nat k)))
      by (try lia; cbn [Z3_mk_concat eval];
          rewrite Hacc, (eval_Extract_bit M x n v k Hx) by lia; reflexivity).
    f_equal. f_equal; [lia|].
    rewrite (bv_wrap_S k v), bv_modulus_S. lia.
Qed.

(** A bit-vector exploded, reversed and concatenated is itself. *)
Lemma ConcatN_ExplodeBits M x n v :
  (1 <= n)%nat ->
  Z3_get_sort x = Some (BvSort n) ->
  eval M x = Some (VBv n v) -> 0 <= v < bv_modulus n ->
  exists r,
    Z3OpTranslator.ConcatN (reverse (Z3OpTranslator.ExplodeBits x)) = Done r
    /\ Z3_get_sort r = Some (BvSort n)
    /\ eval M r = Some (VBv n v).
Proof.
  intros Hn Hs Hx Hv.
  destruct (ExplodeBits_sorts n x Hs) as [Hsorts Hlen].
  destruct (ConcatN_sorts (reverse (Z3OpTranslator.ExplodeBits x)))
    as (r & Hr & Hrs).
  { by apply Forall_reverse. }
  { rewrite length_reverse. lia. }
  exists r. split; [exact Hr|]. rewrite length_reverse, Hlen in Hrs.
  split; [exact Hrs|].
  revert Hr. unfold Z3OpTranslator.ExplodeBits, Z3OpTranslator.GetBvBitCount.
  rewrite Hs. cbn [Z3_get_bv_sort_size].
  destruct n as [|m]; [lia|].
  rewrite seqZ_S, fmap_app, reverse_app.
  rewrite fmap_cons, fmap_nil, reverse_singleton. cbn [app].
  rewrite Z.add_0_l. intros [= <-].
  change (drop 1 (?a :: ?l)) with l.
  rewrite (eval_foldl_concat_bits M x (S m) v Hx m _ 1
             (bv_wrap 1 (v / 2 ^ Z.of_nat m)))
    by (try lia; apply (eval_Extract_bit M x (S m) v m Hx); lia).
  f_equal. f_equal. rewrite <- (bv_wrap_S m v). by apply bv_wrap_small.
Qed.

(** ** The round trip through the flat form *)

Lemma subspan_middle {A} (l1 l2 tail : list A) :
  subspan (l1 ++ l2 ++ tail) (Z.of_nat (length l1)) (Z.of_nat (length l2))
  = Done l2.
Proof.
  unfold subspan.
  rewrite bool_decide_true_eq by (rewrite length_app; lia).
  rewrite !Nat2Z.id, drop_app_length, take_app_length. reflexivity.
Qed.

Lemma all2_length {A B} (P : A -> B -> Prop) l1 l2 :
  all2 P l1 l2 -> length l1 = length l2.
Proof.
  revert l2. induction l1 as [|a l1 IH]; intros [|b l2]; cbn; try done.
  intros [_ H]. f_equal. by apply IH.
Qed.

(** The loop of [UnflattenZ3Ast] over the fields of a tuple, on the
    reversed flat form of fields [i], [i + 1], ... of [x]. *)
Lemma unflatten_fields_roundtrip M x ts :
  Forall (fun t => forall y v,
              bits_positive t -> Z3_get_sort y = Some (TypeToSort t) ->
              eval M y = Some v -> val_of_type t v -> roundtrips M t y v) ts ->
  Forall bits_positive ts ->
  forall i vs tail,
    (forall j t, ts !! j = Some t ->
                 Z3_get_sort (tuple_field x (i + j)) = Some (TypeToSort t)) ->
    (forall j v, vs !! j = Some v -> eval M (tuple_field x (i + j)) = Some v) ->
    all2 val_of_type ts vs ->
    exists rs vs',
      unflatten_fields UnflattenZ3Ast GetFlatBitCount
        (reverse (flatten_fields FlattenValue x ts i) ++ tail) ts
        (Z.of_nat (length (flatten_fields FlattenValue x ts i)))
      = Done rs
      /\ Forall2 (fun r t => Z3_get_sort r = Some (TypeToSort t)) rs ts
      /\ eval_args (eval M) rs = Some vs'
      /\ all3 equiv_on ts vs' vs.
Proof.
  intros Hall. induction Hall as [|t ts Ht _ IH];
    intros Hpos i vs tail Hsorts Hvals Hty.
  - destruct vs; [|done]. exists [], []. cbn. repeat split; constructor.
  - destruct vs as [|v vs]; [done|]. destruct Hty as [Hv Hty].
    apply Forall_cons in Hpos as [Hpt Hpos].
    pose proof (Hsorts 0%nat t eq_refl) as Hs0. rewrite Nat.add_0_r in Hs0.
    pose proof (Hvals 0%nat v eq_refl) as Hv0. rewrite Nat.add_0_r in Hv0.
    destruct (FlattenValue_sorts t _ Hs0) as [_ Hlen].
    destruct (Ht _ _ Hpt Hs0 Hv0 Hv) as (r & v' & Hr & Hrs & Hrv & Heq).
    destruct (IH Hpos (S i) vs (reverse (FlattenValue t (tuple_field x i)) ++ tail))
      as (rs & vs' & Hrs' & Hss & Hvs & Heqs).
    { intros j t' Hj. rewrite <- (Hsorts (S j) t' Hj). do 2 f_equal. lia. }
    { intros j v0 Hj. rewrite <- (Hvals (S j) v0 Hj). do 2 f_equal. lia. }
    { exact Hty. }
    exists (r :: rs), (v' :: vs').
    cbn [flatten_fields unflatten_fields]. fold (tuple_field x i).
    rewrite reverse_app, length_app, <- app_assoc.
    replace (Z.of_nat (length (FlattenValue t (tuple_field x i))
                       + length (flatten_fields FlattenValue x ts (S i)))
             - Z.of_nat (GetFlatBitCount t))
      with (Z.of_nat (length (reverse (flatten_fields FlattenValue x ts (S i)))))
      by (rewrite length_reverse; lia).
    rewrite <- Hlen, <- (length_reverse (FlattenValue t (tuple_field x i))).
    rewrite subspan_middle, bind_Done, Hr, bind_Done.
    rewrite !length_reverse.
    rewrite Hrs', bind_Done.
    split; [reflexivity|]. split; [by constructor|].
    split; [cbn; by rewrite Hrv, Hvs|]. by split.
Qed.

(** The loop of [UnflattenZ3Ast] over the elements of an array, on the
    reversed flat form of elements [i], ..., [i + k - 1] of [x]. *)
Lemma unflatten_elements_roundtrip M x e size (f : Z -> z3val) :
  (forall y v,
      Z3_get_sort y = Some (TypeToSort e) ->
      eval M y = Some v -> val_of_type e v -> roundtrips M e y v) ->
  Z3_get_sort x = Some (TypeToSort (ArrayType e size)) ->
  (forall j, (j < size)%nat ->
             eval M (array_element size x j) = Some (f (Z.of_nat j))
             /\ val_of_type e (f (Z.of_nat j))) ->
  forall k i tail,
    (i + k <= size)%nat ->
    exists rs vs',
      unflatten_elements (UnflattenZ3Ast e) (Z.of_nat (GetFlatBitCount e))
        (reverse (flat_map (fun j => FlattenValue e (array_element size x j))
                    (seq i k)) ++ tail) k
        (Z.of_nat (length (flat_map
                             (fun j => FlattenValue e (array_element size x j))
                             (seq i k))))
      = Done rs
      /\ length rs = k
      /\ Forall (fun r => Z3_get_sort r = Some (TypeToSort e)) rs
      /\ Forall2 (fun r v => eval M r = Some v) rs vs'
      /\ (forall j v, vs' !! j = Some v -> equiv_on e v (f (Z.of_nat (i + j)))).
Proof.
  intros He Hx Hel. induction k as [|k IH]; intros i tail Hik.
  - exists [], []. cbn. repeat split; try constructor. intros j v Hj. done.
  - pose proof (Z3_get_sort_array_element e size x i Hx) as Hs0.
    fold (array_element size x i) in Hs0.
    destruct (Hel i ltac:(lia)) as [Hv0 Hty0].
    destruct (FlattenValue_sorts e _ Hs0) as [_ Hlen].
    destruct (He _ _ Hs0 Hv0 Hty0) as (r & v' & Hr & Hrs & Hrv & Heq).
    destruct (IH (S i)
                (reverse (FlattenValue e (array_element size x i)) ++ tail)
                ltac:(lia))
      as (rs & vs' & Hrs' & Hlen' & Hss & Hvs & Heqs).
    exists (r :: rs), (v' :: vs').
    cbn [seq flat_map unflatten_elements].
    rewrite reverse_app, length_app, <- app_assoc.
    replace (Z.of_nat (length (FlattenValue e (array_element size x i))
                       + length (flat_map
                                   (fun j => FlattenValue e (array_element size x j))
                                   (seq (S i) k)))
             - Z.of_nat (GetFlatBitCount e))
      with (Z.of_nat (length (reverse (flat_map
                                   (fun j => FlattenValue e (array_element size x j))
                                   (seq (S i) k)))))
      by (rewrite length_reverse; lia).
    rewrite <- Hlen, <- (length_reverse (FlattenValue e (array_element size x i))).
    rewrite subspan_middle, bind_Done, Hr, bind_Done.
    rewrite !length_reverse, Hlen.
    rewrite Hrs', bind_Done.
    split; [reflexivity|]. split; [cbn; lia|]. split; [by constructor|].
    split; [by constructor|].
    intros [|j] v Hj; cbn in Hj.
    + injection Hj as <-. by rewrite Nat.add_0_r.
    + replace (i + S j)%nat with (S i + j)%nat by lia. by apply Heqs.
Qed.

Lemma bits_positive_tuple ts :
  bits_positive (TupleType ts) <-> Forall bits_positive ts.
Proof.
  cbn. induction ts as [|t ts IH]; cbn.
  - split; [constructor | done].
  - rewrite Forall_cons. by rewrite IH.
Qed.

(** Every term of a type whose bit-vectors have at least one bit makes the
    round trip. *)
Lemma roundtrip_all M t :
  forall x v,
    bits_positive t ->
    Z3_get_sort x = Some (TypeToSort t) ->
    eval M x = Some v -> val_of_type t v ->
    roundtrips M t x v.
Proof.
  induction t as [n|ts IH|e n IH] using Type_ind_nested;
    intros x v Hpos Hs Hx Hty.
  - destruct Hty as (z & -> & Hz).
    destruct (ConcatN_ExplodeBits M x n z Hpos Hs Hx Hz) as (r & Hr & Hrs & Hrv).
    exists r, (VBv n z). repeat split; assumption.
  - destruct Hty as (vs & -> & Hty).
    apply bits_positive_tuple in Hpos.
    destruct (unflatten_fields_roundtrip M x ts IH Hpos 0 vs [])
      as (rs & vs' & Hrs & Hss & Hvs & Heq).
    { intros j t Hj. exact (Z3_get_sort_tuple_field ts x j t Hs Hj). }
    { intros j v Hj. change (0 + j)%nat with j. unfold tuple_field.
      rewrite (eval_tuple_field M ts x j vs Hs); [exact Hj | | exact Hx].
      apply lookup_lt_Some in Hj. by rewrite (all2_length _ _ _ Hty). }
    { exact Hty. }
    exists (CreateTuple (TupleType ts) rs), (VTup vs').
    split; [|split; [|split]].
    + cbn [UnflattenZ3Ast].
      replace (GetFlatBitCount (TupleType ts))
        with (length (flatten_fields FlattenValue x ts 0))
        by (apply (FlattenValue_sorts (TupleType ts) x Hs)).
      cbn [FlattenValue]. rewrite <- (app_nil_r (reverse _)).
      rewrite Hrs, bind_Done. reflexivity.
    + apply Z3_get_sort_CreateTuple. exact Hss.
    + destruct (TypeToSort_tuple_fields ts) as (names & _ & Heqs).
      unfold CreateTuple. rewrite Heqs. cbn. by rewrite Hvs.
    + exists vs', vs. repeat split. exact Heq.
  - destruct Hty as (f & -> & Hty).
    pose proof (MinBitCountUnsigned_covers n) as Hcov.
    destruct (array_sort_ok x e n Hs) as [Hidx _].
    destruct (unflatten_elements_roundtrip M x e n f
                (fun y v => IH y v Hpos) Hs) with (k := n) (i := 0%nat)
                                                   (tail := @nil Z3_ast)
      as (rs & vs' & Hrs & Hlen & Hss & Hvs & Heq).
    { intros j Hj. split; [|apply Hty; lia].
      unfold array_element.
      rewrite (eval_GetArrayElement M n x _ f (MinBitCountUnsigned n)
                 (Z.of_nat j)); try done; try lia;
        try (by apply Z3_get_sort_int64).
      - rewrite bool_decide_true_eq by lia. do 2 f_equal. lia.
      - apply eval_index_literal. lia. }
    { lia. }
    destruct (CreateArray_Done M e n rs vs' Hlen Hvs Hss)
      as (res & g & Hres & Hsort & Heval & Hin & _).
    specialize (Hsort (Z3_get_sort_ok _ _ Hs)).
    exists res, (VArr g). split; [|split; [exact Hsort|split; [exact Heval|]]].
    + cbn [UnflattenZ3Ast].
      replace (GetFlatBitCount (ArrayType e n))
        with (length (flat_map (fun j => FlattenValue e (array_element n x j))
                        (seq 0 n)))
        by (apply (FlattenValue_sorts (ArrayType e n) x Hs)).
      cbn [FlattenValue]. fold (array_element n x).
      rewrite <- (app_nil_r (reverse _)).
      unfold array_element in Hrs |- *. rewrite Hrs, bind_Done. exact Hres.
    + exists g, f. repeat split. intros i Hi.
      assert (Hj : (Z.to_nat i < length vs')%nat).
      { rewrite <- (Forall2_length _ _ _ Hvs). lia. }
      destruct (lookup_lt_is_Some_2 vs' (Z.to_nat i) Hj) as [v Hv].
      pose proof (Hin _ _ Hv) as Hg. pose proof (Heq _ _ Hv) as He.
      rewrite Z2Nat.id in Hg by lia. cbn in He. rewrite Z2Nat.id in He by lia.
      by rewrite Hg.
Qed.

(** The bits of [reversed_bits]: bit [k] is bit [j + m - 1 - k] of [v]. *)
Lemma reversed_bits_spec v j m :
  0 <= reversed_bits v j m < 2 ^ Z.of_nat m
  /\ forall k, (k < m)%nat ->
       Z.testbit (reversed_bits v j m) (Z.of_nat k)
       = Z.testbit v (Z.of_nat (j + (m - 1 - k))).
Proof.
  revert j. induction m as [|m IH]; intros j.
  - cbn. split; [lia|]. intros k Hk. lia.
  - destruct (IH (S j)) as [Hr Hb]. cbn [reversed_bits].
    set (r := reversed_bits v (S j) m) in *.
    set (b := Z.b2z (Z.testbit v (Z.of_nat j))).
    assert (0 <= b <= 1) as Hb01 by (subst b; destruct (Z.testbit _ _); cbn; lia).
    assert (0 < 2 ^ Z.of_nat m) as Hp by (apply Z.pow_pos_nonneg; lia).
    split.
    + rewrite Nat2Z.inj_succ, Z.pow_succ_r by lia. nia.
    + intros k Hk. destruct (decide (k = m)) as [->|Hne].
      * replace (j + (S m - 1 - m))%nat with j by lia.
        rewrite <- (Z.add_0_l (Z.of_nat m)) at 2.
        rewrite <- Z.div_pow2_bits by lia.
        rewrite Z.div_add_l, Z.div_small, Z.add_0_r by lia.
        subst b. by destruct (Z.testbit v (Z.of_nat j)).
      * rewrite <- (Z.mod_pow2_bits_low _ (Z.of_nat m)) by lia.
        rewrite Z.add_comm, Z.mod_add, Z.mod_small by lia.
        rewrite (Hb k) by lia. f_equal. lia.
Qed.

(** Concatenating the bits [j], ..., [j + m - 1] of [x] in the order
    [ExplodeBits] lists them, after an accumulator. *)
Lemma eval_foldl_concat_forward M x n v :
  eval M x = Some (VBv n v) ->
  forall m j acc w a,
    (j + m <= n)%nat ->
    eval M acc = Some (VBv w a) ->
    eval M (foldl Z3_mk_concat acc
              (Z3OpTranslator.Extract x <$> seqZ (Z.of_nat j) (Z.of_nat m)))
    = Some (VBv (w + m) (a * 2 ^ Z.of_nat m + reversed_bits v j m)).
Proof.
  intros Hx. induction m as [|m IH]; intros j acc w a Hj Hacc.
  - cbn [seqZ Z.of_nat]. rewrite seqZ_nil by lia. cbn [fmap list_fmap foldl].
    rewrite Hacc, Nat.add_0_r. cbn. do 2 f_equal. lia.
  - rewrite seqZ_cons by lia. cbn [fmap list_fmap foldl].
    replace (Z.succ (Z.of_nat j)) with (Z.of_nat (S j)) by lia.
    replace (Z.pred (Z.of_nat (S m))) with (Z.of_nat m) by lia.
    rewrite (IH (S j) _ (w + 1)%nat
               (a * 2 + Z.b2z (Z.testbit v (Z.of_nat j)))); [|lia|].
    + cbn [reversed_bits]. f_equal. f_equal; [lia|].
      rewrite Nat2Z.inj_succ, Z.pow_succ_r by lia. lia.
    + unfold Z3_mk_concat. cbn [eval].
      rewrite Hacc, (eval_Extract_bit M x n v j Hx) by lia.
      do 2 f_equal. change (bv_modulus 1) with 2. f_equal.
      unfold bv_wrap. change (bv_modulus 1) with 2.
      by rewrite Z.testbit_spec' by lia.
Qed.

(** Without the reversal in between, the bits of a bit-vector come back in
    the opposite order. *)
Lemma ConcatN_ExplodeBits_forward M x n v :
  Z3_get_sort x = Some (BvSort n) ->
  eval M x = Some (VBv n v) ->
  exists r,
    Z3OpTranslator.ConcatN (Z3OpTranslator.ExplodeBits x) = Done r
    /\ Z3_get_sort r = Some (BvSort n)
    /\ eval M r = Some (VBv n (reversed_bits v 0 n)).
Proof.
  intros Hs Hx. pose proof (Z3_get_sort_bv_pos _ _ Hs) as Hn.
  destruct (ExplodeBits_sorts n x Hs) as [Hsorts Hlen].
  destruct (ConcatN_sorts (Z3OpTranslator.ExplodeBits x) Hsorts ltac:(lia))
    as (r & Hr & Hrs).
  exists r. split; [exact Hr|]. rewrite Hlen in Hrs. split; [exact Hrs|].
  revert Hr. unfold Z3OpTranslator.ExplodeBits, Z3OpTranslator.GetBvBitCount.
  rewrite Hs. cbn [Z3_get_bv_sort_size].
  destruct n as [|m]; [lia|].
  rewrite seqZ_cons by lia. cbn [fmap list_fmap].
  intros [= <-]. change (drop 1 (?a :: ?l)) with l.
  replace (Z.succ 0) with (Z.of_nat 1) by lia.
  replace (Z.pred (Z.of_nat (S m))) with (Z.of_nat m) by lia.
  rewrite (eval_foldl_concat_forward M x (S m) v Hx m 1 _ 1
             (Z.b2z (Z.testbit v (Z.of_nat 0)))); [|lia|].
  - cbn [reversed_bits]. do 2 f_equal.
  - change 0 with (Z.of_nat 0).
    rewrite (eval_Extract_bit M x (S m) v 0 Hx) by lia.
    do 2 f_equal. unfold bv_wrap. change (bv_modulus 1) with 2.
    by rewrite Z.testbit_spec' by lia.
Qed.

(** C1 (amended).  For every supported type [t] whose bit-vectors have at
    least one bit and every term [x] of sort [TypeToSort t], with value [v]
    in a model: [UnflattenZ3Ast t] of the REVERSED [FlattenValue t x] is
    defined, has sort [TypeToSort t], and its value is equivalent to [v]:
    the same bit-vector, tuples of equivalent fields, arrays that agree at
    every index below the array's size.  Without the reversal, for every
    bit-vector term [x] of [n] bits, [UnflattenZ3Ast (Bits n)] of
    [FlattenValue (Bits n) x] is a term of [n] bits whose bit [k] is bit
    [n - 1 - k] of [x]: the bits of [x] in the opposite order. *)
Theorem UnflattenZ3Ast_reverse_FlattenValue (M : Z3_model) :
  (forall (t : Type_) (x : Z3_ast) (v : z3val),
      bits_positive t ->
      Z3_get_sort x = Some (TypeToSort t) ->
      eval M x = Some v -> val_of_type t v ->
      exists r v',
        UnflattenZ3Ast t (reverse (FlattenValue t x)) = Done r
        /\ Z3_get_sort r = Some (TypeToSort t)
        /\ eval M r = Some v'
        /\ equiv_on t v' v)
  /\ (forall (n : nat) (x : Z3_ast) (v : Z),
        Z3_get_sort x = Some (TypeToSort (BitsType n)) ->
        eval M x = Some (VBv n v) -> 0 <= v < bv_modulus n ->
        exists r v',
          UnflattenZ3Ast (BitsType n) (FlattenValue (BitsType n) x) = Done r
          /\ Z3_get_sort r = Some (TypeToSort (BitsType n))
          /\ eval M r = Some (VBv n v')
          /\ 0 <= v' < bv_modulus n
          /\ forall k, (k < n)%nat ->
               Z.testbit v' (Z.of_nat k)
               = Z.testbit v (Z.of_nat (n - 1 - k))).
Proof.
  split.
  - intros t x v Hpos Hs Hx Hty. exact (roundtrip_all M t x v Hpos Hs Hx Hty).
  - intros n x v Hs Hx Hv.
    destruct (ConcatN_ExplodeBits_forward M x n v Hs Hx) as (r & Hr & Hrs & Hrv).
    destruct (reversed_bits_spec v 0 n) as [Hrange Hbits].
    exists r, (reversed_bits v 0 n).
    split; [exact Hr|]. split; [exact Hrs|]. split; [exact Hrv|].
    split; [exact Hrange|]. intros k Hk. by rewrite (Hbits k Hk).
Qed.

Lemma UnflattenZ3Ast_reverse_FlattenValue_witness :
  (exists r v',
      UnflattenZ3Ast pair_type
        (reverse (FlattenValue pair_type (AConst "p" (TypeToSort pair_type))))
      = Done r
      /\ Z3_get_sort r = Some (TypeToSort pair_type)
      /\ eval pair_model r = Some v'
      /\ equiv_on pair_type v' (VTup [VBv 2 1; VBv 3 5]))
  /\ (exists r v',
        UnflattenZ3Ast (BitsType 2)
          (FlattenValue (BitsType 2) (AConst "x" (BvSort 2))) = Done r
        /\ Z3_get_sort r = Some (TypeToSort (BitsType 2))
        /\ eval two_bit_model r = Some (VBv 2 v')
        /\ 0 <= v' < bv_modulus 2
        /\ forall k, (k < 2)%nat ->
             Z.testbit v' (Z.of_nat k) = Z.testbit 1 (Z.of_nat (2 - 1 - k))).
Proof.
  split.
  - apply (proj1 (UnflattenZ3Ast_reverse_FlattenValue pair_model) pair_type
             (AConst "p" (TypeToSort pair_type)) (VTup [VBv 2 1; VBv 3 5])).
    + cbn. lia.
    + reflexivity.
    + reflexivity.
    + exists [VBv 2 1; VBv 3 5]. split; [reflexivity|]. cbn.
      split; [exists 1|split; [exists 5|exact I]];
        (split; [reflexivity|]; vm_compute; split; [discriminate | reflexivity]).
  - apply (proj2 (UnflattenZ3Ast_reverse_FlattenValue two_bit_model) 2%nat
             (AConst "x" (BvSort 2)) 1).
    + reflexivity.
    + reflexivity.
    + vm_compute. split; [discriminate | reflexivity].
Defined.

(** C1 (counterexample).  Without the reversal the round trip already fails
    at [Bits(2)]: the 2-bit term with value 1 (binary 01) comes back with
    value 2 (binary 10). *)
Lemma UnflattenZ3Ast_FlattenValue_reverses_bits :
  exists r,
    UnflattenZ3Ast (BitsType 2)
      (FlattenValue (BitsType 2) (AConst "x" (BvSort 2))) = Done r
    /\ Z3_get_sort (AConst "x" (BvSort 2)) = Some (TypeToSort (BitsType 2))
    /\ eval two_bit_model (AConst "x" (BvSort 2)) = Some (VBv 2 1)
    /\ eval two_bit_model r = Some (VBv 2 2).
Proof. eexists. repeat split. Qed.

(** With the reversal, an array still comes back with the zero of the
    element sort at the indices of its index sort that are not indices of
    the array type: here index 3 of an array of three bits. *)
Lemma UnflattenZ3Ast_array_outside_indices :
  exists r,
    UnflattenZ3Ast bit_array_type
      (reverse (FlattenValue bit_array_type
                  (AConst "a" (TypeToSort bit_array_type)))) = Done r
    /\ eval bit_array_model
         (Z3_mk_select (AConst "a" (TypeToSort bit_array_type))
            (Z3_mk_int64 3 (Some (BvSort 2)))) = Some (VBv 1 1)
    /\ eval bit_array_model (Z3_mk_select r (Z3_mk_int64 3 (Some (BvSort 2))))
       = Some (VBv 1 0).
Proof. eexists. split; [reflexivity|]. split; vm_compute; reflexivity. Qed.

(** ** What a visit changes *)

Lemma bind_Done_inv {A B} (m : outcome A) (k : A -> outcome B) (r : B) :
  m ≫= k = Done r -> exists a, m = Done a /\ k a = Done r.
Proof. destruct m; cbn; [eauto | discriminate | discriminate]. Qed.

(** Take apart a hypothesis [H : ... = Done _] about a sequence of calls:
    every call of the sequence returned, and every check passed. *)
Ltac invert_Done H :=
  repeat first
    [ discriminate H
    | apply bind_Done_inv in H as (? & ? & H)
    | progress cbv beta in H
    | match type of H with
      | note_and_return _ _ _ = Done _ => unfold note_and_return in H
      | (if ?b then _ else _) = Done _ => destruct b eqn:?
      | (let '(_, _) := ?p in _) = Done _ => destruct p
      | match ?x with _ => _ end = Done _ => destruct x eqn:?
      end ].

Lemma HandleMul_notes tr self n is_signed tr' r :
  HandleMul tr self n is_signed = Done (tr', r) ->
  tr' = NoteTranslation tr self r.
Proof.
  unfold HandleMul. intros H. invert_Done H.
  all: by injection H as <- <-.
Qed.

(** A successful visit notes one term for the node and changes nothing
    else. *)
Lemma VisitNode_notes tr self n tr' :
  VisitNode tr self n = Done tr' ->
  exists a, tr' = NoteTranslation tr self a.
Proof.
  unfold VisitNode. intros H.
  destruct (kind n);
    unfold HandleParam, HandleLiteral, HandleAdd, HandleSub,
      HandleULe, HandleULt, HandleUGe, HandleUGt, HandleSGt, HandleSLe,
      HandleSLt, HandleSGe, HandleEq, HandleNe, HandleCompare,
      HandleShra, HandleShrl, HandleShll, HandleShift,
      HandleNaryAnd, HandleNaryNand, HandleNaryNor, HandleNaryOr,
      HandleNaryXor, HandleConcat, HandleNary, HandleBinary,
      HandleArray, HandleTuple, HandleArrayIndex, HandleTupleIndex,
      HandleEncode, HandleOneHot, HandleReverse, HandleUnaryViaAbstractEval,
      HandleNeg, HandleNot, HandleUnary, HandleIdentity,
      HandleSignExtend, HandleZeroExtend, HandleExtend, HandleBitSlice,
      HandleOneHotSel, HandleSel, HandleSelect, HandleSMul, HandleUMul,
      DefaultHandler in H;
    invert_Done H;
    try (injection H as <-); eauto;
    match goal with
    | Hm : HandleMul _ _ _ _ = Done _ |- _ =>
        apply HandleMul_notes in Hm; subst; eauto
    end.
Qed.

Lemma AcceptNodes_fields ns :
  forall tr first tr',
    AcceptNodes tr first ns = Done tr' ->
    config_ tr' = config_ tr /\ ctx_ tr' = ctx_ tr
    /\ borrowed_context_ tr' = borrowed_context_ tr
    /\ imported_params_ tr' = imported_params_ tr
    /\ xls_function_ tr' = xls_function_ tr.
Proof.
  induction ns as [|n ns IH]; intros tr first tr' H; cbn in H.
  - by injection H as <-.
  - apply bind_Done_inv in H as (tr1 & Hv & H).
    apply VisitNode_notes in Hv as (a & ->).
    exact (IH _ _ _ H).
Qed.

(** ** Timeouts *)

Lemma CreateAndTranslate_borrowed_fields ctx f imported tr :
  CreateAndTranslate_borrowed ctx f imported = Done tr ->
  ctx_ tr = ctx /\ borrowed_context_ tr = true /\ config_ tr = None
  /\ imported_params_ tr = Some imported /\ xls_function_ tr = f.
Proof.
  unfold CreateAndTranslate_borrowed, Accept. intros H.
  apply AcceptNodes_fields in H as (Hc & Hx & Hb & Hi & Hf).
  by rewrite Hc, Hx, Hb, Hi, Hf.
Qed.

Lemma CreateAndTranslate_fields f w tr w' :
  CreateAndTranslate f w = (Done tr, w') ->
  ctx_ tr = next_context w /\ borrowed_context_ tr = false
  /\ config_ tr = Some (next_config w) /\ imported_params_ tr = None
  /\ xls_function_ tr = f
  /\ contexts w' = <[next_context w := {["proof" := "true"]}]> (contexts w)
  /\ configs w' = <[next_config w := {["proof" := "true"]}]> (configs w).
Proof.
  unfold CreateAndTranslate, Z3_mk_config, Z3_set_param_value,
    Z3Translator_owned, Z3_mk_context.
  cbn [configs contexts next_config next_context].
  destruct (Accept f _) as [tr0| |] eqn:Hacc; intros [= <- <-].
  unfold Accept in Hacc.
  apply AcceptNodes_fields in Hacc as (Hc & Hx & Hb & Hi & Hf).
  rewrite Hc, Hx, Hb, Hi, Hf. cbn.
  repeat split.
  - rewrite alter_insert_eq, lookup_insert_eq. cbn.
    by rewrite insert_empty.
  - rewrite alter_insert_eq. by rewrite insert_empty.
Qed.

(** C10.  [SetTimeout] writes the parameter "timeout", the duration in whole
    milliseconds, on the translator's context and touches nothing else, in
    both ownership modes.  For a translator made over a caller's context the
    write lands on that context, and destroying the translator leaves it
    (and every configuration) as [SetTimeout] left it. *)
Theorem SetTimeout_writes_context_parameter
    (tr : Z3Translator) (timeout : Duration) (w : Z3_world) :
  contexts (SetTimeout tr timeout w) !! ctx_ tr
  = (fun ps => <["timeout" := pretty (ToInt64Milliseconds timeout)]> ps)
      <$> contexts w !! ctx_ tr
  /\ (forall c, c ≠ ctx_ tr ->
                contexts (SetTimeout tr timeout w) !! c = contexts w !! c)
  /\ configs (SetTimeout tr timeout w) = configs w
  /\ (forall ctx f imported,
        CreateAndTranslate_borrowed ctx f imported = Done tr ->
        ctx_ tr = ctx
        /\ contexts (SetTimeout tr timeout w) !! ctx
           = (fun ps => <["timeout" := pretty (ToInt64Milliseconds timeout)]> ps)
               <$> contexts w !! ctx
        /\ Z3Translator_destroy tr (SetTimeout tr timeout w)
           = SetTimeout tr timeout w)
  /\ (forall f w0,
        CreateAndTranslate f w0 = (Done tr, w) ->
        contexts (SetTimeout tr timeout w) !! ctx_ tr
        = Some (<["timeout" := pretty (ToInt64Milliseconds timeout)]>
                  {["proof" := "true"]})
        /\ contexts (Z3Translator_destroy tr (SetTimeout tr timeout w))
             !! ctx_ tr = None)
  /\ (kint64min <= Z.quot timeout 1000000 <= kint64max ->
      ToInt64Milliseconds timeout = Z.quot timeout 1000000).
Proof.
  assert (Hset : contexts (SetTimeout tr timeout w) !! ctx_ tr
                 = (fun ps => <["timeout" := pretty (ToInt64Milliseconds timeout)]> ps)
                     <$> contexts w !! ctx_ tr).
  { unfold SetTimeout, Z3_update_param_value. cbn [contexts].
    by rewrite lookup_alter_eq. }
  split; [exact Hset|]. split; [|split; [reflexivity|split; [|split]]].
  - intros c Hc. unfold SetTimeout, Z3_update_param_value. cbn [contexts].
    by rewrite lookup_alter_ne.
  - intros ctx f imported Hb.
    apply CreateAndTranslate_borrowed_fields in Hb as (Hc & Hbor & _).
    split; [exact Hc|]. split; [by rewrite <- Hc|].
    unfold Z3Translator_destroy. by rewrite Hbor.
  - intros f w0 Ho.
    apply CreateAndTranslate_fields in Ho as (Hc & Hbor & Hcfg & _ & _ & Hctx & _).
    split.
    + rewrite Hset, Hctx, Hc, lookup_insert_eq. reflexivity.
    + unfold Z3Translator_destroy. rewrite Hbor, Hcfg. cbn.
      by rewrite lookup_delete_eq.
  - unfold ToInt64Milliseconds. lia.
Qed.

(** ** The verdict of [TryProve] *)

(** C3.  [TryProve] answers [true] exactly when the encoding and the
    objective are built and the solver finds the objective unsatisfiable;
    it answers [false] exactly when they are built and the verdict is
    anything else, satisfiable or unknown.  A failure of the encoding, or
    of the construction of the objective, is returned as that failure and
    never as a boolean. *)
Theorem TryProve_verdict
    (Z3_solver_check : gmap string string -> Z3_ast -> Z3_lbool)
    (f : Function) (subject : NodePtr) (p : Predicate) (timeout : Duration)
    (w : Z3_world) :
  (forall b,
     fst (TryProve Z3_solver_check f subject p timeout w) = Done b <->
     exists tr w1 a objective,
       CreateAndTranslate f w = (Done tr, w1)
       /\ GetTranslation tr subject = Done a
       /\ GetValueKind a = Z3_BV_SORT
       /\ PredicateToObjective p a tr = Done objective
       /\ b = bool_decide
                (Z3_solver_check (solver_params tr timeout w1) objective
                 = Z3_L_FALSE))
  /\ (forall tr w1 a objective,
        CreateAndTranslate f w = (Done tr, w1) ->
        GetTranslation tr subject = Done a ->
        GetValueKind a = Z3_BV_SORT ->
        PredicateToObjective p a tr = Done objective ->
        fst (TryProve Z3_solver_check f subject p timeout w)
        = match Z3_solver_check (solver_params tr timeout w1) objective with
          | Z3_L_FALSE => Done true
          | Z3_L_TRUE | Z3_L_UNDEF => Done false
          end)
  /\ (forall c m,
        fst (CreateAndTranslate f w) = Failed c m ->
        fst (TryProve Z3_solver_check f subject p timeout w) = Failed c m)
  /\ (forall tr w1 a c m,
        CreateAndTranslate f w = (Done tr, w1) ->
        GetTranslation tr subject = Done a ->
        GetValueKind a = Z3_BV_SORT ->
        PredicateToObjective p a tr = Failed c m ->
        fst (TryProve Z3_solver_check f subject p timeout w) = Failed c m).
Proof.
  assert (Hbuilt : forall tr w1 a objective,
    CreateAndTranslate f w = (Done tr, w1) ->
    GetTranslation tr subject = Done a ->
    GetValueKind a = Z3_BV_SORT ->
    PredicateToObjective p a tr = Done objective ->
    fst (TryProve Z3_solver_check f subject p timeout w)
    = Done (bool_decide
              (Z3_solver_check (solver_params tr timeout w1) objective
               = Z3_L_FALSE))).
  { intros tr w1 a objective Hc Ha Hk Ho. unfold TryProve, solver_params.
    rewrite Hc, Ha. cbn [mbind outcome_bind].
    rewrite bool_decide_false_eq by (rewrite Hk; intros Hne; by apply Hne).
    rewrite Ho. cbn [mbind outcome_bind].
    by case_bool_decide. }
  split; [|split; [|split]].
  - intros b. split.
    + unfold TryProve, solver_params.
      destruct (CreateAndTranslate f w) as [[tr| |] w1] eqn:Hc;
        cbn [fst]; try discriminate.
      destruct (GetTranslation tr subject) as [a| |] eqn:Ha;
        cbn [mbind outcome_bind fst]; try discriminate.
      case_bool_decide as Hk.
      { destruct (node_at f subject); cbn; discriminate. }
      destruct (PredicateToObjective p a tr) as [objective| |] eqn:Ho;
        cbn [mbind outcome_bind fst]; try discriminate.
      intros Hb. exists tr, w1, a, objective.
      split_and!; try done.
      revert Hb. unfold solver_params.
      repeat case_bool_decide; cbn; congruence.
    + intros (tr & w1 & a & objective & Hc & Ha & Hk & Ho & ->).
      by apply (Hbuilt tr w1 a objective).
  - intros tr w1 a objective Hc Ha Hk Ho.
    rewrite (Hbuilt _ _ _ _ Hc Ha Hk Ho).
    destruct (Z3_solver_check _ _); by case_bool_decide.
  - intros c m. unfold TryProve.
    destruct (CreateAndTranslate f w) as [[tr| |] w1]; cbn [fst];
      intros Hf; try discriminate Hf; by injection Hf as -> ->.
  - intros tr w1 a c m Hc Ha Hk Ho. unfold TryProve.
    rewrite Hc, Ha. cbn [mbind outcome_bind].
    rewrite bool_decide_false_eq by (rewrite Hk; intros Hne; by apply Hne).
    by rewrite Ho.
Qed.

(** ** Sorts of accepted terms *)

Lemma sort_ABin op a b s :
  Z3_get_sort (ABin op a b) = Some s ->
  exists n, s = BvSort n /\ Z3_get_sort a = Some (BvSort n)
            /\ Z3_get_sort b = Some (BvSort n).
Proof.
  cbn [Z3_get_sort].
  destruct (Z3_get_sort a) as [[]|]; try discriminate.
  destruct (Z3_get_sort b) as [[]|]; try discriminate.
  case_bool_decide; [|discriminate]. intros [= <-]. subst. eauto.
Qed.

Lemma sort_AUn op a s :
  Z3_get_sort (AUn op a) = Some s ->
  exists n, Z3_get_sort a = Some (BvSort n)
            /\ s = BvSort (match op with bvredor => 1%nat | _ => n end).
Proof.
  cbn [Z3_get_sort].
  destruct (Z3_get_sort a) as [[]|]; try discriminate.
  intros [= <-]. eauto.
Qed.

Lemma sort_AConcat a b s :
  Z3_get_sort (AConcat a b) = Some s ->
  exists n m, s = BvSort (n + m) /\ Z3_get_sort a = Some (BvSort n)
              /\ Z3_get_sort b = Some (BvSort m).
Proof.
  cbn [Z3_get_sort].
  destruct (Z3_get_sort a) as [[]|]; try discriminate.
  destruct (Z3_get_sort b) as [[]|]; try discriminate.
  intros [= <-]. eauto.
Qed.

Lemma sort_AZeroExt i a s :
  Z3_get_sort (AZeroExt i a) = Some s ->
  exists n, 0 <= i /\ Z3_get_sort a = Some (BvSort n)
            /\ s = BvSort (n + Z.to_nat i).
Proof.
  cbn [Z3_get_sort].
  destruct (Z3_get_sort a) as [[]|]; try discriminate.
  case_bool_decide; [|discriminate]. intros [= <-]. eauto.
Qed.

Lemma sort_ASignExt i a s :
  Z3_get_sort (ASignExt i a) = Some s ->
  exists n, 0 <= i /\ Z3_get_sort a = Some (BvSort n)
            /\ s = BvSort (n + Z.to_nat i).
Proof.
  cbn [Z3_get_sort].
  destruct (Z3_get_sort a) as [[]|]; try discriminate.
  case_bool_decide; [|discriminate]. intros [= <-]. eauto.
Qed.

Lemma sort_AExtract high low a s :
  Z3_get_sort (AExtract high low a) = Some s ->
  exists n, Z3_get_sort a = Some (BvSort n)
            /\ 0 <= low <= high /\ high < Z.of_nat n
            /\ s = BvSort (Z.to_nat (high - low + 1)).
Proof.
  cbn [Z3_get_sort].
  destruct (Z3_get_sort a) as [[]|]; try discriminate.
  case_bool_decide; [|discriminate]. intros [= <-].
  eexists. split; [reflexivity|]. split; [lia|]. split; [lia|reflexivity].
Qed.

Lemma sort_ASelect a i s :
  Z3_get_sort (ASelect a i) = Some s ->
  exists d, Z3_get_sort a = Some (ArraySort d s).
Proof.
  cbn [Z3_get_sort].
  destruct (Z3_get_sort a) as [[]|]; try discriminate.
  destruct (Z3_get_sort i); try discriminate.
  destruct (sort_eqb _ _); [|discriminate]. intros [= <-]. eauto.
Qed.

Lemma bv_headed_sort a s :
  bv_headed a -> Z3_get_sort a = Some s -> exists n, s = BvSort n.
Proof.
  destruct a; cbn [bv_headed]; try done; intros _ Hs.
  - cbn in Hs. case_bool_decide; [|discriminate]. injection Hs as <-. eauto.
  - apply sort_AUn in Hs as (? & _ & ->). eauto.
  - apply sort_ABin in Hs as (? & -> & _). eauto.
  - apply sort_AConcat in Hs as (? & ? & -> & _). eauto.
  - apply sort_AZeroExt in Hs as (? & _ & _ & ->). eauto.
  - apply sort_ASignExt in Hs as (? & _ & _ & ->). eauto.
  - apply sort_AExtract in Hs as (? & _ & _ & _ & ->). eauto.
Qed.

(** A comparison the solver accepts is one bit wide. *)
Lemma sort_Msb a s :
  Z3_get_sort (Z3OpTranslator.Msb a) = Some s -> s = BvSort 1.
Proof.
  unfold Z3OpTranslator.Msb, Z3OpTranslator.Extract, Z3_mk_extract.
  intros Hs. apply sort_AExtract in Hs as (? & _ & _ & _ & ->).
  f_equal. lia.
Qed.

Lemma sort_Not a s :
  Z3_get_sort (Z3OpTranslator.Not a) = Some s -> Z3_get_sort a = Some s.
Proof.
  unfold Z3OpTranslator.Not, Z3_mk_bvnot.
  intros Hs. by apply sort_AUn in Hs as (? & -> & ->).
Qed.

Lemma sort_redor a s : Z3_get_sort (Z3_mk_bvredor a) = Some s -> s = BvSort 1.
Proof.
  unfold Z3_mk_bvredor. intros Hs. by apply sort_AUn in Hs as (? & _ & ->).
Qed.

Lemma sort_compare (f : Z3_ast -> Z3_ast -> Z3_ast) lhs rhs s :
  f ∈ [HandleULe_f; HandleULt_f; HandleUGe_f; HandleUGt_f; HandleSGt_f;
       HandleSLe_f; HandleSLt_f; HandleSGe_f; HandleEq_f; HandleNe_f] ->
  Z3_get_sort (f lhs rhs) = Some s -> s = BvSort 1.
Proof.
  intros Hf Hs.
  repeat (apply elem_of_cons in Hf as [->|Hf]); [..|by apply elem_of_nil in Hf].
  - by apply sort_redor in Hs.
  - by apply sort_Msb in Hs.
  - apply sort_Not in Hs. by apply sort_Msb in Hs.
  - apply sort_Not in Hs. unfold Z3OpTranslator.Or, Z3_mk_bvor in Hs.
    apply sort_ABin in Hs as (n & -> & _ & Hu). apply sort_Msb in Hu.
    by injection Hu as ->.
  - unfold HandleSGt_f in Hs. apply (sort_Not (Z3_mk_bvredor _)) in Hs.
    by apply sort_redor in Hs.
  - by apply sort_redor in Hs.
  - by apply sort_Msb in Hs.
  - apply sort_Not in Hs. by apply sort_Msb in Hs.
  - apply sort_Not in Hs. by apply sort_redor in Hs.
  - by apply sort_redor in Hs.
Qed.

(** ** Operands under the sort invariant *)

Lemma note_and_return_inv tr self a tr' :
  note_and_return tr self a = Done tr' ->
  tr' = NoteTranslation tr self a /\ exists s, Z3_get_sort a = Some s.
Proof.
  unfold note_and_return, seh_status, Z3_errors.
  destruct (Z3_get_sort a) as [s|]; cbn; [|discriminate].
  intros [= <-]. eauto.
Qed.

Lemma at_index_Done {A} (v : list A) i a :
  at_index v i = Done a -> v !! i = Some a.
Proof. unfold at_index. by destruct (v !! i); intros [= <-]. Qed.

Lemma TypeToSort_BvSort t k : TypeToSort t = BvSort k -> t = BitsType k.
Proof. destruct t; cbn; try discriminate. by intros [= <-]. Qed.

Lemma GetValue_sorted tr o a :
  translations_sorted tr -> GetValue tr o = Done a ->
  exists n, nodes (xls_function_ tr) !! o = Some n
            /\ translations_ tr !! o = Some a
            /\ Z3_get_sort a = Some (TypeToSort (GetType n)).
Proof.
  intros Hinv. unfold GetValue.
  destruct (translations_ tr !! o) as [a'|] eqn:Ha; [|discriminate].
  intros [= <-]. destruct (Hinv _ _ Ha) as (n & Hn & Hs). eauto.
Qed.

Lemma GetBitVec_sorted tr o a :
  translations_sorted tr -> GetBitVec tr o = Done a ->
  exists n k, nodes (xls_function_ tr) !! o = Some n
              /\ GetType n = BitsType k
              /\ Z3_get_sort a = Some (BvSort k).
Proof.
  intros Hinv H. unfold GetBitVec in H.
  apply bind_Done_inv in H as (v & Hv & H).
  apply GetValue_sorted in Hv as (n & Hn & _ & Hs); [|done].
  apply bind_Done_inv in H as ([] & Hk & H).
  unfold XLS_CHECK in Hk. case_bool_decide as Hkind; [|discriminate].
  apply bind_Done_inv in H as (n' & Hn' & H).
  apply bind_Done_inv in H as ([] & _ & H). injection H as <-.
  rewrite Hs in Hkind. cbn in Hkind.
  destruct (TypeToSort (GetType n)) as [|k| |] eqn:Ht; try discriminate.
  apply TypeToSort_BvSort in Ht. exists n, k. by rewrite Hs.
Qed.

Lemma operand_types_lookup f n ots i o :
  operand_types f n = Some ots -> operand n i = Done o ->
  exists on, nodes f !! o = Some on /\ ots !! i = Some (GetType on).
Proof.
  unfold operand_types, operand. intros Hm Ho.
  apply at_index_Done in Ho. apply mapM_Some in Hm.
  destruct (Forall2_lookup_l _ _ _ _ _ Hm Ho) as (t & Ht & Hf).
  destruct (nodes f !! o) as [on|]; [|discriminate].
  injection Hf as <-. eauto.
Qed.

Lemma operand_bit_count_Done tr n i k :
  operand_bit_count tr n i = Done k ->
  exists o on, operand n i = Done o
               /\ nodes (xls_function_ tr) !! o = Some on
               /\ GetType on = BitsType k.
Proof.
  unfold operand_bit_count. intros H.
  apply bind_Done_inv in H as (o & Ho & H).
  apply bind_Done_inv in H as (on & Hon & H).
  apply at_index_Done in Hon.
  destruct (GetType on) eqn:Ht; try discriminate. injection H as ->.
  eauto.
Qed.

Lemma translations_sorted_note tr p a n :
  translations_sorted tr ->
  nodes (xls_function_ tr) !! p = Some n ->
  Z3_get_sort a = Some (TypeToSort (GetType n)) ->
  translations_sorted (NoteTranslation tr p a).
Proof.
  intros Hinv Hn Hs q b. cbn.
  destruct (decide (p = q)) as [<-|Hne].
  - rewrite lookup_insert_eq. intros [= <-]. eauto.
  - rewrite lookup_insert_ne by done. apply Hinv.
Qed.

Lemma operand_value tr n ots i o a :
  translations_sorted tr ->
  operand_types (xls_function_ tr) n = Some ots ->
  operand n i = Done o -> GetValue tr o = Done a ->
  exists t, ots !! i = Some t /\ Z3_get_sort a = Some (TypeToSort t).
Proof.
  intros Hinv Hots Ho Ha.
  apply GetValue_sorted in Ha as (on & Hon & _ & Hs); [|done].
  destruct (operand_types_lookup _ _ _ _ _ Hots Ho) as (on' & Hon' & Hi).
  rewrite Hon in Hon'. injection Hon' as <-. eauto.
Qed.

Lemma operand_bitvec tr n ots i o a :
  translations_sorted tr ->
  operand_types (xls_function_ tr) n = Some ots ->
  operand n i = Done o -> GetBitVec tr o = Done a ->
  exists k, ots !! i = Some (BitsType k) /\ Z3_get_sort a = Some (BvSort k).
Proof.
  intros Hinv Hots Ho Ha.
  apply GetBitVec_sorted in Ha as (on & k & Hon & Ht & Hs); [|done].
  destruct (operand_types_lookup _ _ _ _ _ Hots Ho) as (on' & Hon' & Hi).
  rewrite Hon in Hon'. injection Hon' as <-. rewrite Ht in Hi. eauto.
Qed.

(** ** The handlers keep the invariant *)

Lemma HandleBinary_inv tr self op f tr' :
  HandleBinary tr self op f = Done tr' ->
  exists o0 o1 lhs rhs r,
    operand op 0 = Done o0 /\ GetBitVec tr o0 = Done lhs
    /\ operand op 1 = Done o1 /\ GetBitVec tr o1 = Done rhs
    /\ f lhs rhs = Done r
    /\ tr' = NoteTranslation tr self r
    /\ exists s, Z3_get_sort r = Some s.
Proof.
  unfold HandleBinary. intros H.
  apply bind_Done_inv in H as (o0 & Ho0 & H).
  apply bind_Done_inv in H as (lhs & Hl & H).
  apply bind_Done_inv in H as (o1 & Ho1 & H).
  apply bind_Done_inv in H as (rhs & Hr & H).
  apply bind_Done_inv in H as (r & Hf & H).
  apply note_and_return_inv in H as (-> & Hs).
  exists o0, o1, lhs, rhs, r. done.
Qed.

Lemma HandleBinary_arith_sorted tr self n ots bop tr' :
  translations_sorted tr ->
  operand_types (xls_function_ tr) n = Some ots ->
  (forall t, ots !! 0%nat = Some t -> t = GetType n) ->
  HandleBinary tr self n (fun lhs rhs => Done (ABin bop lhs rhs)) = Done tr' ->
  sorted_visit tr self n tr'.
Proof.
  intros Hinv Hots Ht H.
  apply HandleBinary_inv in H
    as (o0 & o1 & lhs & rhs & r & Ho0 & Hl & _ & _ & [= <-] & -> & s & Hs).
  destruct (operand_bitvec _ _ _ _ _ _ Hinv Hots Ho0 Hl) as (k & Hk & Hsl).
  apply Ht in Hk.
  apply sort_ABin in Hs as Hs'. destruct Hs' as (m & -> & Hm & _).
  rewrite Hsl in Hm. injection Hm as <-.
  exists (ABin bop lhs rhs). split; [done|]. by rewrite Hs, <- Hk.
Qed.

Lemma HandleCompare_sorted f tr self n tr' :
  f ∈ [HandleULe_f; HandleULt_f; HandleUGe_f; HandleUGt_f; HandleSGt_f;
       HandleSLe_f; HandleSLt_f; HandleSGe_f; HandleEq_f; HandleNe_f] ->
  GetType n = BitsType 1 ->
  HandleCompare f tr self n = Done tr' ->
  sorted_visit tr self n tr'.
Proof.
  intros Hf Ht H. unfold HandleCompare in H.
  apply HandleBinary_inv in H
    as (o0 & o1 & lhs & rhs & r & _ & _ & _ & _ & [= <-] & -> & s & Hs).
  apply (sort_compare f) in Hs as Hs'; [|done]. subst s.
  exists (f lhs rhs). split; [done|]. by rewrite Hs, Ht.
Qed.

Lemma HandleShift_sorted tr self n ots bop tr' :
  translations_sorted tr ->
  operand_types (xls_function_ tr) n = Some ots ->
  (forall t, ots !! 0%nat = Some t -> t = GetType n) ->
  HandleShift tr self n (ABin bop) = Done tr' ->
  sorted_visit tr self n tr'.
Proof.
  intros Hinv Hots Ht H. unfold HandleShift in H.
  apply HandleBinary_inv in H
    as (o0 & o1 & lhs & rhs & r & Ho0 & Hl & _ & _ & Hf & -> & s & Hs).
  destruct (operand_bitvec _ _ _ _ _ _ Hinv Hots Ho0 Hl) as (k & Hk & Hsl).
  apply Ht in Hk.
  exists r. split; [done|]. rewrite Hs, <- Hk. f_equal.
  change (TypeToSort (BitsType k)) with (BvSort k).
  apply bind_Done_inv in Hf as (lc & _ & Hf).
  apply bind_Done_inv in Hf as (rc & _ & Hf).
  case_bool_decide.
  - apply bind_Done_inv in Hf as ([] & _ & [= <-]).
    apply sort_ABin in Hs as (m & -> & Hm & _). congruence.
  - injection Hf as <-.
    apply sort_ABin in Hs as (m & -> & Hm & _). congruence.
Qed.

Lemma HandleUnary_sorted tr self n ots uop tr' :
  uop ≠ bvredor ->
  translations_sorted tr ->
  operand_types (xls_function_ tr) n = Some ots ->
  (forall t, ots !! 0%nat = Some t -> t = GetType n) ->
  HandleUnary tr self n (AUn uop) = Done tr' ->
  sorted_visit tr self n tr'.
Proof.
  intros Hop Hinv Hots Ht H. unfold HandleUnary in H.
  apply bind_Done_inv in H as (o0 & Ho0 & H).
  apply bind_Done_inv in H as (x & Hx & H).
  apply note_and_return_inv in H as (-> & s & Hs).
  destruct (operand_bitvec _ _ _ _ _ _ Hinv Hots Ho0 Hx) as (k & Hk & Hsx).
  apply Ht in Hk.
  exists (AUn uop x). split; [done|]. rewrite Hs, <- Hk.
  apply sort_AUn in Hs as (m & Hm & ->). rewrite Hsx in Hm.
  injection Hm as <-. by destruct uop.
Qed.

Lemma HandleIdentity_sorted tr self n ots tr' :
  translations_sorted tr ->
  operand_types (xls_function_ tr) n = Some ots ->
  (forall t, ots !! 0%nat = Some t -> t = GetType n) ->
  HandleIdentity tr self n = Done tr' ->
  sorted_visit tr self n tr'.
Proof.
  intros Hinv Hots Ht H. unfold HandleIdentity in H.
  apply bind_Done_inv in H as (o0 & Ho0 & H).
  apply bind_Done_inv in H as (x & Hx & [= <-]).
  destruct (operand_value _ _ _ _ _ _ Hinv Hots Ho0 Hx) as (t & Hk & Hsx).
  apply Ht in Hk. subst t.
  by exists x.
Qed.

Lemma HandleExtend_sorted ext tr self n new_bit_count tr' :
  ext = AZeroExt \/ ext = ASignExt ->
  translations_sorted tr ->
  GetType n = BitsType new_bit_count ->
  HandleExtend ext tr self n new_bit_count = Done tr' ->
  sorted_visit tr self n tr'.
Proof.
  intros Hext Hinv Ht H. unfold HandleExtend in H.
  apply bind_Done_inv in H as (ibc & Hibc & H).
  apply bind_Done_inv in H as (o0 & Ho0 & H).
  apply bind_Done_inv in H as (x & Hx & H).
  apply note_and_return_inv in H as (-> & s & Hs).
  apply operand_bit_count_Done in Hibc as (o & on & Ho & Hon & Hton).
  rewrite Ho0 in Ho. injection Ho as <-.
  apply GetBitVec_sorted in Hx as (on' & k & Hon' & Hk & Hsx); [|done].
  rewrite Hon in Hon'. injection Hon' as <-.
  rewrite Hton in Hk. injection Hk as <-.
  eexists. split; [done|]. rewrite Hs, Ht. f_equal.
  assert (exists m, 0 <= Z.of_nat new_bit_count - Z.of_nat ibc
                    /\ Z3_get_sort x = Some (BvSort m)
                    /\ s = BvSort (m + Z.to_nat (Z.of_nat new_bit_count
                                                  - Z.of_nat ibc)))
    as (m & Hle & Hm & ->).
  { destruct Hext as [-> | ->];
      [apply sort_AZeroExt in Hs | apply sort_ASignExt in Hs];
      destruct Hs as (m & ? & ? & ?); eauto. }
  rewrite Hsx in Hm. injection Hm as <-. cbn. f_equal. lia.
Qed.

Lemma HandleBitSlice_sorted tr self n start width tr' :
  GetType n = BitsType width ->
  HandleBitSlice tr self n start width = Done tr' ->
  sorted_visit tr self n tr'.
Proof.
  intros Ht H. unfold HandleBitSlice in H.
  apply bind_Done_inv in H as (o0 & Ho0 & H).
  apply bind_Done_inv in H as (x & Hx & H).
  apply note_and_return_inv in H as (-> & s & Hs).
  eexists. split; [done|]. rewrite Hs, Ht. f_equal.
  apply sort_AExtract in Hs as (m & _ & _ & _ & ->). cbn. f_equal. lia.
Qed.

Lemma foldl_GetBitVec_Done tr (f : Z3_ast -> Z3_ast -> Z3_ast) os :
  forall (acc : outcome Z3_ast) r,
    foldl (fun (acc : outcome Z3_ast) (o : nat) =>
             a ← acc; x ← GetBitVec tr o; Done (f a x)) acc os = Done r ->
    exists a0 xs,
      acc = Done a0
      /\ Forall2 (fun o x => GetBitVec tr o = Done x) os xs
      /\ r = foldl f a0 xs.
Proof.
  induction os as [|o os IH]; intros acc r H; cbn in H.
  - exists r, []. by repeat split.
  - apply IH in H as (a1 & xs & H1 & Hxs & ->).
    apply bind_Done_inv in H1 as (a0 & -> & H1).
    apply bind_Done_inv in H1 as (x & Hx & [= <-]).
    exists a0, (x :: xs). repeat split. by constructor.
Qed.

Lemma sort_foldl_ABin bop xs :
  forall a0 s,
    Z3_get_sort (foldl (ABin bop) a0 xs) = Some s -> Z3_get_sort a0 = Some s.
Proof.
  induction xs as [|x xs IH]; intros a0 s H; cbn in H; [done|].
  apply IH in H. apply sort_ABin in H as (n & -> & Ha & _). done.
Qed.

Lemma HandleNary_inv tr self op f invert tr' :
  HandleNary tr self op f invert = Done tr' ->
  exists o0 a0 xs r,
    operand op 0 = Done o0 /\ GetBitVec tr o0 = Done a0
    /\ Forall2 (fun o x => GetBitVec tr o = Done x) (drop 1 (operands op)) xs
    /\ r = (if invert then Z3OpTranslator.Not (foldl f a0 xs)
            else foldl f a0 xs)
    /\ tr' = NoteTranslation tr self r
    /\ exists s, Z3_get_sort r = Some s.
Proof.
  unfold HandleNary. intros H.
  apply bind_Done_inv in H as (o0 & Ho0 & H).
  apply bind_Done_inv in H as (a0 & Ha0 & H).
  apply bind_Done_inv in H as (acc & Hacc & H).
  apply foldl_GetBitVec_Done in Hacc as (a0' & xs & [= <-] & Hxs & ->).
  apply note_and_return_inv in H as (-> & Hs).
  exists o0, a0, xs. eexists. repeat split; try done.
Qed.

Lemma HandleNary_bitwise_sorted tr self n ots bop invert tr' :
  translations_sorted tr ->
  operand_types (xls_function_ tr) n = Some ots ->
  Forall (fun ot => ot = GetType n) ots ->
  HandleNary tr self n (ABin bop) invert = Done tr' ->
  sorted_visit tr self n tr'.
Proof.
  intros Hinv Hots Ht H.
  apply HandleNary_inv in H
    as (o0 & a0 & xs & r & Ho0 & Ha0 & _ & -> & -> & s & Hs).
  destruct (operand_bitvec _ _ _ _ _ _ Hinv Hots Ho0 Ha0) as (k & Hk & Hsa).
  rewrite Forall_lookup in Ht. apply Ht in Hk.
  eexists. split; [done|]. rewrite Hs, <- Hk. f_equal.
  assert (Z3_get_sort (foldl (ABin bop) a0 xs) = Some s) as Hs'.
  { destruct invert; [by apply sort_Not|done]. }
  apply sort_foldl_ABin in Hs'. rewrite Hsa in Hs'. by injection Hs' as <-.
Qed.

Lemma sort_foldl_concat_operands tr os :
  translations_sorted tr ->
  forall xs ots a0 k0,
    Forall2 (fun o x => GetBitVec tr o = Done x) os xs ->
    Forall2 (fun (o : nat) t =>
               GetType <$> nodes (xls_function_ tr) !! o = Some t) os ots ->
    Z3_get_sort a0 = Some (BvSort k0) ->
    Z3_get_sort (foldl Z3_mk_concat a0 xs)
    = Some (BvSort (k0 + foldr (fun ot acc => GetFlatBitCount ot + acc)%nat 0%nat ots)).
Proof.
  intros Hinv. induction os as [|o os IH]; intros xs ots a0 k0 Hxs Hots Ha.
  - apply Forall2_nil_inv_l in Hxs as ->.
    apply Forall2_nil_inv_l in Hots as ->. cbn. rewrite Ha. do 2 f_equal. lia.
  - apply Forall2_cons_inv_l in Hxs as (x & xs' & Hx & Hxs & ->).
    apply Forall2_cons_inv_l in Hots as (t & ots' & Hto & Hots & ->).
    apply GetBitVec_sorted in Hx as (on & k & Hon & Hk & Hsx); [|done].
    rewrite Hon in Hto. injection Hto as <-.
    cbn [foldl foldr].
    rewrite (IH xs' ots' (Z3_mk_concat a0 x) (k0 + k)%nat Hxs Hots).
    + rewrite Hk. cbn. do 2 f_equal. lia.
    + unfold Z3_mk_concat. cbn [Z3_get_sort]. by rewrite Ha, Hsx.
Qed.

Lemma HandleConcat_sorted tr self n ots tr' :
  translations_sorted tr ->
  operand_types (xls_function_ tr) n = Some ots ->
  GetType n
  = BitsType (foldr (fun ot acc => GetFlatBitCount ot + acc)%nat 0%nat ots) ->
  HandleConcat tr self n = Done tr' ->
  sorted_visit tr self n tr'.
Proof.
  intros Hinv Hots Ht H. unfold HandleConcat in H.
  apply HandleNary_inv in H
    as (o0 & a0 & xs & r & Ho0 & Ha0 & Hxs & -> & -> & _).
  destruct (operand_bitvec _ _ _ _ _ _ Hinv Hots Ho0 Ha0) as (k & Hk & Hsa).
  eexists. split; [done|]. rewrite Ht.
  unfold operand_types in Hots. apply mapM_Some in Hots.
  apply at_index_Done in Ho0.
  destruct (operands n) as [|o os]; [done|]. injection Ho0 as ->.
  apply Forall2_cons_inv_l in Hots as (t & ots' & Hto & Hots & ->).
  injection Hk as ->. cbn [drop] in Hxs.
  by rewrite (sort_foldl_concat_operands tr os Hinv xs ots' a0 k Hxs Hots Hsa).
Qed.

Lemma HandleParam_sorted tr self n name tr' :
  imports_ok tr ->
  nodes (xls_function_ tr) !! self = Some n ->
  HandleParam tr self n name = Done tr' ->
  sorted_visit tr self n tr'.
Proof.
  intros Himp Hn H. unfold HandleParam in H.
  apply bind_Done_inv in H as (value & Hv & H).
  apply note_and_return_inv in H as (-> & s & Hs).
  exists value. split; [done|].
  unfold imports_ok in Himp.
  destruct (imported_params_ tr) as [imported|].
  - apply bind_Done_inv in Hv as (i & Hi & Hv). apply at_index_Done in Hv.
    by apply (Himp self n i value).
  - injection Hv as <-. unfold CreateZ3Param, Z3_mk_const in *.
    cbn [Z3_get_sort] in *. by destruct (Z3_sort_ok _).
Qed.

Lemma GetValues_sorted tr os :
  translations_sorted tr ->
  forall vs ots,
    GetValues tr os = Done vs ->
    Forall2 (fun (o : nat) t =>
               GetType <$> nodes (xls_function_ tr) !! o = Some t) os ots ->
    Forall2 (fun v t => Z3_get_sort v = Some (TypeToSort t)) vs ots.
Proof.
  intros Hinv. induction os as [|o os IH]; intros vs ots H Hots.
  - apply Forall2_nil_inv_l in Hots as ->. injection H as <-. constructor.
  - apply Forall2_cons_inv_l in Hots as (t & ots' & Hto & Hots & ->).
    cbn in H.
    apply bind_Done_inv in H as (v & Hv & H).
    apply bind_Done_inv in H as (vs' & Hvs & [= <-]).
    apply GetValue_sorted in Hv as (on & Hon & _ & Hs); [|done].
    rewrite Hon in Hto. injection Hto as <-.
    constructor; [done|]. by apply IH.
Qed.

Lemma HandleArray_sorted tr self n ots e size tr' :
  translations_sorted tr ->
  operand_types (xls_function_ tr) n = Some ots ->
  GetType n = ArrayType e size ->
  Forall (fun ot => ot = e) ots ->
  HandleArray tr self n = Done tr' ->
  sorted_visit tr self n tr'.
Proof.
  intros Hinv Hots Ht He H. unfold HandleArray in H.
  apply bind_Done_inv in H as (elements & Hel & H).
  apply bind_Done_inv in H as (a & Ha & H).
  apply note_and_return_inv in H as (-> & s & Hs).
  exists a. split; [done|]. rewrite Ht in Ha |- *.
  by rewrite Hs, (Z3_get_sort_CreateArray_inv _ _ _ _ _ Ha Hs).
Qed.

Lemma HandleTuple_sorted tr self n ots tr' :
  translations_sorted tr ->
  operand_types (xls_function_ tr) n = Some ots ->
  GetType n = TupleType ots ->
  HandleTuple tr self n = Done tr' ->
  sorted_visit tr self n tr'.
Proof.
  intros Hinv Hots Ht H. unfold HandleTuple in H.
  apply bind_Done_inv in H as (elements & Hel & [= <-]).
  eexists. split; [done|]. rewrite Ht.
  apply Z3_get_sort_CreateTuple. apply mapM_Some in Hots.
  by apply (GetValues_sorted tr _ Hinv _ _ Hel Hots).
Qed.

Lemma HandleArrayIndex_sorted tr self n ots size tr' :
  translations_sorted tr ->
  operand_types (xls_function_ tr) n = Some ots ->
  ots !! 0%nat = Some (ArrayType (GetType n) size) ->
  HandleArrayIndex tr self n = Done tr' ->
  sorted_visit tr self n tr'.
Proof.
  intros Hinv Hots Ht H. unfold HandleArrayIndex in H.
  apply bind_Done_inv in H as (o0 & Ho0 & H).
  apply bind_Done_inv in H as (n0 & Hn0 & H).
  destruct (GetType n0) as [| |e0 size0] eqn:Ht0; try discriminate.
  apply bind_Done_inv in H as (a & Ha & H).
  apply bind_Done_inv in H as (o1 & Ho1 & H).
  apply bind_Done_inv in H as (i & Hi & H).
  apply note_and_return_inv in H as (-> & s & Hs).
  eexists. split; [done|]. rewrite Hs. f_equal.
  destruct (operand_value _ _ _ _ _ _ Hinv Hots Ho0 Ha) as (t & Hk & Hsa).
  rewrite Ht in Hk. injection Hk as <-.
  unfold GetArrayElement, Z3_mk_select in Hs.
  apply sort_ASelect in Hs as (d & Hd). rewrite Hsa in Hd.
  by injection Hd as _ <-.
Qed.

Lemma HandleTupleIndex_sorted tr self n ots ts index tr' :
  translations_sorted tr ->
  operand_types (xls_function_ tr) n = Some ots ->
  ots !! 0%nat = Some (TupleType ts) ->
  ts !! index = Some (GetType n) ->
  HandleTupleIndex tr self n index = Done tr' ->
  sorted_visit tr self n tr'.
Proof.
  intros Hinv Hots Ht Hi H. unfold HandleTupleIndex in H.
  apply bind_Done_inv in H as (o0 & Ho0 & H).
  apply bind_Done_inv in H as (tuple & Htu & H).
  apply note_and_return_inv in H as (-> & _).
  eexists. split; [done|].
  destruct (operand_value _ _ _ _ _ _ Hinv Hots Ho0 Htu) as (t & Hk & Hsa).
  rewrite Ht in Hk. injection Hk as <-.
  by apply (Z3_get_sort_tuple_field ts).
Qed.

Lemma Value_ind_nested (P : Value -> Prop) :
  (forall bits, P (BitsValue bits)) ->
  (forall es, Forall P es -> P (ArrayValue es)) ->
  (forall es, Forall P es -> P (TupleValue es)) ->
  forall v, P v.
Proof.
  intros Hb Ha Ht. fix IH 1. intros [bits|es|es].
  - apply Hb.
  - apply Ha. induction es as [|e es IHes]; constructor; [apply IH | exact IHes].
  - apply Ht. induction es as [|e es IHes]; constructor; [apply IH | exact IHes].
Qed.

(** A literal's term, when the solver accepts it, has the sort of the
    literal's type. *)
Lemma TranslateLiteralValue_sorts v :
  forall t a s,
    value_of_type t v -> TranslateLiteralValue t v = Done a ->
    Z3_get_sort a = Some s -> s = TypeToSort t.
Proof.
  destruct v as [bits|es|es]; intros t a s Hv H Hs.
  - destruct t as [n| |]; try done. cbn in Hv, H. injection H as <-.
    cbn in Hs. case_bool_decide; [|discriminate]. injection Hs as <-.
    cbn. by rewrite Hv.
  - destruct t as [| |e size]; try done.
    cbn [TranslateLiteralValue] in H.
    apply bind_Done_inv in H as (elements & Hel & H).
    by apply (Z3_get_sort_CreateArray_inv _ _ _ _ _ H Hs).
  - destruct t as [|ts|]; try done.
    cbn [TranslateLiteralValue] in H.
    apply bind_Done_inv in H as (elements & Hel & [= <-]).
    destruct (TypeToSort_tuple_fields ts) as (names & _ & Heq).
    unfold CreateTuple in Hs. rewrite Heq in Hs |- *. cbn in Hs.
    destruct (args_match _ _ _); [|discriminate]. by injection Hs as <-.
Qed.

Lemma HandleLiteral_sorted tr self n value tr' :
  value_of_type (GetType n) value ->
  HandleLiteral tr self n value = Done tr' ->
  sorted_visit tr self n tr'.
Proof.
  intros Hv H. unfold HandleLiteral in H.
  apply bind_Done_inv in H as (r & Hr & H).
  apply note_and_return_inv in H as (-> & s & Hs).
  exists r. split; [done|].
  by rewrite Hs, (TranslateLiteralValue_sorts value _ _ _ Hv Hr Hs).
Qed.

(** An operand of a multiply, extended when its width differs, has the
    width of the multiply when the solver accepts it. *)
Lemma sort_mul_extended (ext : Z -> Z3_ast -> Z3_ast) a W m :
  ext = AZeroExt \/ ext = ASignExt ->
  Z3_get_sort
    (if bool_decide (Z3_get_bv_sort_size (Z3_get_sort a) ≠ W)
     then ext (W - Z3_get_bv_sort_size (Z3_get_sort a)) a else a)
  = Some (BvSort m) ->
  Z.of_nat m = W.
Proof.
  intros Hext Hs. case_bool_decide as Hne.
  - assert (exists n0, 0 <= W - Z3_get_bv_sort_size (Z3_get_sort a)
                       /\ Z3_get_sort a = Some (BvSort n0)
                       /\ BvSort m
                          = BvSort (n0 + Z.to_nat
                                           (W - Z3_get_bv_sort_size
                                                  (Z3_get_sort a))))
      as (n0 & Hle & Ha & Hm).
    { destruct Hext as [-> | ->];
        [apply sort_AZeroExt in Hs | apply sort_ASignExt in Hs];
        destruct Hs as (n0 & ? & ? & ?); eauto. }
    injection Hm as ->. rewrite Ha in Hle |- *. cbn in Hle |- *. lia.
  - rewrite Hs in Hne. exact Hne.
Qed.

Lemma HandleMul_sort tr self n is_signed tr' r s :
  HandleMul tr self n is_signed = Done (tr', r) ->
  Z3_get_sort r = Some s ->
  s = TypeToSort (GetType n).
Proof.
  unfold HandleMul. intros H Hs.
  apply bind_Done_inv in H as (o0 & _ & H).
  apply bind_Done_inv in H as (lhs & _ & H).
  apply bind_Done_inv in H as (o1 & _ & H).
  apply bind_Done_inv in H as (rhs & _ & H).
  apply bind_Done_inv in H as (w & Hw & H).
  destruct (GetType n) as [w'| |]; try discriminate. injection Hw as ->.
  change (TypeToSort (BitsType w)) with (BvSort w).
  cbv zeta in H.
  set (ls := Z3_get_bv_sort_size (Z3_get_sort lhs)) in *.
  set (rs := Z3_get_bv_sort_size (Z3_get_sort rhs)) in *.
  set (W := Z.max (Z.max ls rs) (Z.of_nat w)) in *.
  destruct is_signed; injection H as _ <-.
  - case_bool_decide as Hne.
    + apply sort_AExtract in Hs as (? & _ & _ & _ & ->). f_equal. lia.
    + apply sort_ABin in Hs as (m & -> & Hl & _).
      apply (sort_mul_extended ASignExt) in Hl; [|by right].
      f_equal. lia.
  - case_bool_decide as Hne.
    + apply sort_AExtract in Hs as (? & _ & _ & _ & ->). f_equal. lia.
    + apply sort_ABin in Hs as (m & -> & Hl & _).
      apply (sort_mul_extended AZeroExt) in Hl; [|by left].
      f_equal. lia.
Qed.

Lemma HandleMul_sorted tr self n is_signed tr' :
  ('(tr1, result) ← HandleMul tr self n is_signed;
   _ ← XLS_RETURN_IF_ERROR (seh_status result);
   Done tr1) = Done tr' ->
  sorted_visit tr self n tr'.
Proof.
  intros H. apply bind_Done_inv in H as ([tr1 r] & Hm & H).
  apply bind_Done_inv in H as ([] & Hst & [= <-]).
  pose proof (HandleMul_notes _ _ _ _ _ _ Hm) as ->.
  exists r. split; [done|].
  unfold seh_status, Z3_errors in Hst.
  destruct (Z3_get_sort r) as [s|] eqn:Hs; [|discriminate].
  f_equal. by apply (HandleMul_sort _ _ _ _ _ _ _ Hm).
Qed.

(** ** Lowering through the abstract evaluator *)

Lemma bv_headed_OrReduce (v : list Z3_ast) : bv_headed (OrReduce v).
Proof. by destruct v. Qed.

Lemma bv_headed_ExplodeBits a : Forall bv_headed (Z3OpTranslator.ExplodeBits a).
Proof. unfold Z3OpTranslator.ExplodeBits. by apply Forall_fmap, Forall_true. Qed.

Lemma bv_headed_Encode (v : list Z3_ast) w : Forall bv_headed (Encode v w).
Proof.
  unfold Encode. apply Forall_fmap, Forall_true. intros j.
  apply bv_headed_OrReduce.
Qed.

Lemma bv_headed_OneHotLsbToMsb_from (v : list Z3_ast) :
  forall seen, Forall bv_headed (OneHotLsbToMsb_from seen v).
Proof.
  induction v as [|e v IH]; intros seen; cbn; constructor; done.
Qed.

Lemma bv_headed_OneHotMsbToLsb (v : list Z3_ast) :
  Forall bv_headed (OneHotMsbToLsb v).
Proof.
  unfold OneHotMsbToLsb, OneHotLsbToMsb.
  pose proof (bv_headed_OneHotLsbToMsb_from (reverse v) Zero) as Hl.
  destruct (OneHotLsbToMsb_from Zero (reverse v)) as [|x l]; [constructor|].
  apply Forall_app. split.
  - by apply Forall_reverse, Forall_take.
  - by apply Forall_drop.
Qed.

Lemma bv_headed_AbstractEvaluate n a output_bits :
  AbstractEvaluate n [Z3OpTranslator.ExplodeBits a] = Done output_bits ->
  Forall bv_headed output_bits.
Proof.
  unfold AbstractEvaluate. cbn [at_index lookup list_lookup mbind outcome_bind].
  intros H. destruct (kind n); try discriminate.
  - apply bind_Done_inv in H as (w & _ & [= <-]). apply bv_headed_Encode.
  - destruct priority; injection H as <-.
    + apply bv_headed_OneHotLsbToMsb_from.
    + apply bv_headed_OneHotMsbToLsb.
  - injection H as <-. apply Forall_reverse, bv_headed_ExplodeBits.
Qed.

Lemma bv_headed_foldl_concat l :
  forall a, bv_headed a -> bv_headed (foldl Z3_mk_concat a l).
Proof. induction l as [|x l IH]; intros a Ha; [done|]. by apply IH. Qed.

Lemma bv_headed_ConcatN l r :
  Forall bv_headed l -> Z3OpTranslator.ConcatN l = Done r -> bv_headed r.
Proof.
  intros Hl H. unfold Z3OpTranslator.ConcatN in H.
  apply bind_Done_inv in H as (a & Ha & [= <-]).
  apply at_index_Done in Ha.
  apply bv_headed_foldl_concat.
  rewrite Forall_lookup in Hl. by apply (Hl 0%nat).
Qed.

Lemma HandleUnaryViaAbstractEval_sorted tr self n tr' :
  HandleUnaryViaAbstractEval tr self n = Done tr' ->
  sorted_visit tr self n tr'.
Proof.
  unfold HandleUnaryViaAbstractEval. intros H.
  apply bind_Done_inv in H as ([] & _ & H).
  apply bind_Done_inv in H as (o0 & _ & H).
  apply bind_Done_inv in H as (x & _ & H).
  apply bind_Done_inv in H as (in_bits & _ & H).
  apply bind_Done_inv in H as ([] & _ & H).
  apply bind_Done_inv in H as (output_bits & Hout & H).
  apply bind_Done_inv in H as (result & Hres & H).
  apply bind_Done_inv in H as (out_bits & Hob & H).
  apply bind_Done_inv in H as ([] & Hck & H).
  apply note_and_return_inv in H as (-> & s & Hs).
  exists result. split; [done|]. rewrite Hs. f_equal.
  destruct (GetType n) as [w| |]; try discriminate. injection Hob as ->.
  apply bv_headed_AbstractEvaluate in Hout.
  apply bv_headed_ConcatN in Hres; [|by apply Forall_reverse].
  destruct (bv_headed_sort _ _ Hres Hs) as (k & ->).
  unfold XLS_CHECK in Hck. case_bool_decide as Hw; [|discriminate].
  unfold Z3OpTranslator.GetBvBitCount in Hw. rewrite Hs in Hw. cbn in Hw.
  cbn. f_equal. lia.
Qed.

(** ** The evaluator on single bits *)

Lemma is_bit_And (a b : Z3_ast) : is_bit a -> is_bit b -> is_bit (And a b).
Proof. unfold is_bit. cbn. by intros -> ->. Qed.

Lemma is_bit_Or (a b : Z3_ast) : is_bit a -> is_bit b -> is_bit (Or a b).
Proof. unfold is_bit. cbn. by intros -> ->. Qed.

Lemma is_bit_Not (a : Z3_ast) : is_bit a -> is_bit (Not a).
Proof. unfold is_bit. cbn. by intros ->. Qed.

Lemma is_bit_Zero : is_bit (Zero : Z3_ast).
Proof. reflexivity. Qed.

Lemma is_bit_One : is_bit (One : Z3_ast).
Proof. reflexivity. Qed.

Lemma is_bit_OrReduce (v : list Z3_ast) : Forall is_bit v -> is_bit (OrReduce v).
Proof.
  unfold OrReduce. induction 1 as [|a v Ha _ IH]; cbn [foldr].
  - apply is_bit_Zero.
  - by apply is_bit_Or.
Qed.

Lemma is_bit_AndReduce (v : list Z3_ast) :
  Forall is_bit v -> is_bit (AndReduce v).
Proof.
  unfold AndReduce. induction 1 as [|a v Ha _ IH]; cbn [foldr].
  - apply is_bit_One.
  - by apply is_bit_And.
Qed.

Lemma is_bit_imap_literal (i : nat) (v : list Z3_ast) :
  forall k,
    Forall is_bit v ->
    Forall is_bit (imap (fun j e => if bit_of i (k + j) then e else Not e) v).
Proof.
  induction v as [|e v IH]; intros k Hv; cbn [imap]; [constructor|].
  apply Forall_cons in Hv as [He Hv]. constructor.
  - destruct (bit_of i (k + 0)); [done|by apply is_bit_Not].
  - eapply Forall_impl; [|intros x Hx; exact Hx].
    rewrite (imap_ext _ (fun j e => if bit_of i (S k + j) then e else Not e)).
    + by apply IH.
    + intros j x _. cbn. by replace (k + S j)%nat with (S (k + j)) by lia.
Qed.

Lemma is_bit_EqualsLiteral (v : list Z3_ast) i :
  Forall is_bit v -> is_bit (EqualsLiteral v i).
Proof.
  intros Hv. unfold EqualsLiteral. apply is_bit_AndReduce.
  by apply (is_bit_imap_literal i v 0).
Qed.

Lemma is_bit_LiteralLessThan_from (v : list Z3_ast) i :
  forall k, Forall is_bit v -> is_bit (LiteralLessThan_from k i v).
Proof.
  induction v as [|e v IH]; intros k Hv; cbn [LiteralLessThan_from].
  - apply is_bit_Zero.
  - apply Forall_cons in Hv as [He Hv]. apply is_bit_Or; [by apply IH|].
    destruct (bit_of i k); [apply is_bit_Zero|].
    apply is_bit_And; [done|]. apply is_bit_AndReduce.
    by apply (is_bit_imap_literal i v (S k)).
Qed.

Lemma is_bit_zip_with_And (j : nat) (selector : list Z3_ast) :
  forall cases : list (list Z3_ast),
    Forall is_bit selector -> Forall (Forall is_bit) cases ->
    Forall is_bit
      (zip_with (fun s (c : list Z3_ast) => And s (default Zero (c !! j)))
         selector cases).
Proof.
  induction selector as [|s selector IH]; intros cases Hs Hc;
    [constructor|].
  destruct cases as [|c cases]; [constructor|].
  apply Forall_cons in Hs as [Hs0 Hs]. apply Forall_cons in Hc as [Hc0 Hc].
  cbn [zip_with]. constructor; [|by apply IH].
  apply is_bit_And; [done|].
  destruct (c !! j) as [b|] eqn:Hb; cbn; [|apply is_bit_Zero].
  rewrite Forall_lookup in Hc0. by apply (Hc0 j).
Qed.

(** A one-hot-select over single-bit selectors and cases of [L] single
    bits each gives [L] single bits. *)
Lemma OneHotSelect_bits (selector : list Z3_ast) cases b L r :
  Forall is_bit selector ->
  Forall (fun c => Forall is_bit c /\ length c = L) cases ->
  OneHotSelect selector cases b = Done r ->
  Forall is_bit r /\ length r = L.
Proof.
  intros Hs Hc H. unfold OneHotSelect in H.
  apply bind_Done_inv in H as ([] & _ & H).
  apply bind_Done_inv in H as ([] & _ & H).
  apply bind_Done_inv in H as (first & Hf & [= <-]).
  apply at_index_Done in Hf. split.
  - apply Forall_fmap, Forall_true. intros j. apply is_bit_OrReduce.
    apply is_bit_zip_with_And; [done|].
    eapply Forall_impl; [exact Hc|]. by intros c [? _].
  - rewrite length_fmap, length_seq.
    rewrite Forall_lookup in Hc. by destruct (Hc _ _ Hf).
Qed.

Lemma Select_bits (selector : list Z3_ast) cases d L r :
  Forall is_bit selector ->
  Forall (fun c => Forall is_bit c /\ length c = L) cases ->
  from_option (fun c => Forall is_bit c /\ length c = L) True d ->
  Select selector cases d = Done r ->
  Forall is_bit r /\ length r = L.
Proof.
  intros Hs Hc Hd H. unfold Select in H.
  assert (Forall is_bit (EqualsLiteral selector <$> seq 0 (length cases)))
    as Hone.
  { apply Forall_fmap, Forall_true. intros i. by apply is_bit_EqualsLiteral. }
  destruct d as [d|].
  - apply OneHotSelect_bits with (L := L) in H; [done| |].
    + apply Forall_app. split; [done|]. constructor; [|constructor].
      by apply is_bit_LiteralLessThan_from.
    + apply Forall_app. split; [done|]. by constructor.
  - by apply OneHotSelect_bits with (L := L) in H.
Qed.

(** ** Rebuilding a term from single bits *)

(** [UnflattenZ3Ast] of as many single bits as the type has flat bits: when
    the solver accepts the term, it has the sort of the type. *)
Lemma UnflattenZ3Ast_sorts t flat r s :
  Forall is_bit flat -> length flat = GetFlatBitCount t ->
  UnflattenZ3Ast t flat = Done r ->
  Z3_get_sort r = Some s -> s = TypeToSort t.
Proof.
  intros Hf Hlen H Hs. destruct t as [n|ts|e size].
  - cbn in H, Hlen. destruct flat as [|b flat].
    { discriminate H. }
    destruct (ConcatN_sorts (b :: flat) Hf) as (r' & Hr' & Hs');
      [cbn; lia|].
    rewrite H in Hr'. injection Hr' as <-. rewrite Hs', Hlen in Hs.
    by injection Hs as <-.
  - cbn [UnflattenZ3Ast] in H.
    apply bind_Done_inv in H as (elements & Hel & [= <-]).
    destruct (TypeToSort_tuple_fields ts) as (names & _ & Heq).
    unfold CreateTuple in Hs. rewrite Heq in Hs |- *. cbn in Hs.
    destruct (args_match _ _ _); [|discriminate]. by injection Hs as <-.
  - cbn [UnflattenZ3Ast] in H.
    apply bind_Done_inv in H as (elements & Hel & H).
    by apply (Z3_get_sort_CreateArray_inv _ _ _ _ _ H Hs).
Qed.

Lemma FlattenValues_bits tr os :
  translations_sorted tr ->
  forall css ots,
    FlattenValues tr os = Done css ->
    Forall2 (fun (o : nat) t =>
               GetType <$> nodes (xls_function_ tr) !! o = Some t) os ots ->
    Forall2 (fun cs t => Forall is_bit cs /\ length cs = GetFlatBitCount t)
      css ots.
Proof.
  intros Hinv. induction os as [|o os IH]; intros css ots H Hots.
  - apply Forall2_nil_inv_l in Hots as ->. injection H as <-. constructor.
  - apply Forall2_cons_inv_l in Hots as (t & ots' & Hto & Hots & ->).
    cbn in H.
    apply bind_Done_inv in H as (on & Hon & H). apply at_index_Done in Hon.
    apply bind_Done_inv in H as (v & Hv & H).
    apply bind_Done_inv in H as (rest & Hrest & [= <-]).
    apply GetValue_sorted in Hv as (on' & Hon' & _ & Hs); [|done].
    rewrite Hon in Hon'. injection Hon' as <-.
    rewrite Hon in Hto. injection Hto as <-.
    constructor; [|by apply IH].
    by apply FlattenValue_sorts.
Qed.

(** ** The select handlers *)

Lemma HandleSelect_sorted tr self n cases evaluator tr' :
  translations_sorted tr ->
  (forall selector css r,
      Forall is_bit selector ->
      FlattenValues tr cases = Done css ->
      evaluator selector css = Done r ->
      Forall is_bit r /\ length r = GetFlatBitCount (GetType n)) ->
  HandleSelect tr self n cases evaluator = Done tr' ->
  sorted_visit tr self n tr'.
Proof.
  intros Hinv Hev H. unfold HandleSelect in H.
  apply bind_Done_inv in H as (sel & _ & H).
  apply bind_Done_inv in H as (sel_value & Hsel & H).
  apply bind_Done_inv in H as (css & Hcss & H).
  apply bind_Done_inv in H as (flat & Hflat & H).
  apply bind_Done_inv in H as (result & Hres & H).
  apply note_and_return_inv in H as (-> & s & Hsr).
  exists result. split; [done|].
  apply GetBitVec_sorted in Hsel as (on & k & _ & _ & Hs); [|done].
  apply ExplodeBits_sorts in Hs as [Hbits _].
  destruct (Hev _ _ _ Hbits Hcss Hflat) as [Hr Hlen].
  rewrite Hsr. f_equal.
  apply (UnflattenZ3Ast_sorts _ (reverse flat) result);
    [|by rewrite length_reverse|done|done].
  by apply Forall_reverse.
Qed.

Lemma Forall2_same_type {A} (P : A -> Type_ -> Prop) css ots t :
  Forall2 P css ots -> Forall (fun ot => ot = t) ots ->
  Forall (fun cs => P cs t) css.
Proof.
  induction 1 as [|cs ot css ots Hp _ IH]; intros Ht; constructor.
  - apply Forall_cons in Ht as [-> _]. done.
  - apply IH. by apply Forall_cons in Ht as [_ ?].
Qed.

Lemma HandleOneHotSel_sorted tr self n ots tr' :
  translations_sorted tr ->
  operand_types (xls_function_ tr) n = Some ots ->
  Forall (fun ot => ot = GetType n) (drop 1 ots) ->
  HandleOneHotSel tr self n = Done tr' ->
  sorted_visit tr self n tr'.
Proof.
  intros Hinv Hots Ht H. unfold HandleOneHotSel in H.
  eapply HandleSelect_sorted; [exact Hinv| |exact H].
  intros selector css r Hsel Hcss Hr. cbv beta in Hr.
  apply mapM_Some in Hots. apply (Forall2_drop _ _ _ 1) in Hots.
  pose proof (FlattenValues_bits tr _ Hinv _ _ Hcss Hots) as Hbits.
  apply (Forall2_same_type _ _ _ _ Hbits) in Ht.
  by apply (OneHotSelect_bits selector css false).
Qed.

Lemma HandleSel_sorted tr self n ots has_default tr' :
  translations_sorted tr ->
  operand_types (xls_function_ tr) n = Some ots ->
  Forall (fun ot => ot = GetType n) (drop 1 ots) ->
  HandleSel tr self n has_default = Done tr' ->
  sorted_visit tr self n tr'.
Proof.
  intros Hinv Hots Ht H. unfold HandleSel in H. cbv zeta in H.
  apply mapM_Some in Hots. apply (Forall2_drop _ _ _ 1) in Hots.
  eapply HandleSelect_sorted; [exact Hinv| |exact H].
  intros selector css r Hsel Hcss Hr. cbv beta in Hr.
  apply bind_Done_inv in Hr as (d & Hd & Hr).
  apply (Select_bits selector css d); [done| | |done].
  - destruct has_default.
    + pose proof (Forall2_take _ _ _ (length (drop 1 (operands n)) - 1) Hots)
        as Hots'.
      pose proof (FlattenValues_bits tr _ Hinv _ _ Hcss Hots') as Hbits.
      apply (Forall2_same_type _ _ _ _ Hbits). by apply Forall_take.
    + pose proof (FlattenValues_bits tr _ Hinv _ _ Hcss Hots) as Hbits.
      by apply (Forall2_same_type _ _ _ _ Hbits).
  - destruct has_default; [|by injection Hd as <-].
    apply bind_Done_inv in Hd as (o & Ho & Hd). apply at_index_Done in Ho.
    apply bind_Done_inv in Hd as (dn & Hdn & Hd). apply at_index_Done in Hdn.
    apply bind_Done_inv in Hd as (dv & Hdv & [= <-]).
    apply GetValue_sorted in Hdv as (dn' & Hdn' & _ & Hs); [|done].
    rewrite Hdn in Hdn'. injection Hdn' as <-.
    destruct (Forall2_lookup_l _ _ _ _ _ Hots Ho) as (t & Hti & Hto).
    rewrite Hdn in Hto. injection Hto as <-.
    rewrite Forall_lookup in Ht. rewrite (Ht _ _ Hti) in Hs |- *.
    cbn. by apply FlattenValue_sorts.
Qed.

(** ** Every visit keeps the invariant *)

Lemma Forall_first_type (ots : list Type_) t :
  Forall (fun ot => ot = t) ots ->
  forall t0, ots !! 0%nat = Some t0 -> t0 = t.
Proof. intros H t0 H0. rewrite Forall_lookup in H. by apply (H 0%nat). Qed.

Lemma lookup_first_type (ots : list Type_) t :
  ots !! 0%nat = Some t -> forall t0, ots !! 0%nat = Some t0 -> t0 = t.
Proof. intros H t0 H0. congruence. Qed.

Lemma VisitNode_sorted tr self n tr' :
  translations_sorted tr -> imports_ok tr ->
  node_typed (xls_function_ tr) n ->
  nodes (xls_function_ tr) !! self = Some n ->
  VisitNode tr self n = Done tr' ->
  sorted_visit tr self n tr'.
Proof.
  intros Hinv Himp Ht Hn H. unfold node_typed in Ht.
  destruct (operand_types (xls_function_ tr) n) as [ots|] eqn:Hots; [|done].
  unfold VisitNode in H. cbv zeta in Ht.
  destruct (kind n) eqn:Hkind.
  - by apply (HandleParam_sorted _ _ _ name).
  - by apply (HandleLiteral_sorted _ _ _ value).
  - apply (HandleBinary_arith_sorted _ _ _ ots bvadd); try done.
    by apply Forall_first_type.
  - apply (HandleBinary_arith_sorted _ _ _ ots bvsub); try done.
    by apply Forall_first_type.
  - apply (HandleCompare_sorted HandleULe_f); [set_solver|done..].
  - apply (HandleCompare_sorted HandleULt_f); [set_solver|done..].
  - apply (HandleCompare_sorted HandleUGe_f); [set_solver|done..].
  - apply (HandleCompare_sorted HandleUGt_f); [set_solver|done..].
  - apply (HandleCompare_sorted HandleSGt_f); [set_solver|done..].
  - apply (HandleCompare_sorted HandleSLe_f); [set_solver|done..].
  - apply (HandleCompare_sorted HandleSLt_f); [set_solver|done..].
  - apply (HandleCompare_sorted HandleSGe_f); [set_solver|done..].
  - apply (HandleCompare_sorted HandleEq_f); [set_solver|done..].
  - apply (HandleCompare_sorted HandleNe_f); [set_solver|done..].
  - apply (HandleShift_sorted _ _ _ ots bvashr); try done.
    by apply lookup_first_type.
  - apply (HandleShift_sorted _ _ _ ots bvlshr); try done.
    by apply lookup_first_type.
  - apply (HandleShift_sorted _ _ _ ots bvshl); try done.
    by apply lookup_first_type.
  - by apply (HandleNary_bitwise_sorted _ _ _ ots bvand false).
  - by apply (HandleNary_bitwise_sorted _ _ _ ots bvand true).
  - by apply (HandleNary_bitwise_sorted _ _ _ ots bvor true).
  - by apply (HandleNary_bitwise_sorted _ _ _ ots bvor false).
  - by apply (HandleNary_bitwise_sorted _ _ _ ots bvxor false).
  - by apply (HandleConcat_sorted _ _ _ ots).
  - destruct (GetType n) as [| |e size] eqn:Hty; try done.
    destruct Ht as [_ Ht].
    by apply (HandleArray_sorted _ _ _ ots e size).
  - by apply (HandleTuple_sorted _ _ _ ots).
  - destruct ots as [|[| |e size] ots]; try done. subst e.
    by apply (HandleArrayIndex_sorted _ _ _ _ size _ Hinv Hots).
  - destruct ots as [|[|ts|] ots]; try done.
    by apply (HandleTupleIndex_sorted _ _ _ _ ts index _ Hinv Hots).
  - by apply HandleUnaryViaAbstractEval_sorted.
  - by apply HandleUnaryViaAbstractEval_sorted.
  - apply (HandleUnary_sorted _ _ _ ots bvneg); try done.
    by apply Forall_first_type.
  - apply (HandleUnary_sorted _ _ _ ots bvnot); try done.
    by apply Forall_first_type.
  - by apply HandleUnaryViaAbstractEval_sorted.
  - apply (HandleIdentity_sorted _ _ _ ots); try done.
    by apply Forall_first_type.
  - apply (HandleExtend_sorted ASignExt _ _ _ new_bit_count); try done.
    by right.
  - apply (HandleExtend_sorted AZeroExt _ _ _ new_bit_count); try done.
    by left.
  - by apply (HandleBitSlice_sorted _ _ _ start width).
  - by apply (HandleOneHotSel_sorted _ _ _ ots).
  - by apply (HandleSel_sorted _ _ _ ots has_default).
  - by apply (HandleMul_sorted _ _ _ true).
  - by apply (HandleMul_sorted _ _ _ false).
  - discriminate H.
Qed.

(** ** The structural postcondition of an encoding *)

Lemma AcceptNodes_sorted ns :
  forall tr first tr',
    translations_sorted tr -> imports_ok tr ->
    (forall i n, ns !! i = Some n ->
                 nodes (xls_function_ tr) !! (first + i)%nat = Some n
                 /\ node_typed (xls_function_ tr) n) ->
    (forall p, (p < first)%nat -> is_Some (translations_ tr !! p)) ->
    AcceptNodes tr first ns = Done tr' ->
    translations_sorted tr'
    /\ forall p, (p < first + length ns)%nat -> is_Some (translations_ tr' !! p).
Proof.
  induction ns as [|n ns IH]; intros tr first tr' Hinv Himp Hns Hdom H.
  - injection H as <-. split; [done|]. intros p Hp. apply Hdom. cbn in Hp. lia.
  - cbn in H. apply bind_Done_inv in H as (tr1 & Hv & H).
    destruct (Hns 0%nat n eq_refl) as [Hn Hty].
    rewrite Nat.add_0_r in Hn.
    destruct (VisitNode_sorted _ _ _ _ Hinv Himp Hty Hn Hv) as (a & -> & Hs).
    apply IH in H as [Hinv' Hdom'].
    + split; [done|]. intros p Hp. apply Hdom'. cbn in Hp. lia.
    + by apply (translations_sorted_note _ _ _ n).
    + exact Himp.
    + intros i n' Hi. destruct (Hns (S i) n' Hi) as [Hn' Hty'].
      cbn. by rewrite Nat.add_succ_r in Hn'.
    + intros p Hp. cbn.
      destruct (decide (first = p)) as [<-|Hne].
      * rewrite lookup_insert_eq. eauto.
      * rewrite lookup_insert_ne by done. apply Hdom. lia.
Qed.

Lemma Accept_encoded f tr tr' :
  function_typed f -> xls_function_ tr = f -> translations_ tr = ∅ ->
  imports_ok tr ->
  Accept f tr = Done tr' ->
  encoded f tr'.
Proof.
  intros Hty Hf Hempty Himp H. unfold Accept in H.
  pose proof (AcceptNodes_fields _ _ _ _ H) as (_ & _ & _ & _ & Hf').
  apply AcceptNodes_sorted in H as [Hinv Hdom]; try done.
  - intros p n Hn.
    destruct (Hdom p) as [a Ha].
    { apply lookup_lt_Some in Hn. lia. }
    destruct (Hinv p a Ha) as (n' & Hn' & Hs).
    rewrite Hf', Hf, Hn in Hn'. injection Hn' as <-.
    exists a. unfold GetTranslation. rewrite Ha. split; [done|].
    split; [done|]. intros k Hk.
    unfold Z3OpTranslator.GetBvBitCount. rewrite Hs, Hk. reflexivity.
  - intros p a. rewrite Hempty. by rewrite lookup_empty.
  - intros i n Hi. rewrite Hf. split; [done|].
    unfold function_typed in Hty. rewrite Forall_lookup in Hty.
    by apply (Hty i).
  - intros p Hp. lia.
Qed.

(** C9 (amended).  In a function whose nodes have the types the IR gives
    them, after a successful encoding every node has a recorded term whose
    sort is [TypeToSort] of the node's type and whose width, for a Bits
    node, is the node's flat bit count.  It holds for the encoder that owns
    its context, and for the one over a caller's context when the terms the
    caller supplies for the parameters have the sorts of the parameters'
    types. *)
Theorem encoding_sort_invariant (f : Function) :
  function_typed f ->
  (forall w tr w', CreateAndTranslate f w = (Done tr, w') -> encoded f tr)
  /\ (forall ctx imported tr,
        imports_sorted f imported ->
        CreateAndTranslate_borrowed ctx f imported = Done tr ->
        encoded f tr).
Proof.
  intros Hty. split.
  - intros w tr w' H. unfold CreateAndTranslate in H.
    destruct (Z3_mk_config w) as [config w1].
    destruct (Z3Translator_owned config f _) as [translator w3] eqn:Hown.
    unfold Z3Translator_owned in Hown.
    destruct (Z3_mk_context config _) as [ctx w2]. injection Hown as <- <-.
    destruct (Accept f _) as [tr0| |] eqn:Hacc; try discriminate.
    injection H as <- <-.
    by apply (Accept_encoded f _ _ Hty) in Hacc.
  - intros ctx imported tr Himp H. unfold CreateAndTranslate_borrowed in H.
    by apply (Accept_encoded f _ _ Hty) in H.
Qed.

Lemma encoding_sort_invariant_witness :
  function_typed or_not_function
  /\ (exists tr w',
        CreateAndTranslate or_not_function no_solver_objects = (Done tr, w')
        /\ encoded or_not_function tr).
Proof.
  assert (function_typed or_not_function) as Hty.
  { repeat constructor. }
  split; [exact Hty|].
  destruct (CreateAndTranslate or_not_function no_solver_objects)
    as [[tr| |] w'] eqn:H; try (vm_compute in H; discriminate H).
  exists tr, w'. split; [reflexivity|].
  exact (proj1 (encoding_sort_invariant or_not_function Hty)
           no_solver_objects tr w' H).
Defined.

(** C9 (counterexample).  A term imported for a parameter is recorded as it
    is: a 4-bit term imported for an 8-bit parameter gives a successful
    encoding whose recorded term has not the sort of the parameter's
    type. *)
Lemma imported_param_sort_not_checked :
  function_typed param_function
  /\ CreateAndTranslate_borrowed 0%nat param_function [narrow_import]
     = Done (NoteTranslation
               (Z3Translator_borrowed 0%nat param_function [narrow_import])
               0%nat narrow_import)
  /\ GetTranslation
       (NoteTranslation
          (Z3Translator_borrowed 0%nat param_function [narrow_import])
          0%nat narrow_import) 0%nat
     = Done narrow_import
  /\ nodes param_function !! 0%nat
     = Some {| kind := kParam "x"; operands := []; GetType := BitsType 8 |}
  /\ Z3_get_sort narrow_import = Some (BvSort 4)
  /\ TypeToSort (BitsType 8) = BvSort 8.
Proof.
  split; [repeat constructor|].
  split; [reflexivity|]. split; [|done].
  unfold GetTranslation. cbn. by rewrite lookup_insert_eq.
Qed.

(** * Further properties of the encoder *)

(** ** Two-operand handlers *)

Lemma operand_term_GetBitVec tr op i a n :
  operand_term tr op i a n ->
  exists o, operand op i = Done o /\ GetBitVec tr o = Done a.
Proof.
  intros (o & nd & Ho & Hnd & Ht & Ha & Hs). exists o. split.
  - unfold operand, at_index. by rewrite Ho.
  - apply (GetBitVec_Done tr o a nd Ha Hnd). by rewrite Ht.
Qed.

Lemma HandleBinary_Done tr self op f lhs rhs n m r s :
  operand_term tr op 0 lhs n -> operand_term tr op 1 rhs m ->
  f lhs rhs = Done r -> Z3_get_sort r = Some s ->
  HandleBinary tr self op f = Done (NoteTranslation tr self r).
Proof.
  intros Hl Hr Hf Hs.
  apply operand_term_GetBitVec in Hl as (o0 & Ho0 & Hl).
  apply operand_term_GetBitVec in Hr as (o1 & Ho1 & Hr).
  unfold HandleBinary.
  rewrite Ho0, bind_Done, Hl, bind_Done, Ho1, bind_Done, Hr, bind_Done.
  rewrite Hf, bind_Done. by apply (note_and_return_ok _ _ _ s).
Qed.

Lemma eval_ULt M n lhs rhs x y :
  Z3_get_sort lhs = Some (BvSort n) -> Z3_get_sort rhs = Some (BvSort n) ->
  eval M lhs = Some (VBv n x) -> eval M rhs = Some (VBv n y) ->
  0 <= x < bv_modulus n -> 0 <= y < bv_modulus n ->
  eval M (Z3OpTranslator.ULt lhs rhs) = Some (VBv 1 (bit_value (x <? y))).
Proof.
  intros Hsl Hsr Hl Hr Hx Hy.
  unfold Z3OpTranslator.ULt, Z3OpTranslator.Msb, Z3OpTranslator.Extract,
    Z3OpTranslator.GetBvBitCount, Z3OpTranslator.Sub,
    Z3OpTranslator.ZextBy1b, Z3_mk_bvsub, Z3_mk_zero_ext, Z3_mk_extract.
  cbn. rewrite Hsl, Hsr, Hl, Hr. cbn. decide_all. cbn. decide_all.
  change (Z.to_nat 1) with 1%nat in *.
  replace (Z.of_nat (n + 1) - 1) with (Z.of_nat n) by lia.
  replace (Z.to_nat (Z.of_nat n - Z.of_nat n + 1)) with 1%nat by lia.
  do 2 f_equal.
  pose proof (bv_modulus_le n (n + 1) ltac:(lia)) as Hle.
  rewrite <- (bv_wrap_small (n + 1) x) at 1 by lia.
  rewrite <- (bv_wrap_small (n + 1) y) at 1 by lia.
  rewrite sign_of_difference by lia. reflexivity.
Qed.

(** The value of a one-bit [or], [not] and reduce-or of bits. *)
Lemma eval_bit_or M a b (p q : bool) :
  eval M a = Some (VBv 1 (bit_value p)) ->
  eval M b = Some (VBv 1 (bit_value q)) ->
  eval M (Z3_mk_bvor a b) = Some (VBv 1 (bit_value (p || q))).
Proof.
  intros Ha Hb. unfold Z3_mk_bvor. cbn [eval]. rewrite Ha, Hb.
  rewrite bool_decide_true_eq by done. by destruct p, q.
Qed.

Lemma eval_bit_not M a (p : bool) :
  eval M a = Some (VBv 1 (bit_value p)) ->
  eval M (Z3_mk_bvnot a) = Some (VBv 1 (bit_value (negb p))).
Proof.
  intros Ha. unfold Z3_mk_bvnot. cbn [eval]. rewrite Ha. by destruct p.
Qed.

Lemma eval_bit_redor M a (p : bool) :
  eval M a = Some (VBv 1 (bit_value p)) ->
  eval M (Z3_mk_bvredor a) = Some (VBv 1 (bit_value p)).
Proof.
  intros Ha. unfold Z3_mk_bvredor. cbn [eval]. rewrite Ha. by destruct p.
Qed.

Lemma eval_Eq_bit M n lhs rhs x y :
  eval M lhs = Some (VBv n x) -> eval M rhs = Some (VBv n y) ->
  eval M (Z3OpTranslator.Eq lhs rhs) = Some (VBv 1 (bit_value (x =? y))).
Proof. intros Hl Hr. by rewrite (eval_Eq M n lhs rhs x y). Qed.

Lemma eval_SLt_bit M n lhs rhs x y :
  (1 <= n)%nat ->
  Z3_get_sort lhs = Some (BvSort n) -> Z3_get_sort rhs = Some (BvSort n) ->
  eval M lhs = Some (VBv n x) -> eval M rhs = Some (VBv n y) ->
  0 <= x < bv_modulus n -> 0 <= y < bv_modulus n ->
  eval M (Z3OpTranslator.SLt lhs rhs)
  = Some (VBv 1 (bit_value (bv_signed n x <? bv_signed n y))).
Proof. intros. by rewrite (eval_SLt M n lhs rhs x y). Qed.

(** ** The comparison handlers *)

Lemma Z_leb_ltb_eqb x y : (x <=? y) = (x <? y) || (x =? y).
Proof.
  destruct (Z.ltb_spec x y), (Z.eqb_spec x y), (Z.leb_spec x y);
    try lia; reflexivity.
Qed.

Lemma Z_geb_ltb x y : (x >=? y) = negb (x <? y).
Proof.
  rewrite Z.geb_leb.
  destruct (Z.ltb_spec x y), (Z.leb_spec y x); try lia; reflexivity.
Qed.

Lemma Z_gtb_eqb_ltb x y : (x >? y) = negb ((x =? y) || (x <? y)).
Proof.
  rewrite Z.gtb_ltb.
  destruct (Z.ltb_spec x y), (Z.eqb_spec x y), (Z.ltb_spec y x);
    try lia; reflexivity.
Qed.

Lemma Z3_get_sort_bit_or a b :
  Z3_get_sort a = Some (BvSort 1) -> Z3_get_sort b = Some (BvSort 1) ->
  Z3_get_sort (Z3_mk_bvor a b) = Some (BvSort 1).
Proof. intros Ha Hb. unfold Z3_mk_bvor. cbn [Z3_get_sort]. by rewrite Ha, Hb. Qed.

Lemma Z3_get_sort_bit_not a :
  Z3_get_sort a = Some (BvSort 1) ->
  Z3_get_sort (Z3_mk_bvnot a) = Some (BvSort 1).
Proof. intros Ha. unfold Z3_mk_bvnot. cbn [Z3_get_sort]. by rewrite Ha. Qed.

Lemma Z3_get_sort_bit_redor n a :
  Z3_get_sort a = Some (BvSort n) ->
  Z3_get_sort (Z3_mk_bvredor a) = Some (BvSort 1).
Proof. intros Ha. unfold Z3_mk_bvredor. cbn [Z3_get_sort]. by rewrite Ha. Qed.

Lemma eval_Ne_bit M n lhs rhs x y :
  eval M lhs = Some (VBv n x) -> eval M rhs = Some (VBv n y) ->
  eval M (HandleNe_f lhs rhs) = Some (VBv 1 (bit_value (negb (x =? y)))).
Proof.
  intros Hl Hr. cbn. rewrite Hl, Hr.
  rewrite bool_decide_true_eq by reflexivity. cbn. do 2 f_equal.
  destruct (Z.eqb_spec x y) as [->|Hne].
  - rewrite Z.lxor_nilpotent. by rewrite bool_decide_true_eq.
  - rewrite bool_decide_false_eq; [done|].
    intros H0. by apply Z.lxor_eq in H0.
Qed.

(** X1.  The unsigned comparisons.  A ULe, ULt, UGe or UGt node over two
    Bits operands of one width records the term of its handler's closure,
    which is one bit wide and is 1 exactly when the unsigned values of the
    operands compare so. *)
Theorem unsigned_comparison_handlers
    (tr : Z3Translator) (self : nat) (op : Node) (lhs rhs : Z3_ast) (n : nat)
    (k : NodeKind) (f : Z3_ast -> Z3_ast -> Z3_ast) (cmp : Z -> Z -> bool) :
  operand_term tr op 0 lhs n -> operand_term tr op 1 rhs n ->
  (k, f, cmp) ∈ [ (kULe, HandleULe_f, Z.leb); (kULt, HandleULt_f, Z.ltb);
                  (kUGe, HandleUGe_f, Z.geb); (kUGt, HandleUGt_f, Z.gtb) ] ->
  kind op = k ->
  VisitNode tr self op = Done (NoteTranslation tr self (f lhs rhs))
  /\ Z3_get_sort (f lhs rhs) = Some (BvSort 1)
  /\ forall M x y,
       eval M lhs = Some (VBv n x) -> eval M rhs = Some (VBv n y) ->
       0 <= x < bv_modulus n -> 0 <= y < bv_modulus n ->
       eval M (f lhs rhs) = Some (VBv 1 (bit_value (cmp x y))).
Proof.
  intros Hl Hr Hin Hk.
  pose proof Hl as (_ & _ & _ & _ & _ & _ & Hsl).
  pose proof Hr as (_ & _ & _ & _ & _ & _ & Hsr).
  pose proof (Z3_get_sort_ULt n lhs rhs Hsl Hsr) as Hult.
  pose proof (Z3_get_sort_Eq n lhs rhs Hsl Hsr) as Heq.
  assert (Z3_get_sort (f lhs rhs) = Some (BvSort 1)
          /\ forall M x y,
               eval M lhs = Some (VBv n x) -> eval M rhs = Some (VBv n y) ->
               0 <= x < bv_modulus n -> 0 <= y < bv_modulus n ->
               eval M (f lhs rhs) = Some (VBv 1 (bit_value (cmp x y))))
    as [Hsort Hval].
  { repeat (apply elem_of_cons in Hin as [[= -> -> ->]|Hin]);
      [..|by apply elem_of_nil in Hin].
    - split.
      + by apply (Z3_get_sort_bit_redor 1), Z3_get_sort_bit_or.
      + intros M x y Hx Hy Hrx Hry. rewrite Z_leb_ltb_eqb.
        apply eval_bit_redor, eval_bit_or;
          [by apply (eval_ULt M n) | by apply (eval_Eq_bit M n)].
    - split; [done|]. intros M x y Hx Hy Hrx Hry. by apply (eval_ULt M n).
    - split.
      + by apply Z3_get_sort_bit_not.
      + intros M x y Hx Hy Hrx Hry. rewrite Z_geb_ltb.
        apply eval_bit_not. by apply (eval_ULt M n).
    - split.
      + by apply Z3_get_sort_bit_not, Z3_get_sort_bit_or.
      + intros M x y Hx Hy Hrx Hry. rewrite Z_gtb_eqb_ltb.
        apply eval_bit_not, eval_bit_or;
          [by apply (eval_Eq_bit M n) | by apply (eval_ULt M n)]. }
  split; [|done].
  assert (VisitNode tr self op = HandleCompare f tr self op) as ->.
  { unfold VisitNode. rewrite Hk.
    repeat (apply elem_of_cons in Hin as [[= -> -> ->]|Hin]);
      [done..|by apply elem_of_nil in Hin]. }
  by apply (HandleBinary_Done _ _ _ _ lhs rhs n n _ (BvSort 1)).
Qed.

Lemma unsigned_comparison_handlers_witness :
  VisitNode sgt_translator 2
    {| kind := kULt; operands := [0%nat; 1%nat]; GetType := BitsType 1 |}
  = Done (NoteTranslation sgt_translator 2
            (HandleULt_f (AConst "x" (BvSort 2)) (AConst "y" (BvSort 2))))
  /\ eval sgt_model (HandleULt_f (AConst "x" (BvSort 2)) (AConst "y" (BvSort 2)))
     = Some (VBv 1 1).
Proof.
  assert (Hx : operand_term sgt_translator
                 {| kind := kULt; operands := [0%nat; 1%nat];
                    GetType := BitsType 1 |} 0 (AConst "x" (BvSort 2)) 2).
  { exists 0%nat, {| kind := kParam "x"; operands := []; GetType := BitsType 2 |}.
    repeat split; reflexivity. }
  assert (Hy : operand_term sgt_translator
                 {| kind := kULt; operands := [0%nat; 1%nat];
                    GetType := BitsType 1 |} 1 (AConst "y" (BvSort 2)) 2).
  { exists 1%nat, {| kind := kParam "y"; operands := []; GetType := BitsType 2 |}.
    repeat split; reflexivity. }
  destruct (unsigned_comparison_handlers sgt_translator 2 _ _ _ 2
              kULt HandleULt_f Z.ltb Hx Hy) as (Hvisit & _ & Hval);
    [right; left | reflexivity |].
  split; [exact Hvisit|].
  assert (Hr1 : 0 <= 1 < bv_modulus 2) by (vm_compute; split; [discriminate | reflexivity]).
  assert (Hr3 : 0 <= 3 < bv_modulus 2) by (vm_compute; split; [discriminate | reflexivity]).
  exact (Hval sgt_model 1 3 eq_refl eq_refl Hr1 Hr3).
Defined.

(** X2.  The signed comparisons besides SGt.  An SLe, SLt or SGe node over
    two Bits operands of one width [n >= 1] records the term of its
    handler's closure, which is one bit wide and is 1 exactly when the
    two's complement values of the operands compare so. *)
Theorem signed_comparison_handlers
    (tr : Z3Translator) (self : nat) (op : Node) (lhs rhs : Z3_ast) (n : nat)
    (k : NodeKind) (f : Z3_ast -> Z3_ast -> Z3_ast) (cmp : Z -> Z -> bool) :
  (1 <= n)%nat ->
  operand_term tr op 0 lhs n -> operand_term tr op 1 rhs n ->
  (k, f, cmp) ∈ [ (kSLe, HandleSLe_f, Z.leb); (kSLt, HandleSLt_f, Z.ltb);
                  (kSGe, HandleSGe_f, Z.geb) ] ->
  kind op = k ->
  VisitNode tr self op = Done (NoteTranslation tr self (f lhs rhs))
  /\ Z3_get_sort (f lhs rhs) = Some (BvSort 1)
  /\ forall M x y,
       eval M lhs = Some (VBv n x) -> eval M rhs = Some (VBv n y) ->
       0 <= x < bv_modulus n -> 0 <= y < bv_modulus n ->
       eval M (f lhs rhs)
       = Some (VBv 1 (bit_value (cmp (bv_signed n x) (bv_signed n y)))).
Proof.
  intros Hn Hl Hr Hin Hk.
  pose proof Hl as (_ & _ & _ & _ & _ & _ & Hsl).
  pose proof Hr as (_ & _ & _ & _ & _ & _ & Hsr).
  pose proof (Z3_get_sort_SLt n lhs rhs Hsl Hsr) as Hslt.
  pose proof (Z3_get_sort_Eq n lhs rhs Hsl Hsr) as Heq.
  assert (Z3_get_sort (f lhs rhs) = Some (BvSort 1)
          /\ forall M x y,
               eval M lhs = Some (VBv n x) -> eval M rhs = Some (VBv n y) ->
               0 <= x < bv_modulus n -> 0 <= y < bv_modulus n ->
               eval M (f lhs rhs)
               = Some (VBv 1 (bit_value (cmp (bv_signed n x) (bv_signed n y)))))
    as [Hsort Hval].
  { repeat (apply elem_of_cons in Hin as [[= -> -> ->]|Hin]);
      [..|by apply elem_of_nil in Hin].
    - split.
      + by apply (Z3_get_sort_bit_redor 1), Z3_get_sort_bit_or.
      + intros M x y Hx Hy Hrx Hry. rewrite Z_leb_ltb_eqb.
        apply eval_bit_redor, eval_bit_or; [by apply (eval_SLt_bit M n)|].
        replace (bv_signed n x =? bv_signed n y) with (x =? y);
          [by apply (eval_Eq_bit M n)|].
        unfold bv_signed.
        destruct (Z.eqb_spec x y) as [->|Hne]; [by rewrite Z.eqb_refl|].
        symmetry. apply Z.eqb_neq. repeat case_bool_decide; lia.
    - split; [done|]. intros M x y Hx Hy Hrx Hry. by apply (eval_SLt_bit M n).
    - split.
      + by apply Z3_get_sort_bit_not.
      + intros M x y Hx Hy Hrx Hry. rewrite Z_geb_ltb.
        apply eval_bit_not. by apply (eval_SLt_bit M n). }
  split; [|done].
  assert (VisitNode tr self op = HandleCompare f tr self op) as ->.
  { unfold VisitNode. rewrite Hk.
    repeat (apply elem_of_cons in Hin as [[= -> -> ->]|Hin]);
      [done..|by apply elem_of_nil in Hin]. }
  by apply (HandleBinary_Done _ _ _ _ lhs rhs n n _ (BvSort 1)).
Qed.

Lemma signed_comparison_handlers_witness :
  VisitNode sgt_translator 2
    {| kind := kSLe; operands := [0%nat; 1%nat]; GetType := BitsType 1 |}
  = Done (NoteTranslation sgt_translator 2
            (HandleSLe_f (AConst "x" (BvSort 2)) (AConst "y" (BvSort 2))))
  /\ eval sgt_model (HandleSLe_f (AConst "x" (BvSort 2)) (AConst "y" (BvSort 2)))
     = Some (VBv 1 0).
Proof.
  assert (Hx : operand_term sgt_translator
                 {| kind := kSLe; operands := [0%nat; 1%nat];
                    GetType := BitsType 1 |} 0 (AConst "x" (BvSort 2)) 2).
  { exists 0%nat, {| kind := kParam "x"; operands := []; GetType := BitsType 2 |}.
    repeat split; reflexivity. }
  assert (Hy : operand_term sgt_translator
                 {| kind := kSLe; operands := [0%nat; 1%nat];
                    GetType := BitsType 1 |} 1 (AConst "y" (BvSort 2)) 2).
  { exists 1%nat, {| kind := kParam "y"; operands := []; GetType := BitsType 2 |}.
    repeat split; reflexivity. }
  destruct (signed_comparison_handlers sgt_translator 2 _ _ _ 2
              kSLe HandleSLe_f Z.leb ltac:(lia) Hx Hy) as (Hvisit & _ & Hval);
    [left | reflexivity |].
  split; [exact Hvisit|].
  assert (Hr1 : 0 <= 1 < bv_modulus 2) by (vm_compute; split; [discriminate | reflexivity]).
  assert (Hr3 : 0 <= 3 < bv_modulus 2) by (vm_compute; split; [discriminate | reflexivity]).
  exact (Hval sgt_model 1 3 eq_refl eq_refl Hr1 Hr3).
Defined.

(** X3.  Equality and inequality.  An Eq or Ne node over two Bits operands
    of one width records [not (redor (xor lhs rhs))], respectively
    [redor (xor lhs rhs)]: one bit, 1 exactly when the operands are equal,
    respectively differ. *)
Theorem equality_handlers
    (tr : Z3Translator) (self : nat) (op : Node) (lhs rhs : Z3_ast) (n : nat)
    (k : NodeKind) (f : Z3_ast -> Z3_ast -> Z3_ast) (cmp : Z -> Z -> bool) :
  operand_term tr op 0 lhs n -> operand_term tr op 1 rhs n ->
  (k, f, cmp) ∈ [ (kEq, HandleEq_f, Z.eqb);
                  (kNe, HandleNe_f, fun x y => negb (x =? y)) ] ->
  kind op = k ->
  VisitNode tr self op = Done (NoteTranslation tr self (f lhs rhs))
  /\ Z3_get_sort (f lhs rhs) = Some (BvSort 1)
  /\ forall M x y,
       eval M lhs = Some (VBv n x) -> eval M rhs = Some (VBv n y) ->
       eval M (f lhs rhs) = Some (VBv 1 (bit_value (cmp x y))).
Proof.
  intros Hl Hr Hin Hk.
  pose proof Hl as (_ & _ & _ & _ & _ & _ & Hsl).
  pose proof Hr as (_ & _ & _ & _ & _ & _ & Hsr).
  pose proof (Z3_get_sort_Eq n lhs rhs Hsl Hsr) as Heq.
  assert (Z3_get_sort (f lhs rhs) = Some (BvSort 1)
          /\ forall M x y,
               eval M lhs = Some (VBv n x) -> eval M rhs = Some (VBv n y) ->
               eval M (f lhs rhs) = Some (VBv 1 (bit_value (cmp x y))))
    as [Hsort Hval].
  { repeat (apply elem_of_cons in Hin as [[= -> -> ->]|Hin]);
      [..|by apply elem_of_nil in Hin].
    - split; [exact Heq|]. intros M x y Hx Hy.
      by apply (eval_Eq_bit M n).
    - split.
      + unfold HandleNe_f, Z3OpTranslator.ReduceOr, Z3OpTranslator.Xor,
          Z3_mk_bvxor.
        apply (Z3_get_sort_bit_redor n). cbn [Z3_get_sort].
        rewrite Hsl, Hsr. by rewrite bool_decide_true_eq.
      + intros M x y Hx Hy. by apply (eval_Ne_bit M n). }
  split; [|done].
  assert (VisitNode tr self op = HandleCompare f tr self op) as ->.
  { unfold VisitNode. rewrite Hk.
    repeat (apply elem_of_cons in Hin as [[= -> -> ->]|Hin]);
      [done..|by apply elem_of_nil in Hin]. }
  by apply (HandleBinary_Done _ _ _ _ lhs rhs n n _ (BvSort 1)).
Qed.

Lemma equality_handlers_witness :
  VisitNode sgt_translator 2
    {| kind := kNe; operands := [0%nat; 1%nat]; GetType := BitsType 1 |}
  = Done (NoteTranslation sgt_translator 2
            (HandleNe_f (AConst "x" (BvSort 2)) (AConst "y" (BvSort 2))))
  /\ eval sgt_model (HandleNe_f (AConst "x" (BvSort 2)) (AConst "y" (BvSort 2)))
     = Some (VBv 1 1).
Proof.
  assert (Hx : operand_term sgt_translator
                 {| kind := kNe; operands := [0%nat; 1%nat];
                    GetType := BitsType 1 |} 0 (AConst "x" (BvSort 2)) 2).
  { exists 0%nat, {| kind := kParam "x"; operands := []; GetType := BitsType 2 |}.
    repeat split; reflexivity. }
  assert (Hy : operand_term sgt_translator
                 {| kind := kNe; operands := [0%nat; 1%nat];
                    GetType := BitsType 1 |} 1 (AConst "y" (BvSort 2)) 2).
  { exists 1%nat, {| kind := kParam "y"; operands := []; GetType := BitsType 2 |}.
    repeat split; reflexivity. }
  destruct (equality_handlers sgt_translator 2 _ _ _ 2
              kNe HandleNe_f (fun x y => negb (x =? y)) Hx Hy)
    as (Hvisit & _ & Hval); [right; left | reflexivity |].
  split; [exact Hvisit|].
  exact (Hval sgt_model 1 3 eq_refl eq_refl).
Defined.

(** ** The shift handlers *)

Lemma operand_term_bit_count tr op i a n :
  operand_term tr op i a n -> operand_bit_count tr op i = Done n.
Proof.
  intros (o & nd & Ho & Hnd & Ht & _). unfold operand_bit_count, operand,
    node_at, at_index.
  by rewrite Ho, bind_Done, Hnd, bind_Done, Ht.
Qed.

(** X4.  The shifts.  A Shll, Shrl or Shra node whose amount operand is no
    wider than the shifted operand records the solver's shift of the
    operand by the amount, zero-extended to the operand's width when it is
    narrower; the term has the operand's width and the value of the shift:
    [x * 2^y], [x / 2^y] or the two's complement [x / 2^y], cut to the
    width.  With a wider amount operand the visit aborts. *)
Theorem shift_handlers
    (tr : Z3Translator) (self : nat) (op : Node) (lhs rhs : Z3_ast)
    (n m : nat) (k : NodeKind) (bop : bv_binop) (sem : Z -> Z -> Z) :
  operand_term tr op 0 lhs n -> operand_term tr op 1 rhs m ->
  (k, bop, sem)
    ∈ [ (kShll, bvshl, fun x y => (x * 2 ^ y) mod 2 ^ Z.of_nat n);
        (kShrl, bvlshr, fun x y => x / 2 ^ y);
        (kShra, bvashr, fun x y => (bv_signed n x / 2 ^ y) mod 2 ^ Z.of_nat n) ] ->
  kind op = k ->
  ((m <= n)%nat ->
   let amount :=
     if bool_decide (m = n) then rhs
     else Z3_mk_zero_ext (Z.of_nat n - Z.of_nat m) rhs in
   VisitNode tr self op = Done (NoteTranslation tr self (ABin bop lhs amount))
   /\ Z3_get_sort (ABin bop lhs amount) = Some (BvSort n)
   /\ forall M x y,
        eval M lhs = Some (VBv n x) -> eval M rhs = Some (VBv m y) ->
        0 <= y ->
        eval M (ABin bop lhs amount) = Some (VBv n (sem x y)))
  /\ ((n < m)%nat -> VisitNode tr self op = Fatal).
Proof.
  intros Hl Hr Hin Hk.
  pose proof Hl as (_ & _ & _ & _ & _ & _ & Hsl).
  pose proof Hr as (_ & _ & _ & _ & _ & _ & Hsr).
  pose proof (operand_term_bit_count _ _ _ _ _ Hl) as Hcl.
  pose proof (operand_term_bit_count _ _ _ _ _ Hr) as Hcr.
  assert (VisitNode tr self op = HandleShift tr self op (ABin bop)) as ->.
  { unfold VisitNode. rewrite Hk.
    repeat (apply elem_of_cons in Hin as [[= -> -> ->]|Hin]);
      [done..|by apply elem_of_nil in Hin]. }
  split.
  - intros Hle amount.
    assert (Z3_get_sort amount = Some (BvSort n)) as Hsa.
    { subst amount. case_bool_decide as Hmn; [by subst m|].
      unfold Z3_mk_zero_ext. cbn [Z3_get_sort]. rewrite Hsr.
      rewrite bool_decide_true_eq by lia. do 2 f_equal. lia. }
    assert (Z3_get_sort (ABin bop lhs amount) = Some (BvSort n)) as Hst.
    { cbn [Z3_get_sort]. rewrite Hsl, Hsa. by rewrite bool_decide_true_eq. }
    split; [|split; [exact Hst|]].
    + unfold HandleShift.
      apply (HandleBinary_Done _ _ _ _ lhs rhs n m _ (BvSort n)); try done.
      rewrite Hcl, bind_Done, Hcr, bind_Done. subst amount.
      case_bool_decide as Hmn.
      * subst m. by rewrite bool_decide_false_eq by (intros H; by apply H).
      * rewrite bool_decide_true_eq by done.
        rewrite XLS_CHECK_true by lia. by rewrite bind_Done.
    + intros M x y Hx Hy Hy0.
      assert (eval M amount = Some (VBv n y)) as Hea.
      { subst amount. case_bool_decide as Hmn; [by subst m|].
        unfold Z3_mk_zero_ext. cbn [eval]. rewrite Hy.
        rewrite bool_decide_true_eq by lia. do 2 f_equal. lia. }
      cbn [eval]. rewrite Hx, Hea. rewrite bool_decide_true_eq by done.
      do 2 f_equal.
      repeat (apply elem_of_cons in Hin as [[= -> -> ->]|Hin]);
        [..|by apply elem_of_nil in Hin]; cbn [bv_binop_sem]; unfold bv_wrap,
        bv_modulus.
      * by rewrite Z.shiftl_mul_pow2.
      * by rewrite Z.shiftr_div_pow2.
      * by rewrite Z.shiftr_div_pow2.
  - intros Hlt. unfold HandleShift, HandleBinary.
    apply operand_term_GetBitVec in Hl as (o0 & Ho0 & Hl).
    apply operand_term_GetBitVec in Hr as (o1 & Ho1 & Hr).
    rewrite Ho0, bind_Done, Hl, bind_Done, Ho1, bind_Done, Hr, bind_Done.
    rewrite Hcl, bind_Done, Hcr, bind_Done.
    rewrite bool_decide_true_eq by lia.
    by rewrite (bool_decide_false_eq (m < n)%nat) by lia.
Qed.

Lemma shift_handlers_witness :
  VisitNode smul_translator 2
    {| kind := kShra; operands := [1%nat; 0%nat]; GetType := BitsType 3 |}
  = Done (NoteTranslation smul_translator 2
            (ABin bvashr (AConst "y" (BvSort 3))
               (Z3_mk_zero_ext 1 (AConst "x" (BvSort 2)))))
  /\ eval smul_model
       (ABin bvashr (AConst "y" (BvSort 3))
          (Z3_mk_zero_ext 1 (AConst "x" (BvSort 2))))
     = Some (VBv 3 7).
Proof.
  assert (Hy : operand_term smul_translator
                 {| kind := kShra; operands := [1%nat; 0%nat];
                    GetType := BitsType 3 |} 0 (AConst "y" (BvSort 3)) 3).
  { exists 1%nat, {| kind := kParam "y"; operands := []; GetType := BitsType 3 |}.
    repeat split; reflexivity. }
  assert (Hx : operand_term smul_translator
                 {| kind := kShra; operands := [1%nat; 0%nat];
                    GetType := BitsType 3 |} 1 (AConst "x" (BvSort 2)) 2).
  { exists 0%nat, {| kind := kParam "x"; operands := []; GetType := BitsType 2 |}.
    repeat split; reflexivity. }
  destruct (shift_handlers smul_translator 2 _ _ _ 3 2 kShra bvashr
              (fun x y => (bv_signed 3 x / 2 ^ y) mod 2 ^ Z.of_nat 3) Hy Hx)
    as [Hle _]; [right; right; left | reflexivity |].
  destruct (Hle ltac:(lia)) as (Hvisit & _ & Hval).
  split; [exact Hvisit|].
  exact (Hval smul_model 5 3 eq_refl eq_refl ltac:(lia)).
Defined.

(** ** The n-ary handlers *)

Lemma foldl_GetBitVec_all tr (f : Z3_ast -> Z3_ast -> Z3_ast) os :
  forall xs a0,
    Forall2 (fun o x => GetBitVec tr o = Done x) os xs ->
    foldl (fun (acc : outcome Z3_ast) (o : nat) =>
             a ← acc; x ← GetBitVec tr o; Done (f a x)) (Done a0) os
    = Done (foldl f a0 xs).
Proof.
  induction os as [|o os IH]; intros xs a0 H.
  - by apply Forall2_nil_inv_l in H as ->.
  - apply Forall2_cons_inv_l in H as (x & xs' & Hx & Hxs & ->).
    cbn [foldl]. rewrite bind_Done, Hx, bind_Done. by apply IH.
Qed.

(** The operands after the first, read as bit-vectors. *)
Lemma rest_operands_GetBitVec tr op (xs : list Z3_ast) (ws : list nat) :
  length (operands op) = S (length xs) -> length ws = length xs ->
  (forall i a w, xs !! i = Some a -> ws !! i = Some w ->
                 operand_term tr op (S i) a w) ->
  Forall2 (fun o x => GetBitVec tr o = Done x) (drop 1 (operands op)) xs.
Proof.
  intros Hlen Hws Hall. apply Forall2_same_length_lookup_2.
  - rewrite length_drop. lia.
  - intros i o a Ho Ha. rewrite lookup_drop in Ho.
    destruct (lookup_lt_is_Some_2 ws i) as [w Hw].
    { rewrite Hws. by apply lookup_lt_Some in Ha. }
    destruct (operand_term_GetBitVec _ _ _ _ _ (Hall i a w Ha Hw))
      as (o' & Ho' & Hg).
    apply at_index_Done in Ho'. cbn in Ho. rewrite Ho in Ho'.
    by injection Ho' as <-.
Qed.

Lemma HandleNary_Done tr self op f (invert : bool) a0 w0 xs ws s :
  operand_term tr op 0 a0 w0 ->
  length (operands op) = S (length xs) -> length ws = length xs ->
  (forall i a w, xs !! i = Some a -> ws !! i = Some w ->
                 operand_term tr op (S i) a w) ->
  Z3_get_sort (if invert then Z3OpTranslator.Not (foldl f a0 xs)
               else foldl f a0 xs) = Some s ->
  HandleNary tr self op f invert
  = Done (NoteTranslation tr self
            (if invert then Z3OpTranslator.Not (foldl f a0 xs)
             else foldl f a0 xs)).
Proof.
  intros H0 Hlen Hws Hall Hs. unfold HandleNary.
  apply operand_term_GetBitVec in H0 as (o0 & Ho0 & Hg0).
  rewrite Ho0, bind_Done, Hg0, bind_Done.
  rewrite (foldl_GetBitVec_all tr f _ xs a0)
    by (by apply (rest_operands_GetBitVec tr op xs ws)).
  rewrite bind_Done. by apply (note_and_return_ok _ _ _ s).
Qed.

Lemma Z3_get_sort_foldl_ABin bop n xs :
  Forall (fun x => Z3_get_sort x = Some (BvSort n)) xs ->
  forall a0, Z3_get_sort a0 = Some (BvSort n) ->
             Z3_get_sort (foldl (ABin bop) a0 xs) = Some (BvSort n).
Proof.
  induction 1 as [|x xs Hx _ IH]; intros a0 Ha; [done|].
  cbn [foldl]. apply IH. cbn [Z3_get_sort]. rewrite Ha, Hx.
  by rewrite bool_decide_true_eq.
Qed.

Lemma eval_foldl_ABin M bop n xs vs :
  Forall2 (fun x v => eval M x = Some (VBv n v)) xs vs ->
  forall a0 v0,
    eval M a0 = Some (VBv n v0) ->
    eval M (foldl (ABin bop) a0 xs)
    = Some (VBv n (foldl (bv_binop_sem bop n) v0 vs)).
Proof.
  induction 1 as [|x v xs vs Hx _ IH]; intros a0 v0 Ha; [done|].
  cbn [foldl]. apply IH. cbn [eval]. rewrite Ha, Hx.
  by rewrite bool_decide_true_eq.
Qed.

(** X5.  The bit-wise n-ary operations.  An And, Or, Xor, Nand or Nor node
    over one or more Bits operands of one width records the left fold of
    the solver's operation over the operands' terms, inverted for Nand and
    Nor; the term has the operands' width and the value of the fold of the
    operation over the operands' values, complemented when inverted. *)
Theorem bitwise_nary_handlers
    (tr : Z3Translator) (self : nat) (op : Node) (a0 : Z3_ast)
    (xs : list Z3_ast) (n : nat)
    (k : NodeKind) (bop : bv_binop) (invert : bool) (sem : Z -> Z -> Z) :
  operand_term tr op 0 a0 n ->
  length (operands op) = S (length xs) ->
  (forall i a, xs !! i = Some a -> operand_term tr op (S i) a n) ->
  (k, bop, invert, sem)
    ∈ [ (kAnd, bvand, false, Z.land); (kNand, bvand, true, Z.land);
        (kNor, bvor, true, Z.lor); (kOr, bvor, false, Z.lor);
        (kXor, bvxor, false, Z.lxor) ] ->
  kind op = k ->
  let t := if invert then Z3OpTranslator.Not (foldl (ABin bop) a0 xs)
           else foldl (ABin bop) a0 xs in
  VisitNode tr self op = Done (NoteTranslation tr self t)
  /\ Z3_get_sort t = Some (BvSort n)
  /\ forall M v0 vs,
       eval M a0 = Some (VBv n v0) ->
       Forall2 (fun x v => eval M x = Some (VBv n v)) xs vs ->
       eval M t
       = Some (VBv n (if invert then bv_modulus n - 1 - foldl sem v0 vs
                      else foldl sem v0 vs)).
Proof.
  intros H0 Hlen Hall Hin Hk t.
  pose proof H0 as (_ & _ & _ & _ & _ & _ & Hs0).
  assert (Forall (fun x => Z3_get_sort x = Some (BvSort n)) xs) as Hsx.
  { apply Forall_lookup. intros i a Ha.
    by destruct (Hall i a Ha) as (_ & _ & _ & _ & _ & _ & ?). }
  pose proof (Z3_get_sort_foldl_ABin bop n xs Hsx a0 Hs0) as Hsf.
  assert (Z3_get_sort t = Some (BvSort n)) as Hst.
  { subst t. destruct invert; [|done].
    unfold Z3OpTranslator.Not, Z3_mk_bvnot. cbn [Z3_get_sort]. by rewrite Hsf. }
  assert (VisitNode tr self op = HandleNary tr self op (ABin bop) invert) as ->.
  { unfold VisitNode. rewrite Hk.
    repeat (apply elem_of_cons in Hin as [[= -> -> -> ->]|Hin]);
      [done..|by apply elem_of_nil in Hin]. }
  split; [|split; [exact Hst|]].
  - apply (HandleNary_Done _ _ _ _ _ a0 n xs (replicate (length xs) n)
             (BvSort n)); try done.
    + by rewrite length_replicate.
    + intros i a w Ha Hw. apply lookup_replicate in Hw as [-> _].
      by apply Hall.
  - intros M v0 vs Hv0 Hvs.
    pose proof (eval_foldl_ABin M bop n xs vs Hvs a0 v0 Hv0) as Hev.
    assert (bv_binop_sem bop n = sem) as Hsem.
    { repeat (apply elem_of_cons in Hin as [[= -> -> -> ->]|Hin]);
        [done..|by apply elem_of_nil in Hin]. }
    rewrite Hsem in Hev. subst t. destruct invert; [|done].
    unfold Z3OpTranslator.Not, Z3_mk_bvnot. cbn [eval]. by rewrite Hev.
Qed.

Lemma bitwise_nary_handlers_witness :
  VisitNode sgt_translator 2
    {| kind := kNand; operands := [0%nat; 1%nat]; GetType := BitsType 2 |}
  = Done (NoteTranslation sgt_translator 2
            (Z3OpTranslator.Not
               (ABin bvand (AConst "x" (BvSort 2)) (AConst "y" (BvSort 2)))))
  /\ eval sgt_model
       (Z3OpTranslator.Not
          (ABin bvand (AConst "x" (BvSort 2)) (AConst "y" (BvSort 2))))
     = Some (VBv 2 2).
Proof.
  assert (Hx : operand_term sgt_translator
                 {| kind := kNand; operands := [0%nat; 1%nat];
                    GetType := BitsType 2 |} 0 (AConst "x" (BvSort 2)) 2).
  { exists 0%nat, {| kind := kParam "x"; operands := []; GetType := BitsType 2 |}.
    repeat split; reflexivity. }
  assert (Hy : forall i a,
             [AConst "y" (BvSort 2)] !! i = Some a ->
             operand_term sgt_translator
               {| kind := kNand; operands := [0%nat; 1%nat];
                  GetType := BitsType 2 |} (S i) a 2).
  { intros [|i] a Ha; [|destruct i; discriminate Ha]. injection Ha as <-.
    exists 1%nat, {| kind := kParam "y"; operands := []; GetType := BitsType 2 |}.
    repeat split; reflexivity. }
  destruct (bitwise_nary_handlers sgt_translator 2 _ _ [AConst "y" (BvSort 2)]
              2 kNand bvand true Z.land Hx eq_refl Hy)
    as (Hvisit & _ & Hval); [right; left | reflexivity |].
  split; [exact Hvisit|].
  assert (Hvs : Forall2 (fun x v => eval sgt_model x = Some (VBv 2 v))
                  [AConst "y" (BvSort 2)] [3]) by (repeat constructor).
  exact (Hval sgt_model 1 [3] eq_refl Hvs).
Defined.

Lemma Z3_get_sort_foldl_concat_widths xs ws :
  Forall2 (fun x w => Z3_get_sort x = Some (BvSort w)) xs ws ->
  forall a0 w0,
    Z3_get_sort a0 = Some (BvSort w0) ->
    Z3_get_sort (foldl Z3_mk_concat a0 xs)
    = Some (BvSort (w0 + sum_list ws)).
Proof.
  induction 1 as [|x w xs ws Hx _ IH]; intros a0 w0 Ha; cbn [foldl sum_list_with id].
  - rewrite Ha. do 2 f_equal. lia.
  - rewrite (IH (Z3_mk_concat a0 x) (w0 + w)%nat).
    + do 2 f_equal. lia.
    + unfold Z3_mk_concat. cbn [Z3_get_sort]. by rewrite Ha, Hx.
Qed.

Lemma eval_foldl_concat_values M xs wvs :
  Forall2 (fun x wv => eval M x = Some (VBv wv.1 wv.2)) xs wvs ->
  forall a0 w0 v0,
    eval M a0 = Some (VBv w0 v0) ->
    eval M (foldl Z3_mk_concat a0 xs)
    = Some (VBv (w0 + sum_list wvs.*1)
              (foldl (fun acc wv => acc * 2 ^ Z.of_nat wv.1 + wv.2) v0 wvs)).
Proof.
  induction 1 as [|x [w v] xs wvs Hx _ IH]; intros a0 w0 v0 Ha;
    cbn [foldl sum_list_with id fmap list_fmap fst snd].
  - rewrite Ha. do 2 f_equal. lia.
  - rewrite (IH (Z3_mk_concat a0 x) (w0 + w)%nat (v0 * 2 ^ Z.of_nat w + v)).
    + do 2 f_equal. lia.
    + unfold Z3_mk_concat. cbn [eval]. by rewrite Ha, Hx.
Qed.

(** X6.  Concat.  A Concat node records the left fold of the solver's
    concatenation over its operands' terms.  The term's width is the sum of
    the operands' widths, and operand 0 supplies its most significant bits:
    its value is the operands' values written one after the other, each
    shifted left by the widths of the operands after it. *)
Theorem HandleConcat_operand_order
    (tr : Z3Translator) (self : nat) (op : Node) (a0 : Z3_ast) (w0 : nat)
    (xs : list Z3_ast) (ws : list nat) :
  kind op = kConcat ->
  operand_term tr op 0 a0 w0 ->
  length (operands op) = S (length xs) -> length ws = length xs ->
  (forall i a w, xs !! i = Some a -> ws !! i = Some w ->
                 operand_term tr op (S i) a w) ->
  VisitNode tr self op
  = Done (NoteTranslation tr self (foldl Z3_mk_concat a0 xs))
  /\ Z3_get_sort (foldl Z3_mk_concat a0 xs)
     = Some (BvSort (w0 + sum_list ws))
  /\ forall M v0 vs,
       eval M a0 = Some (VBv w0 v0) ->
       Forall2 (fun x wv => eval M x = Some (VBv wv.1 wv.2)) xs (zip ws vs) ->
       length vs = length ws ->
       eval M (foldl Z3_mk_concat a0 xs)
       = Some (VBv (w0 + sum_list ws)
                 (foldl (fun acc wv => acc * 2 ^ Z.of_nat wv.1 + wv.2) v0
                    (zip ws vs))).
Proof.
  intros Hk H0 Hlen Hws Hall.
  pose proof H0 as (_ & _ & _ & _ & _ & _ & Hs0).
  assert (Forall2 (fun x w => Z3_get_sort x = Some (BvSort w)) xs ws) as Hsx.
  { apply Forall2_same_length_lookup_2; [done|]. intros i a w Ha Hw.
    by destruct (Hall i a w Ha Hw) as (_ & _ & _ & _ & _ & _ & ?). }
  pose proof (Z3_get_sort_foldl_concat_widths xs ws Hsx a0 w0 Hs0) as Hsf.
  split; [|split; [exact Hsf|]].
  - unfold VisitNode. rewrite Hk. unfold HandleConcat.
    by apply (HandleNary_Done _ _ _ _ false a0 w0 xs ws
                (BvSort (w0 + sum_list ws))).
  - intros M v0 vs Hv0 Hvs Hlv.
    rewrite (eval_foldl_concat_values M xs (zip ws vs) Hvs a0 w0 v0 Hv0).
    by rewrite fst_zip by lia.
Qed.

Lemma HandleConcat_operand_order_witness :
  VisitNode smul_translator 2
    {| kind := kConcat; operands := [0%nat; 1%nat]; GetType := BitsType 5 |}
  = Done (NoteTranslation smul_translator 2
            (Z3_mk_concat (AConst "x" (BvSort 2)) (AConst "y" (BvSort 3))))
  /\ eval smul_model
       (Z3_mk_concat (AConst "x" (BvSort 2)) (AConst "y" (BvSort 3)))
     = Some (VBv 5 29).
Proof.
  assert (Hx : operand_term smul_translator
                 {| kind := kConcat; operands := [0%nat; 1%nat];
                    GetType := BitsType 5 |} 0 (AConst "x" (BvSort 2)) 2).
  { exists 0%nat, {| kind := kParam "x"; operands := []; GetType := BitsType 2 |}.
    repeat split; reflexivity. }
  assert (Hy : forall i a w,
             [AConst "y" (BvSort 3)] !! i = Some a -> [3%nat] !! i = Some w ->
             operand_term smul_translator
               {| kind := kConcat; operands := [0%nat; 1%nat];
                  GetType := BitsType 5 |} (S i) a w).
  { intros [|i] a w Ha Hw; [|destruct i; discriminate Ha].
    injection Ha as <-. injection Hw as <-.
    exists 1%nat, {| kind := kParam "y"; operands := []; GetType := BitsType 3 |}.
    repeat split; reflexivity. }
  destruct (HandleConcat_operand_order smul_translator 2
              {| kind := kConcat; operands := [0%nat; 1%nat];
                 GetType := BitsType 5 |} _ 2
              [AConst "y" (BvSort 3)] [3%nat] eq_refl Hx eq_refl eq_refl Hy)
    as (Hvisit & _ & Hval).
  split; [exact Hvisit|].
  assert (Hvs : Forall2 (fun x wv => eval smul_model x = Some (VBv wv.1 wv.2))
                  [AConst "y" (BvSort 3)] (zip [3%nat] [5]))
    by (repeat constructor).
  exact (Hval smul_model 3 [5] eq_refl Hvs eq_refl).
Defined.

(** ** Extension and slicing *)

Lemma HandleExtend_Done ext tr self op x n new_bit_count s :
  operand_term tr op 0 x n ->
  Z3_get_sort (ext (Z.of_nat new_bit_count - Z.of_nat n) x) = Some s ->
  HandleExtend ext tr self op new_bit_count
  = Done (NoteTranslation tr self
            (ext (Z.of_nat new_bit_count - Z.of_nat n) x)).
Proof.
  intros Hx Hs. unfold HandleExtend.
  rewrite (operand_term_bit_count _ _ _ _ _ Hx), bind_Done.
  apply operand_term_GetBitVec in Hx as (o0 & Ho0 & Hg).
  rewrite Ho0, bind_Done, Hg, bind_Done.
  by apply (note_and_return_ok _ _ _ s).
Qed.

(** X7.  Extension.  A ZeroExt or SignExt node to [new_bit_count] bits, at
    least the operand's width, records the solver's extension of the
    operand by [new_bit_count] minus the operand's width.  The term is
    [new_bit_count] bits wide; zero extension keeps the operand's unsigned
    value, sign extension its two's complement value. *)
Theorem extend_handlers
    (tr : Z3Translator) (self : nat) (op : Node) (x : Z3_ast)
    (n new_bit_count : nat) :
  operand_term tr op 0 x n -> (n <= new_bit_count)%nat ->
  (kind op = kZeroExt new_bit_count ->
   let t := Z3_mk_zero_ext (Z.of_nat new_bit_count - Z.of_nat n) x in
   VisitNode tr self op = Done (NoteTranslation tr self t)
   /\ Z3_get_sort t = Some (BvSort new_bit_count)
   /\ forall M v,
        eval M x = Some (VBv n v) -> eval M t = Some (VBv new_bit_count v))
  /\ (kind op = kSignExt new_bit_count -> (1 <= n)%nat ->
      let t := Z3_mk_sign_ext (Z.of_nat new_bit_count - Z.of_nat n) x in
      VisitNode tr self op = Done (NoteTranslation tr self t)
      /\ Z3_get_sort t = Some (BvSort new_bit_count)
      /\ forall M v,
           eval M x = Some (VBv n v) -> 0 <= v < bv_modulus n ->
           exists v',
             eval M t = Some (VBv new_bit_count v')
             /\ 0 <= v' < bv_modulus new_bit_count
             /\ bv_signed new_bit_count v' = bv_signed n v).
Proof.
  intros Hx Hle.
  pose proof Hx as (_ & _ & _ & _ & _ & _ & Hsx).
  assert (n + Z.to_nat (Z.of_nat new_bit_count - Z.of_nat n) = new_bit_count)%nat
    as Hw by lia.
  split.
  - intros Hk t.
    assert (Z3_get_sort t = Some (BvSort new_bit_count)) as Hst.
    { subst t. unfold Z3_mk_zero_ext. cbn [Z3_get_sort]. rewrite Hsx.
      rewrite bool_decide_true_eq by lia. by rewrite Hw. }
    split; [|split; [exact Hst|]].
    + unfold VisitNode. rewrite Hk. unfold HandleZeroExtend.
      by apply (HandleExtend_Done _ _ _ _ _ n _ (BvSort new_bit_count)).
    + intros M v Hv. subst t. unfold Z3_mk_zero_ext. cbn [eval]. rewrite Hv.
      rewrite bool_decide_true_eq by lia. by rewrite Hw.
  - intros Hk Hn t.
    assert (Z3_get_sort t = Some (BvSort new_bit_count)) as Hst.
    { subst t. unfold Z3_mk_sign_ext. cbn [Z3_get_sort]. rewrite Hsx.
      rewrite bool_decide_true_eq by lia. by rewrite Hw. }
    split; [|split; [exact Hst|]].
    + unfold VisitNode. rewrite Hk. unfold HandleSignExtend.
      by apply (HandleExtend_Done _ _ _ _ _ n _ (BvSort new_bit_count)).
    + intros M v Hv Hrange. subst t. unfold Z3_mk_sign_ext. cbn [eval].
      rewrite Hv. rewrite bool_decide_true_eq by lia. rewrite Hw.
      eexists. split; [reflexivity|]. split; [apply bv_wrap_range|].
      by apply bv_signed_wrap.
Qed.

Lemma extend_handlers_witness :
  VisitNode sgt_translator 2
    {| kind := kSignExt 4; operands := [1%nat]; GetType := BitsType 4 |}
  = Done (NoteTranslation sgt_translator 2
            (Z3_mk_sign_ext 2 (AConst "y" (BvSort 2))))
  /\ eval sgt_model (Z3_mk_sign_ext 2 (AConst "y" (BvSort 2)))
     = Some (VBv 4 15).
Proof.
  assert (Hy : operand_term sgt_translator
                 {| kind := kSignExt 4; operands := [1%nat];
                    GetType := BitsType 4 |} 0 (AConst "y" (BvSort 2)) 2).
  { exists 1%nat, {| kind := kParam "y"; operands := []; GetType := BitsType 2 |}.
    repeat split; reflexivity. }
  destruct (extend_handlers sgt_translator 2 _ _ 2 4 Hy ltac:(lia))
    as [_ Hsign].
  destruct (Hsign eq_refl ltac:(lia)) as (Hvisit & _ & _).
  split; [exact Hvisit|reflexivity].
Defined.

(** X8.  BitSlice.  A BitSlice node of [width >= 1] bits from bit [start],
    inside the operand, records the solver's extract of the bits
    [start + width - 1] down to [start]; the term is [width] bits wide and
    its value is the operand's value shifted right by [start] and cut to
    [width] bits. *)
Theorem HandleBitSlice_extracts
    (tr : Z3Translator) (self : nat) (op : Node) (x : Z3_ast)
    (n start width : nat) :
  operand_term tr op 0 x n ->
  kind op = kBitSlice start width ->
  (1 <= width)%nat -> (start + width <= n)%nat ->
  let t := Z3_mk_extract (Z.of_nat start + Z.of_nat width - 1)
             (Z.of_nat start) x in
  VisitNode tr self op = Done (NoteTranslation tr self t)
  /\ Z3_get_sort t = Some (BvSort width)
  /\ forall M v,
       eval M x = Some (VBv n v) ->
       eval M t
       = Some (VBv width ((v / 2 ^ Z.of_nat start) mod 2 ^ Z.of_nat width)).
Proof.
  intros Hx Hk Hw Hin t.
  pose proof Hx as (_ & _ & _ & _ & _ & _ & Hsx).
  assert (Z.to_nat (Z.of_nat start + Z.of_nat width - 1 - Z.of_nat start + 1)
          = width) as Hwidth by lia.
  assert (Z3_get_sort t = Some (BvSort width)) as Hst.
  { subst t. unfold Z3_mk_extract. cbn [Z3_get_sort]. rewrite Hsx.
    rewrite bool_decide_true_eq by lia. by rewrite Hwidth. }
  split; [|split; [exact Hst|]].
  - unfold VisitNode. rewrite Hk. unfold HandleBitSlice. cbv zeta.
    apply operand_term_GetBitVec in Hx as (o0 & Ho0 & Hg).
    rewrite Ho0, bind_Done, Hg, bind_Done.
    by apply (note_and_return_ok _ _ _ (BvSort width)).
  - intros M v Hv. subst t. unfold Z3_mk_extract. cbn [eval]. rewrite Hv.
    rewrite bool_decide_true_eq by lia. by rewrite Hwidth.
Qed.

Lemma HandleBitSlice_extracts_witness :
  VisitNode smul_translator 2
    {| kind := kBitSlice 1 2; operands := [1%nat]; GetType := BitsType 2 |}
  = Done (NoteTranslation smul_translator 2
            (Z3_mk_extract 2 1 (AConst "y" (BvSort 3))))
  /\ eval smul_model (Z3_mk_extract 2 1 (AConst "y" (BvSort 3)))
     = Some (VBv 2 2).
Proof.
  assert (Hy : operand_term smul_translator
                 {| kind := kBitSlice 1 2; operands := [1%nat];
                    GetType := BitsType 2 |} 0 (AConst "y" (BvSort 3)) 3).
  { exists 1%nat, {| kind := kParam "y"; operands := []; GetType := BitsType 3 |}.
    repeat split; reflexivity. }
  destruct (HandleBitSlice_extracts smul_translator 2
              {| kind := kBitSlice 1 2; operands := [1%nat];
                 GetType := BitsType 2 |} _ 3 1 2 Hy eq_refl
              ltac:(lia) ltac:(lia)) as (Hvisit & _ & _).
  split; [exact Hvisit|reflexivity].
Defined.

(** ** Tuples, arrays and zero values *)

Lemma eval_args_Forall2 M (args : list Z3_ast) vals :
  Forall2 (fun a v => eval M a = Some v) args vals ->
  eval_args (eval M) args = Some vals.
Proof.
  induction 1 as [|a v args vals Ha _ IH]; [done|].
  cbn [eval_args]. by rewrite Ha, IH.
Qed.

Lemma eval_CreateTuple M ts elements vals :
  Forall2 (fun a v => eval M a = Some v) elements vals ->
  eval M (CreateTuple (TupleType ts) elements) = Some (VTup vals).
Proof.
  intros H. destruct (TypeToSort_tuple_fields ts) as (names & _ & Heq).
  unfold CreateTuple. rewrite Heq. cbn.
  by rewrite (eval_args_Forall2 M elements vals H).
Qed.

(** X9.  Tuples.  [CreateTuple] of elements that have the sorts of the
    element types is a term of the tuple type's sort whose value is the
    tuple of the elements' values, and the field accessor that
    [HandleTupleIndex] and [FlattenValue] apply to it gives back element
    [i]: its sort and its value. *)
Theorem CreateTuple_field_access
    (ts : list Type_) (elements : list Z3_ast) (i : nat) (t : Type_) :
  Forall2 (fun a ti => Z3_get_sort a = Some (TypeToSort ti)) elements ts ->
  ts !! i = Some t ->
  let tuple := CreateTuple (TupleType ts) elements in
  let field :=
    Z3_mk_app (Z3_get_tuple_sort_field_decl (Z3_get_sort tuple) i) [tuple] in
  Z3_get_sort tuple = Some (TypeToSort (TupleType ts))
  /\ Z3_get_sort field = Some (TypeToSort t)
  /\ forall M vals,
       Forall2 (fun a v => eval M a = Some v) elements vals ->
       eval M tuple = Some (VTup vals)
       /\ eval M field = vals !! i
       /\ exists a, elements !! i = Some a /\ eval M field = eval M a.
Proof.
  intros Hs Hi tuple field.
  pose proof (Z3_get_sort_CreateTuple ts elements Hs) as Hst.
  split; [exact Hst|]. split.
  - by apply (Z3_get_sort_tuple_field ts).
  - intros M vals Hv.
    pose proof (eval_CreateTuple M ts elements vals Hv) as Hev.
    split; [exact Hev|].
    assert (eval M field = vals !! i) as Hf.
    { apply (eval_tuple_field M ts); [done| |done].
      by apply lookup_lt_Some in Hi. }
    split; [exact Hf|].
    destruct (lookup_lt_is_Some_2 elements i) as [a Ha].
    { rewrite (Forall2_length _ _ _ Hs). by apply lookup_lt_Some in Hi. }
    exists a. split; [done|]. rewrite Hf.
    destruct (Forall2_lookup_l _ _ _ _ _ Hv Ha) as (v & -> & Hav). done.
Qed.

Lemma CreateTuple_field_access_witness :
  eval pair_model
    (Z3_mk_app
       (Z3_get_tuple_sort_field_decl
          (Z3_get_sort
             (CreateTuple pair_type
                [Z3_mk_bv_numeral [true; false]; Z3_mk_bv_numeral [true; false; true]]))
          1)
       [CreateTuple pair_type
          [Z3_mk_bv_numeral [true; false]; Z3_mk_bv_numeral [true; false; true]]])
  = Some (VBv 3 5).
Proof.
  assert (Hs : Forall2 (fun a ti => Z3_get_sort a = Some (TypeToSort ti))
                 [Z3_mk_bv_numeral [true; false]; Z3_mk_bv_numeral [true; false; true]]
                 [BitsType 2; BitsType 3]) by (repeat constructor).
  destruct (CreateTuple_field_access [BitsType 2; BitsType 3] _ 1 (BitsType 3)
              Hs eq_refl) as (_ & _ & Hval).
  assert (Hv : Forall2 (fun a v => eval pair_model a = Some v)
                 [Z3_mk_bv_numeral [true; false]; Z3_mk_bv_numeral [true; false; true]]
                 [VBv 2 1; VBv 3 5]) by (repeat constructor).
  exact (proj1 (proj2 (Hval pair_model _ Hv))).
Defined.

(** X10.  Arrays.  [CreateArray] of as many elements as the array type
    has, each of the element sort, is an array term that
    [GetArrayElement] reads back: with an index term no wider than the
    array's index sort it gives element [min (i, size - 1)], and with a
    wider one it gives element [i] for every [i] below the size. *)
Theorem CreateArray_GetArrayElement
    (M : Z3_model) (e : Type_) (size : nat) (elems : list Z3_ast)
    (vals : list z3val) (idx : Z3_ast) (zw : nat) (i : Z) :
  (1 <= size)%nat -> length elems = size ->
  Forall (fun x => Z3_get_sort x = Some (TypeToSort e)) elems ->
  Forall2 (fun x v => eval M x = Some v) elems vals ->
  Z3_get_sort idx = Some (BvSort zw) ->
  eval M idx = Some (VBv zw i) -> 0 <= i < bv_modulus zw ->
  (zw <= MinBitCountUnsigned size)%nat
  \/ ((1 <= MinBitCountUnsigned size)%nat /\ i < Z.of_nat size) ->
  exists arr,
    CreateArray (ArrayType e size) elems = Done arr
    /\ Z3_get_sort arr = Some (TypeToSort (ArrayType e size))
    /\ Z3_get_sort (GetArrayElement size arr idx) = Some (TypeToSort e)
    /\ eval M (GetArrayElement size arr idx)
       = vals !! Z.to_nat (Z.min i (Z.of_nat size - 1)).
Proof.
  intros Hsize Hlen Hsorts Hvals Hsi Hei Hrange Hcase.
  destruct (CreateArray_Done M e size elems vals Hlen Hvals Hsorts)
    as (arr & g & Harr & Hsa & Hea & Hin & _).
  assert (zw <= MinBitCountUnsigned size \/ 1 <= MinBitCountUnsigned size)%nat
    as Hw by (destruct Hcase as [?|[? _]]; [by left|by right]).
  assert (Z3_sort_ok (TypeToSort (ArrayType e size)) = true) as Hok.
  { pose proof (Z3_get_sort_bv_pos _ _ Hsi) as Hzw. cbn.
    rewrite bool_decide_true_eq by (destruct Hw; lia).
    destruct elems as [|x elems]; [cbn in Hlen; lia|].
    apply Forall_cons in Hsorts as [Hx _]. by rewrite (Z3_get_sort_ok _ _ Hx). }
  specialize (Hsa Hok).
  exists arr. split; [exact Harr|]. split; [exact Hsa|].
  split.
  - by apply (Z3_get_sort_GetArrayElement size arr idx _ zw).
  - rewrite (eval_GetArrayElement M size arr idx g zw i) by done.
    pose proof (MinBitCountUnsigned_covers size) as Hcov.
    assert ((if bool_decide (zw <= MinBitCountUnsigned size)%nat then i
             else bv_wrap (MinBitCountUnsigned size) i) = i
            \/ (zw <= MinBitCountUnsigned size)%nat) as Hcut.
    { case_bool_decide; [by right|]. left.
      destruct Hcase as [?|[_ Hlt]]; [lia|]. apply bv_wrap_small. lia. }
    assert ((if bool_decide (zw <= MinBitCountUnsigned size)%nat then i
             else bv_wrap (MinBitCountUnsigned size) i) = i) as ->.
    { destruct Hcut as [?|Hle]; [done|]. by rewrite bool_decide_true_eq. }
    set (j := Z.to_nat (Z.min i (Z.of_nat size - 1))).
    destruct (lookup_lt_is_Some_2 vals j) as [v Hv].
    { rewrite <- (Forall2_length _ _ _ Hvals), Hlen. subst j. lia. }
    rewrite Hv. f_equal.
    replace (Z.min i (Z.of_nat size - 1)) with (Z.of_nat j) by (subst j; lia).
    by apply Hin.
Qed.

Lemma CreateArray_GetArrayElement_witness :
  exists arr,
    CreateArray (ArrayType (BitsType 8) 3)
      [AInt 10 (BvSort 8); AInt 20 (BvSort 8); AInt 30 (BvSort 8)] = Done arr
    /\ eval array_index_model (GetArrayElement 3 arr (AInt 1 (BvSort 3)))
       = Some (VBv 8 20).
Proof.
  assert (Hs : Forall (fun x => Z3_get_sort x = Some (TypeToSort (BitsType 8)))
                 [AInt 10 (BvSort 8); AInt 20 (BvSort 8); AInt 30 (BvSort 8)])
    by (repeat constructor).
  assert (Hv : Forall2 (fun x v => eval array_index_model x = Some v)
                 [AInt 10 (BvSort 8); AInt 20 (BvSort 8); AInt 30 (BvSort 8)]
                 [VBv 8 10; VBv 8 20; VBv 8 30])
    by (repeat constructor).
  assert (Hr : 0 <= 1 < bv_modulus 3)
    by (vm_compute; split; [discriminate | reflexivity]).
  assert (Hc : (3 <= MinBitCountUnsigned 3)%nat
               \/ ((1 <= MinBitCountUnsigned 3)%nat /\ 1 < Z.of_nat 3)).
  { right. split; [vm_compute; lia|lia]. }
  destruct (CreateArray_GetArrayElement array_index_model (BitsType 8) 3
              [AInt 10 (BvSort 8); AInt 20 (BvSort 8); AInt 30 (BvSort 8)]
              [VBv 8 10; VBv 8 20; VBv 8 30]
              (AInt 1 (BvSort 3)) 3 1 ltac:(lia) eq_refl Hs Hv eq_refl eq_refl
              Hr Hc) as (arr & Harr & _ & _ & Hval).
  exists arr. split; [exact Harr|exact Hval].
Defined.

(** X11.  Zero values.  For the sort of every IR type [ZeroOfSort] is
    defined and its term has the all-zero value of the type: the zero
    bit-vector, the tuple of zero fields, the array that is zero at every
    index.  The term has the sort of the type exactly when the solver makes
    that sort (no bit-vector or array index in it has width zero), and it
    never has another sort.  On the boolean sort, which no IR type has,
    [ZeroOfSort] aborts. *)
Theorem ZeroOfSort_is_zero (t : Type_) :
  (exists z,
      ZeroOfSort (TypeToSort t) = Done z
      /\ (Z3_get_sort z = Some (TypeToSort t)
          <-> Z3_sort_ok (TypeToSort t) = true)
      /\ (forall s, Z3_get_sort z = Some s -> s = TypeToSort t)
      /\ forall M, eval M z = Some (zero_value t))
  /\ ZeroOfSort BoolSort = Fatal.
Proof.
  split; [|reflexivity].
  destruct (ZeroOfSort_TypeToSort t) as (z & Hz & Hs).
  exists z. split; [exact Hz|]. split; [|split].
  - split; [apply Z3_get_sort_ok|exact Hs].
  - by apply ZeroOfSort_sort.
  - intros M. by apply eval_ZeroOfSort.
Qed.

(** ** Literals *)

(** The sort of a tuple type is one the solver makes when the sorts of its
    element types are. *)
Lemma TypeToSort_tuple_ok ts :
  Z3_sort_ok (TypeToSort (TupleType ts)) = true ->
  Forall (fun t => Z3_sort_ok (TypeToSort t) = true) ts.
Proof.
  destruct (TypeToSort_tuple_fields ts) as (names & Hlen & ->). cbn.
  intros H. apply fields_ok_Forall in H. revert names Hlen H.
  induction ts as [|t ts IH]; intros [|nm names] Hlen H; cbn in *;
    try discriminate; [constructor|].
  apply Forall_cons in H as [Ht H]. constructor; [exact Ht|].
  apply (IH names); [lia|exact H].
Qed.

Lemma translate_elements_denote M e es :
  Forall (fun x => forall t,
            value_of_type t x -> Z3_sort_ok (TypeToSort t) = true ->
            exists a z,
              TranslateLiteralValue t x = Done a
              /\ Z3_get_sort a = Some (TypeToSort t)
              /\ eval M a = Some z /\ literal_denotes t x z) es ->
  Z3_sort_ok (TypeToSort e) = true ->
  foldr (fun x acc => value_of_type e x /\ acc) True es ->
  exists elems vals,
    translate_elements (TranslateLiteralValue e) es = Done elems
    /\ Forall (fun a => Z3_get_sort a = Some (TypeToSort e)) elems
    /\ Forall2 (fun a z => eval M a = Some z) elems vals
    /\ Forall2 (literal_denotes e) es vals.
Proof.
  intros Hall Hok. induction Hall as [|x es Hx _ IH]; intros Hty.
  - exists [], []. by repeat split; constructor.
  - destruct Hty as [Htx Hty].
    destruct (Hx e Htx Hok) as (a & z & Ha & Hs & He & Hd).
    destruct (IH Hty) as (elems & vals & Hel & Hss & Hes & Hds).
    exists (a :: elems), (z :: vals). cbn [translate_elements].
    rewrite Ha, bind_Done, Hel, bind_Done.
    by repeat split; constructor.
Qed.

Lemma translate_fields_denote M es :
  Forall (fun x => forall t,
            value_of_type t x -> Z3_sort_ok (TypeToSort t) = true ->
            exists a z,
              TranslateLiteralValue t x = Done a
              /\ Z3_get_sort a = Some (TypeToSort t)
              /\ eval M a = Some z /\ literal_denotes t x z) es ->
  forall ts,
    Forall (fun t => Z3_sort_ok (TypeToSort t) = true) ts ->
    all2 (fun x ti => value_of_type ti x) es ts ->
    exists elems zs,
      translate_fields TranslateLiteralValue ts es = Done elems
      /\ Forall2 (fun a t => Z3_get_sort a = Some (TypeToSort t)) elems ts
      /\ Forall2 (fun a z => eval M a = Some z) elems zs
      /\ Forall3 literal_denotes ts es zs.
Proof.
  induction 1 as [|x es Hx _ IH]; intros [|t ts] Hok Hty; try done.
  - exists [], []. by repeat split; constructor.
  - destruct Hty as [Htx Hty]. apply Forall_cons in Hok as [Hokt Hok].
    destruct (Hx t Htx Hokt) as (a & z & Ha & Hs & He & Hd).
    destruct (IH ts Hok Hty) as (elems & zs & Hel & Hss & Hes & Hds).
    exists (a :: elems), (z :: zs). cbn [translate_fields].
    rewrite Ha, bind_Done, Hel, bind_Done.
    by repeat split; constructor.
Qed.

Lemma TranslateLiteralValue_denotes M v :
  forall t,
    value_of_type t v -> Z3_sort_ok (TypeToSort t) = true ->
    exists a z,
      TranslateLiteralValue t v = Done a
      /\ Z3_get_sort a = Some (TypeToSort t)
      /\ eval M a = Some z /\ literal_denotes t v z.
Proof.
  induction v as [bits|es IH|es IH] using Value_ind_nested; intros t Hty Hok.
  - destruct t as [n| |]; try done. cbn in Hty, Hok.
    exists (Z3_mk_bv_numeral bits), (VBv n (bits_to_Z bits)).
    split; [done|]. split; [cbn; by rewrite Hty, Hok|].
    split; [cbn; by rewrite Hty|]. by constructor.
  - destruct t as [| |e size]; try done. cbn in Hty. destruct Hty as [Hlen Hty].
    pose proof Hok as Hoka. cbn in Hok.
    apply andb_true_iff in Hok as [_ Hoke].
    destruct (translate_elements_denote M e es IH Hoke Hty)
      as (elems & vals & Hel & Hss & Hes & Hds).
    assert (length elems = size) as Hlen'.
    { rewrite (Forall2_length _ _ _ Hes), <- (Forall2_length _ _ _ Hds).
      exact Hlen. }
    destruct (CreateArray_Done M e size elems vals Hlen' Hes Hss)
      as (res & g & Hres & Hsr & Her & Hin & _).
    exists res, (VArr g). cbn [TranslateLiteralValue].
    rewrite Hel, bind_Done. split; [exact Hres|]. split; [exact (Hsr Hoka)|].
    split; [exact Her|]. constructor; [done|].
    intros i x Hix.
    destruct (Forall2_lookup_l _ _ _ _ _ Hds Hix) as (z & Hz & Hd).
    by rewrite (Hin i z Hz).
  - destruct t as [|ts|]; try done. cbn in Hty.
    destruct (translate_fields_denote M es IH ts (TypeToSort_tuple_ok ts Hok)
                Hty)
      as (elems & zs & Hel & Hss & Hes & Hds).
    exists (CreateTuple (TupleType ts) elems), (VTup zs).
    cbn [TranslateLiteralValue]. rewrite Hel, bind_Done.
    split; [done|]. split; [by apply Z3_get_sort_CreateTuple|].
    split; [by apply eval_CreateTuple|]. by constructor.
Qed.

(** X12.  Literals.  A Literal node whose value is of the node's type,
    a type whose sort the solver makes (no bit-vector and no array index
    in it has width zero), is encoded with OK status; the recorded term
    has the sort of the type and, in every model, the value of the
    literal: the bit-vector of its bits, the tuple of its elements, an
    array holding element [i] at index [i]. *)
Theorem HandleLiteral_value
    (tr : Z3Translator) (self : nat) (n : Node) (value : Value) :
  kind n = kLiteral value ->
  value_of_type (GetType n) value ->
  Z3_sort_ok (TypeToSort (GetType n)) = true ->
  exists a,
    VisitNode tr self n = Done (NoteTranslation tr self a)
    /\ Z3_get_sort a = Some (TypeToSort (GetType n))
    /\ forall M, exists z,
         eval M a = Some z /\ literal_denotes (GetType n) value z.
Proof.
  intros Hk Hty Hok.
  destruct (TranslateLiteralValue_denotes (fun _ _ => VBool false) value
              (GetType n) Hty Hok) as (a & _ & Ha & Hs & _).
  exists a. split; [|split; [exact Hs|]].
  - unfold VisitNode. rewrite Hk. unfold HandleLiteral.
    rewrite Ha, bind_Done. by apply (note_and_return_ok _ _ _ _ Hs).
  - intros M.
    destruct (TranslateLiteralValue_denotes M value (GetType n) Hty Hok)
      as (a' & z & Ha' & _ & He & Hd).
    rewrite Ha in Ha'. injection Ha' as <-. eauto.
Qed.

Lemma HandleLiteral_value_witness :
  exists a,
    VisitNode sgt_translator 2
      {| kind := kLiteral (TupleValue [BitsValue [true; false];
                                       BitsValue [true; false; true]]);
         operands := []; GetType := pair_type |}
    = Done (NoteTranslation sgt_translator 2 a)
    /\ eval sgt_model a = Some (VTup [VBv 2 1; VBv 3 5]).
Proof.
  destruct (HandleLiteral_value sgt_translator 2
              {| kind := kLiteral (TupleValue [BitsValue [true; false];
                                               BitsValue [true; false; true]]);
                 operands := []; GetType := pair_type |}
              _ eq_refl) as (a & Hvisit & _ & _).
  { repeat split. }
  { reflexivity. }
  exists a. split; [exact Hvisit|].
  vm_compute in Hvisit. injection Hvisit as <-. reflexivity.
Defined.

(** ** The walk over a function *)

Lemma AcceptNodes_app l1 : forall l2 tr first,
  AcceptNodes tr first (l1 ++ l2)
  = (tr1 ← AcceptNodes tr first l1;
     AcceptNodes tr1 (first + length l1)%nat l2).
Proof.
  induction l1 as [|n l1 IH]; intros l2 tr first; cbn [app AcceptNodes length].
  - by rewrite bind_Done, Nat.add_0_r.
  - destruct (VisitNode tr first n) as [tr1| |]; cbn [mbind outcome_bind];
      [|done..].
    rewrite IH. by replace (first + S (length l1))%nat
                     with (S first + length l1)%nat by lia.
Qed.

(** What the walk leaves in the table: the entries outside the positions
    it visits are untouched, and the entry of a visited node is the term
    its own visit noted, in a translator that held the final terms of the
    nodes before it and the initial entries from there on. *)
Lemma AcceptNodes_visits ns :
  forall tr first tr',
    AcceptNodes tr first ns = Done tr' ->
    (forall q, (q < first \/ first + length ns <= q)%nat ->
               translations_ tr' !! q = translations_ tr !! q)
    /\ forall i n,
         ns !! i = Some n ->
         exists tr_p a,
           VisitNode tr_p (first + i)%nat n
           = Done (NoteTranslation tr_p (first + i)%nat a)
           /\ translations_ tr' !! (first + i)%nat = Some a
           /\ (forall q, (q < first + i)%nat ->
                         translations_ tr_p !! q = translations_ tr' !! q)
           /\ (forall q, (first + i <= q)%nat ->
                         translations_ tr_p !! q = translations_ tr !! q)
           /\ xls_function_ tr_p = xls_function_ tr
           /\ imported_params_ tr_p = imported_params_ tr.
Proof.
  induction ns as [|n ns IH]; intros tr first tr' H; cbn in H.
  - injection H as <-. split; [done|]. intros i n Hi. discriminate Hi.
  - apply bind_Done_inv in H as (tr1 & Hv & H).
    destruct (VisitNode_notes _ _ _ _ Hv) as (a & ->).
    destruct (IH _ _ _ H) as [Hout Hin].
    assert (forall q, q ≠ first ->
              translations_ (NoteTranslation tr first a) !! q
              = translations_ tr !! q) as Hne.
    { intros q Hq. cbn. by rewrite lookup_insert_ne. }
    split.
    + intros q Hq. cbn [length] in Hq. rewrite Hout by lia. apply Hne. lia.
    + intros [|i] n' Hi.
      * injection Hi as <-. exists tr, a. rewrite Nat.add_0_r.
        split; [done|]. split; [|split; [|done]].
        -- rewrite Hout by lia. cbn. by rewrite lookup_insert_eq.
        -- intros q Hq. rewrite Hout by lia. symmetry. apply Hne. lia.
      * destruct (Hin i n' Hi) as (tr_p & a' & Hvp & Ha' & Hlt & Hge & Hf & Hi').
        replace (first + S i)%nat with (S first + i)%nat by lia.
        exists tr_p, a'. split; [done|]. split; [done|]. split; [done|].
        split; [|done]. intros q Hq. rewrite Hge by done. apply Hne. lia.
Qed.

(** X13.  The walk records each node once.  After a successful [Accept],
    the table holds, for every node of the function, the term that the
    node's own visit noted, and that visit ran on a table holding the final
    terms of all the nodes before it and nothing yet at or after it; the
    entries beyond the function's nodes are untouched. *)
Theorem Accept_records_each_node_once
    (f : Function) (tr tr' : Z3Translator) :
  Accept f tr = Done tr' ->
  (forall q, (length (nodes f) <= q)%nat ->
             translations_ tr' !! q = translations_ tr !! q)
  /\ forall p n,
       nodes f !! p = Some n ->
       exists tr_p a,
         VisitNode tr_p p n = Done (NoteTranslation tr_p p a)
         /\ GetTranslation tr' p = Done a
         /\ (forall q, (q < p)%nat ->
                       GetTranslation tr_p q = GetTranslation tr' q)
         /\ (forall q, (p <= q)%nat ->
                       translations_ tr_p !! q = translations_ tr !! q).
Proof.
  intros H. unfold Accept in H.
  destruct (AcceptNodes_visits _ _ _ _ H) as [Hout Hin]. split.
  - intros q Hq. apply Hout. lia.
  - intros p n Hn.
    destruct (Hin p n Hn) as (tr_p & a & Hv & Ha & Hlt & Hge & _).
    change (0 + p)%nat with p in *.
    exists tr_p, a. split; [exact Hv|]. unfold GetTranslation.
    split; [by rewrite Ha|]. split; [|exact Hge].
    intros q Hq. by rewrite (Hlt q Hq).
Qed.

Lemma Accept_records_each_node_once_witness :
  exists tr',
    Accept or_not_function
      (Z3Translator_borrowed 0%nat or_not_function [AConst "x" (BvSort 8)])
    = Done tr'
    /\ forall q, (3 <= q)%nat -> translations_ tr' !! q = None.
Proof.
  destruct (Accept or_not_function
              (Z3Translator_borrowed 0%nat or_not_function
                 [AConst "x" (BvSort 8)])) as [tr'| |] eqn:H;
    try (vm_compute in H; discriminate H).
  exists tr'. split; [reflexivity|].
  intros q Hq.
  rewrite (proj1 (Accept_records_each_node_once _ _ _ H) q Hq).
  reflexivity.
Defined.

Lemma encoding_of_Accept f tr :
  encoding_of f tr ->
  exists tr0,
    Accept f tr0 = Done tr /\ translations_ tr0 = ∅ /\ xls_function_ tr0 = f.
Proof.
  intros [(w & w' & H)|(ctx & imported & H)].
  - unfold CreateAndTranslate in H.
    destruct (Z3_mk_config w) as [config w1].
    destruct (Z3Translator_owned config f _) as [translator w3] eqn:Hown.
    unfold Z3Translator_owned in Hown.
    destruct (Z3_mk_context config _) as [ctx w2]. injection Hown as <- <-.
    destruct (Accept f _) as [tr0| |] eqn:Hacc; try discriminate.
    injection H as <- <-. eauto.
  - unfold CreateAndTranslate_borrowed in H. eauto.
Qed.

Lemma NoteTranslation_inj tr p a b :
  NoteTranslation tr p a = NoteTranslation tr p b -> a = b.
Proof.
  intros H. apply (f_equal (fun t => translations_ t !! p)) in H.
  cbn in H. rewrite !lookup_insert_eq in H. by injection H.
Qed.

(** X14.  Identity.  In a successful encoding an Identity node has the very
    term of its operand: no new term is made, and the operand is a node
    that comes before it. *)
Theorem HandleIdentity_aliases_operand
    (f : Function) (tr : Z3Translator) (p : nat) (n : Node) :
  encoding_of f tr ->
  nodes f !! p = Some n -> kind n = kIdentity ->
  exists o a,
    operands n !! 0%nat = Some o /\ (o < p)%nat
    /\ GetTranslation tr o = Done a /\ GetTranslation tr p = Done a.
Proof.
  intros Henc Hn Hk.
  destruct (encoding_of_Accept f tr Henc) as (tr0 & Hacc & Hempty & Hf).
  destruct (AcceptNodes_visits _ _ _ _ Hacc) as [_ Hin].
  destruct (Hin p n Hn) as (tr_p & a & Hv & Ha & Hlt & Hge & _).
  change (0 + p)%nat with p in *.
  unfold VisitNode in Hv. rewrite Hk in Hv. unfold HandleIdentity in Hv.
  apply bind_Done_inv in Hv as (o & Ho & Hv). apply at_index_Done in Ho.
  apply bind_Done_inv in Hv as (v & Hg & Hv).
  assert (v = a) as -> by (apply (NoteTranslation_inj tr_p p); congruence).
  unfold GetValue in Hg.
  destruct (translations_ tr_p !! o) as [v|] eqn:Hto; [|discriminate].
  injection Hg as ->.
  assert (o < p)%nat as Hop.
  { destruct (decide (o < p)%nat) as [|Hge']; [done|].
    rewrite Hge, Hempty, lookup_empty in Hto by lia. discriminate. }
  exists o, a. split; [done|]. split; [done|]. unfold GetTranslation.
  rewrite <- (Hlt o Hop), Hto, Ha. done.
Qed.

(** X15.  Parameters.  In a successful encoding by the encoder that owns
    its context, the term of a Param node is the solver constant named
    after the parameter, of the sort of its type; by the encoder over a
    caller's context it is the caller's term at the parameter's index
    among the function's parameters. *)
Theorem HandleParam_term
    (f : Function) (p : nat) (n : Node) (name : string) :
  nodes f !! p = Some n -> kind n = kParam name ->
  (forall w tr w',
      CreateAndTranslate f w = (Done tr, w') ->
      GetTranslation tr p
      = Done (Z3_mk_const name (TypeToSort (GetType n))))
  /\ (forall ctx imported tr,
        CreateAndTranslate_borrowed ctx f imported = Done tr ->
        exists i a,
          GetParamIndex f p = Done i /\ imported !! i = Some a
          /\ GetTranslation tr p = Done a).
Proof.
  intros Hn Hk.
  assert (forall tr0 tr,
            Accept f tr0 = Done tr -> xls_function_ tr0 = f ->
            exists value,
              match imported_params_ tr0 with
              | Some imported =>
                  param_index ← GetParamIndex f p;
                  at_index imported param_index
              | None => Done (CreateZ3Param (GetType n) name)
              end = Done value
              /\ GetTranslation tr p = Done value) as Hgen.
  { intros tr0 tr Hacc Hf.
    destruct (AcceptNodes_visits _ _ _ _ Hacc) as [_ Hin].
    destruct (Hin p n Hn) as (tr_p & a & Hv & Ha & _ & _ & Hfp & Hip).
    change (0 + p)%nat with p in *.
    unfold VisitNode in Hv. rewrite Hk in Hv. unfold HandleParam in Hv.
    cbv zeta in Hv. rewrite Hip, Hfp, Hf in Hv.
    apply bind_Done_inv in Hv as (value & Hval & Hv).
    apply note_and_return_inv in Hv as [Hv _].
    apply NoteTranslation_inj in Hv as <-.
    exists a. split; [done|]. unfold GetTranslation. by rewrite Ha. }
  split.
  - intros w tr w' H. unfold CreateAndTranslate in H.
    destruct (Z3_mk_config w) as [config w1].
    destruct (Z3Translator_owned config f _) as [translator w3] eqn:Hown.
    unfold Z3Translator_owned in Hown.
    destruct (Z3_mk_context config _) as [ctx w2]. injection Hown as <- <-.
    destruct (Accept f _) as [tr0| |] eqn:Hacc; try discriminate.
    injection H as <- <-.
    destruct (Hgen _ _ Hacc eq_refl) as (value & Hval & Hg).
    cbn in Hval. injection Hval as <-. exact Hg.
  - intros ctx imported tr H. unfold CreateAndTranslate_borrowed in H.
    destruct (Hgen _ _ H eq_refl) as (value & Hval & Hg).
    cbn [imported_params_ Z3Translator_borrowed] in Hval.
    apply bind_Done_inv in Hval as (i & Hi & Hval).
    apply at_index_Done in Hval. eauto.
Qed.

Lemma HandleParam_term_witness :
  exists tr w',
    CreateAndTranslate or_not_function no_solver_objects = (Done tr, w')
    /\ GetTranslation tr 0 = Done (Z3_mk_const "x" (BvSort 8)).
Proof.
  destruct (CreateAndTranslate or_not_function no_solver_objects)
    as [[tr| |] w'] eqn:H; try (vm_compute in H; discriminate H).
  exists tr, w'. split; [reflexivity|].
  exact (proj1 (HandleParam_term or_not_function 0
                  {| kind := kParam "x"; operands := [];
                     GetType := BitsType 8 |} "x" eq_refl eq_refl)
           no_solver_objects tr w' H).
Defined.

Lemma HandleIdentity_aliases_operand_witness :
  exists tr a,
    encoding_of
      {| nodes := [ {| kind := kParam "x"; operands := [];
                       GetType := BitsType 8 |};
                    {| kind := kIdentity; operands := [0%nat];
                       GetType := BitsType 8 |} ];
         params := [0%nat]; return_value := 1%nat |} tr
    /\ GetTranslation tr 0 = Done a /\ GetTranslation tr 1 = Done a.
Proof.
  set (f := {| nodes := [ {| kind := kParam "x"; operands := [];
                             GetType := BitsType 8 |};
                          {| kind := kIdentity; operands := [0%nat];
                             GetType := BitsType 8 |} ];
               params := [0%nat]; return_value := 1%nat |}).
  destruct (CreateAndTranslate_borrowed 0%nat f [AConst "x" (BvSort 8)])
    as [tr| |] eqn:H; try (vm_compute in H; discriminate H).
  assert (Henc : encoding_of f tr) by (right; eauto).
  destruct (HandleIdentity_aliases_operand f tr 1
              {| kind := kIdentity; operands := [0%nat];
                 GetType := BitsType 8 |} Henc eq_refl eq_refl)
    as (o & a & Ho & _ & Hgo & Hgp).
  injection Ho as <-. exists tr, a. done.
Defined.

(** X16.  Unsupported opcodes.  A node whose opcode has no handler ends
    the walk with an Unimplemented error that carries the node's printable
    form, whatever came before it went well; so a successful encoding
    holds no such node. *)
Theorem DefaultHandler_ends_walk (f : Function) :
  (forall tr n, encoding_of f tr -> n ∈ nodes f ->
                forall op_name, kind n ≠ kOther op_name)
  /\ (forall pre n post op_name tr tr1,
        nodes f = pre ++ n :: post -> kind n = kOther op_name ->
        AcceptNodes tr 0 pre = Done tr1 ->
        Accept f tr
        = Failed kUnimplemented
            ("Unhandled node for conversion: " +:+ op_name +:+ ": "
               +:+ ToString (GetType n))).
Proof.
  split.
  - intros tr n Henc Hn op_name Hk.
    destruct (encoding_of_Accept f tr Henc) as (tr0 & Hacc & _).
    destruct (AcceptNodes_visits _ _ _ _ Hacc) as [_ Hin].
    apply list_elem_of_lookup in Hn as (p & Hp).
    destruct (Hin p n Hp) as (tr_p & a & Hv & _).
    unfold VisitNode in Hv. rewrite Hk in Hv. discriminate Hv.
  - intros pre n post op_name tr tr1 Hnodes Hk Hpre.
    unfold Accept. rewrite Hnodes, AcceptNodes_app, Hpre, bind_Done.
    cbn [AcceptNodes]. unfold VisitNode. rewrite Hk.
    unfold DefaultHandler, Node_ToString. by rewrite Hk.
Qed.

(** ** Solver objects *)

Lemma Z3Translator_destroy_owned tr w0 w timeout :
  fresh_ids w0 ->
  ctx_ tr = next_context w0 -> borrowed_context_ tr = false ->
  config_ tr = Some (next_config w0) ->
  contexts w = <[next_context w0 := {["proof" := "true"]}]> (contexts w0) ->
  configs w = <[next_config w0 := {["proof" := "true"]}]> (configs w0) ->
  contexts (Z3Translator_destroy tr w) = contexts w0
  /\ configs (Z3Translator_destroy tr w) = configs w0
  /\ contexts (Z3Translator_destroy tr (SetTimeout tr timeout w)) = contexts w0
  /\ configs (Z3Translator_destroy tr (SetTimeout tr timeout w)) = configs w0.
Proof.
  intros [Hfc Hfx] Hctx Hbor Hcfg Hcs Hgs.
  unfold Z3Translator_destroy, SetTimeout. rewrite Hbor, Hcfg, Hctx. cbn.
  rewrite Hcs, Hgs, delete_alter_eq. by rewrite !delete_insert_id.
Qed.

(** X17.  Solver objects are released.  Starting where the next
    identifiers are unused, a [CreateAndTranslate] that fails with a status
    leaves no configuration and no context behind; one that succeeds leaves
    exactly its own, which the translator's destructor removes; and
    [TryProve], whenever it returns, a verdict or a status, leaves the
    configurations and contexts as it found them. *)
Theorem solver_objects_are_released
    (Z3_solver_check : gmap string string -> Z3_ast -> Z3_lbool)
    (f : Function) (subject : NodePtr) (p : Predicate) (timeout : Duration)
    (w : Z3_world) :
  fresh_ids w ->
  (forall c m w',
      CreateAndTranslate f w = (Failed c m, w') ->
      contexts w' = contexts w /\ configs w' = configs w)
  /\ (forall tr w',
        CreateAndTranslate f w = (Done tr, w') ->
        contexts w' = <[next_context w := {["proof" := "true"]}]> (contexts w)
        /\ configs w' = <[next_config w := {["proof" := "true"]}]> (configs w)
        /\ contexts (Z3Translator_destroy tr w') = contexts w
        /\ configs (Z3Translator_destroy tr w') = configs w)
  /\ (fst (TryProve Z3_solver_check f subject p timeout w) ≠ Fatal ->
      contexts (snd (TryProve Z3_solver_check f subject p timeout w))
      = contexts w
      /\ configs (snd (TryProve Z3_solver_check f subject p timeout w))
         = configs w).
Proof.
  intros Hfresh.
  assert (forall c m w',
            CreateAndTranslate f w = (Failed c m, w') ->
            contexts w' = contexts w /\ configs w' = configs w) as Hfail.
  { intros c m w' H. destruct Hfresh as [Hfc Hfx].
    unfold CreateAndTranslate, Z3_mk_config, Z3_set_param_value,
      Z3Translator_owned, Z3_mk_context in H.
    cbn [configs contexts next_config next_context] in H.
    destruct (Accept f _) as [tr0| |]; try discriminate.
    injection H as _ _ <-. unfold Z3Translator_destroy. cbn.
    rewrite alter_insert_eq. by rewrite !delete_insert_id. }
  assert (forall tr w',
            CreateAndTranslate f w = (Done tr, w') ->
            contexts w' = <[next_context w := {["proof" := "true"]}]> (contexts w)
            /\ configs w' = <[next_config w := {["proof" := "true"]}]> (configs w)
            /\ (forall d,
                  contexts (Z3Translator_destroy tr (SetTimeout tr d w'))
                  = contexts w
                  /\ configs (Z3Translator_destroy tr (SetTimeout tr d w'))
                     = configs w)
            /\ contexts (Z3Translator_destroy tr w') = contexts w
            /\ configs (Z3Translator_destroy tr w') = configs w) as Hok.
  { intros tr w' H.
    apply CreateAndTranslate_fields in H
      as (Hctx & Hbor & Hcfg & _ & _ & Hcs & Hgs).
    split; [done|]. split; [done|]. split.
    - intros d.
      by destruct (Z3Translator_destroy_owned tr w w' d Hfresh Hctx Hbor Hcfg
                     Hcs Hgs) as (_ & _ & ? & ?).
    - by destruct (Z3Translator_destroy_owned tr w w' 0 Hfresh Hctx Hbor Hcfg
                     Hcs Hgs) as (? & ? & _ & _). }
  split; [exact Hfail|]. split.
  - intros tr w' H. destruct (Hok tr w' H) as (? & ? & _ & ? & ?). done.
  - unfold TryProve.
    destruct (CreateAndTranslate f w) as [[tr|c m|] w1] eqn:Hc; cbn [fst snd].
    + destruct (Hok tr w1 eq_refl) as (_ & _ & Hd & _).
      cbv zeta. set (r := GetTranslation tr subject ≫= _).
      destruct r; cbn [fst snd]; intros Hne; try done; apply Hd.
    + intros _. by apply (Hfail c m).
    + done.
Qed.

Lemma solver_objects_are_released_witness :
  contexts (snd (TryProve (fun _ _ => Z3_L_FALSE) or_not_function 2
                   EqualToZero 1000000000 no_solver_objects)) = ∅.
Proof.
  assert (Hfresh : fresh_ids no_solver_objects) by (split; reflexivity).
  destruct (solver_objects_are_released (fun _ _ => Z3_L_FALSE)
              or_not_function 2 EqualToZero 1000000000 no_solver_objects
              Hfresh) as (_ & _ & Hrel).
  apply Hrel. vm_compute. discriminate.
Defined.

(** ** Reading the table *)

(** X18.  [GetBitVec].  It returns a term exactly when that term is the
    one recorded for the node and is a bit-vector as wide as the flat bit
    count of the node's type; in every other case (no term recorded, a
    term of another sort or width) it aborts: it never returns an error
    status. *)
Theorem GetBitVec_checks_sort_and_width (tr : Z3Translator) (p : nat) :
  (forall a,
      GetBitVec tr p = Done a <->
      translations_ tr !! p = Some a
      /\ exists n,
           nodes (xls_function_ tr) !! p = Some n
           /\ Z3_get_sort a
              = Some (BvSort (GetFlatBitCount (GetType n))))
  /\ (GetBitVec tr p = Fatal \/ exists a, GetBitVec tr p = Done a).
Proof.
  split.
  - intros a. split.
    + intros H. unfold GetBitVec in H.
      apply bind_Done_inv in H as (v & Hv & H).
      unfold GetValue in Hv.
      destruct (translations_ tr !! p) as [v'|] eqn:Ht; [|discriminate].
      injection Hv as ->.
      apply bind_Done_inv in H as ([] & Hk & H).
      unfold XLS_CHECK in Hk. case_bool_decide as Hkind; [|discriminate].
      apply bind_Done_inv in H as (n & Hn & H). apply at_index_Done in Hn.
      apply bind_Done_inv in H as ([] & Hw & [= <-]).
      unfold XLS_CHECK in Hw. case_bool_decide as Hwidth; [|discriminate].
      split; [done|]. exists n. split; [done|].
      destruct (Z3_get_sort v) as [[]|]; try discriminate.
      cbn in Hwidth. do 2 f_equal. lia.
    + intros (Ht & n & Hn & Hs). by apply (GetBitVec_Done tr p a n).
  - unfold GetBitVec, GetValue, node_at, at_index.
    destruct (translations_ tr !! p) as [v|]; [|by left].
    rewrite bind_Done. unfold XLS_CHECK.
    case_bool_decide; [|by left]. rewrite bind_Done.
    destruct (nodes (xls_function_ tr) !! p) as [n|]; [|by left].
    rewrite bind_Done. case_bool_decide; [|by left]. rewrite bind_Done. eauto.
Qed.

(** ** Objectives against zero *)

Lemma bits_to_Z_replicate_false n : bits_to_Z (replicate n false) = 0.
Proof. induction n as [|n IH]; [done|]. cbn. unfold bits_to_Z in IH. lia. Qed.

Lemma eval_EqZeroBool M a n v :
  Z3_get_sort a = Some (BvSort n) -> eval M a = Some (VBv n v) ->
  Z3_get_sort (Z3OpTranslator.EqZeroBool a) = Some BoolSort
  /\ eval M (Z3OpTranslator.EqZeroBool a) = Some (VBool (v =? 0)).
Proof.
  intros Hs He. pose proof (Z3_get_sort_bv_pos _ _ Hs) as Hn.
  unfold Z3OpTranslator.EqZeroBool, Z3OpTranslator.Fill,
    Z3OpTranslator.GetBvBitCount, Z3_mk_eq, Z3_mk_bv_numeral.
  rewrite Hs. cbn [Z3_get_bv_sort_size Z3_get_sort eval].
  rewrite Hs, He, Nat2Z.id, length_replicate, bits_to_Z_replicate_false.
  cbn [sort_eqb]. rewrite !bool_decide_true_eq by (done || lia).
  split; [done|].
  do 2 f_equal. destruct (Z.eqb_spec v 0) as [->|Hne].
  - by rewrite bool_decide_true_eq.
  - by rewrite bool_decide_false_eq.
Qed.

(** X19.  Objectives against zero.  For a bit-vector subject the objective
    of EqualToZero is the boolean "the subject differs from zero" and that
    of NotEqualToZero is "the subject is zero": each is true in exactly the
    models that refute the predicate, so the predicate is proved when the
    solver finds its objective unsatisfiable. *)
Theorem PredicateToObjective_zero_predicates
    (tr : Z3Translator) (a : Z3_ast) (n : nat) :
  Z3_get_sort a = Some (BvSort n) ->
  PredicateToObjective EqualToZero a tr = Done (Z3OpTranslator.NeZeroBool a)
  /\ PredicateToObjective NotEqualToZero a tr
     = Done (Z3OpTranslator.EqZeroBool a)
  /\ Z3_get_sort (Z3OpTranslator.NeZeroBool a) = Some BoolSort
  /\ Z3_get_sort (Z3OpTranslator.EqZeroBool a) = Some BoolSort
  /\ forall M v,
       eval M a = Some (VBv n v) ->
       eval M (Z3OpTranslator.NeZeroBool a) = Some (VBool (negb (v =? 0)))
       /\ eval M (Z3OpTranslator.EqZeroBool a) = Some (VBool (v =? 0)).
Proof.
  intros Hs.
  assert (Z3_get_sort (Z3OpTranslator.EqZeroBool a) = Some BoolSort) as Hse.
  { unfold Z3OpTranslator.EqZeroBool, Z3OpTranslator.Fill,
      Z3OpTranslator.GetBvBitCount, Z3_mk_eq, Z3_mk_bv_numeral.
    pose proof (Z3_get_sort_bv_pos _ _ Hs) as Hn.
    rewrite Hs. cbn [Z3_get_bv_sort_size Z3_get_sort].
    rewrite Hs, Nat2Z.id, length_replicate. cbn [sort_eqb].
    by rewrite !bool_decide_true_eq by (done || lia). }
  assert (Z3_get_sort (Z3OpTranslator.NeZeroBool a) = Some BoolSort) as Hsn.
  { unfold Z3OpTranslator.NeZeroBool, Z3_mk_not. cbn [Z3_get_sort].
    by rewrite Hse. }
  split; [|split; [|split; [exact Hsn|split; [exact Hse|]]]].
  - unfold PredicateToObjective. rewrite bind_Done.
    by rewrite (seh_status_ok _ _ Hsn).
  - unfold PredicateToObjective. rewrite bind_Done.
    by rewrite (seh_status_ok _ _ Hse).
  - intros M v He.
    destruct (eval_EqZeroBool M a n v Hs He) as [_ Hev]. split; [|exact Hev].
    unfold Z3OpTranslator.NeZeroBool, Z3_mk_not. cbn [eval]. by rewrite Hev.
Qed.

Lemma PredicateToObjective_zero_predicates_witness :
  PredicateToObjective EqualToZero (AConst "x" (BvSort 2)) sgt_translator
  = Done (Z3OpTranslator.NeZeroBool (AConst "x" (BvSort 2)))
  /\ eval sgt_model (Z3OpTranslator.NeZeroBool (AConst "x" (BvSort 2)))
     = Some (VBool true).
Proof.
  destruct (PredicateToObjective_zero_predicates sgt_translator
              (AConst "x" (BvSort 2)) 2 eq_refl) as (Hz & _ & _ & _ & Hval).
  split; [exact Hz|]. exact (proj1 (Hval sgt_model 1 eq_refl)).
Defined.

(** ** Bits of a bit-vector *)

Lemma lookup_ExplodeBits x n k b :
  Z3_get_sort x = Some (BvSort n) ->
  Z3OpTranslator.ExplodeBits x !! k = Some b ->
  (k < n)%nat /\ b = Z3OpTranslator.Extract x (Z.of_nat k).
Proof.
  intros Hs Hk. unfold Z3OpTranslator.ExplodeBits,
    Z3OpTranslator.GetBvBitCount in Hk.
  rewrite Hs in Hk. cbn [Z3_get_bv_sort_size] in Hk.
  rewrite list_lookup_fmap in Hk.
  destruct (seqZ 0 (Z.of_nat n) !! k) as [j|] eqn:Hj; [|discriminate].
  apply lookup_seqZ in Hj as [-> Hlt]. injection Hk as <-.
  split; [lia|]. f_equal; lia.
Qed.

(** X20.  Bits of a bit-vector.  [ExplodeBits] of an [n]-bit term lists
    [n] one-bit terms, the least significant first: entry [k] is bit [k] of
    the term's value.  [ConcatN] takes the most significant first, so
    [ConcatN] of the reversed list is a term with the same width and value;
    [ConcatN] of no terms at all aborts. *)
Theorem ExplodeBits_ConcatN
    (M : Z3_model) (x : Z3_ast) (n : nat) (v : Z) :
  Z3_get_sort x = Some (BvSort n) ->
  eval M x = Some (VBv n v) -> 0 <= v < bv_modulus n ->
  length (Z3OpTranslator.ExplodeBits x) = n
  /\ (forall k b,
        Z3OpTranslator.ExplodeBits x !! k = Some b ->
        Z3_get_sort b = Some (BvSort 1)
        /\ eval M b = Some (VBv 1 (bit_value (Z.testbit v (Z.of_nat k)))))
  /\ ((1 <= n)%nat ->
      exists r,
        Z3OpTranslator.ConcatN (reverse (Z3OpTranslator.ExplodeBits x))
        = Done r
        /\ Z3_get_sort r = Some (BvSort n) /\ eval M r = Some (VBv n v))
  /\ Z3OpTranslator.ConcatN [] = Fatal.
Proof.
  intros Hs He Hr.
  destruct (ExplodeBits_sorts n x Hs) as [Hbits Hlen].
  split; [exact Hlen|]. split; [|split; [|reflexivity]].
  - intros k b Hk. split.
    + rewrite Forall_lookup in Hbits. by apply (Hbits k).
    + destruct (lookup_ExplodeBits x n k b Hs Hk) as [Hlt ->].
      rewrite (eval_Extract_bit M x n v k He Hlt). do 2 f_equal.
      unfold bv_wrap, bv_modulus. change (2 ^ Z.of_nat 1) with 2.
      rewrite <- Z.testbit_spec' by lia. by destruct (Z.testbit v (Z.of_nat k)).
  - intros Hn. by apply (ConcatN_ExplodeBits M x n v).
Qed.

Lemma ExplodeBits_ConcatN_witness :
  exists r,
    Z3OpTranslator.ConcatN
      (reverse (Z3OpTranslator.ExplodeBits (AConst "y" (BvSort 3)))) = Done r
    /\ eval smul_model r = Some (VBv 3 5).
Proof.
  assert (Hr : 0 <= 5 < bv_modulus 3)
    by (vm_compute; split; [discriminate | reflexivity]).
  destruct (ExplodeBits_ConcatN smul_model (AConst "y" (BvSort 3)) 3 5
              eq_refl eq_refl Hr) as (_ & _ & Hcat & _).
  destruct (Hcat ltac:(lia)) as (r & Hc & _ & Hv).
  exists r. split; [exact Hc|exact Hv].
Defined.

(** X21.  [SignExt].  Asked for fewer bits than the term has it aborts;
    otherwise it is the solver's sign extension by the missing bits, a term
    of the new width with the same two's complement value. *)
Theorem SignExt_checks_width (x : Z3_ast) (n new_bit_count : nat) :
  (1 <= n)%nat ->
  Z3_get_sort x = Some (BvSort n) ->
  ((new_bit_count < n)%nat ->
   Z3OpTranslator.SignExt x (Z.of_nat new_bit_count) = Fatal)
  /\ ((n <= new_bit_count)%nat ->
      let t := Z3_mk_sign_ext (Z.of_nat new_bit_count - Z.of_nat n) x in
      Z3OpTranslator.SignExt x (Z.of_nat new_bit_count) = Done t
      /\ Z3_get_sort t = Some (BvSort new_bit_count)
      /\ forall M v,
           eval M x = Some (VBv n v) -> 0 <= v < bv_modulus n ->
           exists v',
             eval M t = Some (VBv new_bit_count v')
             /\ 0 <= v' < bv_modulus new_bit_count
             /\ bv_signed new_bit_count v' = bv_signed n v).
Proof.
  intros Hn Hs. unfold Z3OpTranslator.SignExt, Z3OpTranslator.GetBvBitCount.
  rewrite Hs. cbn [Z3_get_bv_sort_size]. split.
  - intros Hlt. unfold XLS_CHECK. by rewrite bool_decide_false_eq by lia.
  - intros Hle.
    assert (n + Z.to_nat (Z.of_nat new_bit_count - Z.of_nat n)
            = new_bit_count)%nat as Hw by lia.
    rewrite XLS_CHECK_true by lia. rewrite bind_Done.
    split; [done|]. split.
    + unfold Z3_mk_sign_ext. cbn [Z3_get_sort]. rewrite Hs.
      rewrite bool_decide_true_eq by lia. by rewrite Hw.
    + intros M v He Hr. unfold Z3_mk_sign_ext. cbn [eval].
      rewrite He. rewrite bool_decide_true_eq by lia. rewrite Hw.
      eexists. split; [reflexivity|]. split; [apply bv_wrap_range|].
      by apply bv_signed_wrap.
Qed.

Lemma SignExt_checks_width_witness :
  Z3OpTranslator.SignExt (AConst "y" (BvSort 3)) 2 = Fatal
  /\ Z3OpTranslator.SignExt (AConst "y" (BvSort 3)) 5
     = Done (Z3_mk_sign_ext 2 (AConst "y" (BvSort 3)))
  /\ eval smul_model (Z3_mk_sign_ext 2 (AConst "y" (BvSort 3)))
     = Some (VBv 5 29).
Proof.
  destruct (SignExt_checks_width (AConst "y" (BvSort 3)) 3 2 ltac:(lia)
              eq_refl) as [Hlow _].
  destruct (SignExt_checks_width (AConst "y" (BvSort 3)) 3 5 ltac:(lia)
              eq_refl) as [_ Hhigh].
  destruct (Hhigh ltac:(lia)) as (Hd & _ & _).
  split; [exact (Hlow ltac:(lia))|]. split; [exact Hd|reflexivity].
Defined.

(** ** One scope of the error handler *)


(** Errors reach the thread's handler only: the other handler objects are
    not written. *)
Lemma raise_errors_other_objects c msgs :
  forall s s' this,
    ScopedErrorHandler.g_handler s = Some this ->
    ScopedErrorHandler.raise_errors c msgs s = Done s' ->
    forall q, q ≠ this ->
      ScopedErrorHandler.objects s' !! q = ScopedErrorHandler.objects s !! q.
Proof.
  induction msgs as [|m msgs IH]; intros s s' this Hg H q Hq; cbn in H.
  - by injection H as <-.
  - apply bind_Done_inv in H as (s1 & H1 & H).
    unfold ScopedErrorHandler.raise_error in H1.
    case_bool_decide.
    + unfold ScopedErrorHandler.Handler in H1. rewrite Hg in H1.
      destruct (ScopedErrorHandler.objects s !! this) as [o|]; [|discriminate].
      injection H1 as <-.
      pose proof (fun Hg' => IH _ s' this Hg' H q Hq) as Hrec.
      rewrite Hrec by reflexivity. cbn.
      by rewrite lookup_insert_ne.
    + injection H1 as <-. by apply (IH s s' this).
Qed.

(** X22.  One scope of the error handler.  Whatever the state before, a
    handler constructed for a context, during whose scope the solver reports
    the errors [msgs] on that context, has at its end the status of the LAST
    error (earlier ones are overwritten), or OK when there was none.  Its
    destructor puts the thread's previous handler back, frees the object,
    and leaves the context with no error handler at all, also when it had
    one before the scope. *)
Theorem ScopedErrorHandler_scope
    (c : Z3_context) (msgs : list string) (s : ScopedErrorHandler.state) :
  exists s',
    ScopedErrorHandler.scoped c msgs s
    = Done (match last msgs with
            | None => OkStatus
            | Some m => ErrorStatus kInternal ("Z3 error: " +:+ m)
            end, s')
    /\ ScopedErrorHandler.g_handler s' = ScopedErrorHandler.g_handler s
    /\ ScopedErrorHandler.installed s'
       = ScopedErrorHandler.installed s ∖ {[c]}
    /\ ScopedErrorHandler.objects s'
       = delete (ScopedErrorHandler.next_ptr s) (ScopedErrorHandler.objects s).
Proof.
  unfold ScopedErrorHandler.scoped, ScopedErrorHandler.construct.
  match goal with
  | |- context [ScopedErrorHandler.raise_errors c _ ?s1] =>
      destruct (raise_errors_installed c msgs s1 _ _ eq_refl
                  (lookup_insert_eq _ _ _) ltac:(cbn; set_solver))
        as (s2 & Hr & Hg & Hi & Hn & Ho)
  end.
  rewrite Hr, bind_Done. unfold ScopedErrorHandler.status.
  rewrite Ho, bind_Done. unfold ScopedErrorHandler.destroy. rewrite Ho.
  cbn [ScopedErrorHandler.ctx_ ScopedErrorHandler.prev_handler_
       ScopedErrorHandler.status_].
  rewrite XLS_CHECK_true by exact Hg. rewrite bind_Done.
  eexists. split; [reflexivity|].
  cbn [ScopedErrorHandler.objects ScopedErrorHandler.g_handler
       ScopedErrorHandler.installed].
  split; [done|]. split.
  - rewrite Hi. cbn [ScopedErrorHandler.installed].
    apply set_eq. intros x.
    rewrite !elem_of_difference, elem_of_union, elem_of_singleton. tauto.
  - apply map_eq. intros q.
    destruct (decide (q = ScopedErrorHandler.next_ptr s)) as [->|Hq].
    + by rewrite !lookup_delete_eq.
    + rewrite !lookup_delete_ne by done.
      pose proof (fun Hg' => raise_errors_other_objects _ _ _ _ _ Hg' Hr q Hq)
        as Hrec.
      rewrite Hrec by reflexivity. cbn.
      by rewrite lookup_insert_ne.
Qed.

(** ** Floating-point terms *)

Lemma get_fp_component_Done nodes index expected_width a :
  get_fp_component nodes index expected_width = Done a <->
  nodes !! index = Some a
  /\ exists w, Z3_get_sort a = Some (BvSort w) /\ Z.of_nat w = expected_width.
Proof.
  unfold get_fp_component, at_index.
  destruct (nodes !! index) as [node|]; [|split; [done|by intros [? _]]].
  rewrite bind_Done.
  destruct (Z3_get_sort node) as [[| w | |]|] eqn:Hs;
    cbn [Z3_get_sort_kind Z3_get_bv_sort_size];
    try (rewrite bool_decide_true_eq by done;
         split; [done|intros [[= <-] (w' & Hw & _)]; congruence]).
  rewrite (bool_decide_false_eq (Z3_BV_SORT ≠ Z3_BV_SORT))
    by (intros Hne; by apply Hne).
  case_bool_decide as Hw.
  - split; [done|]. intros [[= <-] (w' & Hw' & <-)]. congruence.
  - split.
    + intros [= <-]. split; [done|]. by exists w.
    + intros [[= <-] _]. done.
Qed.

Lemma get_fp_component_fails nodes index expected_width :
  (index < length nodes)%nat ->
  (exists a, get_fp_component nodes index expected_width = Done a)
  \/ exists msg,
       get_fp_component nodes index expected_width
       = Failed kInvalidArgument msg.
Proof.
  intros Hlt. unfold get_fp_component, at_index.
  destruct (lookup_lt_is_Some_2 nodes index Hlt) as [node ->].
  rewrite bind_Done.
  case_bool_decide; [right; eauto|]. case_bool_decide; [right|left]; eauto.
Qed.

(** X23.  [ToFloat32].  It builds a floating-point term exactly from three
    bit-vectors of 1, 8 and 23 bits, in this order: sign, exponent,
    significand.  Any other number of terms is refused with the count in
    the message, and every refusal is an InvalidArgument status: it never
    aborts.  From a tuple it takes the first three fields, whatever comes
    after them. *)
Theorem ToFloat32_validates_components (nodes : list Z3_ast) :
  (forall r,
      ToFloat32 nodes = Done r <->
      exists s e m,
        nodes = [s; e; m] /\ r = Z3_mk_fpa_fp s e m
        /\ Z3_get_sort s = Some (BvSort 1)
        /\ Z3_get_sort e = Some (BvSort 8)
        /\ Z3_get_sort m = Some (BvSort 23))
  /\ (length nodes ≠ 3%nat ->
      ToFloat32 nodes
      = Failed kInvalidArgument
          ("Incorrect number of arguments - need 3, got "
             +:+ pretty (length nodes)))
  /\ ((exists r, ToFloat32 nodes = Done r)
      \/ exists msg, ToFloat32 nodes = Failed kInvalidArgument msg)
  /\ (forall tuple name f0 f1 f2 rest,
        Z3_get_sort tuple
        = Some (TupleSort name
                  ((f0, BvSort 1) :: (f1, BvSort 8) :: (f2, BvSort 23)
                     :: rest)) ->
        exists s e m,
          ToFloat32_tuple tuple = Done (Z3_mk_fpa_fp s e m)
          /\ forall M vs,
               eval M tuple = Some (VTup vs) ->
               eval M s = vs !! 0%nat /\ eval M e = vs !! 1%nat
               /\ eval M m = vs !! 2%nat).
Proof.
  split; [|split; [|split]].
  - intros r. unfold ToFloat32. split.
    + case_bool_decide as Hlen; [discriminate|].
      intros H.
      apply bind_Done_inv in H as (s & Hs & H).
      apply bind_Done_inv in H as (e & He & H).
      apply bind_Done_inv in H as (m & Hm & [= <-]).
      apply get_fp_component_Done in Hs as (Hs0 & ws & Hs & Hws).
      apply get_fp_component_Done in He as (He0 & we & He & Hwe).
      apply get_fp_component_Done in Hm as (Hm0 & wm & Hm & Hwm).
      destruct nodes as [|x0 [|x1 [|x2 [|]]]]; try discriminate.
      cbn in Hs0, He0, Hm0.
      injection Hs0 as ->. injection He0 as ->. injection Hm0 as ->.
      exists s, e, m. split; [done|]. split; [done|].
      rewrite Hs, He, Hm. repeat split; do 2 f_equal; lia.
    + intros (s & e & m & -> & -> & Hs & He & Hm).
      rewrite bool_decide_false_eq by (cbn; intros Hne; by apply Hne).
      rewrite (proj2 (get_fp_component_Done [s; e; m] 0 1 s)), bind_Done
        by (split; [done|by exists 1%nat]).
      rewrite (proj2 (get_fp_component_Done [s; e; m] 1 8 e)), bind_Done
        by (split; [done|by exists 8%nat]).
      rewrite (proj2 (get_fp_component_Done [s; e; m] 2 23 m)), bind_Done
        by (split; [done|by exists 23%nat]).
      done.
  - intros Hlen. unfold ToFloat32. by rewrite bool_decide_true_eq.
  - unfold ToFloat32. case_bool_decide as Hlen; [right; eauto|].
    destruct (get_fp_component_fails nodes 0 1 ltac:(lia))
      as [[s ->]|[msg ->]]; [|right; eauto].
    rewrite bind_Done.
    destruct (get_fp_component_fails nodes 1 8 ltac:(lia))
      as [[e ->]|[msg ->]]; [|right; eauto].
    rewrite bind_Done.
    destruct (get_fp_component_fails nodes 2 23 ltac:(lia))
      as [[m ->]|[msg ->]]; [|right; eauto].
    left. eauto.
  - intros tuple name f0 f1 f2 rest Hs.
    unfold ToFloat32_tuple. cbn [fmap list_fmap seq].
    pose proof (Z3_get_sort_field _ _ tuple 0 _ Hs eq_refl) as H0.
    pose proof (Z3_get_sort_field _ _ tuple 1 _ Hs eq_refl) as H1.
    pose proof (Z3_get_sort_field _ _ tuple 2 _ Hs eq_refl) as H2.
    cbn [snd] in H0, H1, H2.
    do 3 eexists. split.
    + unfold ToFloat32.
      rewrite bool_decide_false_eq by (cbn; intros Hne; by apply Hne).
      rewrite (proj2 (get_fp_component_Done _ 0 1 _)), bind_Done
        by (split; [done|by exists 1%nat]).
      rewrite (proj2 (get_fp_component_Done _ 1 8 _)), bind_Done
        by (split; [done|by exists 8%nat]).
      rewrite (proj2 (get_fp_component_Done _ 2 23 _)), bind_Done
        by (split; [done|by exists 23%nat]).
      reflexivity.
    + intros M vs Hev.
      rewrite !(eval_field M _ _ tuple _ vs Hs) by (done || (cbn; lia)).
      done.
Qed.

Lemma ToFloat32_validates_components_witness :
  ToFloat32 [AConst "s" (BvSort 1); AConst "e" (BvSort 8)]
  = Failed kInvalidArgument "Incorrect number of arguments - need 3, got 2".
Proof.
  apply (proj1 (proj2 (ToFloat32_validates_components
                         [AConst "s" (BvSort 1); AConst "e" (BvSort 8)]))).
  cbn. lia.
Defined.

(** ** The subject of a proof *)

Lemma CreateAndTranslate_encoded f w tr w' :
  function_typed f ->
  CreateAndTranslate f w = (Done tr, w') ->
  encoded f tr
  /\ forall q, (length (nodes f) <= q)%nat -> translations_ tr !! q = None.
Proof.
  intros Hty H. unfold CreateAndTranslate in H.
  destruct (Z3_mk_config w) as [config w1].
  destruct (Z3Translator_owned config f _) as [translator w3] eqn:Hown.
  unfold Z3Translator_owned in Hown.
  destruct (Z3_mk_context config _) as [ctx w2]. injection Hown as <- <-.
  destruct (Accept f _) as [tr0| |] eqn:Hacc; try discriminate.
  injection H as <- <-. split.
  - by apply (Accept_encoded f _ _ Hty) in Hacc.
  - intros q Hq. unfold Accept in Hacc.
    apply AcceptNodes_visits in Hacc as [Hout _].
    rewrite Hout by lia. done.
Qed.

(** X24.  The subject of a proof.  After a successful encoding of a well
    typed function, [TryProve] goes on to the solver only for a subject of
    Bits type: for a subject of tuple or array type it returns
    InvalidArgument with the node in the message, and for a subject that is
    no node of the function the lookup of its term aborts. *)
Theorem TryProve_subject_checks
    (Z3_solver_check : gmap string string -> Z3_ast -> Z3_lbool)
    (f : Function) (subject : NodePtr) (p : Predicate) (timeout : Duration)
    (w : Z3_world) (tr : Z3Translator) (w1 : Z3_world) :
  function_typed f ->
  CreateAndTranslate f w = (Done tr, w1) ->
  (nodes f !! subject = None ->
   fst (TryProve Z3_solver_check f subject p timeout w) = Fatal)
  /\ (forall n,
        nodes f !! subject = Some n ->
        (forall k, GetType n ≠ BitsType k) ->
        fst (TryProve Z3_solver_check f subject p timeout w)
        = Failed kInvalidArgument
            ("Cannot prove properties of non-bits-typed node: "
               +:+ Node_ToString n)).
Proof.
  intros Hty H.
  destruct (CreateAndTranslate_encoded f w tr w1 Hty H) as [Henc Hout].
  unfold TryProve. rewrite H. cbv zeta. split.
  - intros Hn. apply lookup_ge_None in Hn.
    unfold GetTranslation. rewrite (Hout subject Hn). reflexivity.
  - intros n Hn Hbits.
    destruct (Henc subject n Hn) as (a & Ha & Hs & _).
    rewrite Ha, bind_Done.
    assert (GetValueKind a ≠ Z3_BV_SORT) as Hk.
    { unfold GetValueKind. rewrite Hs.
      destruct (GetType n) as [k|ts|e size]; [by destruct (Hbits k)|done|done]. }
    rewrite bool_decide_true_eq by exact Hk.
    unfold node_at, at_index. rewrite Hn, bind_Done. reflexivity.
Qed.

Lemma TryProve_subject_checks_witness :
  fst (TryProve (fun _ _ => Z3_L_FALSE) pair_function 1 EqualToZero
         1000000000 no_solver_objects)
  = Failed kInvalidArgument
      "Cannot prove properties of non-bits-typed node: node: (bits[8], bits[8])".
Proof.
  assert (function_typed pair_function) as Hty by (repeat constructor).
  destruct (CreateAndTranslate pair_function no_solver_objects)
    as [[tr| |] w1] eqn:H; try (vm_compute in H; discriminate H).
  refine (proj2 (TryProve_subject_checks (fun _ _ => Z3_L_FALSE)
                   pair_function 1 EqualToZero 1000000000 no_solver_objects
                   tr w1 Hty H) _ eq_refl _).
  intros k Hk. discriminate Hk.
Defined.

(** ** Arithmetic *)

(** X25.  Add, Sub, Neg and Not.  Over operands of one width an Add or Sub
    node records the solver's sum or difference, whose value wraps around
    modulo [2^n]; over operands of different widths the solver's error
    comes back as an Internal status and nothing aborts.  A Neg node
    records the two's complement negation of its operand and a Not node
    its bitwise complement. *)
Theorem arithmetic_handlers
    (tr : Z3Translator) (self : nat) (op : Node) (lhs : Z3_ast) (n : nat) :
  operand_term tr op 0 lhs n ->
  (forall rhs m k bop g,
      operand_term tr op 1 rhs m ->
      (k, bop, g) ∈ [ (kAdd, bvadd, Z.add); (kSub, bvsub, Z.sub) ] ->
      kind op = k ->
      (n = m ->
       VisitNode tr self op = Done (NoteTranslation tr self (ABin bop lhs rhs))
       /\ Z3_get_sort (ABin bop lhs rhs) = Some (BvSort n)
       /\ forall M x y,
            eval M lhs = Some (VBv n x) -> eval M rhs = Some (VBv n y) ->
            eval M (ABin bop lhs rhs)
            = Some (VBv n ((g x y) mod bv_modulus n)))
      /\ (n ≠ m ->
          VisitNode tr self op
          = Failed kInternal ("Z3 error: " +:+ Z3_get_error_msg)))
  /\ (forall k uop g,
        (k, uop, g) ∈ [ (kNeg, bvneg, fun x => (- x) mod bv_modulus n);
                        (kNot, bvnot, fun x => bv_modulus n - 1 - x) ] ->
        kind op = k ->
        VisitNode tr self op = Done (NoteTranslation tr self (AUn uop lhs))
        /\ Z3_get_sort (AUn uop lhs) = Some (BvSort n)
        /\ forall M x,
             eval M lhs = Some (VBv n x) ->
             eval M (AUn uop lhs) = Some (VBv n (g x))).
Proof.
  intros Hl.
  pose proof Hl as (_ & _ & _ & _ & _ & _ & Hsl).
  split.
  - intros rhs m k bop g Hr Hin Hk.
    pose proof Hr as (_ & _ & _ & _ & _ & _ & Hsr).
    assert (VisitNode tr self op
            = HandleBinary tr self op (fun l r => Done (ABin bop l r))) as ->.
    { unfold VisitNode. rewrite Hk.
      repeat (apply elem_of_cons in Hin as [[= -> -> ->]|Hin]);
        [done..|by apply elem_of_nil in Hin]. }
    assert (bop = bvadd \/ bop = bvsub) as Hbop.
    { repeat (apply elem_of_cons in Hin as [[= -> -> ->]|Hin]);
        [by left|by right|by apply elem_of_nil in Hin]. }
    split.
    + intros <-.
      assert (Z3_get_sort (ABin bop lhs rhs) = Some (BvSort n)) as Hs.
      { cbn [Z3_get_sort]. rewrite Hsl, Hsr. cbn.
        rewrite bool_decide_true_eq by done.
        by destruct Hbop as [-> | ->]. }
      split; [|split; [exact Hs|]].
      * by apply (HandleBinary_Done _ _ _ _ lhs rhs n n _ (BvSort n)).
      * intros M x y Hx Hy. cbn [eval]. rewrite Hx, Hy.
        rewrite bool_decide_true_eq by done.
        repeat (apply elem_of_cons in Hin as [[= -> -> ->]|Hin]);
          [done..|by apply elem_of_nil in Hin].
    + intros Hne.
      apply operand_term_GetBitVec in Hl as (o0 & Ho0 & Hl).
      apply operand_term_GetBitVec in Hr as (o1 & Ho1 & Hr).
      unfold HandleBinary.
      rewrite Ho0, bind_Done, Hl, bind_Done, Ho1, bind_Done, Hr, !bind_Done.
      unfold note_and_return, seh_status, Z3_errors.
      cbn [Z3_get_sort]. rewrite Hsl, Hsr. cbn.
      rewrite bool_decide_false_eq by done.
      by destruct Hbop as [-> | ->].
  - intros k uop g Hin Hk.
    assert (VisitNode tr self op = HandleUnary tr self op (AUn uop)) as ->.
    { unfold VisitNode. rewrite Hk.
      repeat (apply elem_of_cons in Hin as [[= -> -> ->]|Hin]);
        [done..|by apply elem_of_nil in Hin]. }
    assert (Z3_get_sort (AUn uop lhs) = Some (BvSort n)) as Hs.
    { cbn [Z3_get_sort]. rewrite Hsl.
      repeat (apply elem_of_cons in Hin as [[= -> -> ->]|Hin]);
        [done..|by apply elem_of_nil in Hin]. }
    split; [|split; [exact Hs|]].
    + apply operand_term_GetBitVec in Hl as (o0 & Ho0 & Hl).
      unfold HandleUnary. rewrite Ho0, bind_Done, Hl, bind_Done.
      by apply (note_and_return_ok _ _ _ (BvSort n)).
    + intros M x Hx. cbn [eval]. rewrite Hx.
      repeat (apply elem_of_cons in Hin as [[= -> -> ->]|Hin]);
        [done..|by apply elem_of_nil in Hin].
Qed.

Lemma arithmetic_handlers_witness :
  VisitNode sgt_translator 2
    {| kind := kAdd; operands := [0%nat; 1%nat]; GetType := BitsType 2 |}
  = Done (NoteTranslation sgt_translator 2
            (ABin bvadd (AConst "x" (BvSort 2)) (AConst "y" (BvSort 2))))
  /\ eval sgt_model (ABin bvadd (AConst "x" (BvSort 2)) (AConst "y" (BvSort 2)))
     = Some (VBv 2 0).
Proof.
  assert (Hx : operand_term sgt_translator
                 {| kind := kAdd; operands := [0%nat; 1%nat];
                    GetType := BitsType 2 |} 0 (AConst "x" (BvSort 2)) 2).
  { exists 0%nat, {| kind := kParam "x"; operands := []; GetType := BitsType 2 |}.
    repeat split; reflexivity. }
  assert (Hy : operand_term sgt_translator
                 {| kind := kAdd; operands := [0%nat; 1%nat];
                    GetType := BitsType 2 |} 1 (AConst "y" (BvSort 2)) 2).
  { exists 1%nat, {| kind := kParam "y"; operands := []; GetType := BitsType 2 |}.
    repeat split; reflexivity. }
  destruct (arithmetic_handlers sgt_translator 2 _ _ 2 Hx) as [Hbin _].
  destruct (Hbin _ 2%nat kAdd bvadd Z.add Hy ltac:(left) eq_refl) as [Heq _].
  destruct (Heq eq_refl) as (Hvisit & _ & Hval).
  split; [exact Hvisit|].
  exact (Hval sgt_model 1 3 eq_refl eq_refl).
Defined.

(** ** Zero-element arrays *)

(** The term [CreateArray] builds for a zero-element array type: the
    constant array at the zero of the element sort, over the index sort of
    width [MinBitCountUnsigned 0 = 0], which the solver refuses. *)
Lemma CreateArray_zero_elements e elems :
  exists z,
    ZeroOfSort (TypeToSort e) = Done z
    /\ CreateArray (ArrayType e 0) elems
       = Done (Z3_mk_const_array (Z3_mk_bv_sort 0) z)
    /\ Z3_get_sort (Z3_mk_const_array (Z3_mk_bv_sort 0) z) = None.
Proof.
  destruct (ZeroOfSort_TypeToSort e) as (z & Hz & _). exists z.
  split; [exact Hz|]. split.
  - unfold CreateArray. rewrite Hz, bind_Done. reflexivity.
  - unfold Z3_mk_const_array, Z3_mk_bv_sort. cbn [Z3_get_sort].
    by destruct (Z3_get_sort z).
Qed.

Lemma note_and_return_refused tr self a :
  Z3_get_sort a = None ->
  note_and_return tr self a
  = Failed kInternal ("Z3 error: " +:+ Z3_get_error_msg).
Proof.
  intros Hs. unfold note_and_return, seh_status, Z3_errors. by rewrite Hs.
Qed.

Lemma zero_element_array_sort_refused e a :
  Z3_get_sort a ≠ Some (TypeToSort (ArrayType e 0)).
Proof.
  intros Hs. apply Z3_get_sort_ok in Hs. discriminate Hs.
Qed.

(** C8 (as the code behaves).  The index sort of a zero-element array type
    is the bit-vector sort of width [MinBitCountUnsigned 0 = 0], a sort the
    solver does not make.  No term has the sort of such a type.  The term
    [CreateArray] and [UnflattenZ3Ast] build for it is the constant array
    at the zero of the element sort, and the solver refuses it; the visit
    of an Array node of that type, of its literal and of a parameter of the
    owning encoder ends with the Internal status of the solver's error; and
    no successful encoding of a well-typed function holds a node of such a
    type. *)
Theorem zero_element_array_not_encoded (e : Type_) :
  TypeToSort (ArrayType e 0)
  = Z3_mk_array_sort (Z3_mk_bv_sort 0) (TypeToSort e)
  /\ (forall a, Z3_get_sort a ≠ Some (TypeToSort (ArrayType e 0)))
  /\ (exists z,
        ZeroOfSort (TypeToSort e) = Done z
        /\ (forall elems,
              CreateArray (ArrayType e 0) elems
              = Done (Z3_mk_const_array (Z3_mk_bv_sort 0) z))
        /\ (forall flat,
              UnflattenZ3Ast (ArrayType e 0) flat
              = Done (Z3_mk_const_array (Z3_mk_bv_sort 0) z))
        /\ Z3_get_sort (Z3_mk_const_array (Z3_mk_bv_sort 0) z) = None)
  /\ (forall tr self n,
        GetType n = ArrayType e 0 ->
        (kind n = kArray /\ operands n = [])
        \/ kind n = kLiteral (ArrayValue [])
        \/ (exists name, kind n = kParam name /\ imported_params_ tr = None) ->
        VisitNode tr self n
        = Failed kInternal ("Z3 error: " +:+ Z3_get_error_msg))
  /\ (forall f p n,
        function_typed f -> nodes f !! p = Some n ->
        GetType n = ArrayType e 0 ->
        (forall w tr w', CreateAndTranslate f w ≠ (Done tr, w'))
        /\ (forall ctx imported tr,
              imports_sorted f imported ->
              CreateAndTranslate_borrowed ctx f imported ≠ Done tr)).
Proof.
  destruct (CreateArray_zero_elements e []) as (z & Hz & _ & Hs).
  assert (forall elems,
            CreateArray (ArrayType e 0) elems
            = Done (Z3_mk_const_array (Z3_mk_bv_sort 0) z)) as Hcreate.
  { intros elems. destruct (CreateArray_zero_elements e elems)
      as (z' & Hz' & Hc & _).
    rewrite Hz in Hz'. by injection Hz' as <-. }
  assert (forall tr self n name,
            GetType n = ArrayType e 0 -> imported_params_ tr = None ->
            HandleParam tr self n name
            = Failed kInternal ("Z3 error: " +:+ Z3_get_error_msg)) as Hparam.
  { intros tr self n name Hty Himp. unfold HandleParam.
    rewrite Himp, bind_Done, Hty. by apply note_and_return_refused. }
  split; [reflexivity|].
  split; [apply zero_element_array_sort_refused|].
  split; [|split].
  - exists z. split; [exact Hz|]. split; [exact Hcreate|].
    split; [|exact Hs]. intros flat.
    cbn [UnflattenZ3Ast unflatten_elements]. rewrite bind_Done.
    apply Hcreate.
  - intros tr self n Hty [[Hk Hops]|[Hk|(name & Hk & Himp)]];
      unfold VisitNode; rewrite Hk.
    + unfold HandleArray. rewrite Hops. cbn [GetValues].
      rewrite bind_Done, Hty, Hcreate, bind_Done.
      by apply note_and_return_refused.
    + unfold HandleLiteral. rewrite Hty.
      cbn [TranslateLiteralValue translate_elements].
      rewrite bind_Done, Hcreate, bind_Done.
      by apply note_and_return_refused.
    + by apply Hparam.
  - intros f p n Hf Hn Hty. split.
    + intros w tr w' H.
      apply CreateAndTranslate_encoded in H as [Henc _]; [|exact Hf].
      destruct (Henc p n Hn) as (a & _ & Ha & _). rewrite Hty in Ha.
      by apply zero_element_array_sort_refused in Ha.
    + intros ctx imported tr Himp H.
      unfold CreateAndTranslate_borrowed in H.
      apply (Accept_encoded f _ _ Hf) in H; try done.
      destruct (H p n Hn) as (a & _ & Ha & _). rewrite Hty in Ha.
      by apply zero_element_array_sort_refused in Ha.
Qed.

(** The empty Array operation and the parameter of type [bits[8][0]]: the
    visit of either ends with the Internal status, and so does the encoding
    of the function that holds the operation. *)
Lemma zero_element_array_not_encoded_witness :
  VisitNode (empty_array_translator empty_array_node) 0 empty_array_node
  = Failed kInternal "Z3 error: Sort mismatch"
  /\ VisitNode (empty_array_translator empty_array_param) 0 empty_array_param
     = Failed kInternal "Z3 error: Sort mismatch"
  /\ fst (CreateAndTranslate
            (xls_function_ (empty_array_translator empty_array_node))
            no_solver_objects)
     = Failed kInternal "Z3 error: Sort mismatch".
Proof.
  destruct (zero_element_array_not_encoded (BitsType 8))
    as (_ & _ & _ & Hvisit & _).
  split; [|split].
  - apply Hvisit; [reflexivity|]. left. split; reflexivity.
  - apply Hvisit; [reflexivity|]. right. right. exists "a".
    split; reflexivity.
  - vm_compute. reflexivity.
Defined.
